(** * brainrot-app: project store, stage triggers, split and caption pipeline

    A shallow embedding of the parts of the application that decide how a
    project record, its progress map and its segment list evolve:

    - [lib/utils/project]  the metadata store (read, merge-update, progress,
      status);
    - the merge and split stage-trigger routes ([POST]) and the split loop;
    - the download routine's trim-range arithmetic and progress handlers;
    - the caption route: subtitle line packing, per-segment progress and
      the failure handler of [captionSegment].

    JavaScript numbers are modelled by exact rationals ([Q]); rounding of
    IEEE doubles, [NaN] and the infinities are outside the model, and a
    statement about a value the code rounds carries the hypotheses that
    keep it where doubles and rationals agree.  JSON text on disk is
    modelled by the value it parses to, an object or an array; a file may
    hold the other kind than its name says, and text that is no JSON at
    all.  Strings are sequences of one-byte characters.
    Project, process and segment identifiers are what the application
    generates (UUIDs, with a suffix for sub-processes, and small integers):
    one path component each, and never a property name that JavaScript
    treats specially.  External tools (yt-dlp, ffprobe, ffmpeg, the
    transcriber) and the clock are parameters that say what each run did.
    A file in the place of a directory, a directory in the place of a file
    and a missing directory make the calls fail that fail on them in
    Node.js; other failures of the file system (a full disk, missing
    permissions) are not modelled.

    Every function of the store is synchronous (it uses [readFileSync] and
    [writeFileSync] only), so a call is one atomic step of the Node.js event
    loop. *)

From Stdlib Require Import QArith Qround Qminmax Lqa ZArith Lia Ascii String Sorted.
From Stdlib Require HexadecimalString.
From stdpp Require Import gmap strings list fin_maps pretty sorting.

Set Warnings "-register-all,-inconsistent-scopes".
#[local] Open Scope string_scope.
#[local] Open Scope list_scope.

(** ** JSON values and JavaScript objects *)

Inductive json : Type :=
| JNull
| JBool (b : bool)
| JNum (q : Q)
| JStr (s : string)
| JArr (l : list json)
| JObj (m : gmap string json).

(** A property of an in-memory object holds a JSON value or [undefined]. *)
Abbreviation jsval := (option json).
Abbreviation undefined := (@None json).
Abbreviation jsobj := (gmap string (option json)).
(** What a [.json] file of the store parses to: an object without
    [undefined]. *)
Abbreviation record := (gmap string json).

(** Truthiness, as used by [||], [!x] and [if (x)]. *)
Definition truthy (v : jsval) : bool :=
  match v with
  | None => false
  | Some JNull => false
  | Some (JBool b) => b
  | Some (JNum q) => negb (Qeq_bool q 0)
  | Some (JStr s) => negb (String.eqb s "")
  | Some (JArr _) => true
  | Some (JObj _) => true
  end.

(** [a || b] *)
Definition js_or (a b : jsval) : jsval := if truthy a then a else b.

(** [a === b] on values that came out of [JSON.parse]: primitives compare by
    value, two objects or arrays parsed separately are never identical. *)
Definition strict_eq (a b : jsval) : bool :=
  match a, b with
  | None, None => true
  | Some JNull, Some JNull => true
  | Some (JBool x), Some (JBool y) => Bool.eqb x y
  | Some (JNum x), Some (JNum y) => Qeq_bool x y
  | Some (JStr x), Some (JStr y) => String.eqb x y
  | _, _ => false
  end.

(** [{ ...a, ...b }]: the properties of [b] win. *)
Definition spread (a b : jsobj) : jsobj := b ∪ a.

(** [JSON.stringify] of an object leaves out the properties whose value is
    [undefined]; [JSON.parse] never produces one. *)
Definition JSON_stringify (o : jsobj) : record := omap id o.
Definition JSON_parse (r : record) : jsobj := Some <$> r.

(** ** Errors *)

Inductive outcome (A : Type) : Type :=
| Ret (a : A)
| Throw (message : string).
Arguments Ret {A} a.
Arguments Throw {A} message.

(** [target[key] = value] in strict mode (ES modules): an object takes the
    property; a primitive throws a [TypeError]; a property with a
    non-index name set on an array is not part of its JSON text. *)
Definition assign_prop (target : jsval) (key : string) (value : json) : outcome json :=
  match target with
  | Some (JObj m) => Ret (JObj (<[key := value]> m))
  | Some (JArr l) => Ret (JArr l)
  | Some JNull | None => Throw "TypeError: Cannot set properties of null or undefined"
  | Some (JBool _) | Some (JNum _) | Some (JStr _) =>
      Throw "TypeError: Cannot create property on primitive"
  end.

(** ** The file system *)

(** [path.join(process.cwd(), a, b, ...)] is kept as the list of components
    below the working directory. *)
Abbreviation path := (list string).

(** A timestamped piece of text: a transcribed word (or a whole transcript
    segment when word timestamps are missing), and also a subtitle line. *)
Record Caption : Type := {
  start : Q;
  end_ : Q;
  text : string;
}.

Inductive fdata : Type :=
| FMeta (r : record)              (* metadata.json: one JSON object *)
| FSegments (l : list json)       (* segments.json: one JSON array *)
| FSubtitles (lines : list Caption) (* an .srt file: its numbered entries *)
| FOther.                         (* media files and text that is not JSON *)

Inductive node : Type :=
| Dir
| File (d : fdata).

Abbreviation FS := (gmap (list string) node).

(** State and exception monad over the file system. *)
Definition M (A : Type) : Type := FS → outcome A * FS.

#[global] Instance M_ret : MRet M := λ A a fs, (Ret a, fs).
#[global] Instance M_bind : MBind M := λ A B f m fs,
  match m fs with
  | (Ret a, fs') => f a fs'
  | (Throw e, fs') => (Throw e, fs')
  end.

Definition throw {A} (message : string) : M A := λ fs, (Throw message, fs).

(** [try { body } catch (err) { handler }] *)
Definition try_catch {A} (body : M A) (handler : string → M A) : M A := λ fs,
  match body fs with
  | (Ret a, fs') => (Ret a, fs')
  | (Throw e, fs') => handler e fs'
  end.

Definition lift {A} (o : outcome A) : M A := λ fs, (o, fs).

Definition existsSync (p : path) : M bool := λ fs, (Ret (bool_decide (is_Some (fs !! p))), fs).

Definition readFileSync (p : path) : M fdata := λ fs,
  match fs !! p with
  | Some (File d) => (Ret d, fs)
  | Some Dir => (Throw "EISDIR: illegal operation on a directory", fs)
  | None => (Throw "ENOENT: no such file or directory", fs)
  end.

Definition writeFileSync (p : path) (d : fdata) : M unit := λ fs,
  (Ret tt, <[p := File d]> fs).

(** *** A write or a [mkdir] that can fail *)

(** [writeFileSync] above is used where the code has just read the file it
    writes, and for what an external tool writes.  Where nothing is known
    about the place, writing and making a directory can throw, and the
    functions below say when. *)

(** [path.dirname] *)
Definition dirname (p : path) : path := take (length p - 1) p.

(** The working directory always exists. *)
Definition is_directory (fs : FS) (p : path) : bool :=
  match p with
  | [] => true
  | _ :: _ => match fs !! p with Some Dir => true | _ => false end
  end.

Definition is_file (fs : FS) (p : path) : bool :=
  match p, fs !! p with
  | _ :: _, Some (File _) => true
  | _, _ => false
  end.

(** [fs.writeFileSync(p, text)] for any [p]: it needs the directory of [p]
    and cannot replace a directory. *)
Definition writeFileSync_at (p : path) (d : fdata) : M unit := λ fs,
  if is_directory fs p then (Throw "EISDIR: illegal operation on a directory", fs)
  else if is_directory fs (dirname p) then (Ret tt, <[p := File d]> fs)
  else if is_file fs (dirname p) then (Throw "ENOTDIR: not a directory", fs)
  else (Throw "ENOENT: no such file or directory", fs).

(** The directories from the working directory down to [p]. *)
Definition ancestors (p : path) : list path :=
  (λ n, take n p) <$> seq 1 (length p).

(** [fs.mkdirSync(p, { recursive: true })]: it makes the missing
    directories on the way and fails when a file is in the way. *)
Definition mkdirSync_recursive (p : path) : M unit := λ fs,
  if existsb (is_file fs) (ancestors p)
  then (Throw "EEXIST: file already exists", fs)
  else (Ret tt, foldr (λ q fs, match fs !! q with Some _ => fs | None => <[q := Dir]> fs end)
                      fs (ancestors p)).

(** The directories [mkdirSync_recursive] adds. *)
Definition with_directories (p : path) (fs : FS) : FS :=
  foldr (λ q fs, match fs !! q with Some _ => fs | None => <[q := Dir]> fs end)
        fs (ancestors p).

(** [fs.unlinkSync(p)] removes a file, not a directory. *)
Definition unlinkSync (p : path) : M unit := λ fs,
  match fs !! p with
  | Some (File _) => (Ret tt, delete p fs)
  | Some Dir => (Throw "EPERM: operation not permitted", fs)
  | None => (Throw "ENOENT: no such file or directory", fs)
  end.

(** [fs.copyFileSync(src, dest)] *)
Definition copyFileSync (src dest : path) : M unit :=
  d ← readFileSync src;
  writeFileSync_at dest d.

(** [JSON.parse] of the text of a file. *)
Definition parse_json (d : fdata) : M json :=
  match d with
  | FMeta r => mret (JObj r)
  | FSegments l => mret (JArr l)
  | _ => throw "SyntaxError: Unexpected token in JSON"
  end.

(** [JSON.parse] of the text of a metadata file, and of a segment list,
    where the code goes on to use the value as a record or as a list. *)
Definition parse_object (d : fdata) : M jsobj :=
  match d with
  | FMeta r => mret (JSON_parse r)
  | _ => throw "SyntaxError: Unexpected token in JSON"
  end.

Definition parse_segments (d : fdata) : M (list json) :=
  match d with
  | FSegments l => mret l
  | _ => throw "SyntaxError: Unexpected token in JSON"
  end.

(** A file whose name says it holds one kind of JSON may hold the other
    kind: an array in the place of a record, an object in the place of a
    list.  [JSON.parse] does not fail on it, so the two functions above are
    exact only where these two flags are [false].  (A file that holds a
    JSON number, string, boolean or [null] is not among the files of this
    model.) *)
Definition holds_array (fs : FS) (p : path) : bool :=
  match fs !! p with
  | Some (File (FSegments _)) => true
  | _ => false
  end.

Definition holds_object (fs : FS) (p : path) : bool :=
  match fs !! p with
  | Some (File (FMeta _)) => true
  | _ => false
  end.

(** [v.key] for an element [v] of a parsed array: [null] has no properties
    and throws, a primitive or an array has no such named property. *)
Definition get_prop (v : json) (key : string) : outcome jsval :=
  match v with
  | JObj m => Ret (m !! key)
  | JNull => Throw "TypeError: Cannot read properties of null"
  | _ => Ret undefined
  end.

(** The own properties [{ ...v }] copies from an element of a segment list
    (an object; [null], numbers and booleans have none). *)
Definition own_props (v : jsval) : jsobj :=
  match v with
  | Some (JObj m) => JSON_parse m
  | _ => ∅
  end.

(** [arr.findIndex(s => s.key === wanted)]; [-1] is [None]. *)
Fixpoint findIndex (key : string) (wanted : jsval) (arr : list json) : outcome (option nat) :=
  match arr with
  | [] => Ret None
  | s :: rest =>
      match get_prop s key with
      | Throw e => Throw e
      | Ret v =>
          if strict_eq v wanted then Ret (Some 0%nat)
          else match findIndex key wanted rest with
               | Ret (Some i) => Ret (Some (S i))
               | r => r
               end
      end
  end.

(** [arr[i] = v]: past the end the array grows and the holes read back as
    [null] from its JSON text. *)
Definition array_set (arr : list json) (i : nat) (v : json) : list json :=
  if (i <? length arr)%nat then <[i := v]> arr
  else arr ++ replicate (i - length arr) JNull ++ [v].

(** ** app/types/project *)

Inductive ProjectStatus : Type :=
| INITIALIZING | INITIALIZED | INITIALIZE_ERROR
| MERGING | MERGED | MERGING_ERROR
| DOWNLOADING | DOWNLOADED | DOWNLOAD_ERROR
| SEGMENTING | SEGMENTED | SEGMENTING_ERROR
| CAPTIONING | CAPTIONED | CAPTIONING_ERROR.

Definition status_value (s : ProjectStatus) : string :=
  match s with
  | INITIALIZING => "initializing"
  | INITIALIZED => "initialized"
  | INITIALIZE_ERROR => "initialize_error"
  | MERGING => "merging"
  | MERGED => "merged"
  | MERGING_ERROR => "merging_error"
  | DOWNLOADING => "downloading"
  | DOWNLOADED => "downloaded"
  | DOWNLOAD_ERROR => "download_error"
  | SEGMENTING => "segmenting"
  | SEGMENTED => "segmented"
  | SEGMENTING_ERROR => "segmenting_error"
  | CAPTIONING => "captioning"
  | CAPTIONED => "captioned"
  | CAPTIONING_ERROR => "captioning_error"
  end.

(** ** lib/utils/project *)

Module Project.

Definition getMetadataPath (projectId : string) : path :=
  ["projects"; projectId; "metadata.json"].

(** [null] is [None]. *)
Definition getProjectMetadata (projectId : string) : M (option jsobj) :=
  let metadataPath := getMetadataPath projectId in
  found ← existsSync metadataPath;
  if negb found then mret None
  else
    try_catch
      (text ← readFileSync metadataPath;
       metadata ← parse_object text;
       mret (Some metadata))
      (λ err, mret None).

Definition updateProjectMetadata (projectId : string) (updates : jsobj) : M bool :=
  let metadataPath := getMetadataPath projectId in
  found ← existsSync metadataPath;
  if negb found then mret false
  else
    try_catch
      (text ← readFileSync metadataPath;
       metadata ← parse_object text;
       let updatedMetadata := spread metadata updates in
       _ ← writeFileSync metadataPath (FMeta (JSON_stringify updatedMetadata));
       mret true)
      (λ err, mret false).

Definition updateProjectProgress (projectId processId : string) (progressValue : Q) : M bool :=
  metadata ← getProjectMetadata projectId;
  match metadata with
  | None => mret false
  | Some metadata =>
      (* const progress = metadata.progress || {} *)
      let progress := js_or (metadata !!! "progress") (Some (JObj ∅)) in
      (* progress[processId] = progressValue *)
      progress ← lift (assign_prop progress processId (JNum progressValue));
      updateProjectMetadata projectId {["progress" := Some progress]}
  end.

Definition updateProjectStatus (projectId : string) (status : ProjectStatus)
    (error : option string) : M bool :=
  let updates : jsobj := {["status" := Some (JStr (status_value status))]} in
  let updates :=
    if truthy (JStr <$> error)
    then <["error" := JStr <$> error]> updates
    else (* Clear any existing error when setting a non-error status *)
         <["error" := undefined]> updates in
  updateProjectMetadata projectId updates.

End Project.

(** ** lib/utils/ffmpeg *)

(** [Math.round], [Math.ceil] *)
Definition Math_round (x : Q) : Q := inject_Z (Qfloor (x + (1 # 2))).
Definition Math_ceil (x : Q) : Q := inject_Z (Qceiling x).

(** What one [ffprobe] process did: how many chunks it wrote to stderr, its
    exit code, and what [parseFloat] made of its output ([None] is [NaN]). *)
Record ProbeRun : Type := {
  probe_stderr : nat;
  probe_code : Z;
  probe_output : option Q;
}.

Fixpoint repeatM (n : nat) (step : M unit) : M unit :=
  match n with
  | O => mret tt
  | S n' => _ ← step; repeatM n' step
  end.

Definition getMediaDuration (run : ProbeRun) (projectId processId : string) : M Q :=
  (* const shouldTrackProgress = !!(projectId && processId) *)
  let shouldTrackProgress := negb (String.eqb projectId "") && negb (String.eqb processId "") in
  let track (value : Q) : M unit :=
    if shouldTrackProgress
    then _ ← Project.updateProjectProgress projectId processId value; mret tt
    else mret tt in
  _ ← track 0%Q;
  _ ← repeatM (probe_stderr run) (track 50%Q);
  (* cmd.on('close') *)
  _ ← track 100%Q;
  if negb (probe_code run =? 0)%Z then throw "ffprobe exited with an error code"
  else match probe_output run with
       | None => throw "Unable to parse duration from ffprobe output"
       | Some duration => mret duration
       end.

(** ** Stage-trigger routes *)

Inductive body : Type :=
| BError (error : string)
| BStarted (projectId processId : string).

Record Response : Type := { res_body : body; res_status : Z }.

(** [NextResponse.json(body)] and [NextResponse.json(body, { status })] *)
Definition json_response (b : body) (status : option Z) : Response :=
  {| res_body := b; res_status := default 200%Z status |}.

(** A background task started and not awaited by a handler. *)
Inductive Job : Type :=
| MergeMedia (projectId processId : string)
| SplitMedia (projectId processId : string).

Definition set_prop (key : string) (value : json) (o : jsobj) : jsobj :=
  <[key := Some value]> o.

(** *** process/merge/route.ts *)

Module Merge.

Definition POST (projectId : string) (uuid : string) : M (Response * option Job) :=
  try_catch
    (let projectDir := ["projects"; projectId] in
     found ← existsSync projectDir;
     if negb found
     then mret (json_response (BError "Project not found") (Some 404%Z), None)
     else
       let metadataPath := projectDir ++ ["metadata.json"] in
       found ← existsSync metadataPath;
       if negb found
       then mret (json_response (BError "Project metadata not found") (Some 404%Z), None)
       else
         let sourceDir := projectDir ++ ["source"] in
         let videoPath := sourceDir ++ ["video.mp4"] in
         let audioPath := sourceDir ++ ["audio.mp3"] in
         hasVideo ← existsSync videoPath;
         hasAudio ← existsSync audioPath;
         if negb hasVideo || negb hasAudio
         then mret (json_response
                      (BError "Source files not found. Please run the download process first.")
                      (Some 400%Z), None)
         else
           let processId := uuid in
           text ← readFileSync metadataPath;
           metadata ← parse_object text;
           let metadata := set_prop "status" (JStr (status_value MERGING)) metadata in
           let metadata := set_prop "mergeProcessId" (JStr processId) metadata in
           let metadata := set_prop "currentProcess" (JStr "merge") metadata in
           _ ← writeFileSync metadataPath (FMeta (JSON_stringify metadata));
           _ ← Project.updateProjectProgress projectId processId 0%Q;
           mret (json_response (BStarted projectId processId) None,
                 Some (MergeMedia projectId processId)))
    (λ error, mret (json_response (BError "Failed to start merge process") (Some 500%Z), None)).

End Merge.

(** *** process/split/route.ts *)

(** One [ffmpeg] invocation that cuts a segment: [-ss], [-i], [-t] and the
    output path. *)
Record FfmpegCut : Type := {
  cut_ss : Q;
  cut_input : path;
  cut_t : Q;
  cut_output : path;
}.

(** An entry of the array returned by [splitVideoIntoSegments]. *)
Record SegmentInfo : Type := {
  seg_id : Z;
  seg_duration : Q;
  seg_filename : string;
}.

(** The external world of one split: what the two duration probes report,
    the identifiers [uuidv4()] hands out for them, the exit code of every
    cut, and the clock. *)
Record SplitEnv : Type := {
  env_ffmpeg : option string;
  env_ffprobe : option string;
  env_probe : ProbeRun;
  env_probe_uuid : string;
  env_cut_code : FfmpegCut → Z;
  env_probe2 : ProbeRun;
  env_probe2_uuid : string;
  env_now : string;
}.

Fixpoint for_each {A S : Type} (body : S → A → M S) (l : list A) (s : S) : M S :=
  match l with
  | [] => mret s
  | a :: l' => s' ← body s a; for_each body l' s'
  end.

Definition nat_to_Q (i : nat) : Q := inject_Z (Z.of_nat i).

Definition segment_record (s : SegmentInfo) : record :=
  {[ "id" := JNum (inject_Z (seg_id s));
     "duration" := JNum (seg_duration s);
     "filename" := JStr (seg_filename s) ]}.

Module Split.

Definition splitVideoIntoSegments (env : SplitEnv) (videoPath outputDir : path)
    (segmentDuration : Q) (projectId processId : string)
    : M (list SegmentInfo * list FfmpegCut) :=
  if negb (bool_decide (is_Some (env_ffmpeg env)) && bool_decide (is_Some (env_ffprobe env)))
  then throw "FFmpeg tools are required for video segmentation"
  else
    let segmentsDir := outputDir ++ ["segments"] in
    _ ← mkdirSync_recursive segmentsDir;
    videoDuration ← getMediaDuration (env_probe env) projectId (env_probe_uuid env);
    let segmentCount := Qceiling (videoDuration / segmentDuration) in
    '(segments, cuts) ←
      for_each
        (λ (acc : list SegmentInfo * list FfmpegCut) (i : nat),
           let '(segments, cuts) := acc in
           let progressPercentage :=
             Math_round (nat_to_Q i / inject_Z segmentCount * 100) in
           _ ← Project.updateProjectProgress projectId processId progressPercentage;
           _ ← Project.updateProjectMetadata projectId
                 {[ "currentSegment" := Some (JNum (nat_to_Q i + 1));
                    "totalSegments" := Some (JNum (inject_Z segmentCount)) ]};
           let startTime := (nat_to_Q i * segmentDuration)%Q in
           let currentSegmentDuration := Qmin segmentDuration (videoDuration - startTime) in
           let segmentFilename := "segment_" +:+ pretty (i + 1)%nat +:+ ".mp4" in
           let segmentPath := segmentsDir ++ [segmentFilename] in
           let cmd := {| cut_ss := startTime; cut_input := videoPath;
                         cut_t := currentSegmentDuration; cut_output := segmentPath |} in
           if negb (env_cut_code env cmd =? 0)%Z
           then throw "FFmpeg segment exited with an error code"
           else
             _ ← writeFileSync segmentPath FOther;
             mret (segments ++ [{| seg_id := Z.of_nat i + 1;
                                   seg_duration := currentSegmentDuration;
                                   seg_filename := segmentFilename |}],
                   cuts ++ [cmd]))
        (seq 0 (Z.to_nat segmentCount)) ([], []);
    _ ← Project.updateProjectProgress projectId processId 100%Q;
    _ ← Project.updateProjectMetadata projectId
          {[ "currentSegment" := Some (JNum (inject_Z segmentCount));
             "totalSegments" := Some (JNum (inject_Z segmentCount)) ]};
    mret (segments, cuts).

Definition POST (projectId : string) (uuid : string) : M (Response * option Job) :=
  try_catch
    (let projectDir := ["projects"; projectId] in
     found ← existsSync projectDir;
     if negb found
     then mret (json_response (BError "Project not found") (Some 404%Z), None)
     else
       let metadataPath := projectDir ++ ["metadata.json"] in
       found ← existsSync metadataPath;
       if negb found
       then mret (json_response (BError "Project metadata not found") (Some 404%Z), None)
       else
         let mergeDir := projectDir ++ ["merge"] in
         let processedVideoPath := mergeDir ++ ["processed.mp4"] in
         hasVideo ← existsSync processedVideoPath;
         if negb hasVideo
         then mret (json_response
                      (BError "Processed video file not found. Please run the merge process first.")
                      (Some 400%Z), None)
         else
           let processId := uuid in
           text ← readFileSync metadataPath;
           metadata ← parse_object text;
           let metadata := set_prop "status" (JStr (status_value INITIALIZING)) metadata in
           let metadata := set_prop "splitProcessId" (JStr processId) metadata in
           let metadata := set_prop "currentProcess" (JStr "split") metadata in
           _ ← writeFileSync metadataPath (FMeta (JSON_stringify metadata));
           _ ← Project.updateProjectProgress projectId processId 0%Q;
           mret (json_response (BStarted projectId processId) None,
                 Some (SplitMedia projectId processId)))
    (λ error, mret (json_response (BError "Failed to start split process") (Some 500%Z), None)).

(** The background task.  The segment length is the literal [60]. *)
Definition splitMedia (env : SplitEnv) (projectId processId : string) : M unit :=
  try_catch
    (if negb (bool_decide (is_Some (env_ffmpeg env)) && bool_decide (is_Some (env_ffprobe env)))
     then throw "FFmpeg tools not found. Please install FFmpeg and make sure it is in your PATH."
     else
       let projectDir := ["projects"; projectId] in
       let mergeDir := projectDir ++ ["merge"] in
       let processedVideoPath := mergeDir ++ ["processed.mp4"] in
       let metadataPath := projectDir ++ ["metadata.json"] in
       text ← readFileSync metadataPath;
       metadata ← parse_object text;
       let metadata := set_prop "status" (JStr (status_value SEGMENTING)) metadata in
       let metadata := set_prop "currentSegment" (JNum 0) metadata in
       let metadata := set_prop "totalSegments" (JNum 0) metadata in
       _ ← writeFileSync metadataPath (FMeta (JSON_stringify metadata));
       _ ← Project.updateProjectProgress projectId processId 0%Q;
       '(segments, _) ← splitVideoIntoSegments env processedVideoPath projectDir 60%Q
                           projectId processId;
       videoDuration ← getMediaDuration (env_probe2 env) projectId (env_probe2_uuid env);
       text ← readFileSync metadataPath;
       metadata ← parse_object text;
       let metadata := set_prop "status" (JStr (status_value SEGMENTED)) metadata in
       let metadata := set_prop "splitCompletedAt" (JStr (env_now env)) metadata in
       let metadata := set_prop "segments" (JNum (nat_to_Q (length segments))) metadata in
       let metadata :=
         if negb (truthy (metadata !!! "totalDuration"))
         then set_prop "totalDuration" (JNum videoDuration) metadata
         else metadata in
       let metadata := set_prop "splitProcessId" (JStr processId) metadata in
       _ ← writeFileSync metadataPath (FMeta (JSON_stringify metadata));
       _ ← Project.updateProjectProgress projectId processId 100%Q;
       writeFileSync_at (projectDir ++ ["segments.json"])
         (FSegments ((λ s, JObj (segment_record s)) <$> segments)))
    (λ error,
       _ ← Project.updateProjectStatus projectId SEGMENTING_ERROR (Some error);
       mret tt).

End Split.

(** *** lib/utils/media.ts: the exported variant of the split loop.  It
    reports no progress, lets the last segment take what is left and stores
    rounded durations. *)

Module Media.

Definition splitVideoIntoSegments (totalDuration : Q) (cut_code : FfmpegCut → Z)
    (videoPath outputDir : path) (segmentDuration : Q)
    : outcome (list SegmentInfo * list FfmpegCut) :=
  let numSegments := Qceiling (totalDuration / segmentDuration) in
  fold_left
    (λ (acc : outcome (list SegmentInfo * list FfmpegCut)) (i : nat),
       match acc with
       | Throw e => Throw e
       | Ret (segments, cuts) =>
           let startTime := (nat_to_Q i * segmentDuration)%Q in
           let duration :=
             if (Z.of_nat i =? numSegments - 1)%Z
             then let d := (totalDuration - startTime)%Q in
                  if Qle_bool d 0 then 1%Q else d
             else segmentDuration in
           let segmentId := (Z.of_nat i + 1)%Z in
           let segmentFilename := "segment-" +:+ pretty segmentId +:+ ".mp4" in
           let cmd := {| cut_ss := startTime; cut_input := videoPath;
                         cut_t := duration; cut_output := outputDir ++ [segmentFilename] |} in
           if negb (cut_code cmd =? 0)%Z
           then Throw "ffmpeg segment failed"
           else Ret (segments ++ [{| seg_id := segmentId;
                                     seg_duration := Math_round duration;
                                     seg_filename := segmentFilename |}],
                     cuts ++ [cmd])
       end)
    (seq 0 (Z.to_nat numSegments)) (Ret ([], [])).

End Media.

(** ** The download routine *)

Module Download.

(** What one [yt-dlp] process did: the percentages [parseFloat] read from
    the tokens that matched on stdout, its exit code, and whether it left a
    non-empty output file. *)
Record DownloadRun : Type := {
  dl_percent : list Q;
  dl_code : Z;
  dl_file : bool;
}.

Record DownloadResult : Type := {
  success : bool;
  error : option string;
}.

(** [x && x > 0] for an optional number *)
Definition given_positive (x : option Q) : bool :=
  match x with
  | Some q => negb (Qle_bool q 0)
  | None => false
  end.

(** The [--download-sections] range: start and, when given, end. *)
Definition download_sections (startTime endTime : option Q) : option (Q * option Q) :=
  if given_positive endTime || given_positive startTime
  then Some (default 0%Q startTime,
             if given_positive endTime then endTime else None)
  else None.

(** The [yt-dlp] invocation: URL, format selection, output path and the
    [--download-sections] range. *)
Record YtDlpCommand : Type := {
  yt_url : string;
  yt_format : string;
  yt_output : path;
  yt_sections : option (Q * option Q);
}.

(** [spawn] tells what the process started with a command does. *)
Definition downloadYouTubeVideo (spawn : YtDlpCommand → DownloadRun)
    (videoUrl : string) (outputPath : path) (projectId processId : string)
    (isAudioOnly : bool) (startTime endTime : option Q) : M DownloadResult :=
  ytDlp ← try_catch
    (let formatSelection :=
       if isAudioOnly then "bestaudio[ext=m4a]/bestaudio" else "bestvideo[ext=mp4]/bestvideo" in
     let ytDlpArgs :=
       {| yt_url := videoUrl; yt_format := formatSelection; yt_output := outputPath;
          yt_sections := download_sections startTime endTime |} in
     (* Initialize progress at 0% *)
     _ ← Project.updateProjectProgress projectId processId 0%Q;
     mret (Some (spawn ytDlpArgs)))
    (λ err, mret None);
  match ytDlp with
  | None => mret {| success := false; error := Some "Error executing yt-dlp" |}
  | Some run =>
      (* ytDlp.stdout.on('data') *)
      _ ← for_each
            (λ (_ : unit) (percentage : Q),
               _ ← Project.updateProjectProgress projectId processId percentage;
               mret tt)
            (dl_percent run) tt;
      (* ytDlp.on('close') *)
      if (dl_code run =? 0)%Z
      then
        _ ← (if dl_file run then writeFileSync outputPath FOther else mret tt);
        found ← existsSync outputPath;
        if found && dl_file run
        then
          (* Set progress to 100% when download completes successfully *)
          _ ← Project.updateProjectProgress projectId processId 100%Q;
          mret {| success := true; error := None |}
        else mret {| success := false;
                     error := Some "Download completed but file is missing or empty" |}
      else mret {| success := false; error := Some "yt-dlp process exited with an error code" |}
  end.

(** The two calls [downloadMedia] makes: URL, output path, process
    identifier, audio-only flag, start and end offset. *)
Record DownloadCall : Type := {
  call_url : string;
  call_output : path;
  call_processId : string;
  call_isAudioOnly : bool;
  call_startTime : Q;
  call_endTime : Q;
}.

(** One of the four trim offsets of the record.  The download route
    writes them as numbers, with default [0], when the request gives
    numbers or leaves them out; what is said below about the task is said
    of records whose offsets are numbers.  (An offset that is no number is
    read as [0] here, while the code would compute with the value as it
    is.) *)
Definition number_prop (o : jsobj) (key : string) : Q :=
  match o !!! key with
  | Some (JNum q) => q
  | _ => 0%Q
  end.

Definition downloadMedia_calls (videoUrl audioUrl : string) (metadata : jsobj)
    (projectId processId : string) : DownloadCall * DownloadCall :=
  let sourceDir := ["projects"; projectId; "source"] in
  let videoPath := sourceDir ++ ["video.mp4"] in
  let audioPath := sourceDir ++ ["audio.mp3"] in
  let startTime := number_prop metadata "startTime" in
  let endTime := number_prop metadata "endTime" in
  let audioStartTime := number_prop metadata "audioStartTime" in
  let audioEndTime := number_prop metadata "audioEndTime" in
  ({| call_url := videoUrl;
      call_output := videoPath;
      call_processId := processId +:+ "_video";
      call_isAudioOnly := false;
      call_startTime := startTime;
      call_endTime :=
        if negb (Qeq_bool audioEndTime 0)
        then (audioEndTime - audioStartTime + startTime)%Q
        else endTime |},
   {| call_url := audioUrl;
      call_output := audioPath;
      call_processId := processId +:+ "_audio";
      call_isAudioOnly := true;
      call_startTime := audioStartTime;
      call_endTime := audioEndTime |}).

(** One of the two calls, carried out. *)
Definition download (spawn : YtDlpCommand → DownloadRun) (projectId : string)
    (c : DownloadCall) : M DownloadResult :=
  downloadYouTubeVideo spawn (call_url c) (call_output c) projectId (call_processId c)
    (call_isAudioOnly c) (Some (call_startTime c)) (Some (call_endTime c)).

End Download.

(** ** Numbers and text *)

Definition Math_floor (x : Q) : Q := inject_Z (Qfloor x).
Definition Math_abs (x : Q) : Q := if Qle_bool 0 x then x else (- x)%Q.

(** [a % b] on numbers: the quotient is cut towards zero, so the remainder
    has the sign of [a].  The divisor is a non-zero constant wherever the
    code uses the operator. *)
Definition Qtruncate (x : Q) : Z := if Qle_bool 0 x then Qfloor x else Qceiling x.
Definition js_rem (a b : Q) : Q := (a - b * inject_Z (Qtruncate (a / b)))%Q.

(** [s.padStart(targetLength, pad)] for a pad of one character *)
Definition padStart (s : string) (targetLength : nat) (pad : ascii) : string :=
  string_of_list_ascii (replicate (targetLength - String.length s) pad) +:+ s.

(** [s.split(sep)] for a separator of one character: the pieces between
    the separators, [['']] for the empty string. *)
Fixpoint split_on (sep : ascii) (s : string) : list string :=
  match s with
  | EmptyString => [EmptyString]
  | String c s' =>
      if Ascii.eqb c sep then EmptyString :: split_on sep s'
      else match split_on sep s' with
           | w :: ws => String c w :: ws
           | [] => [String c EmptyString]
           end
  end.

(** [s.split(sep)] for a separator of several characters: the pieces
    between the separators, found from the left.  [skip] counts the
    characters of a separator just met that are still to be passed. *)
Fixpoint split_from (sep : string) (skip : nat) (s : string) : list string :=
  match s with
  | EmptyString => [EmptyString]
  | String c s' =>
      match skip with
      | S k => split_from sep k s'
      | O =>
          if String.prefix sep s
          then EmptyString :: split_from sep (String.length sep - 1) s'
          else match split_from sep 0 s' with
               | w :: ws => String c w :: ws
               | [] => [String c EmptyString]
               end
      end
  end.

Definition split_by (sep s : string) : list string := split_from sep 0 s.

(** The line feed. *)
Definition LF : ascii := ascii_of_nat 10.

(** [old] occurs in [s]. *)
Fixpoint occurs (old s : string) : bool :=
  String.prefix old s
  || match s with
     | EmptyString => false
     | String _ s' => occurs old s'
     end.

(** [s.replace(old, new)] for two strings: the first [old] in [s] becomes
    [new]. *)
Fixpoint string_replace (old new s : string) : string :=
  if String.prefix old s
  then new +:+ String.substring (String.length old) (String.length s - String.length old) s
  else match s with
       | EmptyString => EmptyString
       | String c s' => String c (string_replace old new s')
       end.

(** [s.replace(old, new)] for a path [s].  A path is the list of the names
    on the way from the working directory; [old] holds no separator, so it
    can only occur inside one of the names, and the first name that holds
    it takes the replacement.  (The name of the working directory itself
    is taken to hold no [old].) *)
Fixpoint path_replace (old new : string) (p : path) : path :=
  match p with
  | [] => []
  | name :: p' =>
      if occurs old name then string_replace old new name :: p'
      else name :: path_replace old new p'
  end.

(** [n.toString()] for a whole number [n] (the code calls it on results of
    [Math.floor] and [Math.round]). *)
Definition toString10 (n : Q) : string := pretty (Qfloor n).

Module Subtitles.

(** [formatTime] of [createSubtitleFile]: seconds as [HH:MM:SS,mmm]. *)
Definition formatTime (seconds : Q) : string :=
  let hours := Math_floor (seconds / 3600) in
  let minutes := Math_floor (js_rem seconds 3600 / 60) in
  let remainingSeconds := js_rem seconds 60 in
  let milliseconds := Math_round (js_rem remainingSeconds 1 * 1000) in
  padStart (toString10 hours) 2 "0" +:+ ":" +:+
  padStart (toString10 minutes) 2 "0" +:+ ":" +:+
  padStart (toString10 (Math_floor remainingSeconds)) 2 "0" +:+ "," +:+
  padStart (toString10 milliseconds) 3 "0".

End Subtitles.

(** ** The caption route *)

(** [String.prototype.trim] on the ASCII white space characters. *)
Definition is_space (c : ascii) : bool :=
  let n := nat_of_ascii c in
  (n =? 32)%nat || ((9 <=? n)%nat && (n <=? 13)%nat).

Fixpoint trimStart (s : string) : string :=
  match s with
  | EmptyString => EmptyString
  | String c s' => if is_space c then trimStart s' else s
  end.

Fixpoint trimEnd (s : string) : string :=
  match s with
  | EmptyString => EmptyString
  | String c s' =>
      match trimEnd s' with
      | EmptyString => if is_space c then EmptyString else String c EmptyString
      | r => String c r
      end
  end.

Definition trim (s : string) : string := trimEnd (trimStart s).

Module Captions.

(** [currentLine] of [createSubtitleFile] *)
Record CurrentLine : Type := {
  cl_start : Q;
  cl_end : Q;
  cl_text : string;
  cl_wordCount : nat;
}.

(** The body of [captions.forEach] in [createSubtitleFile]. *)
Definition packWord (st : list Caption * CurrentLine) (caption : Caption)
    : list Caption * CurrentLine :=
  let '(lines, currentLine) := st in
  (* If this is the first word in a line, set the start time *)
  let currentLine :=
    if (cl_wordCount currentLine =? 0)%nat
    then {| cl_start := start caption; cl_end := cl_end currentLine;
            cl_text := cl_text currentLine; cl_wordCount := cl_wordCount currentLine |}
    else currentLine in
  let '(lines, currentLine) :=
    if (5 <=? cl_wordCount currentLine)%nat
       || (20 <=? String.length (cl_text currentLine) + String.length (text caption))%nat
    then
      if (0 <? cl_wordCount currentLine)%nat
      then
        (* End time of line is start time of next word *)
        (lines ++ [{| start := cl_start currentLine; end_ := start caption;
                      text := trim (cl_text currentLine) |}],
         {| cl_start := start caption; cl_end := 0%Q;
            cl_text := text caption +:+ " "; cl_wordCount := 1 |})
      else (lines, currentLine)
    else
      (lines,
       {| cl_start := cl_start currentLine; cl_end := cl_end currentLine;
          cl_text := cl_text currentLine +:+ text caption +:+ " ";
          cl_wordCount := cl_wordCount currentLine + 1 |}) in
  (* Update the end time for the current line *)
  (lines,
   {| cl_start := cl_start currentLine; cl_end := end_ caption;
      cl_text := cl_text currentLine; cl_wordCount := cl_wordCount currentLine |}).

(** The lines [createSubtitleFile] builds before it renders them. *)
Definition subtitleLines (captions : list Caption) : list Caption :=
  let currentLine := {| cl_start := 0%Q; cl_end := 0%Q; cl_text := ""; cl_wordCount := 0 |} in
  let '(lines, currentLine) := fold_left packWord captions ([], currentLine) in
  (* Don't forget the last line *)
  if (0 <? cl_wordCount currentLine)%nat
  then lines ++ [{| start := cl_start currentLine; end_ := cl_end currentLine;
                    text := trim (cl_text currentLine) |}]
  else lines.

(** The SRT text [createSubtitleFile] renders its lines to. *)
Definition srtContent (lines : list Caption) : string :=
  String.concat (String LF "")
    (imap (λ (index : nat) (line : Caption),
             pretty (index + 1)%nat +:+ String LF "" +:+
             Subtitles.formatTime (start line) +:+ " --> " +:+
             Subtitles.formatTime (end_ line) +:+ String LF "" +:+
             text line +:+ String LF "")
          lines).

(** A file of subtitles is kept as the lines it was rendered from. *)
Definition createSubtitleFile (captions : list Caption) (outputPath : path) : M unit :=
  writeFileSync_at outputPath (FSubtitles (subtitleLines captions)).

End Captions.

(** What one external tool of the caption pipeline did: the values its
    adapter handed to the progress callback, the error it rejected with (if
    any), and whether it left a non-empty output file. *)
Record ToolRun : Type := {
  tool_progress : list Q;
  tool_error : option string;
  tool_output : bool;
}.

(** The external world of one [captionSegment] task. *)
Record CaptionEnv : Type := {
  c_ffmpeg : option string;
  c_ffprobe : option string;
  c_extract : ToolRun;          (* extractAudioFromSegment *)
  c_whisper : ToolRun;          (* generateCaptions *)
  c_captions : list Caption;    (* the captions generateCaptions resolves with *)
  c_burn : ToolRun;             (* addCaptionsToVideo *)
  c_subtitle : option string;   (* generateSubtitle, null is None *)
  c_overlay : ToolRun;          (* addSubtitleToVideo or addTitleToVideo *)
  c_completedAt : string;       (* the clock when the task completes *)
  c_failedAt : string;          (* the clock in the catch block *)
}.

Module CaptionRoute.

(** The closure [updateSegmentProgress] of [captionSegment]. *)
Definition updateSegmentProgress (segmentsPath : path) (segmentIndex : option nat)
    (progress : Q) : M unit :=
  try_catch
    (match segmentIndex with
     | Some idx =>
         text ← readFileSync segmentsPath;
         segments ← parse_segments text;
         match segments !! idx with
         | None => throw "TypeError: Cannot read properties of undefined"
         | Some seg =>
             status ← lift (get_prop seg "captioningStatus");
             if strict_eq status (Some (JStr "in-progress"))
             then
               seg' ← lift (assign_prop (Some seg) "captioningProgress"
                              (JNum (Qmin progress 100)));
               writeFileSync segmentsPath (FSegments (<[idx := seg']> segments))
             else mret tt
         end
     | None => mret tt
     end)
    (λ e, mret tt).

(** An adapter around one tool: it forwards progress, rejects on failure,
    and on success leaves its output file and reports [100]. *)
Definition run_tool (run : ToolRun) (output : path) (updateProgress : option (Q → M unit))
    : M unit :=
  let report (p : Q) : M unit :=
    match updateProgress with
    | Some f => f p
    | None => mret tt
    end in
  _ ← for_each (λ (_ : unit) (p : Q), report p) (tool_progress run) tt;
  match tool_error run with
  | Some message => throw message
  | None =>
      _ ← (if tool_output run then writeFileSync output FOther else mret tt);
      report 100%Q
  end.

(** [formatAssTime] of [addCaptionsToVideo]: [00:00:00,000] of SRT as
    [00:00:00.00]. *)
Definition formatAssTime (srtTime : string) : outcome string :=
  match split_on "," srtTime with
  | time :: ms :: _ => Ret (time +:+ "." +:+ String.substring 0 2 ms)
  | _ => Throw "Cannot read properties of undefined (reading 'substring')"
  end.

(** The body of [srtParts.forEach]: the [Dialogue] line of one SRT entry,
    nothing for a part that is not one. *)
Definition assEvent (part : string) : outcome string :=
  let lines := split_on LF (trim part) in
  if (3 <=? length lines)%nat
  then
    match split_by " --> " (default "" (lines !! 1%nat)) with
    | [startSRT; endSRT] =>
        match formatAssTime startSRT with
        | Throw e => Throw e
        | Ret startASS =>
            match formatAssTime endSRT with
            | Throw e => Throw e
            | Ret endASS =>
                let textContent := String.concat "\N" (drop 2 lines) in
                Ret ("Dialogue: 0," +:+ startASS +:+ "," +:+ endASS +:+
                     ",Default,,0,0,0,,{\an5}" +:+ textContent +:+ String LF "")
            end
        end
    | _ => Ret ""
    end
  else Ret "".

(** The [Dialogue] lines of an SRT text, up to the first part that throws. *)
Definition assEvents (srtContent : string) : outcome string :=
  fold_left (λ (assContent : outcome string) (part : string),
               match assContent with
               | Throw e => Throw e
               | Ret done =>
                   match assEvent part with
                   | Throw e => Throw e
                   | Ret event => Ret (done +:+ event)
                   end
               end)
            (split_by (String LF (String LF "")) srtContent) (Ret "").

(** [addCaptionsToVideo]: it reads the subtitles, writes them for [ffmpeg]
    as an [.ass] file ([assPath]), and removes that file when [ffmpeg] has
    ended, before it rejects or resolves.  The text of a file that holds
    no subtitles is not known here; the caption task hands in the file
    [createSubtitleFile] has just written. *)
Definition addCaptionsToVideo (run : ToolRun) (subtitlePath outputPath : path)
    (updateProgress : Q → M unit) : M unit :=
  (* Load the SRT file *)
  srt ← readFileSync subtitlePath;
  (* Convert each SRT entry to ASS *)
  _ ← lift (match srt with
            | FSubtitles lines => assEvents (Captions.srtContent lines)
            | _ => Ret ""
            end);
  (* Write the ASS file temporarily *)
  let assPath := path_replace ".srt" ".ass" subtitlePath in
  _ ← writeFileSync_at assPath FOther;
  (* cmd.stderr.on('data') *)
  _ ← for_each (λ (_ : unit) (p : Q), updateProgress p) (tool_progress run) tt;
  (* cmd.on('close'): clean up the temporary ASS file *)
  _ ← try_catch (unlinkSync assPath) (λ e, mret tt);
  match tool_error run with
  | Some message => throw message
  | None =>
      _ ← (if tool_output run then writeFileSync outputPath FOther else mret tt);
      (* Ensure 100% is reported on completion *)
      updateProgress 100%Q
  end.

(** A component handed to [path.join] must be a string. *)
Definition path_component (v : jsval) : outcome string :=
  match v with
  | Some (JStr s) => Ret s
  | _ => Throw "TypeError: The path argument must be of type string"
  end.

(** [`${segment.id}`]; segment identifiers are integers. *)
Definition id_string (v : jsval) : string :=
  match v with
  | Some (JNum q) => pretty (Qfloor q)
  | Some (JStr s) => s
  | _ => "undefined"
  end.

(** The [try] block of [captionSegment]. *)
Definition captionSegment_try (env : CaptionEnv) (projectId : string) (segment : record)
    (processId : string) : M unit :=
  if negb (bool_decide (is_Some (c_ffmpeg env)) && bool_decide (is_Some (c_ffprobe env)))
  then throw "FFmpeg tools not found. Please install FFmpeg and make sure it is in your PATH."
  else
    let projectDir := ["projects"; projectId] in
    filename ← lift (path_component (segment !! "filename"));
    let segmentPath := projectDir ++ ["segments"; filename] in
    let segmentsPath := projectDir ++ ["segments.json"] in
    let metadataPath := projectDir ++ ["metadata.json"] in
    let captionsDir := projectDir ++ ["captions"] in
    let name := id_string (segment !! "id") in
    _ ← mkdirSync_recursive captionsDir;
    text ← readFileSync segmentsPath;
    segments ← parse_segments text;
    segmentIndex ← lift (findIndex "id" (segment !! "id") segments);
    let updateSegmentProgress := updateSegmentProgress segmentsPath segmentIndex in
    (* audio extraction: 0 *)
    _ ← updateSegmentProgress 0%Q;
    let audioPath := captionsDir ++ ["segment_" +:+ name +:+ "_audio.wav"] in
    _ ← run_tool (c_extract env) audioPath None;
    (* caption generation: 5 to 45 *)
    _ ← updateSegmentProgress 5%Q;
    _ ← run_tool (c_whisper env) (captionsDir ++ ["segment_" +:+ name +:+ "_audio.json"])
          (Some (λ progress, updateSegmentProgress (5 + progress / 100 * (45 - 5))%Q));
    let captions := c_captions env in
    (* subtitle creation: 45 to 50 *)
    _ ← updateSegmentProgress 45%Q;
    let srtPath := captionsDir ++ ["segment_" +:+ name +:+ ".srt"] in
    _ ← Captions.createSubtitleFile captions srtPath;
    (* adding captions: 50 to 80 *)
    _ ← updateSegmentProgress 50%Q;
    let captionedPath := captionsDir ++ ["captioned_" +:+ name +:+ ".mp4"] in
    _ ← addCaptionsToVideo (c_burn env) srtPath captionedPath
          (λ progress, updateSegmentProgress (50 + progress / 100 * (80 - 50))%Q);
    found ← existsSync captionedPath;
    if negb (found && tool_output (c_burn env))
    then throw "Failed to create captioned video or output file is empty"
    else
      (* title and subtitle overlay: 80 to 95 *)
      _ ← updateSegmentProgress 80%Q;
      text ← readFileSync metadataPath;
      metadata ← parse_json text;
      (* metadata.segmentTitleColor || '#FFFFFF' *)
      titleColor ← lift (get_prop metadata "segmentTitleColor");
      let finalPath := captionsDir ++ ["final_" +:+ name +:+ ".mp4"] in
      let subtitle := c_subtitle env in
      _ ← run_tool (c_overlay env) finalPath
            (Some (λ progress, updateSegmentProgress (80 + progress / 100 * (95 - 80))%Q));
      (* cleanup: 95 to 100 *)
      _ ← updateSegmentProgress 95%Q;
      found ← existsSync finalPath;
      if negb (found && tool_output (c_overlay env))
      then throw "Failed to add title to video or output file is empty"
      else
        let finalCaptionedPath := captionsDir ++ ["captioned_segment_" +:+ name +:+ ".mp4"] in
        _ ← copyFileSync finalPath finalCaptionedPath;
        _ ← try_catch
              (_ ← unlinkSync captionedPath;
               _ ← unlinkSync finalPath;
               _ ← unlinkSync audioPath;
               _ ← unlinkSync srtPath;
               let audioJsonPath := captionsDir ++ ["segment_" +:+ name +:+ "_audio.json"] in
               found ← existsSync audioJsonPath;
               if (found : bool) then unlinkSync audioJsonPath else mret tt)
              (λ cleanupErr, mret tt);
        _ ← updateSegmentProgress 100%Q;
        text ← readFileSync segmentsPath;
        segments ← parse_segments text;
        match segmentIndex with
        | Some idx =>
            let updated :=
              <["captionedFilename" := Some (JStr ("captioned_segment_" +:+ name +:+ ".mp4"))]>
              (<["subtitle" := if truthy (JStr <$> subtitle) then JStr <$> subtitle else undefined]>
              (<["captioningProgress" := Some (JNum 100)]>
              (<["captioningCompletedAt" := Some (JStr (c_completedAt env))]>
              (<["captioningStatus" := Some (JStr "completed")]>
              (own_props (segments !! idx)))))) in
            writeFileSync segmentsPath
              (FSegments (array_set segments idx (JObj (JSON_stringify updated))))
        | None => mret tt
        end.

(** The [catch] block of [captionSegment]. *)
Definition captionSegment_catch (env : CaptionEnv) (projectId : string) (segment : record)
    (message : string) : M unit :=
  try_catch
    (let projectDir := ["projects"; projectId] in
     let segmentsPath := projectDir ++ ["segments.json"] in
     text ← readFileSync segmentsPath;
     segments ← parse_segments text;
     segmentIndex ← lift (findIndex "id" (segment !! "id") segments);
     match segmentIndex with
     | Some idx =>
         let updated :=
           <["captioningError" := Some (JStr message)]>
           (<["captioningFailedAt" := Some (JStr (c_failedAt env))]>
           (<["captioningStatus" := Some (JStr "failed")]>
           (own_props (segments !! idx)))) in
         writeFileSync segmentsPath
           (FSegments (array_set segments idx (JObj (JSON_stringify updated))))
     | None => mret tt
     end)
    (λ metadataError, mret tt).

Definition captionSegment (env : CaptionEnv) (projectId : string) (segment : record)
    (processId : string) : M unit :=
  try_catch (captionSegment_try env projectId segment processId)
            (captionSegment_catch env projectId segment).

End CaptionRoute.

(** ** Tasks on the event loop *)

(** A call into the store.  It is synchronous, so the event loop runs it to
    completion before any other callback. *)
Inductive StoreCall : Type :=
| SetProgress (projectId processId : string) (percent : Q).

Definition run_call (c : StoreCall) (fs : FS) : FS :=
  match c with
  | SetProgress projectId processId percent =>
      (Project.updateProjectProgress projectId processId percent fs).2
  end.

Definition run_calls (cs : list StoreCall) (fs : FS) : FS :=
  fold_left (λ fs c, run_call c fs) cs fs.

(** The orders in which the event loop may run the calls of two concurrent
    tasks: each task's own order is kept. *)
Inductive interleave {A : Type} : list A → list A → list A → Prop :=
| interleave_nil : interleave [] [] []
| interleave_left a l1 l2 l : interleave l1 l2 l → interleave (a :: l1) l2 (a :: l)
| interleave_right a l1 l2 l : interleave l1 l2 l → interleave l1 (a :: l2) (a :: l).

(** What a call does to a progress map, and the project and key it names. *)
Definition call_entry (pm : gmap string json) (c : StoreCall) : gmap string json :=
  match c with
  | SetProgress _ processId percent => <[processId := JNum percent]> pm
  end.

Definition call_project (c : StoreCall) : string :=
  match c with SetProgress projectId _ _ => projectId end.

Definition call_key (c : StoreCall) : string :=
  match c with SetProgress _ processId _ => processId end.

(** ** Reading the store *)

(** The record of a project as it is on disk. *)
Definition stored_record (fs : FS) (projectId : string) : option record :=
  match fs !! Project.getMetadataPath projectId with
  | Some (File (FMeta r)) => Some r
  | _ => None
  end.

(** One field of the stored record. *)
Definition stored_field (fs : FS) (projectId field : string) : option json :=
  r ← stored_record fs projectId; r !! field.

(** The progress map of a record ([{}] when the record has none). *)
Definition progress_of (r : record) : gmap string json :=
  match r !! "progress" with
  | Some (JObj pm) => pm
  | _ => ∅
  end.

(** [getProgress]: the entry of the stored progress map. *)
Definition getProgress (fs : FS) (projectId processId : string) : option json :=
  r ← stored_record fs projectId; progress_of r !! processId.

(** A record conforms to [ProjectMetadata] when its optional [progress]
    is an object. *)
Definition conforms (r : record) : Prop :=
  match r !! "progress" with
  | None | Some (JObj _) => True
  | Some _ => False
  end.

(** The segment list of a project as it is on disk. *)
Definition stored_segments (fs : FS) (projectId : string) : option (list json) :=
  match fs !! ["projects"; projectId; "segments.json"] with
  | Some (File (FSegments l)) => Some l
  | _ => None
  end.

(** ** A program logic for the store monad *)

(** [hoare P m Q E]: from a file system that satisfies [P], [m] either
    returns [a] in a file system that satisfies [Q a], or throws [e] in one
    that satisfies [E e]. *)
Definition hoare {A : Type} (P : FS → Prop) (m : M A)
    (Q : A → FS → Prop) (E : string → FS → Prop) : Prop :=
  ∀ fs : FS, P fs →
    match m fs with
    | (Ret a, fs') => Q a fs'
    | (Throw e, fs') => E e fs'
    end.

(** [m] keeps [P] whether it returns or throws. *)
Abbreviation keeps P m := (hoare P m (λ _, P) (λ _, P)).


(** The project has a stored record that conforms to [ProjectMetadata]. *)
Definition has_record (projectId : string) (fs : FS) : Prop :=
  ∃ r : record, stored_record fs projectId = Some r ∧ conforms r.

(** ** What the split loop is expected to produce *)

(** Segment [i] (counted from 0) of a video of length [D] cut in pieces of
    length [L]: identifier [i + 1], start [i * L], duration
    [min(L, D - i * L)]. *)
Definition expected_segment (D L : Q) (i : nat) : SegmentInfo :=
  {| seg_id := Z.of_nat i + 1;
     seg_duration := Qmin L (D - nat_to_Q i * L);
     seg_filename := "segment_" +:+ pretty (i + 1)%nat +:+ ".mp4" |}.



(** ** The state a failing caption task may leave behind *)

(** [l] is [l0] except that the object at [idx] may have another
    [captioningProgress]. *)
Definition same_but_progress (idx : nat) (l0 l : list json) : Prop :=
  ∃ o0 o : gmap string json,
    l0 !! idx = Some (JObj o0)
    ∧ l = <[idx := JObj o]> l0
    ∧ ∀ k : string, k ≠ "captioningProgress" → o !! k = o0 !! k.

(** The project record is as in [fs0], and the segment list is [l0] up to
    the progress of segment [idx]. *)
Definition caption_inv (projectId : string) (fs0 : FS) (l0 : list json) (idx : nat)
    (fs : FS) : Prop :=
  fs !! ["projects"; projectId; "metadata.json"] = fs0 !! ["projects"; projectId; "metadata.json"]
  ∧ ∃ l : list json,
      fs !! ["projects"; projectId; "segments.json"] = Some (File (FSegments l))
      ∧ same_but_progress idx l0 l.

(** A path that is neither the record nor the segment list of the project. *)
Definition outside (projectId : string) (p : path) : Prop :=
  p ≠ ["projects"; projectId; "segments.json"]
  ∧ p ≠ ["projects"; projectId; "metadata.json"].

(** ** Subtitle lines as groups of captions *)

(** The text [createSubtitleFile] accumulates for a group of captions: each
    caption followed by one space. *)
Fixpoint joined (g : list Caption) : string :=
  match g with
  | [] => ""
  | w :: g' => text w +:+ " " +:+ joined g'
  end.

Definition first_start (g : list Caption) : Q :=
  match g with
  | w :: _ => start w
  | [] => 0%Q
  end.

Definition last_end (g : list Caption) : Q :=
  match last g with
  | Some w => end_ w
  | None => 0%Q
  end.

(** The lines that a sequence of groups stands for: a line starts with its
    first caption, ends where the next group starts (the last one ends at
    [final_end]) and shows the trimmed text of its group. *)
Fixpoint lines_of_groups (groups : list (list Caption)) (final_end : Q) : list Caption :=
  match groups with
  | [] => []
  | g :: rest =>
      {| start := first_start g;
         end_ := match rest with
                 | g' :: _ => first_start g'
                 | [] => final_end
                 end;
         text := trim (joined g) |}
      :: lines_of_groups rest final_end
  end.

(** How [packWord] groups captions: the closed groups and the captions of
    the line that is still open. *)
Definition groupWord (st : list (list Caption) * list Caption) (w : Caption)
    : list (list Caption) * list Caption :=
  let '(groups, cur) := st in
  if (5 <=? length cur)%nat
     || (20 <=? String.length (joined cur) + String.length (text w))%nat
  then match cur with
       | [] => (groups, [])
       | _ :: _ => (groups ++ [cur], [w])
       end
  else (groups, cur ++ [w]).

(** [R] holds between every two neighbours of [l]. *)
Fixpoint chain {A : Type} (R : A → A → Prop) (l : list A) : Prop :=
  match l with
  | a :: (b :: _) as t => R a b ∧ chain R t
  | _ => True
  end.

(** A group within the limits: one to five captions, and at most twenty
    characters of accumulated text unless it is a single caption. *)
Definition group_ok (g : list Caption) : Prop :=
  (1 ≤ length g ≤ 5)%nat
  ∧ ((2 ≤ length g)%nat → (String.length (joined g) ≤ 20)%nat).

(** The group [g] was closed because the first caption of [g'] did not fit. *)
Definition break_needed (g g' : list Caption) : Prop :=
  match g' with
  | w :: _ => (5 ≤ length g)%nat ∨ (20 ≤ String.length (joined g) + String.length (text w))%nat
  | [] => False
  end.

(** Captions in the order of time: none ends before it starts and none
    starts before an earlier one. *)
Definition time_ordered (captions : list Caption) : Prop :=
  Forall (λ c, (start c <= end_ c)%Q) captions
  ∧ StronglySorted (λ a b, (start a <= start b)%Q) captions.

(** The state of [createSubtitleFile] agrees with the groups formed so far. *)
Definition pack_inv (real : list Caption * Captions.CurrentLine)
    (ghost : list (list Caption) * list Caption) : Prop :=
  let '(lines, cl) := real in
  let '(groups, cur) := ghost in
  Captions.cl_wordCount cl = length cur
  ∧ Captions.cl_text cl = joined cur
  ∧ lines = lines_of_groups groups (first_start cur)
  ∧ (cur ≠ [] → Captions.cl_start cl = first_start cur ∧ Captions.cl_end cl = last_end cur)
  ∧ (cur = [] → groups = []).

(** The captions [createSubtitleFile] shows are [shown]: all of [captions]
    but a leading run of captions of 20 characters or more, which arrive
    while no line is open and are left out. *)
Definition shown_of (captions shown : list Caption) : Prop :=
  ∃ dropped : list Caption,
    captions = dropped ++ shown
    ∧ Forall (λ c, (20 ≤ String.length (text c))%nat) dropped
    ∧ ∀ w : Caption, head shown = Some w → (String.length (text w) < 20)%nat.

(** What holds of the groups formed from [captions]. *)
Definition group_inv (captions : list Caption)
    (ghost : list (list Caption) * list Caption) : Prop :=
  let '(groups, cur) := ghost in
  Forall group_ok groups
  ∧ (cur ≠ [] → group_ok cur ∧ last cur = last captions)
  ∧ chain break_needed (groups ++ [cur])
  ∧ shown_of captions (concat groups ++ cur)
  ∧ (cur = [] → groups = []).

(** ** Sample data *)

(** The record of a project whose download failed. *)
Definition sample_record : record :=
  {[ "id" := JStr "p1"; "status" := JStr "download_error"; "error" := JStr "yt-dlp failed";
     "progress" := JObj {[ "job_audio" := JNum 40 ]} ]}.

(** A project that exists and has no downloaded or merged media yet. *)
Definition sample_fs : FS :=
  {[ ["projects"; "p1"] := Dir;
     ["projects"; "p1"; "metadata.json"] := File (FMeta sample_record) ]}.

(** A segment that is being captioned, and the two-segment list it is in. *)
Definition sample_segment : record :=
  {[ "id" := JNum 2; "filename" := JStr "segment_2.mp4"; "duration" := JNum 5;
     "captioningStatus" := JStr "in-progress"; "captioningProgress" := JNum 0 ]}.

Definition sample_segments : list json :=
  [ JObj {[ "id" := JNum 1; "filename" := JStr "segment_1.mp4"; "duration" := JNum 60;
            "captioningStatus" := JStr "completed"; "captioningProgress" := JNum 100 ]};
    JObj sample_segment ].

Definition sample_fs2 : FS :=
  <[ ["projects"; "p1"; "segments.json"] := File (FSegments sample_segments) ]> sample_fs.





(** A split of a 125 s video in which every tool succeeds. *)
Definition sample_split_env : SplitEnv :=
  {| env_ffmpeg := Some "/usr/bin/ffmpeg";
     env_ffprobe := Some "/usr/bin/ffprobe";
     env_probe := {| probe_stderr := 0; probe_code := 0; probe_output := Some 125%Q |};
     env_probe_uuid := "u-probe-1";
     env_cut_code := λ _, 0%Z;
     env_probe2 := {| probe_stderr := 0; probe_code := 0; probe_output := Some 125%Q |};
     env_probe2_uuid := "u-probe-2";
     env_now := "2025-01-01T00:00:00.000Z" |}.

(** A caption task whose speech-to-text step reports 30% and then exits
    with an error. *)
Definition failing_caption_env : CaptionEnv :=
  {| c_ffmpeg := Some "/usr/bin/ffmpeg";
     c_ffprobe := Some "/usr/bin/ffprobe";
     c_extract := {| tool_progress := []; tool_error := None; tool_output := true |};
     c_whisper := {| tool_progress := [30%Q];
                     tool_error := Some "Whisper exited with code 1";
                     tool_output := false |};
     c_captions := [];
     c_burn := {| tool_progress := []; tool_error := None; tool_output := true |};
     c_subtitle := None;
     c_overlay := {| tool_progress := []; tool_error := None; tool_output := true |};
     c_completedAt := "2025-01-01T00:10:00.000Z";
     c_failedAt := "2025-01-01T00:05:00.000Z" |}.

(** Sample transcripts: seven short words; a short word followed by a whole
    sentence (the fallback without word timestamps); words out of order. *)
Definition sample_words : list Caption :=
  [ {| start := 0; end_ := 1; text := "one" |};
    {| start := 1; end_ := 2; text := "two" |};
    {| start := 2; end_ := 3; text := "three" |};
    {| start := 3; end_ := 4; text := "four" |};
    {| start := 4; end_ := 5; text := "five" |};
    {| start := 5; end_ := 6; text := "six" |};
    {| start := 6; end_ := 7; text := "seven" |} ].

Definition sample_sentences : list Caption :=
  [ {| start := 0; end_ := 1; text := "Hi" |};
    {| start := 1; end_ := 4; text := "this is a long sentence from whisper" |} ].

Definition sample_unordered : list Caption :=
  [ {| start := 5; end_ := 6; text := "fifteen letters" |};
    {| start := 1; end_ := 2; text := "ten chars." |} ].

(** ** lib/utils/project, continued *)

(** [v.key] for a value [v] that is neither [null] nor [undefined]. *)
Definition member (v : jsval) (key : string) : jsval :=
  match v with
  | Some (JObj m) => m !! key
  | _ => undefined
  end.

Module ProjectUtils.

Definition default_captioning : record :=
  {[ "captioningAttempted" := JBool true;
     "captioningModel" := JStr "whisper:base.en";
     "captionedSegments" := JArr [];
     "failedSegments" := JArr [];
     "inProgress" := JArr [] ]}.

Definition ensureCaptioningMetadata (projectId : string) : M bool :=
  metadata ← Project.getProjectMetadata projectId;
  match metadata with
  | None => mret false
  | Some metadata =>
      if negb (truthy (metadata !!! "captioning"))
      then Project.updateProjectMetadata projectId
             {[ "captioning" := Some (JObj default_captioning) ]}
      else mret true
  end.

Definition getSegmentsPath (projectId : string) : path :=
  ["projects"; projectId; "segments.json"].

(** [null] is [None]. *)
Definition getProjectSegments (projectId : string) : M (option (list json)) :=
  let segmentsPath := getSegmentsPath projectId in
  found ← existsSync segmentsPath;
  if negb found then mret None
  else
    try_catch
      (text ← readFileSync segmentsPath;
       segments ← parse_segments text;
       mret (Some segments))
      (λ err, mret None).

Definition saveProjectSegments (projectId : string) (segments : list json) : M bool :=
  let segmentsPath := getSegmentsPath projectId in
  try_catch
    (_ ← writeFileSync_at segmentsPath (FSegments segments);
     mret true)
    (λ err, mret false).

Definition getSegmentPath (projectId segmentFilename : string) : path :=
  ["projects"; projectId; "segments"; segmentFilename].

Definition ensureSegmentsDirectory (projectId : string) : M bool :=
  let segmentsDir := ["projects"; projectId; "segments"] in
  try_catch
    (_ ← mkdirSync_recursive segmentsDir;
     mret true)
    (λ err, mret false).

Definition updateCaptioningProgress (projectId : string) (segmentId progress : Q) : M bool :=
  metadata ← Project.getProjectMetadata projectId;
  match metadata with
  | None => mret false
  | Some metadata =>
      let captioning := metadata !!! "captioning" in
      if negb (truthy captioning) then mret false
      else
        let inProgress := member captioning "inProgress" in
        if negb (truthy inProgress) then mret false
        else
          match inProgress with
          | Some (JArr entries) =>
              (* Find the in-progress entry for this segment *)
              inProgressIndex ← lift (findIndex "segmentNumber" (Some (JNum segmentId)) entries);
              match inProgressIndex with
              | None => mret false
              | Some idx =>
                  try_catch
                    (entry ← lift (assign_prop (entries !! idx) "progress" (JNum progress));
                     let updatedCaptioning :=
                       <["inProgress" := Some (JArr (<[idx := entry]> entries))]>
                         (own_props captioning) in
                     Project.updateProjectMetadata projectId
                       {[ "captioning" := Some (JObj (JSON_stringify updatedCaptioning)) ]})
                    (λ err, mret false)
              end
          | _ => throw "TypeError: metadata.captioning.inProgress.findIndex is not a function"
          end
  end.

End ProjectUtils.

(** ** process/merge/route.ts: the background task *)

(** One chunk [ffmpeg] writes to stderr while it merges: when the chunk
    reports a frame, the seconds [parseTimeToSeconds] reads from its [time=]
    field ([None] for any other chunk), and the clock when it arrives. *)
Record FfmpegChunk : Type := {
  chunk_elapsed : option Q;
  chunk_now : Z;
}.

(** What the merging [ffmpeg] process did: the clock when it was spawned,
    its stderr chunks, its exit code and whether it left its output file. *)
Record FfmpegMerge : Type := {
  fm_start : Z;
  fm_chunks : list FfmpegChunk;
  fm_code : Z;
  fm_output : bool;
}.

(** The external world of one merge task. *)
Record MergeEnv : Type := {
  me_ffmpeg : option string;    (* findFfmpegPaths *)
  me_ffprobe : option string;
  me_probe : ProbeRun;          (* getMediaDuration on the audio track *)
  me_merge : FfmpegMerge;
  me_now : string;              (* the clock when the task completes *)
}.

(** [!tool] is false for a tool that was found: a path that is not empty. *)
Definition tool_found (tool : option string) : bool := truthy (JStr <$> tool).

Module MergeJob.

(** The progress is a quotient by the audio duration: for a duration of 0
    JavaScript computes no number, which only the properties with a positive
    duration rely on. *)
Definition mergeVideoAndAudio (run : FfmpegMerge) (videoPath audioPath outputPath : path)
    (audioDuration : Q) (ffmpegPath : option string) (projectId processId : string) : M unit :=
  if negb (tool_found ffmpegPath) then throw "FFmpeg not found"
  else
    (* Verify input files exist *)
    hasVideo ← existsSync videoPath;
    if negb hasVideo then throw "Video file not found"
    else
      hasAudio ← existsSync audioPath;
      if negb hasAudio then throw "Audio file not found"
      else
        (* cmd.stderr.on('data') *)
        _ ← for_each
              (λ (lastProgressUpdate : Z) (chunk : FfmpegChunk),
                 match chunk_elapsed chunk with
                 | Some elapsedSeconds =>
                     let operationProgress :=
                       Qmin (Math_round (elapsedSeconds / audioDuration * 100)) 100 in
                     (* Only update metadata if significant time has passed *)
                     let now := chunk_now chunk in
                     if (2000 <? now - lastProgressUpdate)%Z
                     then
                       _ ← try_catch
                             (_ ← Project.updateProjectProgress projectId processId
                                    operationProgress;
                              mret tt)
                             (λ err, mret tt);
                       mret now
                     else mret lastProgressUpdate
                 | None => mret lastProgressUpdate
                 end)
              (fm_chunks run) (fm_start run);
        _ ← (if fm_output run then writeFileSync outputPath FOther else mret tt);
        (* cmd.on('close') *)
        if negb (fm_code run =? 0)%Z
        then throw ("FFmpeg exited with code " +:+ pretty (fm_code run))
        else mret tt.

Definition mergeMedia (env : MergeEnv) (projectId processId : string) : M unit :=
  try_catch
    (if negb (tool_found (me_ffmpeg env)) || negb (tool_found (me_ffprobe env))
     then throw "FFmpeg tools not found. Please install FFmpeg and make sure it is in your PATH."
     else
       let projectDir := ["projects"; projectId] in
       let sourceDir := projectDir ++ ["source"] in
       let mergeDir := projectDir ++ ["merge"] in
       _ ← mkdirSync_recursive mergeDir;
       let videoPath := sourceDir ++ ["video.mp4"] in
       let audioPath := sourceDir ++ ["audio.mp3"] in
       let metadataPath := projectDir ++ ["metadata.json"] in
       text ← readFileSync metadataPath;
       metadata ← parse_object text;
       let metadata := set_prop "status" (JStr (status_value MERGING)) metadata in
       let metadata := set_prop "currentProcess" (JStr "merge") metadata in
       _ ← writeFileSync metadataPath (FMeta (JSON_stringify metadata));
       (* Reset progress to 0 for the master process *)
       _ ← Project.updateProjectProgress projectId processId 0%Q;
       let durationProcessId := processId +:+ "_duration" in
       _ ← Project.updateProjectProgress projectId durationProcessId 0%Q;
       audioDuration ← getMediaDuration (me_probe env) projectId durationProcessId;
       (* Duration calculation complete *)
       _ ← Project.updateProjectProgress projectId durationProcessId 100%Q;
       _ ← Project.updateProjectProgress projectId processId 25%Q;
       let processedVideoPath := mergeDir ++ ["processed.mp4"] in
       _ ← mergeVideoAndAudio (me_merge env) videoPath audioPath processedVideoPath
             audioDuration (me_ffmpeg env) projectId processId;
       text ← readFileSync metadataPath;
       metadata ← parse_object text;
       let metadata := set_prop "status" (JStr (status_value MERGED)) metadata in
       let metadata := set_prop "mergeCompletedAt" (JStr (me_now env)) metadata in
       let metadata := set_prop "mergeProcessId" (JStr processId) metadata in
       let metadata := set_prop "audioDuration" (JNum audioDuration) metadata in
       let metadata := set_prop "totalDuration" (JNum audioDuration) metadata in
       let metadata := set_prop "currentProcess" (JStr "split") metadata in
       _ ← writeFileSync metadataPath (FMeta (JSON_stringify metadata));
       (* Set final progress to 100% *)
       _ ← Project.updateProjectProgress projectId processId 100%Q;
       mret tt)
    (λ error,
       _ ← Project.updateProjectStatus projectId MERGING_ERROR (Some error);
       mret tt).

End MergeJob.

(** ** Tracking a record through a task *)

(** The project has a conforming record that satisfies [A], and the file
    system satisfies [B]. *)
Definition tracked (projectId : string) (A : record → Prop) (B : FS → Prop) (fs : FS) : Prop :=
  ∃ r : record, stored_record fs projectId = Some r ∧ conforms r ∧ A r ∧ B fs.

(** [A] does not depend on the progress entry [k]. *)
Definition ignores_progress (k : string) (A : record → Prop) : Prop :=
  ∀ (r : record) (p : Q),
    A r → A (<["progress" := JObj (<[k := JNum p]> (progress_of r))]> r).

(** [B] does not depend on the record of the project. *)
Definition ignores_record (projectId : string) (B : FS → Prop) : Prop :=
  ∀ (fs : FS) (n : node), B fs → B (<[Project.getMetadataPath projectId := n]> fs).

(** Outside the record of the project, [fs] is [reference]. *)
Definition agrees_off_record (projectId : string) (reference fs : FS) : Prop :=
  ∀ p : path, p ≠ Project.getMetadataPath projectId → fs !! p = reference !! p.

(** [r1] is [r0] except for the fields listed. *)
Definition keeps_fields (changed : list string) (r0 r1 : record) : Prop :=
  ∀ k : string, k ∉ changed → r1 !! k = r0 !! k.

(** What the merge task needs from the outside to complete: both tools, no
    file in the way of the merge directory, a duration from [ffprobe], the
    two source files and an [ffmpeg] run that exits with 0. *)
Definition merge_succeeds (env : MergeEnv) (projectId : string) (fs : FS) : Prop :=
  tool_found (me_ffmpeg env) = true
  ∧ tool_found (me_ffprobe env) = true
  ∧ existsb (is_file fs) (ancestors ["projects"; projectId; "merge"]) = false
  ∧ probe_code (me_probe env) = 0%Z
  ∧ is_Some (probe_output (me_probe env))
  ∧ is_Some (fs !! ["projects"; projectId; "source"; "video.mp4"])
  ∧ is_Some (fs !! ["projects"; projectId; "source"; "audio.mp3"])
  ∧ fm_code (me_merge env) = 0%Z.

(** The fields the merge task sets. *)
Definition merge_fields : list string :=
  ["status"; "currentProcess"; "mergeCompletedAt"; "mergeProcessId"; "audioDuration";
   "totalDuration"; "progress"].

(** The record a completed merge leaves, given the one it started from. *)
Definition merged_record (env : MergeEnv) (processId : string) (D : Q) (r0 r : record) : Prop :=
  r !! "status" = Some (JStr "merged")
  ∧ r !! "currentProcess" = Some (JStr "split")
  ∧ r !! "mergeCompletedAt" = Some (JStr (me_now env))
  ∧ r !! "mergeProcessId" = Some (JStr processId)
  ∧ r !! "audioDuration" = Some (JNum D)
  ∧ r !! "totalDuration" = Some (JNum D)
  ∧ progress_of r !! processId = Some (JNum 100)
  ∧ progress_of r !! (processId +:+ "_duration") = Some (JNum 100)
  ∧ keeps_fields merge_fields r0 r.

(** A whole number between 0 and 100. *)
Definition percentage (q : Q) : Prop :=
  (0 <= q)%Q ∧ (q <= 100)%Q ∧ ∃ z : Z, (q == inject_Z z)%Q.

(** ** What a split leaves behind *)





(** ** lib/utils/media.ts: what its split loop is expected to produce *)




(** ** A caption task that succeeds *)

(** The segment list on disk is [l0] up to the progress of segment [idx],
    and every other path of the file system is as in [G]. *)
Definition caption_state (projectId : string) (l0 : list json) (idx : nat) (G fs : FS) : Prop :=
  ∃ l : list json,
    same_but_progress idx l0 l
    ∧ fs = <[["projects"; projectId; "segments.json"] := File (FSegments l)]> G.

(** Both tools are found, none of the four steps rejects, the transcript
    the captions are read from is there, the two steps whose output the
    task checks leave a non-empty file, and the subtitles made of the
    captions convert to ASS (which they do unless a caption holds line
    feeds that make a part of the text look like an entry with a broken
    time line). *)
Definition caption_succeeds (env : CaptionEnv) : Prop :=
  is_Some (c_ffmpeg env) ∧ is_Some (c_ffprobe env)
  ∧ tool_error (c_extract env) = None ∧ tool_error (c_whisper env) = None
  ∧ tool_error (c_burn env) = None ∧ tool_error (c_overlay env) = None
  ∧ tool_output (c_whisper env) = true
  ∧ tool_output (c_burn env) = true ∧ tool_output (c_overlay env) = true
  ∧ ∃ events : string,
      CaptionRoute.assEvents (Captions.srtContent (Captions.subtitleLines (c_captions env)))
      = Ret events.

(** A file of the captions directory. *)
Definition caption_file (projectId name : string) : path :=
  ["projects"; projectId; "captions"; name].

(** The files a caption task works with, for the segment whose identifier
    prints as [name]: the extracted audio, the transcript, the subtitles
    (as [.srt] and, for a while, as [.ass]), the video with captions, the
    one with the title, and the result. *)
Definition audio_file (projectId name : string) : path :=
  caption_file projectId ("segment_" +:+ name +:+ "_audio.wav").
Definition transcript_file (projectId name : string) : path :=
  caption_file projectId ("segment_" +:+ name +:+ "_audio.json").
Definition subtitle_file (projectId name : string) : path :=
  caption_file projectId ("segment_" +:+ name +:+ ".srt").
Definition ass_file (projectId name : string) : path :=
  caption_file projectId ("segment_" +:+ name +:+ ".ass").
Definition captioned_file (projectId name : string) : path :=
  caption_file projectId ("captioned_" +:+ name +:+ ".mp4").
Definition titled_file (projectId name : string) : path :=
  caption_file projectId ("final_" +:+ name +:+ ".mp4").
Definition result_file (projectId name : string) : path :=
  caption_file projectId ("captioned_segment_" +:+ name +:+ ".mp4").

Definition caption_files (projectId name : string) : list path :=
  [ audio_file projectId name; transcript_file projectId name; subtitle_file projectId name;
    ass_file projectId name; captioned_file projectId name; titled_file projectId name;
    result_file projectId name ].

(** All a caption task may touch: the segment list, the captions directory
    with the directories on the way to it, and its files. *)
Definition caption_paths (projectId name : string) : list path :=
  [ ["projects"; projectId; "segments.json"];
    ["projects"]; ["projects"; projectId]; ["projects"; projectId; "captions"];
    audio_file projectId name; transcript_file projectId name; subtitle_file projectId name;
    ass_file projectId name; captioned_file projectId name; titled_file projectId name;
    result_file projectId name ].

(** An identifier that [id_string] prints as the code does: a string, or a
    whole number that JavaScript prints digit by digit. *)
Definition plain_id (v : option json) : Prop :=
  (∃ s : string, v = Some (JStr s))
  ∨ (∃ (q : Q) (z : Z),
       v = Some (JNum q) ∧ (q == inject_Z z)%Q ∧ (Z.abs z < 2 ^ 53)%Z).

(** What a caption task needs to be in the way of none of its steps: a
    file name and a plain identifier in the entry of the segment handed to
    it, the first [.srt] in the path of the subtitles being the extension
    of the file (so neither the project nor the segment has an identifier
    with [.srt] in it), no file in the place of the captions directory or
    of a directory on the way to it, and no directory in the place of one
    of its files. *)
Definition caption_ready (projectId : string) (segment : record) (fs : FS) : Prop :=
  (∃ filename : string, segment !! "filename" = Some (JStr filename))
  ∧ plain_id (segment !! "id")
  ∧ path_replace ".srt" ".ass" (subtitle_file projectId (CaptionRoute.id_string (segment !! "id")))
    = ass_file projectId (CaptionRoute.id_string (segment !! "id"))
  ∧ existsb (is_file fs) (ancestors ["projects"; projectId; "captions"]) = false
  ∧ Forall (λ p : path, is_directory fs p = false)
           (caption_files projectId (CaptionRoute.id_string (segment !! "id"))).

Definition completed_fields : list string :=
  ["captioningStatus"; "captioningCompletedAt"; "captioningProgress"; "subtitle";
   "captionedFilename"].

(** The entry of a segment after its caption task succeeded, [o0] being the
    entry before. *)
Definition completed_segment (env : CaptionEnv) (name : string) (o0 o : gmap string json) : Prop :=
  o !! "captioningStatus" = Some (JStr "completed")
  ∧ o !! "captioningCompletedAt" = Some (JStr (c_completedAt env))
  ∧ o !! "captioningProgress" = Some (JNum 100)
  ∧ o !! "subtitle" = (if truthy (JStr <$> c_subtitle env) then JStr <$> c_subtitle env else None)
  ∧ o !! "captionedFilename" = Some (JStr ("captioned_segment_" +:+ name +:+ ".mp4"))
  ∧ ∀ k : string, k ∉ completed_fields → o !! k = o0 !! k.

(** The files after a caption task succeeded, [G0] being the file system
    before: the result is there, the two intermediate videos and the [.ass]
    file are gone, and so are the audio, the transcript and the subtitles
    when the audio was there to be removed. *)
Definition caption_files_after (env : CaptionEnv) (projectId name : string) (G0 G : FS) : Prop :=
  G !! result_file projectId name = Some (File FOther)
  ∧ G !! captioned_file projectId name = None
  ∧ G !! titled_file projectId name = None
  ∧ G !! ass_file projectId name = None
  ∧ (tool_output (c_extract env) = true →
       G !! audio_file projectId name = None
       ∧ G !! transcript_file projectId name = None
       ∧ G !! subtitle_file projectId name = None)
  ∧ is_Some (G !! ["projects"; projectId; "captions"])
  ∧ ∀ p : path, p ∉ caption_paths projectId name → G !! p = G0 !! p.

(** ** Text of the title overlay *)

(** [a > b] for a length and a number *)
Definition longer_than (n : nat) (limit : Q) : bool := negb (Qle_bool (nat_to_Q n) limit).

Module Overlay.

(** The body of the loop of [wrapText]: the lines pushed so far and
    [currentLine]. *)
Definition wrapWord (maxCharsPerLine : Q) (st : list string * string) (word : string)
    : list string * string :=
  let '(lines, currentLine) := st in
  (* Check if adding this word would exceed the max width *)
  if longer_than (String.length (currentLine +:+ " " +:+ word)) maxCharsPerLine
     && (0 <? String.length currentLine)%nat
  then (lines ++ [currentLine], word)
  else
    (* Add word to current line with a space if not the first word *)
    (lines,
     if (String.length currentLine =? 0)%nat then word else currentLine +:+ " " +:+ word).

Definition wrapText (text : string) (maxCharsPerLine : Q) : list string :=
  let words := split_on " " text in
  let '(lines, currentLine) := fold_left (wrapWord maxCharsPerLine) words ([], "") in
  (* Add the last line if there's anything left *)
  if (0 <? String.length currentLine)%nat then lines ++ [currentLine] else lines.

End Overlay.

(** A string without a space. *)
Definition spaceless (s : string) : Prop := split_on " " s = [s].

(** The words of a list of lines, the empty ones (between two spaces in a
    row) left out. *)
Definition words_of (lines : list string) : list string :=
  filter (λ w : string, w ≠ "") (lines ≫= split_on " ").

(** ** The colour of the title *)

(** Numbers are exact rationals here and doubles in the code.  Where a
    computed value is rounded to a whole number the two can differ only
    when the exact value lies, up to the error of a few operations on
    doubles, half-way between two whole numbers.  [clear_of_half x] keeps
    [x] a millionth away from every such point. *)
Definition clear_of_half (x : Q) : Prop :=
  ((1 # 1000000) <= Math_abs (x - inject_Z (Qfloor x) - (1 # 2)))%Q.


(** A whole number of seconds, small enough for the sums and differences
    of three of them to be exact in doubles as well. *)
Definition whole_offset (x : Q) : Prop := ∃ z : Z, x = inject_Z z ∧ (Z.abs z < 2 ^ 51)%Z.

(** [n.toString(16)] for a whole number [n] (the code calls it on results
    of [Math.round]). *)
Definition toString16 (n : Q) : string :=
  HexadecimalString.NilZero.string_of_int (Z.to_hex_int (Qfloor n)).

Module Colour.

(** Convert HSL to Hex *)
Definition hslToHex (h s l : Q) : string :=
  let s := (s / 100)%Q in
  let l := (l / 100)%Q in
  let c := ((1 - Math_abs (2 * l - 1)) * s)%Q in
  let x := (c * (1 - Math_abs (js_rem (h / 60) 2 - 1)))%Q in
  let m := (l - c / 2)%Q in
  let between (lo hi : Q) : bool := Qle_bool lo h && negb (Qle_bool hi h) in
  let '(r, g, b) :=
    if between 0%Q 60%Q then (c, x, 0%Q)
    else if between 60%Q 120%Q then (x, c, 0%Q)
    else if between 120%Q 180%Q then (0%Q, c, x)
    else if between 180%Q 240%Q then (0%Q, x, c)
    else if between 240%Q 300%Q then (x, 0%Q, c)
    else if between 300%Q 360%Q then (c, 0%Q, x)
    else (0%Q, 0%Q, 0%Q) in
  (* Convert RGB to hex *)
  let rHex := padStart (toString16 (Math_round ((r + m) * 255))) 2 "0" in
  let gHex := padStart (toString16 (Math_round ((g + m) * 255))) 2 "0" in
  let bHex := padStart (toString16 (Math_round ((b + m) * 255))) 2 "0" in
  "#" +:+ rHex +:+ gHex +:+ bHex.

(** [random] is what [Math.random()] returns. *)
Definition generateRandomColor (random : Q) : string :=
  (* Generate random hue (0-360) *)
  let hue := Math_floor (random * 360) in
  (* Use HSL with 100% saturation and 33% lightness *)
  hslToHex hue 100 33.

End Colour.

(** The colour [#rrggbb] with the given channels, each from 0 to 255 and
    written with two lower-case hexadecimal digits. *)
Definition hex_digit (d : Z) : ascii :=
  default "0"%char (String.get (Z.to_nat d) "0123456789abcdef").

Definition two_hex (n : Z) : string :=
  String (hex_digit (n / 16)) (String (hex_digit (n mod 16)) "").

Definition hex_colour (r g b : Z) : string :=
  "#" +:+ two_hex r +:+ two_hex g +:+ two_hex b.

Definition channel (n : Z) : Prop := (0 ≤ n ≤ 255)%Z.

(** ** The handlers of the caption route *)

(** What [captioningStatus] of [GET] holds.  The two first fields take a
    value of the legacy [captioning] block of the record when it has a
    truthy one; the lists hold the [id] of each segment counted. *)
Record CaptioningStatus : Type := {
  captioningAttempted : jsval;
  captioningModel : jsval;
  totalSegments : nat;
  captionedSegments : list jsval;
  failedSegments : list jsval;
  inProgressSegments : list jsval;
}.

(** The JSON bodies the caption route answers with.  [CaptionNotFound n] is
    the error [`Segment ${n} not found`]. *)
Inductive CaptionBody : Type :=
| CaptionError (error : string)
| CaptionNotFound (segmentNumber : json)
| CaptionStatus (projectId : string) (captioning : CaptioningStatus)
| CaptionStarted (projectId : string) (segmentNumber : json) (processId : string).

Record CaptionResponse : Type := { cap_body : CaptionBody; cap_status : Z }.

Definition caption_response (b : CaptionBody) (status : option Z) : CaptionResponse :=
  {| cap_body := b; cap_status := default 200%Z status |}.

(** The call [captionSegment(projectId, segment, processId)] a handler
    starts and does not await. *)
Record CaptionJob : Type := {
  job_projectId : string;
  job_segment : record;
  job_processId : string;
}.

Module CaptionApi.

(** The body of [segments.forEach] in [GET]. *)
Definition countSegment (captioningStatus : CaptioningStatus) (segment : json)
    : M CaptioningStatus :=
  status ← lift (get_prop segment "captioningStatus");
  if strict_eq status (Some (JStr "completed"))
  then
    id ← lift (get_prop segment "id");
    mret {| captioningAttempted := Some (JBool true);
            captioningModel := captioningModel captioningStatus;
            totalSegments := totalSegments captioningStatus;
            captionedSegments := captionedSegments captioningStatus ++ [id];
            failedSegments := failedSegments captioningStatus;
            inProgressSegments := inProgressSegments captioningStatus |}
  else if strict_eq status (Some (JStr "failed"))
  then
    id ← lift (get_prop segment "id");
    mret {| captioningAttempted := Some (JBool true);
            captioningModel := captioningModel captioningStatus;
            totalSegments := totalSegments captioningStatus;
            captionedSegments := captionedSegments captioningStatus;
            failedSegments := failedSegments captioningStatus ++ [id];
            inProgressSegments := inProgressSegments captioningStatus |}
  else if strict_eq status (Some (JStr "in-progress"))
  then
    id ← lift (get_prop segment "id");
    mret {| captioningAttempted := Some (JBool true);
            captioningModel := captioningModel captioningStatus;
            totalSegments := totalSegments captioningStatus;
            captionedSegments := captionedSegments captioningStatus;
            failedSegments := failedSegments captioningStatus;
            inProgressSegments := inProgressSegments captioningStatus ++ [id] |}
  else mret captioningStatus.

Definition GET (projectId : string) : M CaptionResponse :=
  try_catch
    (let projectDir := ["projects"; projectId] in
     (* Check if project exists *)
     found ← existsSync projectDir;
     if negb found
     then mret (caption_response (CaptionError "Project not found") (Some 404%Z))
     else
       (* Read segments data *)
       let segmentsPath := projectDir ++ ["segments.json"] in
       found ← existsSync segmentsPath;
       if negb found
       then mret (caption_response (CaptionError "Segments information not found")
                    (Some 404%Z))
       else
         text ← readFileSync segmentsPath;
         segments ← parse_segments text;
         (* Read metadata for any legacy captioning data *)
         let metadataPath := projectDir ++ ["metadata.json"] in
         text ← readFileSync metadataPath;
         metadata ← parse_object text;
         (* Count segments by status *)
         let captioningStatus :=
           {| captioningAttempted := Some (JBool false);
              captioningModel := Some (JStr "whisper:base.en");
              totalSegments := length segments;
              captionedSegments := [];
              failedSegments := [];
              inProgressSegments := [] |} in
         captioningStatus ← for_each countSegment segments captioningStatus;
         (* Also check legacy data in metadata if exists *)
         let captioning := metadata !!! "captioning" in
         let captioningStatus :=
           if truthy captioning
           then {| captioningAttempted :=
                     js_or (member captioning "captioningAttempted")
                           (captioningAttempted captioningStatus);
                   captioningModel :=
                     js_or (member captioning "captioningModel")
                           (captioningModel captioningStatus);
                   totalSegments := totalSegments captioningStatus;
                   captionedSegments := captionedSegments captioningStatus;
                   failedSegments := failedSegments captioningStatus;
                   inProgressSegments := inProgressSegments captioningStatus |}
           else captioningStatus in
         mret (caption_response (CaptionStatus projectId captioningStatus) None))
    (λ message,
       mret (caption_response
               (CaptionError ("Failed to get captioning status: " +:+ message))
               (Some 500%Z))).

(** [request] is what [request.json()] resolves with or rejects with;
    [uuid], [now] and [random] are what [uuidv4()], the clock and
    [Math.random()] return. *)
Definition POST (projectId : string) (request : outcome json) (uuid now : string) (random : Q)
    : M (CaptionResponse * option CaptionJob) :=
  try_catch
    (body ← lift request;
     segmentNumber ← lift (get_prop body "segmentNumber");
     match segmentNumber with
     | None => mret (caption_response (CaptionError "Missing segment number") (Some 400%Z), None)
     | Some number =>
         let projectDir := ["projects"; projectId] in
         found ← existsSync projectDir;
         if negb found
         then mret (caption_response
                      (CaptionError "Project not found or processing not started")
                      (Some 404%Z), None)
         else
           (* Check if segments.json exists *)
           let segmentsPath := projectDir ++ ["segments.json"] in
           found ← existsSync segmentsPath;
           if negb found
           then mret (caption_response
                        (CaptionError "Segments information not found. Run split process first.")
                        (Some 400%Z), None)
           else
             (* Read segments data *)
             text ← readFileSync segmentsPath;
             segments ← parse_segments text;
             (* Find the requested segment *)
             segmentIndex ← lift (findIndex "id" segmentNumber segments);
             match segmentIndex with
             | None => mret (caption_response (CaptionNotFound number) (Some 404%Z), None)
             | Some idx =>
                 let segment := segments !! idx in
                 (* Generate a process ID *)
                 let processId := uuid in
                 (* Update metadata for title color *)
                 let metadataPath := projectDir ++ ["metadata.json"] in
                 text ← readFileSync metadataPath;
                 metadata ← parse_object text;
                 (* Generate a project color if it doesn't exist *)
                 _ ← (if negb (truthy (metadata !!! "segmentTitleColor"))
                      then
                        let metadata :=
                          set_prop "segmentTitleColor"
                            (JStr (Colour.generateRandomColor random)) metadata in
                        writeFileSync metadataPath (FMeta (JSON_stringify metadata))
                      else mret tt);
                 (* Update segment status in segments.json *)
                 let updated :=
                   <["captioningProgress" := Some (JNum 0)]>
                   (<["captioningProcessId" := Some (JStr processId)]>
                   (<["captioningStartedAt" := Some (JStr now)]>
                   (<["captioningStatus" := Some (JStr "in-progress")]>
                   (own_props segment)))) in
                 _ ← writeFileSync segmentsPath
                       (FSegments (array_set segments idx (JObj (JSON_stringify updated))));
                 (* Start background captioning *)
                 mret (caption_response (CaptionStarted projectId number processId) None,
                       Some {| job_projectId := projectId;
                               job_segment := JSON_stringify (own_props segment);
                               job_processId := processId |})
             end
     end)
    (λ message,
       mret (caption_response
               (CaptionError ("Failed to start caption process: " +:+ message))
               (Some 500%Z), None)).

(** The task a handler started, run with the tools of [env]. *)
Definition run_job (env : CaptionEnv) (job : CaptionJob) : M unit :=
  CaptionRoute.captionSegment env (job_projectId job) (job_segment job) (job_processId job).

End CaptionApi.

Definition started_fields : list string :=
  ["captioningStatus"; "captioningStartedAt"; "captioningProcessId"; "captioningProgress"].

(** The entry of a segment after [POST] accepted a request for it, [o0]
    being the entry before. *)
Definition started_segment (processId now : string) (o0 o : gmap string json) : Prop :=
  o !! "captioningStatus" = Some (JStr "in-progress")
  ∧ o !! "captioningStartedAt" = Some (JStr now)
  ∧ o !! "captioningProcessId" = Some (JStr processId)
  ∧ o !! "captioningProgress" = Some (JNum 0)
  ∧ ∀ k : string, k ∉ started_fields → o !! k = o0 !! k.

(** [s.key] for an entry of a segment list that is not [null]. *)
Definition entry_prop (s : json) (key : string) : jsval :=
  match s with
  | JObj m => m !! key
  | _ => undefined
  end.

(** The [id] of each entry whose [captioningStatus] is [status], in the
    order of the list. *)
Definition ids_with (status : string) (segments : list json) : list jsval :=
  omap (λ s : json,
          if strict_eq (entry_prop s "captioningStatus") (Some (JStr status))
          then Some (entry_prop s "id") else None)
       segments.

(** ** The handler of the download route *)

(** The call [downloadMedia(video, audio, projectId, processId)] the
    handler starts and does not await. *)
Record DownloadJob : Type := {
  dj_video : jsval;
  dj_audio : jsval;
  dj_projectId : string;
  dj_processId : string;
}.

Module DownloadRoute.

(** [{ key = d }] in a destructuring pattern: the default replaces
    [undefined] only. *)
Definition or_default (v : jsval) (d : json) : jsval := Some (default d v).

(** [request] is what [request.json()] resolves or rejects with; [uuid] and
    [now] are what [uuidv4()] and the clock return. *)
Definition POST (projectId : string) (request : outcome json) (uuid now : string)
    : M (Response * option DownloadJob) :=
  try_catch
    (body ← lift request;
     video ← lift (get_prop body "video");
     audio ← lift (get_prop body "audio");
     startTime ← lift (get_prop body "startTime");
     endTime ← lift (get_prop body "endTime");
     audioStartTime ← lift (get_prop body "audioStartTime");
     audioEndTime ← lift (get_prop body "audioEndTime");
     let startTime := or_default startTime (JNum 0) in
     let endTime := or_default endTime (JNum 0) in
     let audioStartTime := or_default audioStartTime (JNum 0) in
     let audioEndTime := or_default audioEndTime (JNum 0) in
     if negb (truthy video) || negb (truthy audio)
     then mret (json_response (BError "Missing required parameters") (Some 400%Z), None)
     else
       (* Create a unique process ID *)
       let processId := uuid in
       (* Create project directory if it doesn't exist *)
       let projectDir := ["projects"; projectId] in
       _ ← mkdirSync_recursive projectDir;
       (* Create metadata *)
       let metadataPath := projectDir ++ ["metadata.json"] in
       _ ← writeFileSync_at metadataPath
             (FMeta (JSON_stringify
                (<["id" := Some (JStr projectId)]>
                (<["createdAt" := Some (JStr now)]>
                (<["status" := Some (JStr (status_value INITIALIZING))]>
                (<["videoUrl" := video]>
                (<["audioUrl" := audio]>
                (<["startTime" := startTime]>
                (<["endTime" := endTime]>
                (<["audioStartTime" := audioStartTime]>
                (<["audioEndTime" := audioEndTime]>
                (<["currentProcess" := Some (JStr "download")]>
                (<["downloadProcessId" := Some (JStr processId)]> ∅)))))))))))));
       (* Initialize progress using the utility function *)
       _ ← Project.updateProjectProgress projectId processId 0%Q;
       (* Start background processing *)
       mret (json_response (BStarted projectId processId) None,
             Some {| dj_video := video; dj_audio := audio;
                     dj_projectId := projectId; dj_processId := processId |}))
    (λ error, mret (json_response (BError "Failed to start download process") (Some 500%Z), None)).

End DownloadRoute.

(** The record a download request creates: the eleven fields of the
    handler and the progress entry of the new process. *)
Definition created_record (projectId uuid now : string)
    (video audio startTime endTime audioStartTime audioEndTime : json) : record :=
  <["progress" := JObj {[ uuid := JNum 0 ]}]>
  (<["id" := JStr projectId]>
  (<["createdAt" := JStr now]>
  (<["status" := JStr "initializing"]>
  (<["videoUrl" := video]>
  (<["audioUrl" := audio]>
  (<["startTime" := startTime]>
  (<["endTime" := endTime]>
  (<["audioStartTime" := audioStartTime]>
  (<["audioEndTime" := audioEndTime]>
  (<["currentProcess" := JStr "download"]>
  (<["downloadProcessId" := JStr uuid]> ∅))))))))))).

(** [fs'] is [fs] with, at most, some directories made. *)
Definition only_directories_made (fs fs' : FS) : Prop :=
  ∀ p : path, fs' !! p = fs !! p ∨ (fs !! p = None ∧ fs' !! p = Some Dir).

(** ** Time stamps *)

(** A whole number written with at least [n] digits. *)
Definition digits (n : nat) (z : Z) : string := padStart (pretty z) n "0".

(** ** Promises settled by child processes *)

(** What a call that spawns a child process leaves behind: the handlers of
    the [data] events still to come, in their order, and the handler of
    [close], which settles the promise of the call (it resolves it with a
    value or rejects it with a message).  A handler that throws is not a
    rejection: the exception leaves the event loop uncaught. *)
Record Pending (A : Type) : Type := {
  on_data : list (M unit);
  on_close : M (outcome A);
}.
Arguments on_data {A} _.
Arguments on_close {A} _.

Inductive Promise (A : Type) : Type :=
| Settled (result : outcome A)
| Waiting (handlers : Pending A).
Arguments Settled {A} result.
Arguments Waiting {A} handlers.

Definition events_left {A : Type} (p : Promise A) : nat :=
  match p with
  | Settled _ => 0
  | Waiting h => S (length (on_data h))
  end.

(** The event loop runs the handler of the next event of a process. *)
Definition deliver {A : Type} (p : Promise A) : M (Promise A) :=
  match p with
  | Settled r => mret (Settled r)
  | Waiting h =>
      match on_data h with
      | handler :: rest =>
          _ ← handler;
          mret (Waiting {| on_data := rest; on_close := on_close h |})
      | [] => r ← on_close h; mret (Settled r)
      end
  end.

(** [Promise.all([p1, p2])]: rejected as soon as one of the two is, resolved
    when both are, pending otherwise. *)
Definition Promise_all {A B : Type} (p1 : Promise A) (p2 : Promise B)
    : option (outcome (A * B)) :=
  match p1, p2 with
  | Settled (Throw e), _ => Some (Throw e)
  | _, Settled (Throw e) => Some (Throw e)
  | Settled (Ret a), Settled (Ret b) => Some (Ret (a, b))
  | _, _ => None
  end.

(** The order in which the event loop delivers the events of two processes
    that have [n1] and [n2] events left: any order that keeps the events of
    each process in sequence.  [schedule] says whose event comes next
    ([true] is the first process) as long as both have one. *)
Fixpoint merge_order (schedule : list bool) (n1 n2 : nat) : list bool :=
  match schedule with
  | [] => replicate n1 true ++ replicate n2 false
  | first :: schedule' =>
      match n1, n2 with
      | O, _ => replicate n2 false
      | _, O => replicate n1 true
      | S n1', S n2' =>
          if first then true :: merge_order schedule' n1' n2
          else false :: merge_order schedule' n1 n2'
      end
  end.

(** What [await Promise.all([p1, p2])] resumes with after the events of
    [order]: the events are delivered until the promise of [Promise.all] is
    settled; the result comes with the events not yet delivered and the two
    promises as they are then.  The result is [None] when the events run out
    first: then the [await] never resumes. *)
Fixpoint await_all {A B : Type} (order : list bool) (p1 : Promise A) (p2 : Promise B)
    : M (option (outcome (A * B)) * (list bool * (Promise A * Promise B))) :=
  match Promise_all p1 p2 with
  | Some result => mret (Some result, (order, (p1, p2)))
  | None =>
      match order with
      | [] => mret (None, ([], (p1, p2)))
      | true :: order' => p1' ← deliver p1; await_all order' p1' p2
      | false :: order' => p2' ← deliver p2; await_all order' p1 p2'
      end
  end.

(** The events that are delivered after the [await] has resumed. *)
Fixpoint drain {A B : Type} (order : list bool) (p1 : Promise A) (p2 : Promise B) : M unit :=
  match order with
  | [] => mret tt
  | true :: order' => p1' ← deliver p1; drain order' p1' p2
  | false :: order' => p2' ← deliver p2; drain order' p1 p2'
  end.

(** A promise awaited on its own: its events, then its result. *)
Definition await_one {A : Type} (p : Promise A) : M A :=
  match p with
  | Settled r => lift r
  | Waiting h =>
      _ ← for_each (λ (_ : unit) (handler : M unit), handler) (on_data h) tt;
      r ← on_close h;
      lift r
  end.

(** ** The download task *)

(** The outside of one [downloadMedia] task. *)
Record DownloadEnv : Type := {
  de_ffmpeg : option string;
  de_ffprobe : option string;
  de_spawn : Download.YtDlpCommand → Download.DownloadRun;   (* what yt-dlp does *)
  de_schedule : list bool;          (* whose event comes next, video or audio download *)
  de_video_uuid : string;           (* uuidv4() for the duration of the video *)
  de_audio_uuid : string;           (* uuidv4() for the duration of the audio *)
  de_video_probe : ProbeRun;
  de_audio_probe : ProbeRun;
  de_probe_schedule : list bool;    (* whose event comes next, video or audio probe *)
  de_now : string;                  (* the clock when the task completes *)
}.

Module DownloadTask.

(** [downloadYouTubeVideo] up to the point where it returns its promise:
    the executor runs at once, the handlers run later. *)
Definition downloadYouTubeVideo (spawn : Download.YtDlpCommand → Download.DownloadRun)
    (videoUrl : string) (outputPath : path) (projectId processId : string)
    (isAudioOnly : bool) (startTime endTime : option Q)
    : M (Promise Download.DownloadResult) :=
  try_catch
    (let formatSelection :=
       if isAudioOnly then "bestaudio[ext=m4a]/bestaudio" else "bestvideo[ext=mp4]/bestvideo" in
     let ytDlpArgs :=
       {| Download.yt_url := videoUrl; Download.yt_format := formatSelection;
          Download.yt_output := outputPath;
          Download.yt_sections := Download.download_sections startTime endTime |} in
     (* Initialize progress at 0% *)
     _ ← Project.updateProjectProgress projectId processId 0%Q;
     let ytDlp := spawn ytDlpArgs in
     mret (Waiting
       {| on_data :=
            (* ytDlp.stdout.on('data') *)
            (λ percentage : Q,
               _ ← Project.updateProjectProgress projectId processId percentage;
               mret tt) <$> Download.dl_percent ytDlp;
          on_close :=
            (* ytDlp.on('close') *)
            if (Download.dl_code ytDlp =? 0)%Z
            then
              _ ← (if Download.dl_file ytDlp then writeFileSync outputPath FOther else mret tt);
              found ← existsSync outputPath;
              if found && Download.dl_file ytDlp
              then
                (* Set progress to 100% when download completes successfully *)
                _ ← Project.updateProjectProgress projectId processId 100%Q;
                mret (Ret {| Download.success := true; Download.error := None |})
              else mret (Ret {| Download.success := false;
                                Download.error :=
                                  Some "Download completed but file is missing or empty" |})
            else mret (Ret {| Download.success := false;
                              Download.error :=
                                Some "yt-dlp process exited with an error code" |}) |}))
    (λ err, mret (Settled (Ret {| Download.success := false;
                                  Download.error := Some "Error executing yt-dlp" |}))).

(** One of the two calls of [downloadMedia]. *)
Definition download (spawn : Download.YtDlpCommand → Download.DownloadRun) (projectId : string)
    (c : Download.DownloadCall) : M (Promise Download.DownloadResult) :=
  downloadYouTubeVideo spawn (Download.call_url c) (Download.call_output c) projectId
    (Download.call_processId c) (Download.call_isAudioOnly c)
    (Some (Download.call_startTime c)) (Some (Download.call_endTime c)).

(** [getMediaDuration] up to the point where it returns its promise.  An
    exception in the executor rejects the promise. *)
Definition getMediaDuration (run : ProbeRun) (projectId processId : string) : M (Promise Q) :=
  let shouldTrackProgress := negb (String.eqb projectId "") && negb (String.eqb processId "") in
  let track (value : Q) : M unit :=
    if shouldTrackProgress
    then _ ← Project.updateProjectProgress projectId processId value; mret tt
    else mret tt in
  try_catch
    (_ ← track 0%Q;
     mret (Waiting
       {| on_data :=
            (* cmd.stderr.on('data') *)
            replicate (probe_stderr run) (track 50%Q);
          on_close :=
            (* cmd.on('close') *)
            _ ← track 100%Q;
            if negb (probe_code run =? 0)%Z
            then mret (Throw "ffprobe exited with an error code")
            else match probe_output run with
                 | None => mret (Throw "Unable to parse duration from ffprobe output")
                 | Some duration => mret (Ret duration)
                 end |}))
    (λ err, mret (Settled (Throw err))).

(** [downloadMedia].  Its [try] block is cut at the two [await]s of a
    [Promise.all]: what runs before, between and after them is inside the
    [try], the event handlers that run while the task waits are outside of
    it.  [failed] is the [catch] block. *)
Definition downloadMedia (env : DownloadEnv) (videoUrl audioUrl projectId processId : string)
    : M unit :=
  let failed (message : string) : M unit :=
    _ ← Project.updateProjectStatus projectId DOWNLOAD_ERROR (Some message);
    mret tt in
  let projectDir := ["projects"; projectId] in
  let sourceDir := projectDir ++ ["source"] in
  let videoPath := sourceDir ++ ["video.mp4"] in
  let audioPath := sourceDir ++ ["audio.mp3"] in
  let metadataPath := projectDir ++ ["metadata.json"] in
  downloads ← try_catch
    (if negb (tool_found (de_ffmpeg env)) || negb (tool_found (de_ffprobe env))
     then throw "FFmpeg tools not found. Please install FFmpeg and make sure it is in your PATH."
     else
       (* Create project directory and source directory *)
       _ ← mkdirSync_recursive sourceDir;
       (* Update metadata *)
       text ← readFileSync metadataPath;
       metadata ← parse_object text;
       let metadata := set_prop "status" (JStr (status_value DOWNLOADING)) metadata in
       _ ← writeFileSync metadataPath (FMeta (JSON_stringify metadata));
       (* Download video and audio in parallel *)
       let calls := Download.downloadMedia_calls videoUrl audioUrl metadata projectId processId in
       videoPromise ← download (de_spawn env) projectId calls.1;
       audioPromise ← download (de_spawn env) projectId calls.2;
       mret (Some (videoPromise, audioPromise)))
    (λ message, _ ← failed message; mret None);
  match downloads with
  | None => mret tt
  | Some (videoPromise, audioPromise) =>
      (* Wait for both downloads to complete *)
      let order :=
        merge_order (de_schedule env) (events_left videoPromise) (events_left audioPromise) in
      resumed ← await_all order videoPromise audioPromise;
      match resumed.1 with
      | None => mret tt
      | Some results =>
          probes ← try_catch
            (results ← lift results;
             let '(videoResult, audioResult) := results in
             (* Check if video download was successful *)
             if negb (Download.success videoResult)
             then throw ("Failed to download video: "
                         +:+ default "undefined" (Download.error videoResult))
             (* Check if audio download was successful *)
             else if negb (Download.success audioResult)
             then throw ("Failed to download audio: "
                         +:+ default "undefined" (Download.error audioResult))
             else
               (* Get media durations *)
               videoProbe ← getMediaDuration (de_video_probe env) projectId (de_video_uuid env);
               audioProbe ← getMediaDuration (de_audio_probe env) projectId (de_audio_uuid env);
               mret (Some (videoProbe, audioProbe)))
            (λ message, _ ← failed message; mret None);
          match probes with
          | None =>
              (* the events of a download that is still running *)
              drain resumed.2.1 resumed.2.2.1 resumed.2.2.2
          | Some (videoProbe, audioProbe) =>
              let order :=
                merge_order (de_probe_schedule env)
                  (events_left videoProbe) (events_left audioProbe) in
              resumed ← await_all order videoProbe audioProbe;
              _ ← match resumed.1 with
                  | None => mret tt
                  | Some durations =>
                      try_catch
                        (durations ← lift durations;
                         let '(videoDuration, audioDuration) := durations in
                         (* Update metadata *)
                         text ← readFileSync metadataPath;
                         metadata ← parse_object text;
                         let metadata :=
                           set_prop "status" (JStr (status_value DOWNLOADED)) metadata in
                         let metadata := set_prop "videoDuration" (JNum videoDuration) metadata in
                         let metadata := set_prop "audioDuration" (JNum audioDuration) metadata in
                         let metadata := set_prop "totalDuration" (JNum audioDuration) metadata in
                         let metadata :=
                           set_prop "downloadCompletedAt" (JStr (de_now env)) metadata in
                         let metadata := set_prop "downloadProcessId" (JStr processId) metadata in
                         let metadata := set_prop "currentProcess" (JStr "trim") metadata in
                         writeFileSync metadataPath (FMeta (JSON_stringify metadata)))
                        failed
                  end;
              (* the events of a probe that is still running *)
              drain resumed.2.1 resumed.2.2.1 resumed.2.2.2
          end
      end
  end.

End DownloadTask.

(** ** What the download task keeps *)

(** How often the event loop turns to one of the two processes. *)
Definition occurrences (b : bool) (order : list bool) : nat :=
  length (filter (λ x, x = b) order).

(** A fact about the file system that no write undoes. *)
Definition stable (F : FS → Prop) : Prop :=
  ∀ (fs : FS) (p : path) (n : node), F fs → F (<[p := n]> fs).

(** Outside the paths listed, [fs] is [reference]. *)
Definition agrees_except (paths : list path) (reference fs : FS) : Prop :=
  ∀ p : path, p ∉ paths → fs !! p = reference !! p.

(** The paths the download task of a project writes to. *)
Definition download_paths (projectId : string) : list path :=
  [ ["projects"; projectId; "metadata.json"];
    ["projects"; projectId; "source"; "video.mp4"];
    ["projects"; projectId; "source"; "audio.mp3"] ].

(** The handlers of a pending promise keep the record of the project
    conforming and any property [A] of it that does not depend on the
    progress map, they change nothing outside the paths of the download
    task, they keep every stable fact, and they never throw; and what the
    promise is settled with satisfies [R]. *)
Definition promise_ok {T : Type} (projectId : string) (reference : FS)
    (R : outcome T → FS → Prop) (p : Promise T) (fs : FS) : Prop :=
  match p with
  | Settled r => R r fs
  | Waiting h =>
      Forall (λ handler : M unit,
                ∀ (A : record → Prop) (F : FS → Prop),
                  (∀ k, ignores_progress k A) → stable F →
                  hoare (λ fs, tracked projectId A
                                 (agrees_except (download_paths projectId) reference) fs ∧ F fs)
                        handler
                        (λ _ fs, tracked projectId A
                                   (agrees_except (download_paths projectId) reference) fs ∧ F fs)
                        (λ _ _, False))
             (on_data h)
      ∧ ∀ (A : record → Prop) (F : FS → Prop),
          (∀ k, ignores_progress k A) → stable F →
          hoare (λ fs, tracked projectId A
                         (agrees_except (download_paths projectId) reference) fs ∧ F fs)
                (on_close h)
                (λ r fs, tracked projectId A
                           (agrees_except (download_paths projectId) reference) fs
                         ∧ F fs ∧ R r fs)
                (λ _ _, False)
  end.

(** A download went well: exit code 0 and a file that is not empty. *)
Definition download_ok (run : Download.DownloadRun) : Prop :=
  Download.dl_code run = 0%Z ∧ Download.dl_file run = true.

(** What the promise of a download is resolved with: it is never rejected;
    it reports success exactly when the download went well, and then the
    file is there; otherwise it carries an error message. *)
Definition download_result (run : Download.DownloadRun) (output : path)
    (r : outcome Download.DownloadResult) (fs : FS) : Prop :=
  ∃ res : Download.DownloadResult,
    r = Ret res
    ∧ (Download.success res = true → download_ok run ∧ is_Some (fs !! output))
    ∧ (Download.success res = false → ¬ download_ok run).

(** A probe went well: exit code 0 and a number on its output. *)
Definition probe_ok (run : ProbeRun) : Prop :=
  probe_code run = 0%Z ∧ is_Some (probe_output run).

(** What the promise of a probe is settled with. *)
Definition probe_result (run : ProbeRun) (r : outcome Q) (fs : FS) : Prop :=
  match r with
  | Ret duration => probe_code run = 0%Z ∧ probe_output run = Some duration
  | Throw message => message ≠ "" ∧ ¬ probe_ok run
  end.

(** The [yt-dlp] invocation of a call of [downloadMedia]. *)
Definition call_command (c : Download.DownloadCall) : Download.YtDlpCommand :=
  {| Download.yt_url := Download.call_url c;
     Download.yt_format :=
       if Download.call_isAudioOnly c
       then "bestaudio[ext=m4a]/bestaudio" else "bestvideo[ext=mp4]/bestvideo";
     Download.yt_output := Download.call_output c;
     Download.yt_sections :=
       Download.download_sections (Some (Download.call_startTime c))
         (Some (Download.call_endTime c)) |}.

(** The two calls of [downloadMedia] for a stored record. *)
Definition download_calls (videoUrl audioUrl : string) (r : record)
    (projectId processId : string) : Download.DownloadCall * Download.DownloadCall :=
  Download.downloadMedia_calls videoUrl audioUrl (JSON_parse r) projectId processId.

(** What the download task needs from the outside to complete: both tools,
    no file in the way of the source directory, two downloads that go well
    and two probes that go well. *)
Definition download_succeeds (env : DownloadEnv) (videoUrl audioUrl projectId processId : string)
    (r0 : record) (fs0 : FS) : Prop :=
  tool_found (de_ffmpeg env) = true
  ∧ tool_found (de_ffprobe env) = true
  ∧ existsb (is_file fs0) (ancestors ["projects"; projectId; "source"]) = false
  ∧ download_ok (de_spawn env
                   (call_command (download_calls videoUrl audioUrl r0 projectId processId).1))
  ∧ download_ok (de_spawn env
                   (call_command (download_calls videoUrl audioUrl r0 projectId processId).2))
  ∧ probe_ok (de_video_probe env)
  ∧ probe_ok (de_audio_probe env).


(** The fields the download task sets when it completes. *)
Definition download_fields : list string :=
  ["status"; "videoDuration"; "audioDuration"; "totalDuration"; "downloadCompletedAt";
   "downloadProcessId"; "currentProcess"; "progress"].

(** The record after a download that completed, [r0] being the record
    before. *)
Definition downloaded_record (env : DownloadEnv) (processId : string) (Dv Da : Q)
    (r0 r : record) : Prop :=
  r !! "status" = Some (JStr "downloaded")
  ∧ r !! "videoDuration" = Some (JNum Dv)
  ∧ r !! "audioDuration" = Some (JNum Da)
  ∧ r !! "totalDuration" = Some (JNum Da)
  ∧ r !! "downloadCompletedAt" = Some (JStr (de_now env))
  ∧ r !! "downloadProcessId" = Some (JStr processId)
  ∧ r !! "currentProcess" = Some (JStr "trim")
  ∧ keeps_fields download_fields r0 r.

(** The record after a download that failed. *)
Definition failed_record (r : record) : Prop :=
  r !! "status" = Some (JStr "download_error")
  ∧ ∃ message : string, message ≠ "" ∧ r !! "error" = Some (JStr message).

(** ** More sample data *)

(** A record with a captioning block that lists two segments in progress. *)
Definition captioning_block : gmap string json :=
  {[ "captioningAttempted" := JBool true;
     "inProgress" :=
       JArr [ JObj {[ "segmentNumber" := JNum 1; "progress" := JNum 90 ]};
              JObj {[ "segmentNumber" := JNum 2; "progress" := JNum 10 ]} ] ]}.

Definition captioning_record : record :=
  {[ "id" := JStr "p1"; "status" := JStr "captioning"; "captioning" := JObj captioning_block ]}.

Definition captioning_fs : FS :=
  {[ ["projects"; "p1"] := Dir;
     ["projects"; "p1"; "metadata.json"] := File (FMeta captioning_record) ]}.

(** A project whose two tracks have been downloaded, and a merge in which
    every tool succeeds on an audio track of 125 s; [ffmpeg] reports its
    position three times, the second time too soon after the first. *)
Definition downloaded_fs : FS :=
  <[ ["projects"; "p1"; "source"; "video.mp4"] := File FOther ]>
  (<[ ["projects"; "p1"; "source"; "audio.mp3"] := File FOther ]> sample_fs).

Definition sample_merge_env : MergeEnv :=
  {| me_ffmpeg := Some "/usr/bin/ffmpeg";
     me_ffprobe := Some "/usr/bin/ffprobe";
     me_probe := {| probe_stderr := 1; probe_code := 0; probe_output := Some 125%Q |};
     me_merge := {| fm_start := 1000;
                    fm_chunks := [ {| chunk_elapsed := Some 50%Q; chunk_now := 4000 |};
                                   {| chunk_elapsed := Some 60%Q; chunk_now := 5000 |};
                                   {| chunk_elapsed := None; chunk_now := 6000 |};
                                   {| chunk_elapsed := Some 130%Q; chunk_now := 9000 |} ];
                    fm_code := 0;
                    fm_output := true |};
     me_now := "2025-01-01T00:20:00.000Z" |}.

(** The same merge with an [ffmpeg] that exits with code 1. *)
Definition failing_merge_env : MergeEnv :=
  {| me_ffmpeg := me_ffmpeg sample_merge_env;
     me_ffprobe := me_ffprobe sample_merge_env;
     me_probe := me_probe sample_merge_env;
     me_merge := {| fm_start := 1000; fm_chunks := []; fm_code := 1; fm_output := false |};
     me_now := me_now sample_merge_env |}.


(** A caption task in which every tool succeeds; the title generator
    answers with a subtitle. *)
Definition good_caption_env : CaptionEnv :=
  {| c_ffmpeg := Some "/usr/bin/ffmpeg";
     c_ffprobe := Some "/usr/bin/ffprobe";
     c_extract := {| tool_progress := []; tool_error := None; tool_output := true |};
     c_whisper := {| tool_progress := [30%Q; 100%Q]; tool_error := None; tool_output := true |};
     c_captions := sample_words;
     c_burn := {| tool_progress := [50%Q]; tool_error := None; tool_output := true |};
     c_subtitle := Some "Counting To Seven";
     c_overlay := {| tool_progress := [120%Q]; tool_error := None; tool_output := true |};
     c_completedAt := "2025-01-01T00:10:00.000Z";
     c_failedAt := "2025-01-01T00:05:00.000Z" |}.

(** A request to caption segment 2. *)
Definition caption_request : json := JObj {[ "segmentNumber" := JNum 2 ]}.

(** A download request without trim offsets. *)
Definition download_request : json :=
  JObj {[ "video" := JStr "https://youtu.be/v1"; "audio" := JStr "https://youtu.be/a1";
          "audioEndTime" := JNum 40 ]}.



(** A download task in which both downloads and both probes go well; the
    audio download ends before the video download. *)
Definition good_download_env : DownloadEnv :=
  {| de_ffmpeg := Some "/usr/bin/ffmpeg";
     de_ffprobe := Some "/usr/bin/ffprobe";
     de_spawn := λ command,
       {| Download.dl_percent := if Download.yt_format command =? "bestaudio[ext=m4a]/bestaudio"
                                 then [100%Q] else [25%Q; 80%Q];
          Download.dl_code := 0;
          Download.dl_file := true |};
     de_schedule := [true; false; false; true];
     de_video_uuid := "uuid-1";
     de_audio_uuid := "uuid-2";
     de_video_probe := {| probe_stderr := 1; probe_code := 0; probe_output := Some 95%Q |};
     de_audio_probe := {| probe_stderr := 2; probe_code := 0; probe_output := Some 40%Q |};
     de_probe_schedule := [false; true];
     de_now := "2025-01-01T00:03:00.000Z" |}.

(** A request for the video from 5 s on and the audio from 10 s to 40 s,
    with no end given for the video. *)
Definition trimmed_record : record :=
  created_record "p1" "job" "2025-01-01T00:00:00.000Z"
    (JStr "https://youtu.be/v1") (JStr "https://youtu.be/a1")
    (JNum 5) (JNum 0) (JNum 10) (JNum 40).

Definition trimmed_fs : FS :=
  {[ ["projects"] := Dir;
     ["projects"; "p1"] := Dir;
     ["projects"; "p1"; "metadata.json"] := File (FMeta trimmed_record) ]}.

(** [yt-dlp] is asked for the range from [from] to [to]. *)
Definition asks_for (command : Download.YtDlpCommand) (from to : Q) : bool :=
  match Download.yt_sections command with
  | Some (s, Some e) => Qeq_bool s from && Qeq_bool e to
  | _ => false
  end.

(** A download task like the one above in which [yt-dlp] fails unless it
    is asked for the video from 5 s to 35 s and for the audio from 10 s to
    40 s. *)
Definition exact_download_env : DownloadEnv :=
  {| de_ffmpeg := de_ffmpeg good_download_env;
     de_ffprobe := de_ffprobe good_download_env;
     de_spawn := λ command,
       {| Download.dl_percent := [50%Q];
          Download.dl_code :=
            if (if Download.yt_format command =? "bestaudio[ext=m4a]/bestaudio"
                then asks_for command 10 40 else asks_for command 5 35)
            then 0%Z else 1%Z;
          Download.dl_file := true |};
     de_schedule := de_schedule good_download_env;
     de_video_uuid := "uuid-1";
     de_audio_uuid := "uuid-2";
     de_video_probe := de_video_probe good_download_env;
     de_audio_probe := de_audio_probe good_download_env;
     de_probe_schedule := de_probe_schedule good_download_env;
     de_now := "2025-01-01T00:03:00.000Z" |}.


(** * Properties *)

Section store_lemmas.

Lemma stringify_spread_lookup (r : record) (updates : jsobj) (k : string) :
  JSON_stringify (spread (JSON_parse r) updates) !! k =
  match updates !! k with
  | Some v => v
  | None => r !! k
  end.
Proof.
  unfold JSON_stringify, spread, JSON_parse.
  rewrite lookup_omap, lookup_union, lookup_fmap.
  destruct (updates !! k) as [v|]; simpl.
  - by destruct (r !! k).
  - by destruct (r !! k).
Qed.

Lemma stringify_set_prop (o : jsobj) (k : string) (v : json) :
  JSON_stringify (set_prop k v o) = <[k := v]> (JSON_stringify o).
Proof.
  apply map_eq; intros i. unfold JSON_stringify, set_prop.
  rewrite lookup_omap. destruct (decide (k = i)) as [->|Hne].
  - by rewrite !lookup_insert_eq.
  - by rewrite !lookup_insert_ne, lookup_omap.
Qed.

Lemma stringify_parse (r : record) : JSON_stringify (JSON_parse r) = r.
Proof.
  apply map_eq; intros i. unfold JSON_stringify, JSON_parse.
  rewrite lookup_omap, lookup_fmap. by destruct (r !! i).
Qed.

Lemma getProjectMetadata_missing (projectId : string) (fs : FS) :
  fs !! Project.getMetadataPath projectId = None →
  Project.getProjectMetadata projectId fs = (Ret None, fs).
Proof.
  intros Hnone. unfold Project.getProjectMetadata, mbind, M_bind, existsSync.
  rewrite Hnone. rewrite bool_decide_eq_false_2 by (intros [? ?]; discriminate).
  reflexivity.
Qed.

Lemma getProjectMetadata_found (projectId : string) (fs : FS) (r : record) :
  fs !! Project.getMetadataPath projectId = Some (File (FMeta r)) →
  Project.getProjectMetadata projectId fs = (Ret (Some (JSON_parse r)), fs).
Proof.
  intros Hsome.
  unfold Project.getProjectMetadata, mbind, M_bind, existsSync, try_catch, readFileSync.
  rewrite Hsome. rewrite bool_decide_eq_true_2 by eauto.
  simpl. rewrite Hsome. reflexivity.
Qed.


Lemma updateProjectMetadata_found (projectId : string) (updates : jsobj) (fs : FS) (r : record) :
  fs !! Project.getMetadataPath projectId = Some (File (FMeta r)) →
  Project.updateProjectMetadata projectId updates fs =
    (Ret true,
     <[Project.getMetadataPath projectId :=
         File (FMeta (JSON_stringify (spread (JSON_parse r) updates)))]> fs).
Proof.
  intros Hsome.
  unfold Project.updateProjectMetadata, mbind, M_bind, existsSync, try_catch, readFileSync.
  rewrite Hsome. rewrite bool_decide_eq_true_2 by eauto.
  simpl. rewrite Hsome. reflexivity.
Qed.

End store_lemmas.

Section progress_store.

Lemma stringify_spread_singleton (r : record) (k : string) (v : json) :
  JSON_stringify (spread (JSON_parse r) {[k := Some v]}) = <[k := v]> r.
Proof.
  apply map_eq; intros i. rewrite stringify_spread_lookup.
  destruct (decide (k = i)) as [->|Hne].
  - by rewrite lookup_singleton_eq, lookup_insert_eq.
  - by rewrite lookup_singleton_ne, lookup_insert_ne.
Qed.

Lemma parsed_progress (r : record) :
  conforms r →
  js_or (JSON_parse r !!! "progress") (Some (JObj ∅)) = Some (JObj (progress_of r)).
Proof.
  unfold conforms, progress_of, JSON_parse, lookup_total, map_lookup_total.
  rewrite lookup_fmap. destruct (r !! "progress") as [[]|]; simpl; intros H; done.
Qed.

(** On an existing, conforming record a progress update rewrites the record
    with one entry of its progress map set. *)
Lemma updateProjectProgress_found (projectId processId : string) (p : Q) (fs : FS) (r : record) :
  fs !! Project.getMetadataPath projectId = Some (File (FMeta r)) →
  conforms r →
  Project.updateProjectProgress projectId processId p fs =
    (Ret true,
     <[Project.getMetadataPath projectId :=
         File (FMeta (<["progress" := JObj (<[processId := JNum p]> (progress_of r))]> r))]> fs).
Proof.
  intros Hsome Hconf. unfold Project.updateProjectProgress, mbind, M_bind.
  rewrite (getProjectMetadata_found _ _ _ Hsome).
  rewrite (parsed_progress _ Hconf). simpl.
  rewrite (updateProjectMetadata_found _ _ _ _ Hsome).
  by rewrite stringify_spread_singleton.
Qed.

Lemma updateProjectProgress_missing (projectId processId : string) (p : Q) (fs : FS) :
  fs !! Project.getMetadataPath projectId = None →
  Project.updateProjectProgress projectId processId p fs = (Ret false, fs).
Proof.
  intros Hnone. unfold Project.updateProjectProgress, mbind, M_bind.
  by rewrite (getProjectMetadata_missing _ _ Hnone).
Qed.

Lemma conforms_set_progress (r : record) (pm : gmap string json) :
  conforms (<["progress" := JObj pm]> r).
Proof. unfold conforms. by rewrite lookup_insert_eq. Qed.

Lemma progress_of_set_progress (r : record) (pm : gmap string json) :
  progress_of (<["progress" := JObj pm]> r) = pm.
Proof. unfold progress_of. by rewrite lookup_insert_eq. Qed.

End progress_store.

(** C2.  On an existing project record, [updateProjectProgress(projectId, k,
    p)] succeeds, sets the entry [k] of the progress map to [p], and leaves
    every other entry of the map, every other field of the record and
    every other file as they were. *)
Theorem updateProjectProgress_frame
    (projectId k : string) (p : Q) (fs : FS) (r : record) :
  stored_record fs projectId = Some r →
  conforms r →
  ∃ r' : record,
    Project.updateProjectProgress projectId k p fs =
      (Ret true, <[Project.getMetadataPath projectId := File (FMeta r')]> fs)
    ∧ progress_of r' !! k = Some (JNum p)
    ∧ (∀ k' : string, k' ≠ k → progress_of r' !! k' = progress_of r !! k')
    ∧ (∀ field : string, field ≠ "progress" → r' !! field = r !! field).
Proof.
  intros Hrec Hconf.
  assert (fs !! Project.getMetadataPath projectId = Some (File (FMeta r))) as Hsome.
  { unfold stored_record in Hrec.
    destruct (fs !! Project.getMetadataPath projectId) as [[|[]]|]; congruence. }
  eexists. split; [exact (updateProjectProgress_found _ k p _ _ Hsome Hconf)|].
  rewrite progress_of_set_progress. repeat split.
  - apply lookup_insert_eq.
  - intros k' Hne. by apply lookup_insert_ne.
  - intros field Hne. by apply lookup_insert_ne.
Qed.

Lemma updateProjectProgress_frame_witness :
  ∃ r' : record,
    Project.updateProjectProgress "p1" "job_video" 25 sample_fs =
      (Ret true, <[Project.getMetadataPath "p1" := File (FMeta r')]> sample_fs)
    ∧ progress_of r' !! "job_video" = Some (JNum 25)
    ∧ (∀ k' : string, k' ≠ "job_video" → progress_of r' !! k' = progress_of sample_record !! k')
    ∧ (∀ field : string, field ≠ "progress" → r' !! field = sample_record !! field).
Proof.
  apply (updateProjectProgress_frame "p1" "job_video" 25 sample_fs sample_record).
  - reflexivity.
  - vm_compute. exact I.
Defined.

(** C3.  When the metadata file of [projectId] does not exist,
    [updateProjectProgress] returns [false] normally (it does not throw)
    and the file system is unchanged. *)
Theorem updateProjectProgress_no_record
    (projectId processId : string) (percent : Q) (fs : FS) :
  fs !! Project.getMetadataPath projectId = None →
  Project.updateProjectProgress projectId processId percent fs = (Ret false, fs).
Proof. apply updateProjectProgress_missing. Qed.

Lemma updateProjectProgress_no_record_witness :
  Project.updateProjectProgress "ghost" "job" 50 sample_fs = (Ret false, sample_fs).
Proof.
  apply (updateProjectProgress_no_record "ghost" "job" 50 sample_fs).
  reflexivity.
Defined.

(** ** Concurrent writers *)

Section writers.

Lemma stored_record_Some (fs : FS) (projectId : string) (r : record) :
  stored_record fs projectId = Some r ↔
  fs !! Project.getMetadataPath projectId = Some (File (FMeta r)).
Proof.
  unfold stored_record. split.
  - destruct (fs !! Project.getMetadataPath projectId) as [[|[]]|]; congruence.
  - by intros ->.
Qed.

(** Running any sequence of progress updates of one project applies them,
    in order, to the map that is stored at that moment; nothing else of
    the record changes. *)
Lemma run_calls_progress (projectId : string) (sched : list StoreCall) :
  ∀ (fs : FS) (r : record),
    stored_record fs projectId = Some r →
    conforms r →
    Forall (λ c, call_project c = projectId) sched →
    ∃ r' : record,
      stored_record (run_calls sched fs) projectId = Some r'
      ∧ conforms r'
      ∧ progress_of r' = fold_left call_entry sched (progress_of r)
      ∧ (∀ field : string, field ≠ "progress" → r' !! field = r !! field).
Proof.
  induction sched as [|c sched IH]; intros fs r Hrec Hconf Hall.
  - exists r. by repeat split.
  - apply Forall_cons in Hall as [Hc Hrest].
    destruct c as [pid k p]. simpl in Hc. subst pid.
    apply stored_record_Some in Hrec.
    unfold run_calls. simpl.
    rewrite (updateProjectProgress_found _ k p _ _ Hrec Hconf). simpl.
    set (r1 := <["progress" := JObj (<[k := JNum p]> (progress_of r))]> r).
    destruct (IH (<[Project.getMetadataPath projectId := File (FMeta r1)]> fs) r1)
      as (r' & Hrec' & Hconf' & Hpm & Hframe).
    + apply stored_record_Some. apply lookup_insert_eq.
    + apply conforms_set_progress.
    + exact Hrest.
    + exists r'. repeat split; [exact Hrec'|exact Hconf'| |].
      * rewrite Hpm. unfold r1. by rewrite progress_of_set_progress.
      * intros field Hne. rewrite (Hframe field Hne). unfold r1.
        by apply lookup_insert_ne.
Qed.

Lemma fold_call_entry_congr (k : string) (l : list StoreCall) :
  ∀ pm pm' : gmap string json,
    pm !! k = pm' !! k →
    fold_left call_entry l pm !! k = fold_left call_entry l pm' !! k.
Proof.
  induction l as [|[pid k' p] l IH]; intros pm pm' Heq; [exact Heq|].
  simpl. apply IH. destruct (decide (k' = k)) as [->|Hne].
  - by rewrite !lookup_insert_eq.
  - by rewrite !lookup_insert_ne.
Qed.

(** Two writers that each use a key of their own: whatever the interleaving,
    the first writer's key ends with what that writer alone would have left. *)
Lemma interleave_keeps_left (k1 k2 : string) (l1 l2 sched : list StoreCall) :
  k1 ≠ k2 →
  interleave l1 l2 sched →
  Forall (λ c, call_key c = k2) l2 →
  ∀ pm : gmap string json,
    fold_left call_entry sched pm !! k1 = fold_left call_entry l1 pm !! k1.
Proof.
  intros Hne Hint. induction Hint as [|a l1 l2 l Hint IH|a l1 l2 l Hint IH]; intros Hall pm.
  - reflexivity.
  - simpl. by apply IH.
  - apply Forall_cons in Hall as [Ha Hrest]. simpl.
    rewrite (IH Hrest). apply fold_call_entry_congr.
    destruct a as [pid k p]. simpl in *. subst k.
    by apply lookup_insert_ne.
Qed.

Lemma interleave_sym {A : Type} (l1 l2 l : list A) :
  interleave l1 l2 l → interleave l2 l1 l.
Proof. induction 1; by constructor. Qed.

Lemma interleave_Forall {A : Type} (P : A → Prop) (l1 l2 l : list A) :
  interleave l1 l2 l → Forall P l1 → Forall P l2 → Forall P l.
Proof.
  induction 1; intros H1 H2; [constructor| |].
  - apply Forall_cons in H1 as [? ?]. constructor; auto.
  - apply Forall_cons in H2 as [? ?]. constructor; auto.
Qed.

End writers.

(** C1.  Two concurrent [setProgress] calls on one project record with
    distinct keys: in whichever order the event loop runs them, afterwards the
    progress map holds [k1 = p1] and [k2 = p2]. *)
Theorem concurrent_setProgress_keeps_both
    (projectId k1 k2 : string) (p1 p2 : Q) (fs : FS) (r : record) (sched : list StoreCall) :
  stored_record fs projectId = Some r →
  conforms r →
  k1 ≠ k2 →
  interleave [SetProgress projectId k1 p1] [SetProgress projectId k2 p2] sched →
  getProgress (run_calls sched fs) projectId k1 = Some (JNum p1)
  ∧ getProgress (run_calls sched fs) projectId k2 = Some (JNum p2).
Proof.
  intros Hrec Hconf Hne Hint.
  destruct (run_calls_progress projectId sched fs r Hrec Hconf) as (r' & Hrec' & _ & Hpm & _).
  { eapply interleave_Forall; [exact Hint| |]; by repeat constructor. }
  unfold getProgress. rewrite Hrec'. simpl. rewrite Hpm. split.
  - rewrite (interleave_keeps_left k1 k2 _ _ _ Hne Hint) by (by repeat constructor).
    simpl. apply lookup_insert_eq.
  - rewrite (interleave_keeps_left k2 k1 _ _ _ (not_eq_sym Hne) (interleave_sym _ _ _ Hint))
      by (by repeat constructor).
    simpl. apply lookup_insert_eq.
Qed.

Lemma concurrent_setProgress_keeps_both_witness :
  getProgress (run_calls [SetProgress "p1" "job_audio" 55; SetProgress "p1" "job_video" 30]
                 sample_fs) "p1" "job_video" = Some (JNum 30)
  ∧ getProgress (run_calls [SetProgress "p1" "job_audio" 55; SetProgress "p1" "job_video" 30]
                   sample_fs) "p1" "job_audio" = Some (JNum 55).
Proof.
  apply (concurrent_setProgress_keeps_both "p1" "job_video" "job_audio" 30 55
           sample_fs sample_record).
  - reflexivity.
  - vm_compute. exact I.
  - discriminate.
  - apply interleave_right, interleave_left, interleave_nil.
Defined.

(** More generally, for two writers that issue any number of updates, each
    to a key of its own, every interleaving leaves under each key the last
    value its writer wrote. *)
Lemma concurrent_writers_keep_last
    (projectId k1 k2 : string) (ps1 ps2 : list Q) (p1 p2 : Q) (fs : FS) (r : record)
    (sched : list StoreCall) :
  stored_record fs projectId = Some r →
  conforms r →
  k1 ≠ k2 →
  interleave (SetProgress projectId k1 <$> (ps1 ++ [p1]))
             (SetProgress projectId k2 <$> (ps2 ++ [p2])) sched →
  getProgress (run_calls sched fs) projectId k1 = Some (JNum p1)
  ∧ getProgress (run_calls sched fs) projectId k2 = Some (JNum p2).
Proof.
  intros Hrec Hconf Hne Hint.
  assert (∀ k ps, Forall (λ c, call_project c = projectId) (SetProgress projectId k <$> ps)) as Hproj.
  { intros k ps. apply Forall_fmap. by apply Forall_true. }
  assert (∀ k ps, Forall (λ c, call_key c = k) (SetProgress projectId k <$> ps)) as Hkey.
  { intros k ps. apply Forall_fmap. by apply Forall_true. }
  assert (∀ k ps p pm,
    fold_left call_entry (SetProgress projectId k <$> (ps ++ [p])) pm !! k = Some (JNum p)) as Hlast.
  { intros k ps p pm. rewrite fmap_app, fold_left_app. simpl. apply lookup_insert_eq. }
  destruct (run_calls_progress projectId sched fs r Hrec Hconf) as (r' & Hrec' & _ & Hpm & _).
  { eapply interleave_Forall; [exact Hint| |]; apply Hproj. }
  unfold getProgress. rewrite Hrec'. simpl. rewrite Hpm. split.
  - rewrite (interleave_keeps_left k1 k2 _ _ _ Hne Hint) by apply Hkey. apply Hlast.
  - rewrite (interleave_keeps_left k2 k1 _ _ _ (not_eq_sym Hne) (interleave_sym _ _ _ Hint))
      by apply Hkey.
    apply Hlast.
Qed.

(** ** Status updates *)

(** C10 (as amended).  On an existing record [updateProjectStatus] sets
    [status]; it removes the stored [error] when the error argument is
    absent or the empty string, and sets [error] when the argument is a
    non-empty string; every other field is unchanged. *)
Theorem updateProjectStatus_effect
    (projectId : string) (status : ProjectStatus) (error : option string)
    (fs : FS) (r : record) :
  stored_record fs projectId = Some r →
  ∃ r' : record,
    Project.updateProjectStatus projectId status error fs =
      (Ret true, <[Project.getMetadataPath projectId := File (FMeta r')]> fs)
    ∧ r' !! "status" = Some (JStr (status_value status))
    ∧ r' !! "error" =
        match error with
        | Some e => if String.eqb e "" then None else Some (JStr e)
        | None => None
        end
    ∧ (∀ field : string, field ≠ "status" → field ≠ "error" → r' !! field = r !! field).
Proof.
  intros Hrec. apply stored_record_Some in Hrec.
  unfold Project.updateProjectStatus.
  eexists. split; [apply (updateProjectMetadata_found _ _ _ _ Hrec)|].
  repeat split.
  - rewrite stringify_spread_lookup.
    destruct (truthy (JStr <$> error)); by rewrite lookup_insert_ne, lookup_singleton_eq.
  - rewrite stringify_spread_lookup.
    destruct error as [e|]; simpl.
    + destruct (String.eqb e ""); simpl; by rewrite lookup_insert_eq.
    + by rewrite lookup_insert_eq.
  - intros field Hs He. rewrite stringify_spread_lookup.
    destruct (truthy (JStr <$> error));
      by rewrite lookup_insert_ne, lookup_singleton_ne.
Qed.

Lemma updateProjectStatus_effect_witness :
  ∃ r' : record,
    Project.updateProjectStatus "p1" DOWNLOADING None sample_fs =
      (Ret true, <[Project.getMetadataPath "p1" := File (FMeta r')]> sample_fs)
    ∧ r' !! "status" = Some (JStr "downloading")
    ∧ r' !! "error" = None
    ∧ (∀ field : string, field ≠ "status" → field ≠ "error" →
         r' !! field = sample_record !! field).
Proof.
  apply (updateProjectStatus_effect "p1" DOWNLOADING None sample_fs sample_record).
  reflexivity.
Defined.

(** C10, as stated, fails for an error argument that is the empty string:
    the record had an error message, the call passes [""] as the error, and
    afterwards the record has the new status and no [error] field at all. *)
Lemma updateProjectStatus_empty_error :
  stored_field sample_fs "p1" "error" = Some (JStr "yt-dlp failed")
  ∧ stored_field (Project.updateProjectStatus "p1" MERGING_ERROR (Some "") sample_fs).2
      "p1" "status" = Some (JStr "merging_error")
  ∧ stored_field (Project.updateProjectStatus "p1" MERGING_ERROR (Some "") sample_fs).2
      "p1" "error" = None
  ∧ stored_field (Project.updateProjectStatus "p1" MERGING_ERROR (Some "") sample_fs).2
      "p1" "error" ≠ Some (JStr "").
Proof.
  split; [vm_compute; reflexivity|].
  split; [vm_compute; reflexivity|].
  split; [vm_compute; reflexivity|].
  vm_compute. discriminate.
Qed.

(** ** Stage triggers *)

Lemma existsSync_eval (p : path) (fs : FS) :
  existsSync p fs = (Ret (bool_decide (is_Some (fs !! p))), fs).
Proof. reflexivity. Qed.

(** C4.  A merge request without both downloaded source files, and a split
    request without the merged file, on an existing project: the response
    is a 400 error, no background task is started and the file system (so
    the project record, status included) is exactly as before. *)
Theorem stage_start_without_artifact
    (projectId uuid : string) (fs : FS) :
  is_Some (fs !! ["projects"; projectId]) →
  is_Some (fs !! ["projects"; projectId; "metadata.json"]) →
  ((fs !! ["projects"; projectId; "source"; "video.mp4"] = None
    ∨ fs !! ["projects"; projectId; "source"; "audio.mp3"] = None) →
   ∃ message : string,
     Merge.POST projectId uuid fs =
       (Ret ({| res_body := BError message; res_status := 400 |}, None), fs))
  ∧ (fs !! ["projects"; projectId; "merge"; "processed.mp4"] = None →
     ∃ message : string,
       Split.POST projectId uuid fs =
         (Ret ({| res_body := BError message; res_status := 400 |}, None), fs)).
Proof.
  intros Hdir Hmeta. split.
  - intros Hmissing. eexists.
    unfold Merge.POST, try_catch, mbind, M_bind. simpl.
    rewrite (bool_decide_eq_true_2 _ Hdir). simpl.
    rewrite (bool_decide_eq_true_2 _ Hmeta). simpl.
    destruct Hmissing as [Hv|Ha].
    + rewrite Hv. rewrite (bool_decide_eq_false_2 (is_Some None)) by (intros [? ?]; discriminate).
      simpl. reflexivity.
    + rewrite Ha. rewrite (bool_decide_eq_false_2 (is_Some None)) by (intros [? ?]; discriminate).
      rewrite orb_true_r. reflexivity.
  - intros Hmissing. eexists.
    unfold Split.POST, try_catch, mbind, M_bind. simpl.
    rewrite (bool_decide_eq_true_2 _ Hdir). simpl.
    rewrite (bool_decide_eq_true_2 _ Hmeta). simpl.
    rewrite Hmissing. rewrite (bool_decide_eq_false_2 (is_Some None)) by (intros [? ?]; discriminate).
    reflexivity.
Qed.

Lemma stage_start_without_artifact_witness :
  (∃ message : string,
     Merge.POST "p1" "u-1" sample_fs =
       (Ret ({| res_body := BError message; res_status := 400 |}, None), sample_fs))
  ∧ (∃ message : string,
       Split.POST "p1" "u-1" sample_fs =
         (Ret ({| res_body := BError message; res_status := 400 |}, None), sample_fs)).
Proof.
  destruct (stage_start_without_artifact "p1" "u-1" sample_fs) as [Hmerge Hsplit].
  - vm_compute. eauto.
  - vm_compute. eauto.
  - split.
    + apply Hmerge. left. reflexivity.
    + apply Hsplit. reflexivity.
Defined.

(** A request for a project whose directory is missing is answered 404, also
    without touching the file system. *)
Lemma stage_start_without_project (projectId uuid : string) (fs : FS) :
  fs !! ["projects"; projectId] = None →
  (∃ message, Merge.POST projectId uuid fs =
     (Ret ({| res_body := BError message; res_status := 404 |}, None), fs))
  ∧ (∃ message, Split.POST projectId uuid fs =
     (Ret ({| res_body := BError message; res_status := 404 |}, None), fs)).
Proof.
  intros Hnone. split; eexists.
  - unfold Merge.POST, try_catch, mbind, M_bind. simpl. rewrite Hnone.
    rewrite (bool_decide_eq_false_2 (is_Some None)) by (intros [? ?]; discriminate).
    reflexivity.
  - unfold Split.POST, try_catch, mbind, M_bind. simpl. rewrite Hnone.
    rewrite (bool_decide_eq_false_2 (is_Some None)) by (intros [? ?]; discriminate).
    reflexivity.
Qed.

(** ** Rules of the program logic *)

Section hoare_rules.
Context {A B : Type}.

Lemma hoare_ret (P : FS → Prop) (a : A) (Q : A → FS → Prop) E :
  (∀ fs, P fs → Q a fs) → hoare P (mret a) Q E.
Proof. intros H fs HP. by apply H. Qed.

Lemma hoare_throw (P : FS → Prop) (e : string) (Q : A → FS → Prop) (E : string → FS → Prop) :
  (∀ fs, P fs → E e fs) → hoare P (throw e) Q E.
Proof. intros H fs HP. by apply H. Qed.

Lemma hoare_bind (P : FS → Prop) (m : M A) (f : A → M B)
    (R : A → FS → Prop) (Q : B → FS → Prop) E :
  hoare P m R E →
  (∀ a, hoare (R a) (f a) Q E) →
  hoare P (m ≫= f) Q E.
Proof.
  intros Hm Hf fs HP. specialize (Hm fs HP).
  unfold mbind, M_bind. destruct (m fs) as [[a|e] fs']; [|exact Hm].
  by apply Hf.
Qed.

Lemma hoare_try_catch (P : FS → Prop) (body : M A) (handler : string → M A)
    (Q : A → FS → Prop) (E' E : string → FS → Prop) :
  hoare P body Q E' →
  (∀ e, hoare (E' e) (handler e) Q E) →
  hoare P (try_catch body handler) Q E.
Proof.
  intros Hb Hh fs HP. specialize (Hb fs HP).
  unfold try_catch. destruct (body fs) as [[a|e] fs']; [exact Hb|].
  by apply Hh.
Qed.

Lemma hoare_conseq (P P' : FS → Prop) (m : M A) (Q Q' : A → FS → Prop)
    (E E' : string → FS → Prop) :
  hoare P' m Q' E' →
  (∀ fs, P fs → P' fs) →
  (∀ a fs, Q' a fs → Q a fs) →
  (∀ e fs, E' e fs → E e fs) →
  hoare P m Q E.
Proof.
  intros Hm HP HQ HE fs Hfs. specialize (Hm fs (HP fs Hfs)).
  destruct (m fs) as [[a|e] fs']; auto.
Qed.

Lemma hoare_lift (P : FS → Prop) (o : outcome A) (Q : A → FS → Prop) E :
  (∀ fs, P fs → match o with Ret a => Q a fs | Throw e => E e fs end) →
  hoare P (lift o) Q E.
Proof. intros H fs HP. unfold lift. specialize (H fs HP). by destruct o. Qed.

Lemma hoare_pre (P : FS → Prop) (m : M A) (Q : A → FS → Prop) E (fact : Prop) :
  (fact → hoare P m Q E) → hoare (λ fs, fact ∧ P fs) m Q E.
Proof. intros H fs [Hf HP]. by apply H. Qed.

End hoare_rules.

(** A loop over a list, with an invariant indexed by the position reached. *)
Lemma hoare_for_each {A S : Type} (body : S → A → M S) (l : list A)
    (I : nat → S → FS → Prop) (E : string → FS → Prop) :
  (∀ (k : nat) (a : A) (s : S), l !! k = Some a → hoare (I k s) (body s a) (I (Datatypes.S k)) E) →
  ∀ s : S, hoare (I 0%nat s) (for_each body l s) (I (length l)) E.
Proof.
  intros Hbody.
  assert (∀ (l2 l1 : list A) (s : S), l = l1 ++ l2 →
            hoare (I (length l1) s) (for_each body l2 s) (I (length l)) E) as Hgen.
  { induction l2 as [|a l2 IH]; intros l1 s Hl.
    - simpl. apply hoare_ret. intros fs HI. subst l. by rewrite app_nil_r.
    - simpl. eapply hoare_bind.
      + apply Hbody. subst l. by rewrite list_lookup_middle.
      + intros s'. specialize (IH (l1 ++ [a]) s').
        rewrite length_app in IH. simpl in IH.
        replace (length l1 + 1)%nat with (Datatypes.S (length l1)) in IH by lia.
        apply IH. subst l. by rewrite <- app_assoc. }
  intros s. exact (Hgen l [] s eq_refl).
Qed.

Lemma keeps_for_each {A S : Type} (P : FS → Prop) (body : S → A → M S) (l : list A) :
  (∀ (a : A) (s : S), keeps P (body s a)) →
  ∀ s : S, keeps P (for_each body l s).
Proof.
  intros Hbody s.
  apply (hoare_for_each body l (λ _ _, P) (λ _, P)).
  intros k a s' _. apply Hbody.
Qed.

(** ** The store never throws on conforming records *)







(** ** Progress values *)


Lemma updateProjectProgress_sets (projectId processId : string) (p : Q) :
  hoare (has_record projectId) (Project.updateProjectProgress projectId processId p)
        (λ b fs, b = true ∧ has_record projectId fs
                 ∧ getProgress fs projectId processId = Some (JNum p))
        (λ _ _, False).
Proof.
  intros fs (r & Hrec & Hconf). apply stored_record_Some in Hrec.
  rewrite (updateProjectProgress_found _ processId p _ _ Hrec Hconf).
  split; [reflexivity|]. split.
  - eexists. split; [apply stored_record_Some, lookup_insert_eq|].
    apply conforms_set_progress.
  - unfold getProgress, stored_record. rewrite lookup_insert_eq. simpl.
    rewrite progress_of_set_progress. apply lookup_insert_eq.
Qed.




(** ** Directories made on the way *)

Section directories.

Lemma with_directories_lookup (p q : path) (fs : FS) :
  with_directories p fs !! q =
    match fs !! q with
    | Some n => Some n
    | None => if bool_decide (q ∈ ancestors p) then Some Dir else None
    end.
Proof.
  unfold with_directories. induction (ancestors p) as [|a l IH]; simpl.
  - by destruct (fs !! q).
  - set (acc := foldr _ fs l) in *.
    destruct (decide (q = a)) as [->|Hne].
    + rewrite bool_decide_eq_true_2 by left.
      destruct (acc !! a) as [n|] eqn:Hacc.
      * rewrite Hacc. destruct (fs !! a); [done|].
        by destruct (bool_decide (a ∈ l)).
      * rewrite lookup_insert_eq. by destruct (fs !! a).
    + assert (bool_decide (q ∈ a :: l) = bool_decide (q ∈ l)) as ->.
      { apply bool_decide_ext. rewrite elem_of_cons. split; [by intros [?|?]|by right]. }
      destruct (acc !! a); [exact IH|]. by rewrite lookup_insert_ne.
Qed.

Lemma with_directories_keeps (p q : path) (fs : FS) :
  is_Some (fs !! q) → with_directories p fs !! q = fs !! q.
Proof. intros [n Hn]. by rewrite with_directories_lookup, Hn. Qed.

Lemma with_directories_other (p q : path) (fs : FS) :
  q ∉ ancestors p → with_directories p fs !! q = fs !! q.
Proof.
  intros Hq. rewrite with_directories_lookup, bool_decide_eq_false_2 by done.
  by destruct (fs !! q).
Qed.

Lemma with_directories_made (p q : path) (fs : FS) :
  q ∈ ancestors p → is_Some (with_directories p fs !! q).
Proof.
  intros Hq. rewrite with_directories_lookup, bool_decide_eq_true_2 by done.
  destruct (fs !! q); eauto.
Qed.

Lemma with_directories_is_directory (p q : path) (fs : FS) :
  q ∈ ancestors p → is_file fs q = false → is_directory (with_directories p fs) q = true.
Proof.
  intros Hq Hfile. unfold is_directory, is_file in *.
  destruct q as [|c q]; [done|]. rewrite with_directories_lookup.
  destruct (fs !! (c :: q)) as [[|d]|]; [done|done|].
  by rewrite bool_decide_eq_true_2.
Qed.

Lemma with_directories_not_directory (p q : path) (fs : FS) :
  q ∉ ancestors p → is_directory (with_directories p fs) q = is_directory fs q.
Proof.
  intros Hq. unfold is_directory. destruct q as [|c q]; [done|].
  by rewrite with_directories_other.
Qed.

Lemma mkdirSync_recursive_run (p : path) (fs : FS) :
  mkdirSync_recursive p fs =
    if existsb (is_file fs) (ancestors p)
    then (Throw "EEXIST: file already exists", fs)
    else (Ret tt, with_directories p fs).
Proof. reflexivity. Qed.

End directories.

(** ** The split loop *)



Lemma repeatM_ok (P : FS → Prop) (step : M unit) (n : nat) :
  hoare P step (λ _, P) (λ _ _, False) →
  hoare P (repeatM n step) (λ _, P) (λ _ _, False).
Proof.
  intros Hstep. induction n as [|n IH]; simpl.
  - by apply hoare_ret.
  - eapply hoare_bind; [exact Hstep|]. intros ?. exact IH.
Qed.




(** ** Arithmetic of the 60-second split *)

Section split_arithmetic.
#[local] Open Scope Q_scope.

Variable D : Q.
Hypothesis D_pos : 0 < D.

Let c : Z := Qceiling (D / 60).
Let n : nat := Z.to_nat c.












End split_arithmetic.



(** The whole split task on the sample project: the segment list it
    stores is the one the loop returned, and the record ends as segmented
    with three segments and full progress. *)
Example splitMedia_sample :
  stored_segments (Split.splitMedia sample_split_env "p1" "job_split" sample_fs).2 "p1"
    = Some ((λ s, JObj (segment_record s)) <$> (expected_segment 125 60 <$> seq 0 3))
  ∧ stored_field (Split.splitMedia sample_split_env "p1" "job_split" sample_fs).2 "p1" "status"
    = Some (JStr "segmented")
  ∧ stored_field (Split.splitMedia sample_split_env "p1" "job_split" sample_fs).2 "p1" "segments"
    = Some (JNum 3)
  ∧ getProgress (Split.splitMedia sample_split_env "p1" "job_split" sample_fs).2 "p1" "job_split"
    = Some (JNum 100).
Proof. split_and!; vm_compute; reflexivity. Qed.

(** The exported variant in lib/utils/media.ts, which the split stage does
    not call, agrees on whole seconds and differs by rounding otherwise. *)
Example media_split_rounds :
  (match Media.splitVideoIntoSegments 125 (λ _, 0%Z) ["in.mp4"] ["out"] 60 with
   | Ret (segments, _) => seg_duration <$> segments
   | Throw _ => []
   end = [60%Q; 60%Q; 5%Q])
  ∧ (match Media.splitVideoIntoSegments (251 # 2) (λ _, 0%Z) ["in.mp4"] ["out"] 60 with
     | Ret (segments, _) => seg_duration <$> segments
     | Throw _ => []
     end = [60%Q; 60%Q; 6%Q]).
Proof. split; reflexivity. Qed.

(** ** Failure isolation in the caption pipeline *)

Section find_index.

Lemma findIndex_insert (key : string) (wanted : jsval) (l0 : list json) :
  ∀ (idx : nat) (o0 o : gmap string json),
    l0 !! idx = Some (JObj o0) →
    o !! key = o0 !! key →
    findIndex key wanted (<[idx := JObj o]> l0) = findIndex key wanted l0.
Proof.
  induction l0 as [|s l0 IH]; intros idx o0 o Hidx Hkey; [done|].
  destruct idx as [|idx]; simpl in *.
  - injection Hidx as ->. simpl. by rewrite Hkey.
  - by rewrite (IH idx o0 o Hidx Hkey).
Qed.

Lemma findIndex_same_but_progress (wanted : jsval) (idx : nat) (l0 l : list json) :
  same_but_progress idx l0 l →
  findIndex "id" wanted l = findIndex "id" wanted l0.
Proof.
  intros (o0 & o & Hidx & -> & Hsame).
  apply (findIndex_insert _ _ _ _ o0); [exact Hidx|]. by apply Hsame.
Qed.

(** A segment found by a defined identifier is an object. *)
Lemma findIndex_found (key : string) (wanted : json) (l : list json) :
  ∀ idx : nat,
    findIndex key (Some wanted) l = Ret (Some idx) →
    ∃ o : gmap string json, l !! idx = Some (JObj o).
Proof.
  induction l as [|s l IH]; intros idx Hfind; [done|].
  simpl in Hfind. destruct (get_prop s key) as [v|e] eqn:Hget; [|done].
  destruct (strict_eq v (Some wanted)) eqn:Heq.
  - injection Hfind as <-. destruct s; simpl in Hget; simplify_eq; eauto.
  - destruct (findIndex key (Some wanted) l) as [[i|]|e'] eqn:Hrest; simplify_eq.
    simpl. by apply IH.
Qed.

End find_index.

Section caption_invariant.
Variables (projectId : string) (fs0 : FS) (l0 : list json) (idx : nat).

Let P : FS → Prop := caption_inv projectId fs0 l0 idx.
Let segmentsPath : path := ["projects"; projectId; "segments.json"].

Lemma same_but_progress_lookup (l : list json) :
  same_but_progress idx l0 l →
  ∃ o0 o : gmap string json,
    l0 !! idx = Some (JObj o0) ∧ l !! idx = Some (JObj o) ∧ l = <[idx := JObj o]> l0
    ∧ ∀ k : string, k ≠ "captioningProgress" → o !! k = o0 !! k.
Proof.
  intros (o0 & o & Hidx & -> & Hsame). exists o0, o.
  repeat split; [exact Hidx| |exact Hsame].
  apply list_lookup_insert_eq. by eapply lookup_lt_Some.
Qed.

Lemma inv_insert_outside (p : path) (n : node) (fs : FS) :
  outside projectId p → P fs → P (<[p := n]> fs).
Proof.
  intros [Hs Hm] [Hmeta (l & Hsegs & Hrel)]. split.
  - by rewrite lookup_insert_ne.
  - exists l. split; [|exact Hrel]. by rewrite lookup_insert_ne.
Qed.

Lemma inv_delete_outside (p : path) (fs : FS) :
  outside projectId p → P fs → P (delete p fs).
Proof.
  intros [Hs Hm] [Hmeta (l & Hsegs & Hrel)]. split.
  - by rewrite lookup_delete_ne.
  - exists l. split; [|exact Hrel]. by rewrite lookup_delete_ne.
Qed.

Lemma keeps_writeFileSync (p : path) (d : fdata) :
  outside projectId p → keeps P (writeFileSync p d).
Proof. intros Hout fs HP. by apply inv_insert_outside. Qed.

Lemma keeps_writeFileSync_at (p : path) (d : fdata) :
  outside projectId p → keeps P (writeFileSync_at p d).
Proof.
  intros Hout fs HP. unfold writeFileSync_at.
  destruct (is_directory fs p); [exact HP|].
  destruct (is_directory fs (dirname p)); [by apply inv_insert_outside|].
  by destruct (is_file fs (dirname p)).
Qed.

Lemma keeps_mkdirSync_recursive (p : path) :
  Forall (outside projectId) (ancestors p) → keeps P (mkdirSync_recursive p).
Proof.
  intros Hout fs HP. unfold mkdirSync_recursive.
  destruct (existsb (is_file fs) (ancestors p)); [exact HP|].
  induction Hout as [|q l Hq _ IH]; [exact HP|]. simpl.
  destruct (foldr _ fs l !! q); [exact IH|]. by apply inv_insert_outside.
Qed.

Lemma keeps_unlinkSync (p : path) :
  outside projectId p → keeps P (unlinkSync p).
Proof.
  intros Hout fs HP. unfold unlinkSync.
  destruct (fs !! p) as [[|d]|]; try exact HP. by apply inv_delete_outside.
Qed.

Lemma keeps_existsSync (p : path) : keeps P (existsSync p).
Proof. intros fs HP. exact HP. Qed.

Lemma keeps_readFileSync (p : path) : keeps P (readFileSync p).
Proof. intros fs HP. unfold readFileSync. by destruct (fs !! p) as [[|d]|]. Qed.

Lemma keeps_copyFileSync (src dest : path) :
  outside projectId dest → keeps P (copyFileSync src dest).
Proof.
  intros Hout. unfold copyFileSync.
  eapply hoare_bind; [apply keeps_readFileSync|]. intros d.
  by apply keeps_writeFileSync_at.
Qed.

Lemma keeps_parse_json (d : fdata) : keeps P (parse_json d).
Proof. intros fs HP. by destruct d. Qed.

Lemma keeps_lift {A : Type} (o : outcome A) : keeps P (lift o).
Proof. intros fs HP. by destruct o. Qed.

Lemma keeps_createSubtitleFile (captions : list Caption) (p : path) :
  outside projectId p → keeps P (Captions.createSubtitleFile captions p).
Proof. intros Hout. by apply keeps_writeFileSync_at. Qed.

Lemma keeps_updateSegmentProgress (progress : Q) :
  keeps P (CaptionRoute.updateSegmentProgress segmentsPath (Some idx) progress).
Proof.
  intros fs HP. pose proof HP as [Hmeta (l & Hsegs & Hrel)].
  destruct (same_but_progress_lookup l Hrel) as (o0 & o & Hidx0 & Hidx & Hl & Hsame).
  unfold CaptionRoute.updateSegmentProgress, try_catch, mbind, M_bind, readFileSync.
  fold segmentsPath in Hsegs. rewrite Hsegs. simpl. rewrite Hidx. simpl.
  destruct (strict_eq (o !! "captioningStatus") (Some (JStr "in-progress"))); [|exact HP].
  simpl. split.
  - rewrite lookup_insert_ne by done. exact Hmeta.
  - eexists. split; [apply lookup_insert_eq|].
    exists o0, (<["captioningProgress" := JNum (Qmin progress 100)]> o).
    split; [exact Hidx0|]. split.
    + rewrite Hl. by rewrite list_insert_insert_eq.
    + intros k Hk. rewrite lookup_insert_ne by done. by apply Hsame.
Qed.

Lemma keeps_run_tool (run : ToolRun) (output : path) (callback : option (Q → M unit)) :
  outside projectId output →
  (∀ f, callback = Some f → ∀ p, keeps P (f p)) →
  keeps P (CaptionRoute.run_tool run output callback).
Proof.
  intros Hout Hcb. unfold CaptionRoute.run_tool.
  assert (∀ p : Q, keeps P (match callback with Some f => f p | None => mret tt end)) as Hrep.
  { intros p. destruct callback as [f|]; [by apply Hcb|by apply hoare_ret]. }
  eapply hoare_bind.
  - apply (keeps_for_each P). intros p []. apply Hrep.
  - intros ?. destruct (tool_error run) as [message|]; [by apply hoare_throw|].
    eapply hoare_bind; [|intros ?; apply Hrep].
    destruct (tool_output run); [by apply keeps_writeFileSync|by apply hoare_ret].
Qed.

Lemma path_replace_length (old new : string) (p : path) :
  length (path_replace old new p) = length p.
Proof.
  induction p as [|name p IH]; [done|]. simpl.
  destruct (occurs old name); simpl; by rewrite ?IH.
Qed.

Lemma outside_of_length (p : path) : length p ≠ 3%nat → outside projectId p.
Proof. intros Hp. split; by intros ->. Qed.

Lemma keeps_addCaptionsToVideo (run : ToolRun) (subtitles output : path)
    (callback : Q → M unit) :
  length subtitles ≠ 3%nat → outside projectId output →
  (∀ p, keeps P (callback p)) →
  keeps P (CaptionRoute.addCaptionsToVideo run subtitles output callback).
Proof.
  intros Hsub Hout Hcb. unfold CaptionRoute.addCaptionsToVideo.
  assert (outside projectId (path_replace ".srt" ".ass" subtitles)) as Hass.
  { apply outside_of_length. by rewrite path_replace_length. }
  eapply hoare_bind; [apply keeps_readFileSync|]. intros ?.
  eapply hoare_bind; [apply keeps_lift|]. intros ?.
  eapply hoare_bind; [by apply keeps_writeFileSync_at|]. intros ?.
  eapply hoare_bind; [apply (keeps_for_each P); intros p []; apply Hcb|]. intros ?.
  eapply hoare_bind.
  { eapply hoare_try_catch with (E' := λ _, P); [by apply keeps_unlinkSync|].
    intros e. by apply hoare_ret. }
  intros ?. destruct (tool_error run) as [message|]; [by apply hoare_throw|].
  eapply hoare_bind; [|intros ?; apply Hcb].
  destruct (tool_output run); [by apply keeps_writeFileSync|by apply hoare_ret].
Qed.

End caption_invariant.

Section caption_try.
Variables (env : CaptionEnv) (projectId : string) (segment : record) (processId : string).
Variables (fs0 : FS) (l0 : list json) (idx : nat).
Hypothesis found : findIndex "id" (segment !! "id") l0 = Ret (Some idx).

Let P : FS → Prop := caption_inv projectId fs0 l0 idx.

Lemma outside_captions_dir : outside projectId ["projects"; projectId; "captions"].
Proof. split; discriminate. Qed.

Lemma outside_captions (name : string) :
  outside projectId ["projects"; projectId; "captions"; name].
Proof. split; discriminate. Qed.

Lemma read_segments_then {B : Type} (f : list json → M B) (Q : B → FS → Prop) :
  (∀ l : list json, same_but_progress idx l0 l → hoare P (f l) Q (λ _, P)) →
  hoare P (text ← readFileSync ["projects"; projectId; "segments.json"];
           segments ← parse_segments text;
           f segments) Q (λ _, P).
Proof.
  intros Hf fs HP. pose proof HP as [_ (l & Hsegs & Hrel)].
  unfold mbind, M_bind, readFileSync. rewrite Hsegs. simpl.
  by apply Hf.
Qed.

Lemma lift_ret_then {A B : Type} (a : A) (f : A → M B) (Q : B → FS → Prop) E :
  hoare P (f a) Q E → hoare P (x ← lift (Ret a); f x) Q E.
Proof. intros Hf fs HP. by apply Hf. Qed.

Lemma keeps_then {A B : Type} (m : M A) (f : A → M B) (Q : B → FS → Prop) :
  keeps P m → (∀ a, hoare P (f a) Q (λ _, P)) → hoare P (m ≫= f) Q (λ _, P).
Proof. intros Hm Hf. eapply hoare_bind; [exact Hm|exact Hf]. Qed.

Lemma keeps_progress_callback (lo span : Q) (f : Q → M unit) :
  Some (λ progress : Q,
          CaptionRoute.updateSegmentProgress ["projects"; projectId; "segments.json"]
            (Some idx) (lo + progress / 100 * span)%Q) = Some f →
  ∀ p : Q, keeps P (f p).
Proof. intros [= <-] p. apply keeps_updateSegmentProgress. Qed.

(** Until its last write the task changes nothing but the progress of its
    own segment; so whenever it throws, that is all it has changed. *)
Lemma captionSegment_try_keeps :
  hoare P (CaptionRoute.captionSegment_try env projectId segment processId)
        (λ _ _, True) (λ _, P).
Proof.
  unfold CaptionRoute.captionSegment_try.
  destruct (negb _); [by apply hoare_throw|].
  cbv zeta. cbn [app].
  apply keeps_then; [apply keeps_lift|intros filename].
  apply keeps_then.
  { apply keeps_mkdirSync_recursive. repeat constructor; discriminate. }
  intros ?.
  apply read_segments_then. intros l Hrel.
  rewrite (findIndex_same_but_progress _ idx l0 l Hrel), found.
  apply lift_ret_then.
  apply keeps_then; [apply keeps_updateSegmentProgress|intros ?].
  apply keeps_then; [apply keeps_run_tool; [apply outside_captions|done]|intros ?].
  apply keeps_then; [apply keeps_updateSegmentProgress|intros ?].
  apply keeps_then;
    [apply keeps_run_tool; [apply outside_captions|apply keeps_progress_callback]|intros ?].
  apply keeps_then; [apply keeps_updateSegmentProgress|intros ?].
  apply keeps_then; [apply keeps_createSubtitleFile, outside_captions|intros ?].
  apply keeps_then; [apply keeps_updateSegmentProgress|intros ?].
  apply keeps_then.
  { apply keeps_addCaptionsToVideo; [discriminate|apply outside_captions|].
    intros p. apply keeps_updateSegmentProgress. }
  intros ?.
  apply keeps_then; [apply keeps_existsSync|intros ?].
  destruct (negb _); [by apply hoare_throw|].
  apply keeps_then; [apply keeps_updateSegmentProgress|intros ?].
  apply keeps_then; [apply keeps_readFileSync|intros ?].
  apply keeps_then; [apply keeps_parse_json|intros ?].
  apply keeps_then; [apply keeps_lift|intros ?].
  apply keeps_then;
    [apply keeps_run_tool; [apply outside_captions|apply keeps_progress_callback]|intros ?].
  apply keeps_then; [apply keeps_updateSegmentProgress|intros ?].
  apply keeps_then; [apply keeps_existsSync|intros ?].
  destruct (negb _); [by apply hoare_throw|].
  apply keeps_then; [apply keeps_copyFileSync, outside_captions|intros ?].
  apply keeps_then.
  { eapply hoare_try_catch with (E' := λ _, P); [|intros e; by apply hoare_ret].
    apply keeps_then; [apply keeps_unlinkSync, outside_captions|intros ?].
    apply keeps_then; [apply keeps_unlinkSync, outside_captions|intros ?].
    apply keeps_then; [apply keeps_unlinkSync, outside_captions|intros ?].
    apply keeps_then; [apply keeps_unlinkSync, outside_captions|intros ?].
    apply keeps_then; [apply keeps_existsSync|intros b].
    destruct b; [apply keeps_unlinkSync, outside_captions|by apply hoare_ret]. }
  intros ?.
  apply keeps_then; [apply keeps_updateSegmentProgress|intros ?].
  apply read_segments_then. intros l' Hrel'.
  intros fs HP. exact I.
Qed.

End caption_try.

Lemma stringify_insert_Some (o : jsobj) (k : string) (v : json) :
  JSON_stringify (<[k := Some v]> o) = <[k := v]> (JSON_stringify o).
Proof. apply stringify_set_prop. Qed.

(** C8.  When the caption sub-pipeline of one segment fails, at whatever
    phase, the catch block leaves this state: the failing segment's record
    has [captioningStatus = 'failed'] with [captioningError] and
    [captioningFailedAt] set (its other fields, progress apart, are as they
    were); every other entry of the segment list is unchanged; and the
    project record, so its [status], is unchanged. *)
Theorem caption_failure_is_isolated
    (env : CaptionEnv) (projectId : string) (segment : record) (processId : string)
    (fs0 : FS) (l0 : list json) (idx : nat) (message : string) :
  stored_segments fs0 projectId = Some l0 →
  is_Some (segment !! "id") →
  findIndex "id" (segment !! "id") l0 = Ret (Some idx) →
  (CaptionRoute.captionSegment_try env projectId segment processId fs0).1 = Throw message →
  ∃ (fs2 : FS) (o0 o2 : gmap string json),
    CaptionRoute.captionSegment env projectId segment processId fs0 = (Ret tt, fs2)
    ∧ l0 !! idx = Some (JObj o0)
    ∧ stored_segments fs2 projectId = Some (<[idx := JObj o2]> l0)
    ∧ o2 !! "captioningStatus" = Some (JStr "failed")
    ∧ o2 !! "captioningError" = Some (JStr message)
    ∧ o2 !! "captioningFailedAt" = Some (JStr (c_failedAt env))
    ∧ (∀ k : string,
         k ≠ "captioningStatus" → k ≠ "captioningError" → k ≠ "captioningFailedAt" →
         k ≠ "captioningProgress" → o2 !! k = o0 !! k)
    ∧ (∀ i : nat, i ≠ idx → <[idx := JObj o2]> l0 !! i = l0 !! i)
    ∧ stored_record fs2 projectId = stored_record fs0 projectId.
Proof.
  intros Hsegs [w Hid] Hfind Hthrow.
  assert (fs0 !! ["projects"; projectId; "segments.json"] = Some (File (FSegments l0))) as Hfile.
  { unfold stored_segments in Hsegs.
    destruct (fs0 !! ["projects"; projectId; "segments.json"]) as [[|[]]|]; congruence. }
  pose proof Hfind as Hobj. rewrite Hid in Hobj.
  apply findIndex_found in Hobj as [o0 Hidx0].
  assert (caption_inv projectId fs0 l0 idx fs0) as Hinit.
  { split; [reflexivity|]. exists l0. split; [exact Hfile|].
    exists o0, o0. split; [exact Hidx0|]. split; [|done].
    symmetry. by apply list_insert_id. }
  pose proof (captionSegment_try_keeps env projectId segment processId fs0 l0 idx Hfind
                fs0 Hinit) as Htry.
  unfold CaptionRoute.captionSegment, try_catch.
  destruct (CaptionRoute.captionSegment_try env projectId segment processId fs0)
    as [[[]|e] fs1]; simpl in Hthrow; [discriminate|].
  injection Hthrow as ->.
  destruct Htry as [Hmeta (l1 & Hfile1 & Hrel)].
  destruct (same_but_progress_lookup l0 idx l1 Hrel) as (o0' & o1 & Hidx0' & Hidx1 & Hl1 & Hsame).
  assert (o0' = o0) as -> by congruence.
  unfold CaptionRoute.captionSegment_catch, try_catch, mbind, M_bind, readFileSync.
  cbn [app]. rewrite Hfile1. simpl.
  rewrite (findIndex_same_but_progress _ idx l0 l1 Hrel), Hfind. simpl.
  rewrite Hidx1. simpl.
  unfold array_set. rewrite (proj2 (Nat.ltb_lt _ _) (lookup_lt_Some _ _ _ Hidx1)).
  rewrite !stringify_insert_Some, stringify_parse.
  rewrite Hl1, list_insert_insert_eq.
  eexists _, o0, _. split; [reflexivity|]. split; [exact Hidx0|].
  split. { unfold stored_segments. by rewrite lookup_insert_eq. }
  split. { by rewrite lookup_insert_ne, lookup_insert_ne, lookup_insert_eq. }
  split. { by rewrite lookup_insert_eq. }
  split. { by rewrite lookup_insert_ne, lookup_insert_eq. }
  split. { intros k H1 H2 H3 H4. rewrite !lookup_insert_ne by done. by apply Hsame. }
  split. { intros i Hi. by apply list_lookup_insert_ne. }
  unfold stored_record, Project.getMetadataPath.
  rewrite lookup_insert_ne by discriminate. by rewrite Hmeta.
Qed.

Lemma caption_failure_is_isolated_witness :
  ∃ (fs2 : FS) (o0 o2 : gmap string json),
    CaptionRoute.captionSegment failing_caption_env "p1" sample_segment "job_c" sample_fs2
      = (Ret tt, fs2)
    ∧ sample_segments !! 1%nat = Some (JObj o0)
    ∧ stored_segments fs2 "p1" = Some (<[1%nat := JObj o2]> sample_segments)
    ∧ o2 !! "captioningStatus" = Some (JStr "failed")
    ∧ o2 !! "captioningError" = Some (JStr "Whisper exited with code 1")
    ∧ o2 !! "captioningFailedAt" = Some (JStr "2025-01-01T00:05:00.000Z")
    ∧ (∀ k : string,
         k ≠ "captioningStatus" → k ≠ "captioningError" → k ≠ "captioningFailedAt" →
         k ≠ "captioningProgress" → o2 !! k = o0 !! k)
    ∧ (∀ i : nat, i ≠ 1%nat → <[1%nat := JObj o2]> sample_segments !! i = sample_segments !! i)
    ∧ stored_record fs2 "p1" = stored_record sample_fs2 "p1".
Proof.
  apply (caption_failure_is_isolated failing_caption_env "p1" sample_segment "job_c"
           sample_fs2 sample_segments 1%nat "Whisper exited with code 1").
  - reflexivity.
  - vm_compute. eauto.
  - reflexivity.
  - vm_compute. reflexivity.
Defined.

(** ** Subtitle line packing *)

Section strings.

Lemma string_length_app (s1 s2 : string) :
  String.length (s1 +:+ s2) = (String.length s1 + String.length s2)%nat.
Proof.
  induction s1 as [|c s1 IH]; [done|].
  change (S (String.length (s1 +:+ s2)) = S (String.length s1 + String.length s2)).
  by rewrite IH.
Qed.

Lemma string_app_assoc (s1 s2 s3 : string) :
  (s1 +:+ s2) +:+ s3 = s1 +:+ (s2 +:+ s3).
Proof.
  induction s1 as [|c s1 IH]; [done|].
  change (String c ((s1 +:+ s2) +:+ s3) = String c (s1 +:+ (s2 +:+ s3))).
  by rewrite IH.
Qed.

Lemma trimStart_length (s : string) : (String.length (trimStart s) ≤ String.length s)%nat.
Proof.
  induction s as [|c s IH]; simpl; [done|].
  destruct (is_space c); simpl; lia.
Qed.

Lemma trimEnd_length (s : string) : (String.length (trimEnd s) ≤ String.length s)%nat.
Proof.
  induction s as [|c s IH]; simpl; [done|].
  destruct (trimEnd s) as [|c' r]; simpl in *.
  - destruct (is_space c); simpl; lia.
  - lia.
Qed.

(** Trimming never makes a text longer. *)
Lemma trim_length (s : string) : (String.length (trim s) ≤ String.length s)%nat.
Proof.
  unfold trim. etrans; [apply trimEnd_length|apply trimStart_length].
Qed.

Lemma joined_snoc (g : list Caption) (w : Caption) :
  joined (g ++ [w]) = joined g +:+ text w +:+ " ".
Proof.
  induction g as [|c g IH]; simpl.
  - done.
  - rewrite IH. by rewrite !string_app_assoc.
Qed.

Lemma joined_snoc_length (g : list Caption) (w : Caption) :
  String.length (joined (g ++ [w]))
  = (String.length (joined g) + String.length (text w) + 1)%nat.
Proof. rewrite joined_snoc, !string_length_app. simpl. lia. Qed.

End strings.

Section groups.

Lemma lines_of_groups_snoc (groups : list (list Caption)) (g : list Caption) (e : Q) :
  lines_of_groups (groups ++ [g]) e
  = lines_of_groups groups (first_start g)
    ++ [{| start := first_start g; end_ := e; text := trim (joined g) |}].
Proof.
  induction groups as [|g0 groups IH]; simpl; [done|].
  rewrite IH. by destruct groups.
Qed.

Lemma chain_snoc {A : Type} (R : A → A → Prop) (l : list A) (a : A) :
  chain R l → (∀ x, last l = Some x → R x a) → chain R (l ++ [a]).
Proof.
  induction l as [|x l IH]; intros Hl Hlast; simpl; [done|].
  destruct l as [|y l]; simpl in *.
  - split; [|done]. by apply Hlast.
  - destruct Hl as [Hxy Hl]. split; [exact Hxy|]. by apply IH.
Qed.

End groups.

Section packing.
#[local] Arguments Nat.leb : simpl never.
#[local] Arguments Nat.ltb : simpl never.

Lemma chain_last_change {A : Type} (R : A → A → Prop) (l : list A) (a b : A) :
chain R (l ++ [a]) → (∀ x, R x a → R x b) → chain R (l ++ [b]).
Proof.
induction l as [|x l IH]; intros Hl Hab; simpl; [done|].
destruct l as [|y l]; simpl in *.
- destruct Hl as [Hxa _]. split; [by apply Hab|done].
- destruct Hl as [Hxy Hl]. split; [exact Hxy|]. by apply IH.
Qed.

Lemma packWord_empty (lines : list Caption) (s e : Q) (w : Caption) :
Captions.packWord
  (lines, {| Captions.cl_start := s; Captions.cl_end := e;
             Captions.cl_text := ""; Captions.cl_wordCount := 0 |}) w
= if (20 <=? String.length (text w))%nat
  then (lines, {| Captions.cl_start := start w; Captions.cl_end := end_ w;
                  Captions.cl_text := ""; Captions.cl_wordCount := 0 |})
  else (lines, {| Captions.cl_start := start w; Captions.cl_end := end_ w;
                  Captions.cl_text := text w +:+ " "; Captions.cl_wordCount := 1 |}).
Proof.
unfold Captions.packWord. simpl.
change (5 <=? 0)%nat with false. simpl.
by destruct (20 <=? String.length (text w))%nat.
Qed.

Lemma packWord_nonempty (lines : list Caption) (s e : Q) (t : string) (n : nat) (w : Caption) :
Captions.packWord
  (lines, {| Captions.cl_start := s; Captions.cl_end := e;
             Captions.cl_text := t; Captions.cl_wordCount := S n |}) w
= if (5 <=? S n)%nat || (20 <=? String.length t + String.length (text w))%nat
  then (lines ++ [{| start := s; end_ := start w; text := trim t |}],
        {| Captions.cl_start := start w; Captions.cl_end := end_ w;
           Captions.cl_text := text w +:+ " "; Captions.cl_wordCount := 1 |})
  else (lines, {| Captions.cl_start := s; Captions.cl_end := end_ w;
                  Captions.cl_text := t +:+ text w +:+ " ";
                  Captions.cl_wordCount := S n + 1 |}).
Proof.
unfold Captions.packWord.
change (Captions.cl_wordCount _ =? 0)%nat with false. cbv iota.
cbn [Captions.cl_wordCount Captions.cl_text Captions.cl_start Captions.cl_end].
destruct (_ || _); reflexivity.
Qed.

Lemma packWord_sim (real : list Caption * Captions.CurrentLine)
  (ghost : list (list Caption) * list Caption) (w : Caption) :
pack_inv real ghost → pack_inv (Captions.packWord real w) (groupWord ghost w).
Proof.
destruct real as [lines [s e t n]], ghost as [groups cur].
intros (Hn & Ht & Hl & Hse & Hnil). simpl in Hn, Ht, Hse. subst n t lines.
destruct cur as [|c cur].
- (* the line is empty *)
  rewrite (Hnil eq_refl).
  change (length (@nil Caption)) with 0%nat. change (joined []) with "".
  rewrite packWord_empty. unfold groupWord.
  change ((5 <=? length (@nil Caption))%nat
          || (20 <=? String.length (joined []) + String.length (text w))%nat)
    with (20 <=? String.length (text w))%nat.
  destruct (20 <=? String.length (text w))%nat; repeat split; done.
- (* the line holds at least one caption *)
  change (length (c :: cur)) with (S (length cur)).
  rewrite packWord_nonempty. unfold groupWord.
  change (length (c :: cur)) with (S (length cur)).
  destruct (Hse ltac:(done)) as [Hs He]. subst s e.
  destruct ((5 <=? S (length cur))%nat
            || (20 <=? String.length (joined (c :: cur)) + String.length (text w))%nat).
  + repeat split; try done.
    by rewrite lines_of_groups_snoc.
  + repeat split; try done.
    * cbn [Captions.cl_wordCount]. rewrite length_app. simpl. lia.
    * cbn [Captions.cl_text]. by rewrite joined_snoc.
    * cbn [Captions.cl_end]. unfold last_end. by rewrite last_snoc.
Qed.

End packing.

Section grouping.
#[local] Arguments Nat.leb : simpl never.

Lemma groupWord_inv (captions : list Caption)
  (ghost : list (list Caption) * list Caption) (w : Caption) :
group_inv captions ghost → group_inv (captions ++ [w]) (groupWord ghost w).
Proof.
destruct ghost as [groups cur].
intros (Hok & Hcur & Hchain & (dropped & Hcat & Hlong & Hshort) & Hnil).
unfold groupWord.
destruct ((5 <=? length cur)%nat
          || (20 <=? String.length (joined cur) + String.length (text w))%nat) eqn:Hc.
- destruct cur as [|c cur].
  + (* nothing on the line and the caption does not fit *)
    rewrite (Hnil eq_refl) in *.
    split_and!.
    * constructor.
    * done.
    * done.
    * exists (dropped ++ [w]). split_and!.
      -- rewrite Hcat. simpl. by rewrite !app_nil_r.
      -- apply Forall_app. split; [exact Hlong|]. constructor; [|constructor].
         simpl in Hc. by apply Nat.leb_le in Hc.
      -- done.
    * done.
  + (* the line is closed and the caption opens the next one *)
    destruct (Hcur ltac:(done)) as [Hgok _].
    split_and!.
    * apply Forall_app. split; [exact Hok|by constructor].
    * intros _. split; [|by rewrite !last_snoc].
      split; simpl; [lia|intros ?; lia].
    * apply chain_snoc; [exact Hchain|].
      intros x Hx. rewrite last_snoc in Hx. injection Hx as <-.
      apply orb_true_iff in Hc as [Hc|Hc]; apply Nat.leb_le in Hc; [by left|by right].
    * exists dropped. split_and!.
      -- rewrite Hcat, concat_app. simpl. by rewrite app_nil_r, <- !app_assoc.
      -- exact Hlong.
      -- intros w0 Hw0. apply Hshort. rewrite concat_app in Hw0. simpl in Hw0.
         rewrite app_nil_r in Hw0.
         destruct (concat groups) as [|x rest]; simpl in *; exact Hw0.
    * done.
- (* the caption joins the line *)
  apply orb_false_iff in Hc as [Hc1 Hc2].
  apply Nat.leb_gt in Hc1, Hc2.
  split_and!.
  + exact Hok.
  + intros _. split; [|by rewrite !last_snoc].
    split; [rewrite length_app; simpl; lia|].
    intros _. rewrite joined_snoc_length. lia.
  + apply (chain_last_change _ _ cur); [exact Hchain|].
    intros x. by destruct cur.
  + exists dropped. split_and!.
    * rewrite Hcat. by rewrite <- !app_assoc.
    * exact Hlong.
    * intros w0 Hw0. destruct cur as [|c cur].
      -- rewrite (Hnil eq_refl) in Hw0. simpl in Hw0. injection Hw0 as <-.
         simpl in Hc2. lia.
      -- apply Hshort. rewrite app_assoc in Hw0.
         destruct (concat groups ++ c :: cur) as [|x rest] eqn:Hl; [|exact Hw0].
         by destruct (concat groups).
  + intros Hnil'. by destruct cur.
Qed.

(** The lines under construction always are the lines of the groups. *)
Lemma pack_simulation (captions : list Caption) :
let init := {| Captions.cl_start := 0%Q; Captions.cl_end := 0%Q;
               Captions.cl_text := ""; Captions.cl_wordCount := 0 |} in
pack_inv (fold_left Captions.packWord captions ([], init))
         (fold_left groupWord captions ([], []))
∧ group_inv captions (fold_left groupWord captions ([], [])).
Proof.
intros init. induction captions as [|w captions [IH1 IH2]] using rev_ind.
- simpl. split; [by split_and!|].
  split_and!; try done. by exists [].
- rewrite !fold_left_app. simpl. split.
  + by apply packWord_sim.
  + by apply groupWord_inv.
Qed.

End grouping.

Section line_times.

Lemma lines_chain (groups : list (list Caption)) (e : Q) :
  chain (λ l l', end_ l = start l') (lines_of_groups groups e).
Proof.
  induction groups as [|g groups IH]; [done|].
  destruct groups as [|g' groups]; [done|].
  split; [reflexivity|exact IH].
Qed.

Lemma lines_last (groups : list (list Caption)) (e : Q) (l : Caption) :
  last (lines_of_groups groups e) = Some l → end_ l = e.
Proof.
  induction groups as [|g groups IH]; [done|].
  destruct groups as [|g' groups].
  - simpl. by intros [= <-].
  - intros Hlast. apply IH. exact Hlast.
Qed.

Lemma lines_groups (groups : list (list Caption)) (e : Q) :
  Forall2 (λ g l, start l = first_start g ∧ text l = trim (joined g))
          groups (lines_of_groups groups e).
Proof.
  induction groups as [|g groups IH]; [constructor|].
  constructor; [done|exact IH].
Qed.

Lemma first_le_last (g : list Caption) :
  g ≠ [] → time_ordered g → (first_start g <= last_end g)%Q.
Proof.
  intros Hne [Hwf Hsorted]. destruct g as [|w g]; [done|].
  unfold last_end. simpl first_start.
  destruct (last (w :: g)) as [z|] eqn:Hlast; [|by apply last_None in Hlast].
  assert (z ∈ w :: g) as Hz by (by apply last_Some_elem_of).
  apply Qle_trans with (start z).
  - apply elem_of_cons in Hz as [->|Hz]; [apply Qle_refl|].
    apply StronglySorted_cons in Hsorted as [Hall _].
    by apply (proj1 (Forall_forall _ _) Hall).
  - by apply (proj1 (Forall_forall _ _) Hwf).
Qed.

Lemma lines_ordered (groups : list (list Caption)) (e : Q) :
  Forall (λ g, g ≠ []) groups →
  StronglySorted (λ a b, (start a <= start b)%Q) (concat groups) →
  (∀ g, last groups = Some g → (first_start g <= e)%Q) →
  Forall (λ l, (start l <= end_ l)%Q) (lines_of_groups groups e).
Proof.
  induction groups as [|g groups IH]; intros Hne Hsorted Hlast; [constructor|].
  apply Forall_cons in Hne as [Hg Hne]. simpl in Hsorted.
  constructor.
  - simpl. destruct groups as [|g' groups].
    + by apply Hlast.
    + apply Forall_cons in Hne as [Hg' _].
      destruct g as [|w g]; [done|]. destruct g' as [|w' g']; [done|].
      simpl. apply (StronglySorted_app_1_elem_of _ _ _ _ _ Hsorted);
        [by left|simpl; by left].
  - apply IH; [exact Hne|by apply StronglySorted_app_1_r in Hsorted|].
    intros g0 Hg0. apply Hlast. by destruct groups.
Qed.

End line_times.

Lemma lines_groups_ok (groups : list (list Caption)) (e : Q) :
  Forall group_ok groups →
  Forall2 (λ g l, start l = first_start g
                  ∧ text l = trim (joined g)
                  ∧ ((2 ≤ length g)%nat → (String.length (text l) ≤ 20)%nat))
          groups (lines_of_groups groups e).
Proof.
  induction groups as [|g groups IH]; intros Hok; [constructor|].
  apply Forall_cons in Hok as [[_ Hg] Hok].
  constructor; [|by apply IH].
  split_and!; [done|done|].
  intros Hlen. simpl. etrans; [apply trim_length|by apply Hg].
Qed.

(** C7 (as amended).  The lines of [createSubtitleFile] are the lines of a
    grouping of the captions it shows, and it shows every caption, in
    order, but the leading ones of 20 characters or more (so every caption
    when the first one is shorter): every group holds one to five
    captions; a group of more than
    one caption has at most 20 characters of text; a group is closed only
    when it holds five captions or the next caption would bring its text
    to 20 characters or more; a line starts where its first caption starts
    and ends where the next line starts, the last line where the last
    caption ends; and when the captions are in the order of time every
    line ends no earlier than it starts. *)
Theorem subtitle_lines_packing (captions : list Caption) :
  ∃ groups : list (list Caption),
    shown_of captions (concat groups)
    ∧ ((∀ w : Caption, head captions = Some w → (String.length (text w) < 20)%nat) →
         concat groups = captions)
    ∧ Captions.subtitleLines captions = lines_of_groups groups (last_end captions)
    ∧ Forall group_ok groups
    ∧ chain break_needed groups
    ∧ Forall2 (λ g l, start l = first_start g
                      ∧ text l = trim (joined g)
                      ∧ ((2 ≤ length g)%nat → (String.length (text l) ≤ 20)%nat))
              groups (Captions.subtitleLines captions)
    ∧ chain (λ l l', end_ l = start l') (Captions.subtitleLines captions)
    ∧ (∀ l : Caption,
         last (Captions.subtitleLines captions) = Some l → end_ l = last_end captions)
    ∧ (time_ordered captions →
         Forall (λ l, (start l <= end_ l)%Q) (Captions.subtitleLines captions)).
Proof.
  destruct (pack_simulation captions) as [Hpack Hgroup]. simpl in Hpack.
  unfold Captions.subtitleLines.
  destruct (fold_left Captions.packWord captions _) as [lines [s e t n]].
  destruct (fold_left groupWord captions ([], [])) as [groups cur].
  destruct Hpack as (Hn & Ht & Hl & Hse & Hnil). simpl in Hn, Ht, Hse.
  destruct Hgroup as (Hok & Hcur & Hchain & Hshown & _).
  assert (∀ shown : list Caption,
            shown_of captions shown →
            (∀ w : Caption, head captions = Some w → (String.length (text w) < 20)%nat) →
            shown = captions) as Hall_shown.
  { intros shown (dropped & -> & Hlong & _) Hfirst.
    destruct dropped as [|d dropped]; [done|].
    apply Forall_cons in Hlong as [Hd _]. specialize (Hfirst d eq_refl). lia. }
  pose proof Hshown as (dropped & Hcat & Hlong & Hshort).
  cbn [Captions.cl_wordCount Captions.cl_start Captions.cl_end Captions.cl_text].
  subst n t lines.
  destruct cur as [|c cur].
  - (* no line is open: nothing was shown *)
    rewrite (Hnil eq_refl) in *. exists []. simpl.
    split_and!; try done; try constructor.
    intros Hfirst. by apply Hall_shown.
  - destruct (Hse ltac:(done)) as [-> ->].
    destruct (Hcur ltac:(done)) as [Hcok Hlast].
    assert (last_end (c :: cur) = last_end captions) as Hend.
    { unfold last_end. by rewrite Hlast. }
    assert ((0 <? length (c :: cur))%nat = true) as -> by done.
    rewrite <- lines_of_groups_snoc, Hend.
    assert (Forall group_ok (groups ++ [c :: cur])) as Hall.
    { apply Forall_app. split; [exact Hok|by constructor]. }
    assert (concat (groups ++ [c :: cur]) = concat groups ++ c :: cur) as Hconcat.
    { rewrite concat_app. simpl. by rewrite app_nil_r. }
    exists (groups ++ [c :: cur]).
    split_and!.
    + by rewrite Hconcat.
    + intros Hfirst. rewrite Hconcat. by apply Hall_shown.
    + reflexivity.
    + exact Hall.
    + exact Hchain.
    + by apply lines_groups_ok.
    + apply lines_chain.
    + apply lines_last.
    + intros [Hwf Hsorted]. apply lines_ordered.
      * eapply Forall_impl; [exact Hall|]. intros g [[Hg _] _] ->. simpl in Hg. lia.
      * rewrite Hcat in Hsorted. apply StronglySorted_app_1_r in Hsorted.
        rewrite concat_app. simpl. by rewrite app_nil_r.
      * intros g Hg. rewrite last_snoc in Hg. injection Hg as <-.
        rewrite <- Hend. apply first_le_last; [done|].
        rewrite Hcat in Hwf, Hsorted. split.
        -- apply Forall_app in Hwf as [_ Hwf]. by apply Forall_app in Hwf as [_ Hwf].
        -- apply StronglySorted_app_1_r in Hsorted.
           by apply StronglySorted_app_1_r in Hsorted.
Qed.

Lemma subtitle_lines_packing_witness :
  Forall (λ l, (start l <= end_ l)%Q) (Captions.subtitleLines sample_words)
  ∧ Captions.subtitleLines sample_words
    = [ {| start := 0; end_ := 4; text := "one two three four" |};
        {| start := 4; end_ := 7; text := "five six seven" |} ].
Proof.
  destruct (subtitle_lines_packing sample_words)
    as (groups & _ & _ & _ & _ & _ & _ & _ & _ & Hord).
  split; [|reflexivity].
  apply Hord. split.
  - repeat constructor; by vm_compute.
  - repeat constructor; by vm_compute.
Defined.

(** C7, as stated, fails on two counts.  A caption that opens a line is
    taken whatever its length, so a produced line can be longer than 20
    characters (here 36: a whole sentence, as the transcriber delivers when
    it has no word timestamps); and for captions that are not in the order
    of time a line can end before it starts. *)
Lemma subtitle_line_exceeds_limit :
  Captions.subtitleLines sample_sentences
    = [ {| start := 0; end_ := 1; text := "Hi" |};
        {| start := 1; end_ := 4; text := "this is a long sentence from whisper" |} ]
  ∧ (20 < String.length "this is a long sentence from whisper")%nat
  ∧ Captions.subtitleLines sample_unordered
    = [ {| start := 5; end_ := 1; text := "fifteen letters" |};
        {| start := 1; end_ := 2; text := "ten chars." |} ]
  ∧ (1 < 5)%Q.
Proof.
  split; [reflexivity|]. split; [vm_compute; lia|]. split; [reflexivity|]. reflexivity.
Qed.

(** A caption of 20 characters or more that arrives while no line is open
    is not shown at all: it neither joins a line nor opens one. *)
Example leading_long_caption_is_dropped :
  Captions.subtitleLines
    [ {| start := 0; end_ := 1; text := "this is a long sentence from whisper" |};
      {| start := 1; end_ := 4; text := "hello" |};
      {| start := 4; end_ := 5; text := "world" |} ]
  = [ {| start := 1; end_ := 5; text := "hello world" |} ].
Proof. reflexivity. Qed.

(** ** The hazard of replacing the whole map *)

(** [updateProjectMetadata] merges field by field: a caller that hands it a
    progress map replaces the stored map as a whole, so a map read before
    another writer's update would drop that writer's key.
    [updateProjectProgress] reads the map in the same synchronous call in
    which it writes it, which is why concurrent calls keep each other's
    keys. *)
Lemma updateProjectMetadata_replaces_progress_map
    (projectId : string) (pm : gmap string json) (fs : FS) (r : record) :
  stored_record fs projectId = Some r →
  ∃ r' : record,
    stored_record
      (Project.updateProjectMetadata projectId {["progress" := Some (JObj pm)]} fs).2 projectId
      = Some r'
    ∧ progress_of r' = pm.
Proof.
  intros Hrec. apply stored_record_Some in Hrec.
  rewrite (updateProjectMetadata_found _ _ _ _ Hrec). simpl.
  rewrite stringify_spread_singleton.
  eexists. split; [apply stored_record_Some, lookup_insert_eq|].
  apply progress_of_set_progress.
Qed.

(** * More properties *)

(** ** The store: reading back, composing updates, malformed records *)

(** Membership in a list that is written out. *)
Ltac in_list := repeat first [apply list_elem_of_here | apply list_elem_of_further].

Ltac not_in_list :=
  let H := fresh in
  intros H; repeat (apply elem_of_cons in H as [H|H]; [discriminate H|]);
  by apply elem_of_nil in H.

Section store_reads.

Lemma stored_record_lookup (fs : FS) (projectId : string) (r : record) :
  stored_record fs projectId = Some r ↔
  fs !! Project.getMetadataPath projectId = Some (File (FMeta r)).
Proof.
  unfold stored_record. split.
  - destruct (fs !! Project.getMetadataPath projectId) as [[|[]]|]; congruence.
  - by intros ->.
Qed.

Lemma getProjectMetadata_total (projectId : string) (fs : FS) :
  Project.getProjectMetadata projectId fs =
    (Ret (JSON_parse <$> stored_record fs projectId), fs).
Proof.
  unfold Project.getProjectMetadata, stored_record, mbind, M_bind, existsSync, try_catch,
    readFileSync.
  destruct (fs !! Project.getMetadataPath projectId) as [[|[]]|] eqn:Hfs; simpl;
    rewrite ?Hfs; try reflexivity.
Qed.

Lemma updateProjectMetadata_total (projectId : string) (updates : jsobj) (fs : FS) :
  Project.updateProjectMetadata projectId updates fs =
    match stored_record fs projectId with
    | Some r =>
        (Ret true,
         <[Project.getMetadataPath projectId :=
             File (FMeta (JSON_stringify (spread (JSON_parse r) updates)))]> fs)
    | None => (Ret false, fs)
    end.
Proof.
  unfold Project.updateProjectMetadata, stored_record, mbind, M_bind, existsSync, try_catch,
    readFileSync.
  destruct (fs !! Project.getMetadataPath projectId) as [[|[]]|] eqn:Hfs; simpl;
    rewrite ?Hfs; try reflexivity.
Qed.

Lemma stored_record_insert (fs : FS) (projectId : string) (r : record) :
  stored_record (<[Project.getMetadataPath projectId := File (FMeta r)]> fs) projectId = Some r.
Proof. unfold stored_record. by rewrite lookup_insert_eq. Qed.

Lemma stringify_spread_twice (r : record) (u1 u2 : jsobj) :
  JSON_stringify (spread (JSON_parse (JSON_stringify (spread (JSON_parse r) u1))) u2)
  = JSON_stringify (spread (JSON_parse r) (spread u1 u2)).
Proof.
  apply map_eq; intros k. rewrite !stringify_spread_lookup.
  unfold spread. rewrite lookup_union.
  destruct (u2 !! k) as [v2|], (u1 !! k) as [v1|]; reflexivity.
Qed.

Lemma getProjectSegments_total (projectId : string) (fs : FS) :
  ProjectUtils.getProjectSegments projectId fs = (Ret (stored_segments fs projectId), fs).
Proof.
  unfold ProjectUtils.getProjectSegments, ProjectUtils.getSegmentsPath, stored_segments,
    mbind, M_bind, existsSync, try_catch, readFileSync.
  destruct (fs !! ["projects"; projectId; "segments.json"]) as [[|[]]|] eqn:Hfs; simpl;
    rewrite ?Hfs; reflexivity.
Qed.

(** [metadata.key] on a record that was just parsed. *)
Lemma parsed_member (r : record) (k : string) : JSON_parse r !!! k = r !! k.
Proof.
  unfold JSON_parse, lookup_total, map_lookup_total. rewrite lookup_fmap.
  by destruct (r !! k).
Qed.

End store_reads.

(** The two readers of the store never throw and never write: each returns
    what is stored, and [null] when the file is missing, is a directory or
    holds text that is not JSON.  (A [metadata.json] that holds a JSON array
    and a [segments.json] that holds a JSON object are left out: there the
    readers return what [JSON.parse] gives.) *)
Theorem store_readers_total (projectId : string) (fs : FS) :
  holds_array fs (Project.getMetadataPath projectId) = false →
  holds_object fs (ProjectUtils.getSegmentsPath projectId) = false →
  Project.getProjectMetadata projectId fs
    = (Ret (JSON_parse <$> stored_record fs projectId), fs)
  ∧ ProjectUtils.getProjectSegments projectId fs
    = (Ret (stored_segments fs projectId), fs).
Proof.
  intros _ _.
  split; [apply getProjectMetadata_total|apply getProjectSegments_total].
Qed.

Lemma store_readers_total_witness :
  Project.getProjectMetadata "p1" sample_fs2
    = (Ret (Some (JSON_parse sample_record)), sample_fs2)
  ∧ ProjectUtils.getProjectSegments "p1" sample_fs2
    = (Ret (Some sample_segments), sample_fs2)
  ∧ Project.getProjectMetadata "p2" sample_fs2 = (Ret None, sample_fs2)
  ∧ ProjectUtils.getProjectSegments "p1" sample_fs = (Ret None, sample_fs).
Proof.
  split_and!.
  - apply (store_readers_total "p1" sample_fs2); reflexivity.
  - apply (store_readers_total "p1" sample_fs2); reflexivity.
  - apply (store_readers_total "p2" sample_fs2); reflexivity.
  - apply (store_readers_total "p1" sample_fs); reflexivity.
Defined.

(** Reading after a merge-update: on an existing record
    [updateProjectMetadata] succeeds, and [getProjectMetadata] then returns
    the record in which every updated field has its new value, every field
    updated to [undefined] is gone, and every other field is as before.  No
    other file changes. *)
Theorem updateProjectMetadata_then_read
    (projectId : string) (updates : jsobj) (fs : FS) (r : record) :
  stored_record fs projectId = Some r →
  ∃ (r' : record) (fs' : FS),
    Project.updateProjectMetadata projectId updates fs = (Ret true, fs')
    ∧ Project.getProjectMetadata projectId fs' = (Ret (Some (JSON_parse r')), fs')
    ∧ (∀ (k : string) (v : json), updates !! k = Some (Some v) → r' !! k = Some v)
    ∧ (∀ k : string, updates !! k = Some undefined → r' !! k = None)
    ∧ (∀ k : string, updates !! k = None → r' !! k = r !! k)
    ∧ (∀ p : path, p ≠ Project.getMetadataPath projectId → fs' !! p = fs !! p).
Proof.
  intros Hrec. eexists _, _.
  split. { rewrite updateProjectMetadata_total, Hrec. reflexivity. }
  split. { by rewrite getProjectMetadata_total, stored_record_insert. }
  split_and!.
  - intros k v Hk. by rewrite stringify_spread_lookup, Hk.
  - intros k Hk. by rewrite stringify_spread_lookup, Hk.
  - intros k Hk. by rewrite stringify_spread_lookup, Hk.
  - intros p Hp. by rewrite lookup_insert_ne.
Qed.

Lemma updateProjectMetadata_then_read_witness :
  ∃ (r' : record) (fs' : FS),
    Project.updateProjectMetadata "p1"
      {[ "status" := Some (JStr "merged"); "error" := undefined ]} sample_fs = (Ret true, fs')
    ∧ Project.getProjectMetadata "p1" fs' = (Ret (Some (JSON_parse r')), fs')
    ∧ r' !! "status" = Some (JStr "merged")
    ∧ r' !! "error" = None
    ∧ r' !! "id" = Some (JStr "p1").
Proof.
  destruct (updateProjectMetadata_then_read "p1"
              {[ "status" := Some (JStr "merged"); "error" := undefined ]}
              sample_fs sample_record)
    as (r' & fs' & Hrun & Hread & Hset & Hdel & Hkeep & _).
  - reflexivity.
  - exists r', fs'. split; [exact Hrun|]. split; [exact Hread|].
    split; [by apply Hset|]. split; [by apply Hdel|].
    rewrite Hkeep by reflexivity. reflexivity.
Defined.

(** Two merge-updates in a row are one merge-update with the second set of
    fields laid over the first ([{ ...u1, ...u2 }]): the same result and the
    same file system, whether or not the record exists. *)
Theorem updateProjectMetadata_compose (projectId : string) (u1 u2 : jsobj) (fs : FS) :
  (Project.updateProjectMetadata projectId u1
     ≫= λ _, Project.updateProjectMetadata projectId u2) fs
  = Project.updateProjectMetadata projectId (spread u1 u2) fs.
Proof.
  unfold mbind, M_bind. rewrite !updateProjectMetadata_total.
  destruct (stored_record fs projectId) as [r|] eqn:Hrec.
  - rewrite updateProjectMetadata_total, stored_record_insert.
    rewrite stringify_spread_twice. by rewrite insert_insert_eq.
  - by rewrite updateProjectMetadata_total, Hrec.
Qed.

(** A record whose [progress] field is a primitive that counts as true (a
    number other than 0, a non-empty string, [true]) makes
    [updateProjectProgress] throw: the assignment [progress[processId] = ...]
    is outside any [try].  Nothing is written. *)
Theorem updateProjectProgress_primitive_progress
    (projectId processId : string) (p : Q) (fs : FS) (r : record) (v : json) :
  stored_record fs projectId = Some r →
  r !! "progress" = Some v →
  truthy (Some v) = true →
  (∀ m, v ≠ JObj m) →
  (∀ l, v ≠ JArr l) →
  ∃ message : string,
    Project.updateProjectProgress projectId processId p fs = (Throw message, fs).
Proof.
  intros Hrec Hv Htrue Hobj Harr.
  unfold Project.updateProjectProgress, mbind, M_bind.
  rewrite getProjectMetadata_total, Hrec. simpl.
  unfold JSON_parse, lookup_total, map_lookup_total. rewrite lookup_fmap, Hv. simpl.
  unfold js_or. rewrite Htrue.
  destruct v; simpl in *; try discriminate; eauto.
  - by destruct (Harr l).
  - by destruct (Hobj m).
Qed.

Lemma updateProjectProgress_primitive_progress_witness :
  ∃ message : string,
    Project.updateProjectProgress "p1" "job" 10
      (<[Project.getMetadataPath "p1" := File (FMeta {[ "progress" := JNum 5 ]})]> sample_fs)
    = (Throw message,
       <[Project.getMetadataPath "p1" := File (FMeta {[ "progress" := JNum 5 ]})]> sample_fs).
Proof.
  apply (updateProjectProgress_primitive_progress "p1" "job" 10 _ {[ "progress" := JNum 5 ]}
           (JNum 5)).
  - unfold stored_record. by rewrite lookup_insert_eq.
  - reflexivity.
  - reflexivity.
  - discriminate.
  - discriminate.
Defined.

(** [ensureCaptioningMetadata] on an existing record returns [true] and
    leaves a captioning block in it: the one that was there, or the default
    block when there was none; every other field is unchanged, and a second
    call changes nothing.  Without a record ([metadata.json] is missing, is
    a directory or holds text that is not JSON) it returns [false] and
    writes nothing.  (A [metadata.json] that holds a JSON array is left
    out: the code takes it for a record without a captioning block.) *)
Theorem ensureCaptioningMetadata_effect (projectId : string) (fs : FS) :
  holds_array fs (Project.getMetadataPath projectId) = false →
  match stored_record fs projectId with
  | None => ProjectUtils.ensureCaptioningMetadata projectId fs = (Ret false, fs)
  | Some r =>
      ∃ (r' : record) (fs' : FS),
        ProjectUtils.ensureCaptioningMetadata projectId fs = (Ret true, fs')
        ∧ stored_record fs' projectId = Some r'
        ∧ r' !! "captioning" =
            (if truthy (r !! "captioning") then r !! "captioning"
             else Some (JObj ProjectUtils.default_captioning))
        ∧ (∀ k : string, k ≠ "captioning" → r' !! k = r !! k)
        ∧ (truthy (r !! "captioning") = true → fs' = fs)
        ∧ ProjectUtils.ensureCaptioningMetadata projectId fs' = (Ret true, fs')
  end.
Proof.
  intros _.
  assert (∀ (r : record) (fs : FS),
    stored_record fs projectId = Some r →
    ProjectUtils.ensureCaptioningMetadata projectId fs =
      if negb (truthy (r !! "captioning"))
      then Project.updateProjectMetadata projectId
             {[ "captioning" := Some (JObj ProjectUtils.default_captioning) ]} fs
      else (Ret true, fs)) as Hrun.
  { intros r fs0 Hrec. unfold ProjectUtils.ensureCaptioningMetadata, mbind, M_bind.
    rewrite getProjectMetadata_total, Hrec. cbn [fmap option_fmap option_map].
    rewrite parsed_member. by destruct (truthy (r !! "captioning")). }
  destruct (stored_record fs projectId) as [r|] eqn:Hrec.
  - rewrite (Hrun r fs Hrec).
    destruct (truthy (r !! "captioning")) eqn:Htruthy; simpl.
    + exists r, fs. split_and!; try done.
      by rewrite (Hrun r fs Hrec), Htruthy.
    + rewrite updateProjectMetadata_total, Hrec, stringify_spread_singleton.
      eexists _, _. split; [reflexivity|]. split; [apply stored_record_insert|].
      split_and!.
      * apply lookup_insert_eq.
      * intros k Hk. by apply lookup_insert_ne.
      * done.
      * rewrite (Hrun _ _ (stored_record_insert _ _ _)).
        by rewrite lookup_insert_eq.
  - unfold ProjectUtils.ensureCaptioningMetadata, mbind, M_bind.
    by rewrite getProjectMetadata_total, Hrec.
Qed.

Lemma ensureCaptioningMetadata_effect_witness :
  (∃ (r' : record) (fs' : FS),
     ProjectUtils.ensureCaptioningMetadata "p1" sample_fs = (Ret true, fs')
     ∧ stored_record fs' "p1" = Some r'
     ∧ r' !! "captioning" =
         (if truthy (sample_record !! "captioning") then sample_record !! "captioning"
          else Some (JObj ProjectUtils.default_captioning))
     ∧ (∀ k : string, k ≠ "captioning" → r' !! k = sample_record !! k)
     ∧ (truthy (sample_record !! "captioning") = true → fs' = sample_fs)
     ∧ ProjectUtils.ensureCaptioningMetadata "p1" fs' = (Ret true, fs'))
  ∧ ProjectUtils.ensureCaptioningMetadata "p2" sample_fs = (Ret false, sample_fs).
Proof.
  split.
  - apply (ensureCaptioningMetadata_effect "p1" sample_fs). reflexivity.
  - apply (ensureCaptioningMetadata_effect "p2" sample_fs). reflexivity.
Defined.

(** [saveProjectSegments] returns [true] exactly when the project directory
    exists and [segments.json] is not itself a directory; then
    [getProjectSegments] returns the list that was saved and no other file
    has changed.  Otherwise it returns [false] and writes nothing. *)
Theorem saveProjectSegments_then_get (projectId : string) (segments : list json) (fs : FS) :
  let saved := is_directory fs ["projects"; projectId]
               && negb (is_directory fs (ProjectUtils.getSegmentsPath projectId)) in
  ∃ fs' : FS,
    ProjectUtils.saveProjectSegments projectId segments fs = (Ret saved, fs')
    ∧ (saved = true →
         ProjectUtils.getProjectSegments projectId fs' = (Ret (Some segments), fs')
         ∧ ∀ p : path, p ≠ ProjectUtils.getSegmentsPath projectId → fs' !! p = fs !! p)
    ∧ (saved = false → fs' = fs).
Proof.
  intros saved. subst saved.
  unfold ProjectUtils.saveProjectSegments, try_catch, mbind, M_bind, writeFileSync_at.
  change (dirname (ProjectUtils.getSegmentsPath projectId)) with ["projects"; projectId].
  destruct (is_directory fs (ProjectUtils.getSegmentsPath projectId)) eqn:Hdir.
  { rewrite andb_false_r. exists fs. by split_and!. }
  rewrite andb_true_r.
  destruct (is_directory fs ["projects"; projectId]) eqn:Hparent.
  - eexists. split; [reflexivity|]. split; [|done]. intros _. split.
    + rewrite getProjectSegments_total. unfold stored_segments.
      change ["projects"; projectId; "segments.json"]
        with (ProjectUtils.getSegmentsPath projectId).
      by rewrite lookup_insert_eq.
    + intros p Hp. by rewrite lookup_insert_ne.
  - exists fs. destruct (is_file fs ["projects"; projectId]); by split_and!.
Qed.

Lemma stringify_insert_value (o : jsobj) (k : string) (v : json) :
  JSON_stringify (<[k := Some v]> o) = <[k := v]> (JSON_stringify o).
Proof. apply stringify_set_prop. Qed.

(** [updateCaptioningProgress] on a record with a captioning block and an
    [inProgress] list: when an entry has the segment number, the first such
    entry gets the progress value and nothing else changes (not the other
    entries, the other captioning fields or the other fields of the record);
    when none has it the call returns [false] and writes nothing; and when
    the search meets a [null] entry first, the error leaves the function,
    since [findIndex] is called outside the [try]. *)
Theorem updateCaptioningProgress_effect
    (projectId : string) (segmentId progress : Q) (fs : FS) (r : record)
    (captioning : gmap string json) (entries : list json) :
  stored_record fs projectId = Some r →
  r !! "captioning" = Some (JObj captioning) →
  captioning !! "inProgress" = Some (JArr entries) →
  match findIndex "segmentNumber" (Some (JNum segmentId)) entries with
  | Ret (Some idx) =>
      ∃ (r' : record) (captioning' entry : gmap string json),
        ProjectUtils.updateCaptioningProgress projectId segmentId progress fs =
          (Ret true, <[Project.getMetadataPath projectId := File (FMeta r')]> fs)
        ∧ entries !! idx = Some (JObj entry)
        ∧ r' !! "captioning" = Some (JObj captioning')
        ∧ captioning' !! "inProgress" =
            Some (JArr (<[idx := JObj (<["progress" := JNum progress]> entry)]> entries))
        ∧ (∀ k : string, k ≠ "inProgress" → captioning' !! k = captioning !! k)
        ∧ (∀ k : string, k ≠ "captioning" → r' !! k = r !! k)
  | Ret None =>
      ProjectUtils.updateCaptioningProgress projectId segmentId progress fs = (Ret false, fs)
  | Throw e =>
      ProjectUtils.updateCaptioningProgress projectId segmentId progress fs = (Throw e, fs)
  end.
Proof.
  intros Hrec Hcap Hin.
  unfold ProjectUtils.updateCaptioningProgress, mbind, M_bind.
  rewrite getProjectMetadata_total, Hrec. cbn [fmap option_fmap option_map].
  rewrite parsed_member, Hcap. cbn [truthy negb member]. rewrite Hin. cbn [truthy negb lift].
  destruct (findIndex "segmentNumber" (Some (JNum segmentId)) entries) as [[idx|]|e] eqn:Hfind;
    [|reflexivity|reflexivity].
  destruct (findIndex_found _ _ _ _ Hfind) as [entry Hidx].
  unfold try_catch. rewrite Hidx. cbn [assign_prop].
  rewrite updateProjectMetadata_total, Hrec, stringify_spread_singleton.
  eexists _, _, entry. split; [reflexivity|]. split; [reflexivity|].
  split; [apply lookup_insert_eq|].
  cbn [own_props]. rewrite stringify_insert_value, stringify_parse.
  split; [apply lookup_insert_eq|]. split.
  - intros k Hk. by apply lookup_insert_ne.
  - intros k Hk. by apply lookup_insert_ne.
Qed.

Lemma updateCaptioningProgress_effect_witness :
  ∃ (r' : record) (captioning' : gmap string json),
    ProjectUtils.updateCaptioningProgress "p1" 2 40 captioning_fs =
      (Ret true, <[Project.getMetadataPath "p1" := File (FMeta r')]> captioning_fs)
    ∧ r' !! "captioning" = Some (JObj captioning')
    ∧ captioning' !! "inProgress" =
        Some (JArr [ JObj {[ "segmentNumber" := JNum 1; "progress" := JNum 90 ]};
                     JObj {[ "segmentNumber" := JNum 2; "progress" := JNum 40 ]} ])
    ∧ r' !! "status" = Some (JStr "captioning").
Proof.
  pose proof (updateCaptioningProgress_effect "p1" 2 40 captioning_fs captioning_record
                captioning_block
                [ JObj {[ "segmentNumber" := JNum 1; "progress" := JNum 90 ]};
                  JObj {[ "segmentNumber" := JNum 2; "progress" := JNum 10 ]} ]
                eq_refl eq_refl eq_refl) as H.
  cbn [findIndex] in H.
  destruct H as (r' & captioning' & entry & Hrun & Hentry & Hcap & Hin & _ & Hrest).
  exists r', captioning'. split; [exact Hrun|]. split; [exact Hcap|].
  split.
  - rewrite Hin. injection Hentry as <-. reflexivity.
  - by rewrite Hrest.
Defined.

(** ** Tracking a record through a task *)

Section tracking.
Context (projectId : string).

Lemma hoare_exists {A X : Type} (P : X → FS → Prop) (m : M A) (Q : A → FS → Prop) E :
  (∀ x, hoare (P x) m Q E) → hoare (λ fs, ∃ x, P x fs) m Q E.
Proof. intros H fs [x HP]. by apply (H x). Qed.

Lemma tracked_weaken (A A' : record → Prop) (B B' : FS → Prop) (fs : FS) :
  (∀ r, conforms r → A r → A' r) → (∀ fs, B fs → B' fs) →
  tracked projectId A B fs → tracked projectId A' B' fs.
Proof. intros HA HB (r & Hrec & Hconf & Ha & Hb). exists r. auto. Qed.

Lemma tracked_has_record (A : record → Prop) (B : FS → Prop) (fs : FS) :
  tracked projectId A B fs → has_record projectId fs.
Proof. intros (r & Hrec & Hconf & _). by exists r. Qed.

Lemma updateProjectProgress_tracked (k : string) (p : Q) (A A' : record → Prop) (B : FS → Prop) :
  (∀ r, conforms r → A r →
        A' (<["progress" := JObj (<[k := JNum p]> (progress_of r))]> r)) →
  ignores_record projectId B →
  hoare (tracked projectId A B) (Project.updateProjectProgress projectId k p)
        (λ _, tracked projectId A' B) (λ _ _, False).
Proof.
  intros HA HB fs (r & Hrec & Hconf & Ha & Hb).
  apply stored_record_lookup in Hrec.
  rewrite (updateProjectProgress_found _ k p _ _ Hrec Hconf).
  eexists. split; [apply stored_record_insert|].
  split; [apply conforms_set_progress|]. split; [by apply HA|by apply HB].
Qed.

Lemma updateProjectMetadata_tracked (updates : jsobj) (A A' : record → Prop) (B : FS → Prop) :
  updates !! "progress" = None →
  (∀ r, conforms r → A r → A' (JSON_stringify (spread (JSON_parse r) updates))) →
  ignores_record projectId B →
  hoare (tracked projectId A B) (Project.updateProjectMetadata projectId updates)
        (λ _, tracked projectId A' B) (λ _ _, False).
Proof.
  intros Hupd HA HB fs (r & Hrec & Hconf & Ha & Hb).
  rewrite updateProjectMetadata_total, Hrec.
  eexists. split; [apply stored_record_insert|].
  split; [|split; [by apply HA|by apply HB]].
  unfold conforms in *. by rewrite stringify_spread_lookup, Hupd.
Qed.

(** Reading the record, changing fields other than [progress] and writing
    it back. *)
Lemma rewrite_record_tracked {X : Type} (f : jsobj → jsobj) (g : record → record)
    (rest : M X) (A A' : record → Prop) (B : FS → Prop) (Q : X → FS → Prop) E :
  (∀ r, JSON_stringify (f (JSON_parse r)) = g r) →
  (∀ r, g r !! "progress" = r !! "progress") →
  (∀ r, conforms r → A r → A' (g r)) →
  ignores_record projectId B →
  hoare (tracked projectId A' B) rest Q E →
  hoare (tracked projectId A B)
        (text ← readFileSync ["projects"; projectId; "metadata.json"];
         metadata ← parse_object text;
         _ ← writeFileSync ["projects"; projectId; "metadata.json"]
               (FMeta (JSON_stringify (f metadata)));
         rest)
        Q E.
Proof.
  intros Hf Hg HA HB Hrest fs (r & Hrec & Hconf & Ha & Hb).
  apply stored_record_lookup in Hrec. unfold Project.getMetadataPath in Hrec.
  unfold mbind, M_bind, readFileSync. rewrite Hrec. simpl.
  rewrite Hf. apply Hrest.
  exists (g r). split; [apply stored_record_insert|].
  split; [|split; [by apply HA|by apply HB]].
  unfold conforms in *. by rewrite Hg.
Qed.

End tracking.

(** ** The duration probe *)

Section probe.
Context (projectId : string).

Lemma getMediaDuration_tracked (run : ProbeRun) (k : string)
    (A : record → Prop) (B : FS → Prop) :
  projectId ≠ "" → k ≠ "" →
  ignores_progress k A →
  ignores_record projectId B →
  hoare (tracked projectId A B) (getMediaDuration run projectId k)
    (λ D fs, probe_code run = 0%Z ∧ probe_output run = Some D
             ∧ tracked projectId (λ r, A r ∧ progress_of r !! k = Some (JNum 100)) B fs)
    (λ e fs, e ≠ "" ∧ (probe_code run ≠ 0%Z ∨ probe_output run = None)
             ∧ tracked projectId (λ r, A r ∧ progress_of r !! k = Some (JNum 100)) B fs).
Proof.
  intros Hid Hk HA HB. unfold getMediaDuration.
  apply String.eqb_neq in Hid, Hk. rewrite Hid, Hk. cbn [negb andb].
  assert (∀ v : Q,
    hoare (tracked projectId A B)
      (_ ← Project.updateProjectProgress projectId k v; mret tt)
      (λ _, tracked projectId A B) (λ _ _, False)) as Htrack.
  { intros v. eapply hoare_bind.
    - apply (updateProjectProgress_tracked projectId k v A A B); [|exact HB].
      intros r _ Ha. by apply HA.
    - intros b. by apply hoare_ret. }
  eapply hoare_bind; [eapply hoare_conseq; [apply (Htrack 0%Q)|done|done|done]|]. intros ?.
  eapply hoare_bind.
  { eapply hoare_conseq; [apply repeatM_ok, (Htrack 50%Q)|done|done|done]. }
  intros ?.
  eapply hoare_bind with
    (R := λ _, tracked projectId (λ r, A r ∧ progress_of r !! k = Some (JNum 100)) B).
  { eapply hoare_bind.
    - eapply hoare_conseq;
        [apply (updateProjectProgress_tracked projectId k 100 A
                  (λ r, A r ∧ progress_of r !! k = Some (JNum 100)) B)|done|done|done];
        [|exact HB].
      intros r _ Ha. split; [by apply HA|].
      rewrite progress_of_set_progress. apply lookup_insert_eq.
    - intros b. by apply hoare_ret. }
  intros ?. destruct (probe_code run =? 0)%Z eqn:Hcode; cbn [negb].
  - apply Z.eqb_eq in Hcode. destruct (probe_output run) as [D|] eqn:Hout.
    + by apply hoare_ret.
    + apply hoare_throw. intros fs Hfs. split_and!; [done|by right|done].
  - apply Z.eqb_neq in Hcode. apply hoare_throw. intros fs Hfs. split_and!; [done|by left|done].
Qed.

End probe.

(** [getMediaDuration] with a project and a process identifier: whatever
    [ffprobe] does, the progress entry of the process ends at 100.  The
    call returns the duration when [ffprobe] exits with 0 and prints a
    number, and throws otherwise.  The other progress entries, the other
    fields of the record and the other files are unchanged. *)
Theorem getMediaDuration_reports
    (run : ProbeRun) (projectId processId : string) (fs : FS) (r : record) :
  projectId ≠ "" → processId ≠ "" →
  stored_record fs projectId = Some r →
  conforms r →
  ∃ (r' : record) (fs' : FS) (result : outcome Q),
    getMediaDuration run projectId processId fs = (result, fs')
    ∧ match result with
      | Ret D => probe_code run = 0%Z ∧ probe_output run = Some D
      | Throw _ => probe_code run ≠ 0%Z ∨ probe_output run = None
      end
    ∧ stored_record fs' projectId = Some r'
    ∧ progress_of r' !! processId = Some (JNum 100)
    ∧ (∀ k : string, k ≠ processId → progress_of r' !! k = progress_of r !! k)
    ∧ (∀ field : string, field ≠ "progress" → r' !! field = r !! field)
    ∧ (∀ p : path, p ≠ Project.getMetadataPath projectId → fs' !! p = fs !! p).
Proof.
  intros Hid Hk Hrec Hconf.
  set (A := λ r1 : record,
         (∀ k : string, k ≠ processId → progress_of r1 !! k = progress_of r !! k)
         ∧ (∀ field : string, field ≠ "progress" → r1 !! field = r !! field)).
  set (B := λ fs1 : FS, ∀ p : path, p ≠ Project.getMetadataPath projectId → fs1 !! p = fs !! p).
  assert (ignores_progress processId A) as HA.
  { intros r1 p [H1 H2]. split.
    - intros k Hne. rewrite progress_of_set_progress, lookup_insert_ne by done. by apply H1.
    - intros field Hne. rewrite lookup_insert_ne by done. by apply H2. }
  assert (ignores_record projectId B) as HB.
  { intros fs1 n Hb p Hp. rewrite lookup_insert_ne by done. by apply Hb. }
  pose proof (getMediaDuration_tracked projectId run processId A B Hid Hk HA HB fs) as H.
  destruct (getMediaDuration run projectId processId fs) as [result fs'].
  assert (tracked projectId A B fs) as Hinit by (exists r; by split_and!).
  specialize (H Hinit).
  destruct result as [D|e].
  - destruct H as (Hcode & Hout & r' & Hrec' & _ & [[H1 H2] H100] & Hb).
    exists r', fs', (Ret D). by split_and!.
  - destruct H as (_ & Hfail & r' & Hrec' & _ & [[H1 H2] H100] & Hb).
    exists r', fs', (Throw e). by split_and!.
Qed.

Lemma getMediaDuration_reports_witness :
  ∃ (r' : record) (fs' : FS) (result : outcome Q),
    getMediaDuration {| probe_stderr := 2; probe_code := 1; probe_output := None |}
      "p1" "job_probe" sample_fs = (result, fs')
    ∧ match result with
      | Ret D => False
      | Throw _ => True
      end
    ∧ stored_record fs' "p1" = Some r'
    ∧ progress_of r' !! "job_probe" = Some (JNum 100)
    ∧ progress_of r' !! "job_audio" = Some (JNum 40)
    ∧ r' !! "status" = Some (JStr "download_error").
Proof.
  destruct (getMediaDuration_reports
              {| probe_stderr := 2; probe_code := 1; probe_output := None |}
              "p1" "job_probe" sample_fs sample_record)
    as (r' & fs' & result & Hrun & Hres & Hrec & H100 & Hother & Hfields & _).
  - discriminate.
  - discriminate.
  - reflexivity.
  - vm_compute. exact I.
  - exists r', fs', result. split; [exact Hrun|]. split.
    + destruct result as [D|e]; [|exact I]. by destruct Hres as [[=] _].
    + split; [exact Hrec|]. split; [exact H100|]. split.
      * by rewrite Hother.
      * by rewrite Hfields.
Defined.

(** ** The merge task *)

Section merge_steps.
Context (projectId : string).

Lemma agrees_ignores_record (X : FS) : ignores_record projectId (agrees_off_record projectId X).
Proof. intros fs n H p Hp. rewrite lookup_insert_ne by done. by apply H. Qed.

Lemma existsSync_tracked (p : path) (A : record → Prop) (X : FS) E :
  p ≠ Project.getMetadataPath projectId →
  hoare (tracked projectId A (agrees_off_record projectId X)) (existsSync p)
        (λ b fs, b = bool_decide (is_Some (X !! p))
                 ∧ tracked projectId A (agrees_off_record projectId X) fs) E.
Proof.
  intros Hp fs Hfs. unfold existsSync. split; [|exact Hfs].
  destruct Hfs as (r & _ & _ & _ & Hb). by rewrite (Hb p Hp).
Qed.

Lemma write_other_tracked (p : path) (d : fdata) (A : record → Prop) (X : FS) E :
  p ≠ Project.getMetadataPath projectId →
  hoare (tracked projectId A (agrees_off_record projectId X)) (writeFileSync p d)
        (λ _, tracked projectId A (agrees_off_record projectId (<[p := File d]> X))) E.
Proof.
  intros Hp fs (r & Hrec & Hconf & Ha & Hb). unfold writeFileSync.
  exists r. split_and!; try done.
  - apply stored_record_lookup. rewrite lookup_insert_ne by done.
    by apply stored_record_lookup.
  - intros q Hq. destruct (decide (p = q)) as [->|Hne].
    + by rewrite !lookup_insert_eq.
    + rewrite !lookup_insert_ne by done. by apply Hb.
Qed.


Lemma mergeVideoAndAudio_values (run : FfmpegMerge) (video audio out : path) (D : Q)
    (ffmpeg : option string) (k : string) (V : Q → Prop) (A : record → Prop) (X : FS) :
  out ≠ Project.getMetadataPath projectId →
  video ≠ Project.getMetadataPath projectId →
  audio ≠ Project.getMetadataPath projectId →
  (∀ (chunk : FfmpegChunk) (elapsed : Q),
     chunk ∈ fm_chunks run → chunk_elapsed chunk = Some elapsed →
     V (Qmin (Math_round (elapsed / D * 100)) 100)) →
  (∀ (r : record) (p : Q),
     V p → A r → A (<["progress" := JObj (<[k := JNum p]> (progress_of r))]> r)) →
  hoare (tracked projectId A (agrees_off_record projectId X))
    (MergeJob.mergeVideoAndAudio run video audio out D ffmpeg projectId k)
    (λ _ fs, tool_found ffmpeg = true ∧ is_Some (X !! video) ∧ is_Some (X !! audio)
             ∧ fm_code run = 0%Z
             ∧ tracked projectId A
                 (agrees_off_record projectId
                    (if fm_output run then <[out := File FOther]> X else X)) fs)
    (λ e fs, e ≠ ""
             ∧ (tool_found ffmpeg = false ∨ X !! video = None ∨ X !! audio = None
                ∨ fm_code run ≠ 0%Z)
             ∧ tracked projectId A (λ _, True) fs).
Proof.
  intros Hout Hvideo Haudio HV HA. unfold MergeJob.mergeVideoAndAudio.
  destruct (tool_found ffmpeg) eqn:Htool; cbn [negb].
  2: { apply hoare_throw. intros fs Hfs. split_and!; [done|by left|].
       by eapply tracked_weaken. }
  eapply hoare_bind; [by apply existsSync_tracked|]. intros hasVideo.
  apply hoare_pre. intros ->.
  destruct (bool_decide (is_Some (X !! video))) eqn:Hv; cbn [negb].
  2: { apply hoare_throw. intros fs Hfs. split_and!; [done| |by eapply tracked_weaken].
       right; left. apply bool_decide_eq_false_1 in Hv.
       destruct (X !! video); [by destruct Hv; eauto|done]. }
  apply bool_decide_eq_true_1 in Hv.
  eapply hoare_bind; [by apply existsSync_tracked|]. intros hasAudio.
  apply hoare_pre. intros ->.
  destruct (bool_decide (is_Some (X !! audio))) eqn:Ha; cbn [negb].
  2: { apply hoare_throw. intros fs Hfs. split_and!; [done| |by eapply tracked_weaken].
       right; right; left. apply bool_decide_eq_false_1 in Ha.
       destruct (X !! audio); [by destruct Ha; eauto|done]. }
  apply bool_decide_eq_true_1 in Ha.
  eapply hoare_bind with (R := λ _, tracked projectId A (agrees_off_record projectId X)).
  { apply (hoare_for_each _ _ (λ _ _, tracked projectId A (agrees_off_record projectId X))).
    intros i chunk last Hchunk.
    destruct (chunk_elapsed chunk) as [elapsed|] eqn:Helapsed; [|by apply hoare_ret].
    destruct (2000 <? chunk_now chunk - last)%Z; [|by apply hoare_ret].
    eapply hoare_bind with (R := λ _, tracked projectId A (agrees_off_record projectId X)).
    - eapply hoare_try_catch with (E' := λ _ _, False); [|intros e fs []].
      eapply hoare_bind.
      + apply (updateProjectProgress_tracked projectId k _ A A);
          [|apply agrees_ignores_record].
        intros r _ Hr. apply HA; [|exact Hr].
        apply (HV chunk); [|exact Helapsed]. by eapply list_elem_of_lookup_2.
      + intros b. by apply hoare_ret.
    - intros ?. by apply hoare_ret. }
  intros _.
  eapply hoare_bind with
    (R := λ _, tracked projectId A
                 (agrees_off_record projectId
                    (if fm_output run then <[out := File FOther]> X else X))).
  { destruct (fm_output run); [by apply write_other_tracked|by apply hoare_ret]. }
  intros _. destruct (fm_code run =? 0)%Z eqn:Hcode; cbn [negb].
  - apply Z.eqb_eq in Hcode. by apply hoare_ret.
  - apply Z.eqb_neq in Hcode. apply hoare_throw. intros fs Hfs.
    split_and!; [discriminate| |by eapply tracked_weaken]. by repeat right.
Qed.

Lemma mergeVideoAndAudio_tracked (run : FfmpegMerge) (video audio out : path) (D : Q)
    (ffmpeg : option string) (k : string) (A : record → Prop) (X : FS) :
  out ≠ Project.getMetadataPath projectId →
  video ≠ Project.getMetadataPath projectId →
  audio ≠ Project.getMetadataPath projectId →
  ignores_progress k A →
  hoare (tracked projectId A (agrees_off_record projectId X))
    (MergeJob.mergeVideoAndAudio run video audio out D ffmpeg projectId k)
    (λ _ fs, tool_found ffmpeg = true ∧ is_Some (X !! video) ∧ is_Some (X !! audio)
             ∧ fm_code run = 0%Z
             ∧ tracked projectId A
                 (agrees_off_record projectId
                    (if fm_output run then <[out := File FOther]> X else X)) fs)
    (λ e fs, e ≠ ""
             ∧ (tool_found ffmpeg = false ∨ X !! video = None ∨ X !! audio = None
                ∨ fm_code run ≠ 0%Z)
             ∧ has_record projectId fs).
Proof.
  intros Hout Hvideo Haudio HA.
  eapply hoare_conseq;
    [apply (mergeVideoAndAudio_values run video audio out D ffmpeg k (λ _, True) A X);
       try done|done|done|].
  - intros r p _ Hr. by apply HA.
  - intros e fs (He & Hwhy & Htr). split_and!; [done|done|by eapply tracked_has_record].
Qed.

End merge_steps.

Lemma hoare_bind_nothrow {A B : Type} (P : FS → Prop) (m : M A) (f : A → M B)
    (R : A → FS → Prop) (Q : B → FS → Prop) E :
  hoare P m R (λ _ _, False) →
  (∀ a, hoare (R a) (f a) Q E) →
  hoare P (m ≫= f) Q E.
Proof.
  intros Hm Hf. eapply hoare_bind; [|exact Hf].
  eapply hoare_conseq; [exact Hm|done|done|]. by intros ? ? [].
Qed.

Lemma hoare_weaken_pre {A : Type} (P P' : FS → Prop) (m : M A) (Q : A → FS → Prop) E :
  (∀ fs, P fs → P' fs) → hoare P' m Q E → hoare P m Q E.
Proof. intros HP Hm fs Hfs. by apply Hm, HP. Qed.

Lemma suffix_differs (s t : string) : t ≠ "" → s ≠ s +:+ t.
Proof.
  intros Ht Heq. apply (f_equal String.length) in Heq.
  rewrite string_length_app in Heq. destruct t; [done|]. simpl in Heq. lia.
Qed.

Lemma suffix_nonempty (s t : string) : t ≠ "" → s +:+ t ≠ "".
Proof.
  intros Ht Heq. apply (f_equal String.length) in Heq.
  rewrite string_length_app in Heq. destruct t; [done|]. simpl in Heq. lia.
Qed.

Lemma updateProjectStatus_sets (projectId : string) (status : ProjectStatus) (e : string)
    (fs : FS) :
  e ≠ "" →
  has_record projectId fs →
  ∃ (r : record) (fs' : FS),
    Project.updateProjectStatus projectId status (Some e) fs = (Ret true, fs')
    ∧ stored_record fs' projectId = Some r
    ∧ r !! "status" = Some (JStr (status_value status))
    ∧ r !! "error" = Some (JStr e).
Proof.
  intros He (r & Hrec & _). unfold Project.updateProjectStatus.
  rewrite updateProjectMetadata_total, Hrec.
  eexists _, _. split; [reflexivity|]. split; [apply stored_record_insert|].
  assert (truthy (JStr <$> Some e) = true) as ->.
  { simpl. by destruct (String.eqb_spec e ""). }
  rewrite !stringify_spread_lookup. split.
  - by rewrite lookup_insert_ne, lookup_singleton_eq.
  - by rewrite lookup_insert_eq.
Qed.

Section merge_task.
Context (env : MergeEnv) (projectId processId : string) (fs0 : FS) (r0 : record).
Hypothesis Hid : projectId ≠ "".
Hypothesis Hrec0 : stored_record fs0 projectId = Some r0.
Hypothesis Hconf0 : conforms r0.

Lemma mergeMedia_outcome :
  hoare (λ fs, fs = fs0) (MergeJob.mergeMedia env projectId processId)
    (λ _ fs,
       (merge_succeeds env projectId fs0
        ∧ ∃ D : Q, probe_output (me_probe env) = Some D
          ∧ tracked projectId (merged_record env processId D r0)
              (agrees_off_record projectId
                 (if fm_output (me_merge env)
                  then <[["projects"; projectId; "merge"; "processed.mp4"] := File FOther]>
                         (with_directories ["projects"; projectId; "merge"] fs0)
                  else with_directories ["projects"; projectId; "merge"] fs0)) fs)
       ∨ (¬ merge_succeeds env projectId fs0
          ∧ ∃ (r : record) (message : string),
              stored_record fs projectId = Some r
              ∧ r !! "status" = Some (JStr "merging_error")
              ∧ r !! "error" = Some (JStr message)))
    (λ _ _, False).
Proof.
  unfold MergeJob.mergeMedia.
  eapply hoare_try_catch with
    (E' := λ e fs, e ≠ "" ∧ has_record projectId fs ∧ ¬ merge_succeeds env projectId fs0).
  2: { intros e fs (He & Hhas & Hno).
       destruct (updateProjectStatus_sets projectId MERGING_ERROR e fs He Hhas)
         as (r & fs' & Hrun & Hrec & Hstatus & Herror).
       unfold mbind, M_bind. rewrite Hrun. simpl. right. split; [exact Hno|]. eauto. }
  assert (has_record projectId fs0) as Hhas0 by (by exists r0).
  destruct (tool_found (me_ffmpeg env)) eqn:Hffmpeg; cbn [negb orb].
  2: { apply hoare_throw. intros fs ->. split_and!; [done|done|].
       intros (H & _). congruence. }
  destruct (tool_found (me_ffprobe env)) eqn:Hffprobe; cbn [negb].
  2: { apply hoare_throw. intros fs ->. split_and!; [done|done|].
       intros (_ & H & _). congruence. }
  set (X1 := with_directories ["projects"; projectId; "merge"] fs0).
  (* the merge directory *)
  eapply hoare_bind with
    (R := λ _ fs, existsb (is_file fs0) (ancestors ["projects"; projectId; "merge"]) = false
                  ∧ fs = X1).
  { intros fs ->. cbn [app]. rewrite mkdirSync_recursive_run.
    destruct (existsb _ _) eqn:Hblocked; [|done].
    split_and!; [done|done|]. intros (_ & _ & H & _). congruence. }
  intros ?. apply hoare_pre. intros Hfree.
  set (A1 := keeps_fields merge_fields r0).
  assert (∀ k, ignores_progress k A1) as HA1.
  { intros k r p H f Hf. rewrite lookup_insert_ne; [by apply H|].
    intros <-. apply Hf. unfold merge_fields. in_list. }
  assert (∀ X, ignores_record projectId (agrees_off_record projectId X)) as HB
    by apply agrees_ignores_record.
  apply (hoare_weaken_pre _
           (tracked projectId (λ r, r = r0) (agrees_off_record projectId X1))).
  { intros fs ->. exists r0. split_and!; try done.
    unfold stored_record, X1. rewrite with_directories_keeps; [exact Hrec0|].
    apply stored_record_lookup in Hrec0. by rewrite Hrec0. }
  (* status: merging *)
  cbn [app].
  apply (rewrite_record_tracked projectId
           (λ m, set_prop "currentProcess" (JStr "merge")
                   (set_prop "status" (JStr (status_value MERGING)) m))
           (λ r, <["currentProcess" := JStr "merge"]>
                   (<["status" := JStr (status_value MERGING)]> r))
           _ (λ r, r = r0) A1).
  { intros r. by rewrite !stringify_set_prop, stringify_parse. }
  { intros r. by rewrite !lookup_insert_ne. }
  { intros r _ -> f Hf. rewrite !lookup_insert_ne; [done| |];
      intros <-; apply Hf; unfold merge_fields; in_list. }
  { apply HB. }
  eapply hoare_bind_nothrow.
  { apply (updateProjectProgress_tracked projectId processId 0 A1 A1); [|apply HB].
    intros r _ H. by apply HA1. }
  intros ?.
  eapply hoare_bind_nothrow.
  { apply (updateProjectProgress_tracked projectId (processId +:+ "_duration") 0 A1 A1);
      [|apply HB].
    intros r _ H. by apply HA1. }
  intros ?.
  (* the duration of the audio track *)
  eapply hoare_bind.
  { eapply hoare_conseq;
      [apply (getMediaDuration_tracked projectId (me_probe env) (processId +:+ "_duration")
                A1 (agrees_off_record projectId X1) Hid)|done|done|].
    - by apply suffix_nonempty.
    - apply HA1.
    - apply HB.
    - intros e fs (He & Hfail & Htr). split_and!; [done|by eapply tracked_has_record|].
      intros (_ & _ & _ & Hcode & [D HD] & _). destruct Hfail; congruence. }
  intros D. apply hoare_pre. intros Hcode. apply hoare_pre. intros Hout.
  set (A2 := λ r, A1 r ∧ progress_of r !! (processId +:+ "_duration") = Some (JNum 100)).
  assert (processId ≠ processId +:+ "_duration") as Hne by (by apply suffix_differs).
  assert (ignores_progress processId A2) as HA2.
  { intros r p [H1 H2]. split; [by apply HA1|].
    by rewrite progress_of_set_progress, lookup_insert_ne. }
  eapply hoare_bind_nothrow.
  { apply (updateProjectProgress_tracked projectId (processId +:+ "_duration") 100 A2 A2);
      [|apply HB].
    intros r _ [H1 H2]. split; [by apply HA1|].
    rewrite progress_of_set_progress. apply lookup_insert_eq. }
  intros ?.
  eapply hoare_bind_nothrow.
  { apply (updateProjectProgress_tracked projectId processId 25 A2 A2); [|apply HB].
    intros r _ H. by apply HA2. }
  intros ?.
  (* ffmpeg *)
  set (out := ["projects"; projectId; "merge"; "processed.mp4"]).
  set (X2 := if fm_output (me_merge env) then <[out := File FOther]> X1 else X1).
  assert (∀ p : path, length p = 4%nat → with_directories ["projects"; projectId; "merge"] fs0 !! p
                                          = fs0 !! p) as Hfour.
  { intros p Hp. apply with_directories_other. cbn. intros H.
    repeat (apply elem_of_cons in H as [->|H]; [done|]). by apply elem_of_nil in H. }
  eapply hoare_bind.
  { eapply hoare_conseq;
      [apply (mergeVideoAndAudio_tracked projectId (me_merge env)
                ["projects"; projectId; "source"; "video.mp4"]
                ["projects"; projectId; "source"; "audio.mp3"]
                out D (me_ffmpeg env) processId A2 X1)|done|done|]; try done.
    intros e fs (He & Hfail & Hhas). split_and!; [done|done|].
    intros (_ & _ & _ & _ & _ & [vnode Hv] & [anode Ha] & Hc).
    unfold X1 in Hfail. rewrite !Hfour in Hfail by done.
    destruct Hfail as [?|[?|[?|?]]]; congruence. }
  intros ?. apply hoare_pre. intros _. apply hoare_pre. intros Hvideo.
  apply hoare_pre. intros Haudio. apply hoare_pre. intros Hmerge.
  fold X2.
  (* status: merged *)
  set (A3 := λ r, r !! "status" = Some (JStr "merged")
                  ∧ r !! "currentProcess" = Some (JStr "split")
                  ∧ r !! "mergeCompletedAt" = Some (JStr (me_now env))
                  ∧ r !! "mergeProcessId" = Some (JStr processId)
                  ∧ r !! "audioDuration" = Some (JNum D)
                  ∧ r !! "totalDuration" = Some (JNum D)
                  ∧ A2 r).
  apply (rewrite_record_tracked projectId
           (λ m, set_prop "currentProcess" (JStr "split")
                   (set_prop "totalDuration" (JNum D)
                      (set_prop "audioDuration" (JNum D)
                         (set_prop "mergeProcessId" (JStr processId)
                            (set_prop "mergeCompletedAt" (JStr (me_now env))
                               (set_prop "status" (JStr (status_value MERGED)) m))))))
           (λ r, <["currentProcess" := JStr "split"]>
                   (<["totalDuration" := JNum D]>
                      (<["audioDuration" := JNum D]>
                         (<["mergeProcessId" := JStr processId]>
                            (<["mergeCompletedAt" := JStr (me_now env)]>
                               (<["status" := JStr (status_value MERGED)]> r))))))
           _ A2 A3).
  { intros r. by rewrite !stringify_set_prop, stringify_parse. }
  { intros r. by rewrite !lookup_insert_ne. }
  { intros r _ [H1 H2]. unfold A3. split_and!.
    1-6: repeat (rewrite lookup_insert_ne by done); by rewrite lookup_insert_eq.
    split.
      + intros f Hf. rewrite !lookup_insert_ne; [by apply H1|..];
          intros <-; apply Hf; unfold merge_fields; in_list.
      + unfold progress_of in *. by rewrite !lookup_insert_ne. }
  { apply HB. }
  eapply hoare_bind_nothrow.
  { apply (updateProjectProgress_tracked projectId processId 100 A3
             (merged_record env processId D r0)); [|apply HB].
    intros r _ (Hs & Hc & Ht & Hp & Ha & Hd & H1 & H2). unfold merged_record.
    rewrite progress_of_set_progress.
    split_and!; first [by rewrite lookup_insert_ne|apply lookup_insert_eq|by apply HA1]. }
  intros ?. apply hoare_ret. intros fs Hfs. left. split.
  - unfold X1 in Hvideo, Haudio. rewrite Hfour in Hvideo, Haudio by done.
    unfold merge_succeeds. by split_and!.
  - by exists D.
Qed.

End merge_task.

(** ** Stage triggers that are accepted *)

(** Looks a field up in a record built by a chain of insertions. *)
Ltac lookup_field :=
  repeat (rewrite lookup_insert_ne by done); rewrite ?lookup_insert_eq; done.

Section triggers.
Context (projectId uuid : string) (fs : FS) (r : record).
Hypothesis Hdir : is_Some (fs !! ["projects"; projectId]).
Hypothesis Hrec : stored_record fs projectId = Some r.
Hypothesis Hconf : conforms r.

Lemma Merge_POST_run :
  is_Some (fs !! ["projects"; projectId; "source"; "video.mp4"]) →
  is_Some (fs !! ["projects"; projectId; "source"; "audio.mp3"]) →
  Merge.POST projectId uuid fs =
    (Ret (json_response (BStarted projectId uuid) None, Some (MergeMedia projectId uuid)),
     <[Project.getMetadataPath projectId :=
         File (FMeta (<["progress" := JObj (<[uuid := JNum 0]> (progress_of r))]>
                        (<["currentProcess" := JStr "merge"]>
                           (<["mergeProcessId" := JStr uuid]>
                              (<["status" := JStr "merging"]> r)))))]> fs).
Proof.
  intros Hvideo Haudio. apply stored_record_lookup in Hrec.
  unfold Project.getMetadataPath in Hrec.
  unfold Merge.POST, try_catch, mbind, M_bind, existsSync, readFileSync. simpl.
  rewrite (bool_decide_eq_true_2 _ Hdir). simpl.
  rewrite Hrec. rewrite bool_decide_eq_true_2 by eauto. simpl.
  rewrite (bool_decide_eq_true_2 _ Hvideo), (bool_decide_eq_true_2 _ Haudio). simpl.
  rewrite Hrec. simpl.
  rewrite !stringify_set_prop, stringify_parse.
  erewrite updateProjectProgress_found; [|apply lookup_insert_eq|].
  - rewrite insert_insert_eq. unfold progress_of.
    by rewrite !lookup_insert_ne.
  - unfold conforms in *. by rewrite !lookup_insert_ne.
Qed.

Lemma Split_POST_run :
  is_Some (fs !! ["projects"; projectId; "merge"; "processed.mp4"]) →
  Split.POST projectId uuid fs =
    (Ret (json_response (BStarted projectId uuid) None, Some (SplitMedia projectId uuid)),
     <[Project.getMetadataPath projectId :=
         File (FMeta (<["progress" := JObj (<[uuid := JNum 0]> (progress_of r))]>
                        (<["currentProcess" := JStr "split"]>
                           (<["splitProcessId" := JStr uuid]>
                              (<["status" := JStr "initializing"]> r)))))]> fs).
Proof.
  intros Hvideo. apply stored_record_lookup in Hrec.
  unfold Project.getMetadataPath in Hrec.
  unfold Split.POST, try_catch, mbind, M_bind, existsSync, readFileSync. simpl.
  rewrite (bool_decide_eq_true_2 _ Hdir). simpl.
  rewrite Hrec. rewrite bool_decide_eq_true_2 by eauto. simpl.
  rewrite (bool_decide_eq_true_2 _ Hvideo). simpl.
  rewrite Hrec. simpl.
  rewrite !stringify_set_prop, stringify_parse.
  erewrite updateProjectProgress_found; [|apply lookup_insert_eq|].
  - rewrite insert_insert_eq. unfold progress_of.
    by rewrite !lookup_insert_ne.
  - unfold conforms in *. by rewrite !lookup_insert_ne.
Qed.

End triggers.

(** A merge request on a project that has both source files, and a split
    request on one that has the merged file, are accepted: the answer
    carries the project and the new process identifier with status 200, the
    background task is started, and the record has the stage's status
    ([merging]; for a split, [initializing]), the process identifier, the
    current process and a progress entry of 0 for the new process; its other
    fields and progress entries are unchanged. *)
Theorem stage_start_accepted (projectId uuid : string) (fs : FS) (r : record) :
  is_Some (fs !! ["projects"; projectId]) →
  stored_record fs projectId = Some r →
  conforms r →
  (is_Some (fs !! ["projects"; projectId; "source"; "video.mp4"]) →
   is_Some (fs !! ["projects"; projectId; "source"; "audio.mp3"]) →
   ∃ r' : record,
     Merge.POST projectId uuid fs =
       (Ret ({| res_body := BStarted projectId uuid; res_status := 200 |},
             Some (MergeMedia projectId uuid)),
        <[Project.getMetadataPath projectId := File (FMeta r')]> fs)
     ∧ r' !! "status" = Some (JStr "merging")
     ∧ r' !! "mergeProcessId" = Some (JStr uuid)
     ∧ r' !! "currentProcess" = Some (JStr "merge")
     ∧ progress_of r' !! uuid = Some (JNum 0)
     ∧ (∀ k : string, k ≠ uuid → progress_of r' !! k = progress_of r !! k)
     ∧ keeps_fields ["status"; "mergeProcessId"; "currentProcess"; "progress"] r r')
  ∧ (is_Some (fs !! ["projects"; projectId; "merge"; "processed.mp4"]) →
     ∃ r' : record,
       Split.POST projectId uuid fs =
         (Ret ({| res_body := BStarted projectId uuid; res_status := 200 |},
               Some (SplitMedia projectId uuid)),
          <[Project.getMetadataPath projectId := File (FMeta r')]> fs)
       ∧ r' !! "status" = Some (JStr "initializing")
       ∧ r' !! "splitProcessId" = Some (JStr uuid)
       ∧ r' !! "currentProcess" = Some (JStr "split")
       ∧ progress_of r' !! uuid = Some (JNum 0)
       ∧ (∀ k : string, k ≠ uuid → progress_of r' !! k = progress_of r !! k)
       ∧ keeps_fields ["status"; "splitProcessId"; "currentProcess"; "progress"] r r').
Proof.
  intros Hdir Hrec Hconf. split.
  - intros Hvideo Haudio. eexists.
    split; [apply (Merge_POST_run projectId uuid fs r Hdir Hrec Hconf Hvideo Haudio)|].
    rewrite progress_of_set_progress. split_and!.
    + lookup_field.
    + lookup_field.
    + lookup_field.
    + apply lookup_insert_eq.
    + intros k Hk. by rewrite lookup_insert_ne.
    + intros k Hk. rewrite !lookup_insert_ne; [done|..]; intros <-; apply Hk; in_list.
  - intros Hvideo. eexists.
    split; [apply (Split_POST_run projectId uuid fs r Hdir Hrec Hconf Hvideo)|].
    rewrite progress_of_set_progress. split_and!.
    + lookup_field.
    + lookup_field.
    + lookup_field.
    + apply lookup_insert_eq.
    + intros k Hk. by rewrite lookup_insert_ne.
    + intros k Hk. rewrite !lookup_insert_ne; [done|..]; intros <-; apply Hk; in_list.
Qed.

Lemma stage_start_accepted_witness :
  ∃ r' : record,
    Merge.POST "p1" "u-7" downloaded_fs =
      (Ret ({| res_body := BStarted "p1" "u-7"; res_status := 200 |},
            Some (MergeMedia "p1" "u-7")),
       <[Project.getMetadataPath "p1" := File (FMeta r')]> downloaded_fs)
    ∧ r' !! "status" = Some (JStr "merging")
    ∧ progress_of r' !! "u-7" = Some (JNum 0)
    ∧ progress_of r' !! "job_audio" = Some (JNum 40)
    ∧ r' !! "error" = Some (JStr "yt-dlp failed").
Proof.
  destruct (stage_start_accepted "p1" "u-7" downloaded_fs sample_record) as [Hmerge _].
  - vm_compute. eauto.
  - reflexivity.
  - vm_compute. exact I.
  - destruct Hmerge as (r' & Hrun & Hstatus & _ & _ & Hzero & Hother & Hkeep).
    + vm_compute. eauto.
    + vm_compute. eauto.
    + exists r'. split; [exact Hrun|]. split; [exact Hstatus|]. split; [exact Hzero|].
      split.
      * by rewrite Hother.
      * rewrite Hkeep; [reflexivity|]. not_in_list.
Defined.

(** The merge task never throws and never leaves the project in the
    [merging] state: it ends with status [merged] when the tools, the source
    files and the merge directory allow it, and otherwise with status
    [merging_error] and an error message in the record. *)
Theorem mergeMedia_settles
    (env : MergeEnv) (projectId processId : string) (fs : FS) (r : record) :
  projectId ≠ "" →
  stored_record fs projectId = Some r →
  conforms r →
  (∀ D : Q, probe_output (me_probe env) = Some D → (0 < D)%Q) →
  ∃ (fs' : FS) (r' : record),
    MergeJob.mergeMedia env projectId processId fs = (Ret tt, fs')
    ∧ stored_record fs' projectId = Some r'
    ∧ ((merge_succeeds env projectId fs ∧ r' !! "status" = Some (JStr "merged"))
       ∨ (¬ merge_succeeds env projectId fs
          ∧ r' !! "status" = Some (JStr "merging_error")
          ∧ ∃ message : string, r' !! "error" = Some (JStr message))).
Proof.
  intros Hid Hrec Hconf _.
  pose proof (mergeMedia_outcome env projectId processId fs r Hid Hrec Hconf fs eq_refl) as H.
  destruct (MergeJob.mergeMedia env projectId processId fs) as [[[]|e] fs']; [|done].
  exists fs'. destruct H as [[Hok (D & HD & r' & Hrec' & _ & Hmerged & _)]|[Hno H]].
  - exists r'. split; [done|]. split; [done|]. left. split; [done|]. apply Hmerged.
  - destruct H as (r' & message & Hrec' & Hstatus & Herror).
    exists r'. split; [done|]. split; [done|]. right. eauto.
Qed.

Lemma mergeMedia_settles_witness :
  ∃ (fs' : FS) (r' : record),
    MergeJob.mergeMedia failing_merge_env "p1" "job_merge" downloaded_fs = (Ret tt, fs')
    ∧ stored_record fs' "p1" = Some r'
    ∧ r' !! "status" = Some (JStr "merging_error")
    ∧ ∃ message : string, r' !! "error" = Some (JStr message).
Proof.
  destruct (mergeMedia_settles failing_merge_env "p1" "job_merge" downloaded_fs sample_record)
    as (fs' & r' & Hrun & Hrec & [[Hok _]|(_ & Hstatus & Herror)]).
  - discriminate.
  - reflexivity.
  - vm_compute. exact I.
  - intros D [= <-]. reflexivity.
  - destruct Hok as (_ & _ & _ & _ & _ & _ & _ & Hcode). discriminate Hcode.
  - exists fs', r'. split; [exact Hrun|]. split; [exact Hrec|]. split; [exact Hstatus|].
    exact Herror.
Defined.

(** A merge in which everything succeeds: the record ends with status
    [merged], the next process [split], the completion time, the process
    identifier, the audio duration as [audioDuration] and [totalDuration]
    and progress 100 for the task and for its duration probe; the fields the
    task does not set (an earlier error message among them) are as before;
    the merged file exists; outside the record, the merge directory and
    that file nothing has changed; and a split request is then accepted. *)
Theorem mergeMedia_completes
    (env : MergeEnv) (projectId processId : string) (fs : FS) (r : record) (D : Q) :
  projectId ≠ "" →
  stored_record fs projectId = Some r →
  conforms r →
  merge_succeeds env projectId fs →
  probe_output (me_probe env) = Some D →
  (0 < D)%Q →
  fm_output (me_merge env) = true →
  ∃ (fs' : FS) (r' : record),
    MergeJob.mergeMedia env projectId processId fs = (Ret tt, fs')
    ∧ stored_record fs' projectId = Some r'
    ∧ merged_record env processId D r r'
    ∧ is_Some (fs' !! ["projects"; projectId; "merge"; "processed.mp4"])
    ∧ (∀ p : path,
         p ≠ Project.getMetadataPath projectId →
         p ≠ ["projects"; projectId; "merge"; "processed.mp4"] →
         p ∉ ancestors ["projects"; projectId; "merge"] →
         fs' !! p = fs !! p)
    ∧ (∀ uuid : string,
         ∃ fs'' : FS,
           Split.POST projectId uuid fs' =
             (Ret ({| res_body := BStarted projectId uuid; res_status := 200 |},
                   Some (SplitMedia projectId uuid)), fs'')).
Proof.
  intros Hid Hrec Hconf Hok HD _ Houtput.
  pose proof (mergeMedia_outcome env projectId processId fs r Hid Hrec Hconf fs eq_refl) as H.
  destruct (MergeJob.mergeMedia env projectId processId fs) as [[[]|e] fs']; [|done].
  destruct H as [[_ (D' & HD' & r' & Hrec' & Hconf' & Hmerged & Hframe)]|[Hno _]]; [|done].
  assert (D' = D) as -> by congruence.
  rewrite Houtput in Hframe.
  assert (Project.getMetadataPath projectId ≠ ["projects"; projectId; "merge"; "processed.mp4"])
    as Hne by discriminate.
  assert (is_Some (fs' !! ["projects"; projectId; "merge"; "processed.mp4"])) as Hfile.
  { rewrite Hframe by done. rewrite lookup_insert_eq. eauto. }
  exists fs', r'. split_and!; try done.
  - intros p Hp Hp' Hanc. rewrite Hframe by done. rewrite lookup_insert_ne by done.
    by apply with_directories_other.
  - intros uuid. eexists. apply (Split_POST_run projectId uuid fs' r'); try done.
    rewrite Hframe by discriminate. rewrite lookup_insert_ne by discriminate.
    apply with_directories_made. cbn. in_list.
Qed.

Lemma mergeMedia_completes_witness :
  ∃ (fs' : FS) (r' : record),
    MergeJob.mergeMedia sample_merge_env "p1" "job_merge" downloaded_fs = (Ret tt, fs')
    ∧ stored_record fs' "p1" = Some r'
    ∧ r' !! "status" = Some (JStr "merged")
    ∧ r' !! "totalDuration" = Some (JNum 125)
    ∧ progress_of r' !! "job_merge" = Some (JNum 100)
    ∧ r' !! "error" = Some (JStr "yt-dlp failed")
    ∧ is_Some (fs' !! ["projects"; "p1"; "merge"; "processed.mp4"]).
Proof.
  destruct (mergeMedia_completes sample_merge_env "p1" "job_merge" downloaded_fs
              sample_record 125)
    as (fs' & r' & Hrun & Hrec & Hmerged & Hfile & _).
  - discriminate.
  - reflexivity.
  - vm_compute. exact I.
  - unfold merge_succeeds. split; [reflexivity|]. split; [reflexivity|].
    split; [reflexivity|]. split; [reflexivity|]. split; [vm_compute; eauto|].
    split; [vm_compute; eauto|]. split; [vm_compute; eauto|reflexivity].
  - reflexivity.
  - reflexivity.
  - reflexivity.
  - destruct Hmerged as (Hstatus & _ & _ & _ & _ & Htotal & Hp & _ & Hkeep).
    exists fs', r'. split; [exact Hrun|]. split; [exact Hrec|]. split; [exact Hstatus|].
    split; [exact Htotal|]. split; [exact Hp|]. split; [|exact Hfile].
    rewrite Hkeep; [reflexivity|]. unfold merge_fields. not_in_list.
Defined.

Lemma Math_round_nonneg (x : Q) : (0 <= x)%Q → (0 <= Math_round x)%Q.
Proof.
  intros Hx. unfold Math_round. change 0%Q with (inject_Z 0). rewrite <- Zle_Qle.
  change 0%Z with (Qfloor 0). apply Qfloor_resp_le. lra.
Qed.

Lemma clamped_percentage (x : Q) : (0 <= x)%Q → percentage (Qmin (Math_round x) 100).
Proof.
  intros Hx. pose proof (Math_round_nonneg x Hx) as Hr. split_and!.
  - apply Q.min_glb; [exact Hr|discriminate].
  - apply Q.le_min_r.
  - destruct (Q.min_spec (Math_round x) 100) as [[_ H]|[_ H]].
    + by exists (Qfloor (x + (1 # 2))).
    + by exists 100%Z.
Qed.

(** While it merges, [ffmpeg]'s position is turned into a whole percentage
    between 0 and 100: a task whose progress entry is such a number keeps
    one through the whole run of [mergeVideoAndAudio], however far the
    reported position runs past the audio duration. *)
Theorem mergeVideoAndAudio_progress_bounded
    (run : FfmpegMerge) (D : Q) (ffmpeg : option string) (projectId processId : string)
    (fs : FS) (r : record) (q0 : Q) :
  (0 < D)%Q →
  (∀ (chunk : FfmpegChunk) (elapsed : Q),
     chunk ∈ fm_chunks run → chunk_elapsed chunk = Some elapsed → (0 <= elapsed)%Q) →
  stored_record fs projectId = Some r →
  conforms r →
  progress_of r !! processId = Some (JNum q0) →
  percentage q0 →
  ∃ (result : outcome unit) (fs' : FS) (r' : record) (q : Q),
    MergeJob.mergeVideoAndAudio run
      ["projects"; projectId; "source"; "video.mp4"]
      ["projects"; projectId; "source"; "audio.mp3"]
      ["projects"; projectId; "merge"; "processed.mp4"]
      D ffmpeg projectId processId fs = (result, fs')
    ∧ stored_record fs' projectId = Some r'
    ∧ progress_of r' !! processId = Some (JNum q)
    ∧ percentage q.
Proof.
  intros HD Hchunks Hrec Hconf Hq0 Hp0.
  set (A := λ r1 : record, ∃ q : Q, progress_of r1 !! processId = Some (JNum q) ∧ percentage q).
  pose proof (mergeVideoAndAudio_values projectId run
                ["projects"; projectId; "source"; "video.mp4"]
                ["projects"; projectId; "source"; "audio.mp3"]
                ["projects"; projectId; "merge"; "processed.mp4"]
                D ffmpeg processId percentage A fs) as H.
  assert (tracked projectId A (agrees_off_record projectId fs) fs) as Hinit.
  { exists r. split_and!; [done|done|by exists q0|done]. }
  specialize (H ltac:(discriminate) ltac:(discriminate) ltac:(discriminate)).
  assert (∀ (chunk : FfmpegChunk) (elapsed : Q),
            chunk ∈ fm_chunks run → chunk_elapsed chunk = Some elapsed →
            percentage (Qmin (Math_round (elapsed / D * 100)) 100)) as HV.
  { intros chunk elapsed Hin He. apply clamped_percentage.
    pose proof (Hchunks chunk elapsed Hin He) as Hnonneg.
    apply Qmult_le_0_compat; [|discriminate].
    apply Qle_shift_div_l; [exact HD|]. lra. }
  specialize (H HV).
  assert (∀ (r1 : record) (p : Q), percentage p → A r1 →
            A (<["progress" := JObj (<[processId := JNum p]> (progress_of r1))]> r1)) as HA.
  { intros r1 p Hp _. exists p. split; [|exact Hp].
    rewrite progress_of_set_progress. apply lookup_insert_eq. }
  specialize (H HA fs Hinit).
  destruct (MergeJob.mergeVideoAndAudio _ _ _ _ _ _ _ _ fs) as [[[]|e] fs'].
  - destruct H as (_ & _ & _ & _ & r' & Hrec' & _ & (q & Hq & Hp) & _).
    by exists (Ret tt), fs', r', q.
  - destruct H as (_ & _ & r' & Hrec' & _ & (q & Hq & Hp) & _).
    by exists (Throw e), fs', r', q.
Qed.

Lemma mergeVideoAndAudio_progress_bounded_witness :
  ∃ (result : outcome unit) (fs' : FS) (r' : record) (q : Q),
    MergeJob.mergeVideoAndAudio (me_merge sample_merge_env)
      ["projects"; "p1"; "source"; "video.mp4"]
      ["projects"; "p1"; "source"; "audio.mp3"]
      ["projects"; "p1"; "merge"; "processed.mp4"]
      125 (Some "/usr/bin/ffmpeg") "p1" "job_audio" downloaded_fs = (result, fs')
    ∧ stored_record fs' "p1" = Some r'
    ∧ progress_of r' !! "job_audio" = Some (JNum q)
    ∧ percentage q.
Proof.
  apply (mergeVideoAndAudio_progress_bounded (me_merge sample_merge_env) 125
           (Some "/usr/bin/ffmpeg") "p1" "job_audio" downloaded_fs sample_record 40).
  - reflexivity.
  - intros chunk elapsed Hin He.
    repeat (apply elem_of_cons in Hin as [->|Hin];
            [simpl in He; simplify_eq; discriminate|]).
    by apply elem_of_nil in Hin.
  - reflexivity.
  - vm_compute. exact I.
  - reflexivity.
  - split; [discriminate|]. split; [discriminate|]. by exists 40%Z.
Defined.

(** ** The split task *)

Section segment_files.
Context (dir : path).




End segment_files.

Section split_loop.
Context (env : SplitEnv) (projectId processId : string) (r1 : record) (X : FS).
Hypothesis Hid : projectId ≠ "".
Hypothesis Huuid : env_probe_uuid env ≠ "".



End split_loop.

Section split_task.
Context (env : SplitEnv) (projectId processId : string) (fs0 : FS) (r0 : record).
Hypothesis Hid : projectId ≠ "".
Hypothesis Huuid : env_probe_uuid env ≠ "".
Hypothesis Huuid2 : env_probe2_uuid env ≠ "".
Hypothesis Hrec0 : stored_record fs0 projectId = Some r0.
Hypothesis Hconf0 : conforms r0.


End split_task.






(** ** The exported split loop of lib/utils/media.ts *)

Section media_split.
Context (D L : Q) (cut_code : FfmpegCut → Z) (videoPath outputDir : path).


Hypothesis HD : (0 < D)%Q.
Hypothesis HL : (0 < L)%Q.




End media_split.

Section media_sum.
Context (D L : Q).
Hypothesis HD : (0 < D)%Q.
Hypothesis HL : (0 < L)%Q.



End media_sum.



(** ** A caption task that succeeds *)

Section caption_success.
Variables (projectId : string) (l0 : list json) (idx : nat).

Let segmentsPath : path := ["projects"; projectId; "segments.json"].
Let state : FS → FS → Prop := caption_state projectId l0 idx.
Let never : string → FS → Prop := λ _ _, False.

Lemma state_lookup (G fs : FS) (p : path) :
  p ≠ segmentsPath → state G fs → fs !! p = G !! p.
Proof. intros Hp (l & _ & ->). by rewrite lookup_insert_ne. Qed.

Lemma state_insert (G fs : FS) (p : path) (n : node) :
  p ≠ segmentsPath → state G fs → state (<[p := n]> G) (<[p := n]> fs).
Proof.
  intros Hp (l & Hrel & ->). exists l. split; [exact Hrel|].
  by apply insert_insert_ne.
Qed.

Lemma state_delete (G fs : FS) (p : path) :
  p ≠ segmentsPath → state G fs → state (delete p G) (delete p fs).
Proof.
  intros Hp (l & Hrel & ->). exists l. split; [exact Hrel|].
  by rewrite delete_insert_ne.
Qed.

Lemma state_writeFileSync (G : FS) (p : path) (d : fdata) :
  p ≠ segmentsPath →
  hoare (state G) (writeFileSync p d) (λ _, state (<[p := File d]> G)) never.
Proof. intros Hp fs Hfs. by apply state_insert. Qed.

Lemma state_is_directory (G fs : FS) (p : path) :
  p ≠ segmentsPath → state G fs → is_directory fs p = is_directory G p.
Proof.
  intros Hp Hfs. unfold is_directory. destruct p; [done|].
  by rewrite (state_lookup G fs _ Hp Hfs).
Qed.

Lemma state_is_file (G fs : FS) (p : path) :
  p ≠ segmentsPath → state G fs → is_file fs p = is_file G p.
Proof.
  intros Hp Hfs. unfold is_file. destruct p; [done|].
  by rewrite (state_lookup G fs _ Hp Hfs).
Qed.

Lemma state_writeFileSync_at (G : FS) (p : path) (d : fdata) :
  p ≠ segmentsPath → dirname p ≠ segmentsPath →
  is_directory G p = false → is_directory G (dirname p) = true →
  hoare (state G) (writeFileSync_at p d) (λ _, state (<[p := File d]> G)) never.
Proof.
  intros Hp Hdp Hnd Hd fs Hfs. unfold writeFileSync_at.
  rewrite (state_is_directory G fs p Hp Hfs), Hnd.
  rewrite (state_is_directory G fs _ Hdp Hfs), Hd.
  by apply state_insert.
Qed.

Lemma state_mkdirSync_recursive (G : FS) (p : path) :
  segmentsPath ∉ ancestors p →
  existsb (is_file G) (ancestors p) = false →
  hoare (state G) (mkdirSync_recursive p) (λ _, state (with_directories p G)) never.
Proof.
  intros Hp Hfree fs Hfs. rewrite mkdirSync_recursive_run.
  assert (existsb (is_file fs) (ancestors p) = existsb (is_file G) (ancestors p)) as ->.
  { clear Hfree. induction (ancestors p) as [|q l IH]; [done|].
    apply not_elem_of_cons in Hp as [Hq Hl]. simpl.
    by rewrite (state_is_file G fs q (not_eq_sym Hq) Hfs), IH. }
  rewrite Hfree. destruct Hfs as (l & Hrel & ->). exists l. split; [exact Hrel|].
  apply map_eq. intros q. rewrite with_directories_lookup.
  destruct (decide (q = segmentsPath)) as [->|Hq].
  - by rewrite !lookup_insert_eq.
  - by rewrite !lookup_insert_ne, with_directories_lookup.
Qed.

Lemma state_unlinkSync (G : FS) (p : path) (d : fdata) :
  p ≠ segmentsPath →
  G !! p = Some (File d) →
  hoare (state G) (unlinkSync p) (λ _, state (delete p G)) never.
Proof.
  intros Hp Hfile fs Hfs. unfold unlinkSync.
  rewrite (state_lookup G fs p Hp Hfs), Hfile. by apply state_delete.
Qed.

Lemma state_existsSync (G : FS) (p : path) :
  p ≠ segmentsPath →
  hoare (state G) (existsSync p)
        (λ b fs, b = bool_decide (is_Some (G !! p)) ∧ state G fs) never.
Proof.
  intros Hp fs Hfs. unfold existsSync. by rewrite (state_lookup G fs p Hp Hfs).
Qed.

Lemma state_updateSegmentProgress (G : FS) (progress : Q) :
  hoare (state G) (CaptionRoute.updateSegmentProgress segmentsPath (Some idx) progress)
        (λ _, state G) never.
Proof.
  intros fs (l & Hrel & ->).
  destruct (same_but_progress_lookup l0 idx l Hrel) as (o0 & o & Hidx0 & Hidx & Hl & Hsame).
  unfold CaptionRoute.updateSegmentProgress, try_catch, mbind, M_bind, readFileSync.
  rewrite lookup_insert_eq. simpl. rewrite Hidx. simpl.
  destruct (strict_eq (o !! "captioningStatus") (Some (JStr "in-progress"))).
  - simpl. eexists. split; [|by rewrite insert_insert_eq].
    exists o0, (<["captioningProgress" := JNum (Qmin progress 100)]> o).
    split; [exact Hidx0|]. split.
    + rewrite Hl. by rewrite list_insert_insert_eq.
    + intros k Hk. rewrite lookup_insert_ne by done. by apply Hsame.
  - by exists l.
Qed.

Lemma state_run_tool (G : FS) (run : ToolRun) (output : path) (callback : option (Q → M unit)) :
  output ≠ segmentsPath →
  tool_error run = None →
  (∀ f, callback = Some f → ∀ (p : Q) (G' : FS), hoare (state G') (f p) (λ _, state G') never) →
  hoare (state G) (CaptionRoute.run_tool run output callback)
        (λ _, state (if tool_output run then <[output := File FOther]> G else G)) never.
Proof.
  intros Hout Herr Hcb. unfold CaptionRoute.run_tool. rewrite Herr.
  assert (∀ (p : Q) (G' : FS),
            hoare (state G') (match callback with Some f => f p | None => mret tt end)
                  (λ _, state G') never) as Hrep.
  { intros p G'. destruct callback as [f|]; [by apply Hcb|by apply hoare_ret]. }
  eapply hoare_bind.
  - apply (hoare_for_each _ _ (λ _ _, state G)). intros k p [] _. apply Hrep.
  - intros ?. eapply hoare_bind; [|intros ?; apply Hrep].
    destruct (tool_output run); [by apply state_writeFileSync|by apply hoare_ret].
Qed.

Lemma state_read_segments {B : Type} (G : FS) (f : list json → M B) (Q : B → FS → Prop) E :
  (∀ l : list json, same_but_progress idx l0 l → hoare (state G) (f l) Q E) →
  hoare (state G) (text ← readFileSync segmentsPath;
                   segments ← parse_segments text;
                   f segments) Q E.
Proof.
  intros Hf fs Hfs. pose proof Hfs as (l & Hrel & ->).
  unfold mbind, M_bind, readFileSync. rewrite lookup_insert_eq. simpl.
  by apply Hf.
Qed.

Lemma state_progress_callback (lo span : Q) (f : Q → M unit) :
  Some (λ progress : Q,
          CaptionRoute.updateSegmentProgress segmentsPath (Some idx)
            (lo + progress / 100 * span)%Q) = Some f →
  ∀ (p : Q) (G' : FS), hoare (state G') (f p) (λ _, state G') never.
Proof. intros [= <-] p G'. apply state_updateSegmentProgress. Qed.

Lemma state_read_record {B : Type} (G : FS) (r : record) (f : jsval → M B)
    (Q : B → FS → Prop) E :
  G !! ["projects"; projectId; "metadata.json"] = Some (File (FMeta r)) →
  hoare (state G) (f (r !! "segmentTitleColor")) Q E →
  hoare (state G) (text ← readFileSync ["projects"; projectId; "metadata.json"];
                   metadata ← parse_json text;
                   titleColor ← lift (get_prop metadata "segmentTitleColor");
                   f titleColor) Q E.
Proof.
  intros Hmeta Hf fs Hfs.
  unfold mbind, M_bind, readFileSync.
  rewrite (state_lookup G fs ["projects"; projectId; "metadata.json"] ltac:(discriminate) Hfs).
  rewrite Hmeta. simpl.
  by apply Hf.
Qed.

Lemma state_copyFileSync (G : FS) (src dest : path) (d : fdata) :
  src ≠ segmentsPath → dest ≠ segmentsPath → dirname dest ≠ segmentsPath →
  G !! src = Some (File d) →
  is_directory G dest = false → is_directory G (dirname dest) = true →
  hoare (state G) (copyFileSync src dest) (λ _, state (<[dest := File d]> G)) never.
Proof.
  intros Hsrc Hdest Hddest Hfile Hnd Hd. unfold copyFileSync.
  eapply hoare_bind_nothrow with (R := λ d' fs, d' = d ∧ state G fs).
  - intros fs Hfs. unfold readFileSync.
    by rewrite (state_lookup G fs src Hsrc Hfs), Hfile.
  - intros d'. apply hoare_pre. intros ->. by apply state_writeFileSync_at.
Qed.

Lemma lift_ret_bind {A B : Type} (P : FS → Prop) (a : A) (f : A → M B) (Q : B → FS → Prop) E :
  hoare P (f a) Q E → hoare P (x ← lift (Ret a); f x) Q E.
Proof. intros Hf fs HP. by apply Hf. Qed.

Lemma state_addCaptionsToVideo (G : FS) (run : ToolRun) (subtitles ass output : path)
    (callback : Q → M unit) (lines : list Caption) (events : string) :
  subtitles ≠ segmentsPath → ass ≠ segmentsPath → dirname ass ≠ segmentsPath →
  output ≠ segmentsPath →
  G !! subtitles = Some (File (FSubtitles lines)) →
  CaptionRoute.assEvents (Captions.srtContent lines) = Ret events →
  path_replace ".srt" ".ass" subtitles = ass →
  is_directory G ass = false → is_directory G (dirname ass) = true →
  tool_error run = None →
  (∀ (p : Q) (G' : FS), hoare (state G') (callback p) (λ _, state G') never) →
  hoare (state G) (CaptionRoute.addCaptionsToVideo run subtitles output callback)
        (λ _, state (if tool_output run then <[output := File FOther]> (delete ass G)
                     else delete ass G)) never.
Proof.
  intros Hs Ha Hda Ho Hfile Hevents Hass Hnd Hd Herr Hcb.
  unfold CaptionRoute.addCaptionsToVideo. rewrite Herr, Hass.
  eapply hoare_bind_nothrow with (R := λ srt fs, srt = FSubtitles lines ∧ state G fs).
  { intros fs Hfs. unfold readFileSync.
    by rewrite (state_lookup G fs subtitles Hs Hfs), Hfile. }
  intros srt. apply hoare_pre. intros ->. rewrite Hevents. apply lift_ret_bind.
  eapply hoare_bind_nothrow; [by apply state_writeFileSync_at|intros ?].
  eapply hoare_bind_nothrow.
  { apply (hoare_for_each _ _ (λ _ _, state (<[ass := File FOther]> G))).
    intros k p [] _. apply Hcb. }
  intros ?.
  eapply hoare_bind_nothrow with (R := λ _, state (delete ass G)).
  { eapply hoare_try_catch with (E' := never); [|by intros e fs []].
    eapply hoare_conseq;
      [apply (state_unlinkSync (<[ass := File FOther]> G) ass FOther Ha);
         apply lookup_insert_eq| | |done].
    - done.
    - intros [] fs. by rewrite delete_insert_eq. }
  intros ?.
  eapply hoare_bind_nothrow; [|intros ?; apply Hcb].
  destruct (tool_output run); [by apply state_writeFileSync|by apply hoare_ret].
Qed.

End caption_success.

Lemma stringify_lookup (o : jsobj) (k : string) :
  JSON_stringify o !! k = o !! k ≫= id.
Proof. unfold JSON_stringify. apply lookup_omap. Qed.

Lemma parse_lookup (r : record) (k : string) : JSON_parse r !! k = Some <$> r !! k.
Proof. unfold JSON_parse. apply lookup_fmap. Qed.

(** The names of the files of one segment differ from one another. *)
Ltac distinct_paths :=
  let H := fresh in
  intros H;
  unfold audio_file, transcript_file, subtitle_file, ass_file, captioned_file, titled_file,
    result_file, caption_file in H;
  first
    [ discriminate H
    | simpl in H; discriminate H
    | injection H as H; apply (f_equal String.length) in H;
      rewrite ?string_length_app in H; simpl in H; lia
    | injection H as H; do 2 apply (inj (String.app _)) in H; discriminate H ].

Section caption_cleanup.
Variables (projectId name : string) (l0 : list json) (idx : nat).

Let state : FS → FS → Prop := caption_state projectId l0 idx.

Lemma not_directory_lookup (G : FS) (p : path) :
  is_directory G p = false → G !! p ≠ Some Dir.
Proof.
  unfold is_directory. destruct p; [done|]. intros H Hl. by rewrite Hl in H.
Qed.

(** The [try] block that removes the intermediate files. *)
Lemma state_cleanup (G : FS) (dc dt ds : fdata) :
  G !! captioned_file projectId name = Some (File dc) →
  G !! titled_file projectId name = Some (File dt) →
  G !! subtitle_file projectId name = Some (File ds) →
  is_directory G (audio_file projectId name) = false →
  is_directory G (transcript_file projectId name) = false →
  hoare (state G)
    (try_catch
       (_ ← unlinkSync (captioned_file projectId name);
        _ ← unlinkSync (titled_file projectId name);
        _ ← unlinkSync (audio_file projectId name);
        _ ← unlinkSync (subtitle_file projectId name);
        found ← existsSync (transcript_file projectId name);
        if (found : bool) then unlinkSync (transcript_file projectId name) else mret tt)
       (λ cleanupErr, mret tt))
    (λ _ fs, ∃ G' : FS,
       (G' !! captioned_file projectId name = None
        ∧ G' !! titled_file projectId name = None
        ∧ (is_Some (G !! audio_file projectId name) →
             G' !! audio_file projectId name = None
             ∧ G' !! transcript_file projectId name = None
             ∧ G' !! subtitle_file projectId name = None)
        ∧ ∀ p : path,
            p ∉ [captioned_file projectId name; titled_file projectId name;
                 audio_file projectId name; subtitle_file projectId name;
                 transcript_file projectId name] →
            G' !! p = G !! p)
       ∧ state G' fs)
    (λ _ _, False).
Proof.
  intros Hc Ht Hs Hna Hnj fs Hfs.
  apply not_directory_lookup in Hna, Hnj.
  pose proof (state_delete projectId l0 idx G fs (captioned_file projectId name)
                ltac:(distinct_paths) Hfs) as H1.
  pose proof (state_delete projectId l0 idx _ _ (titled_file projectId name)
                ltac:(distinct_paths) H1) as H2.
  pose proof (state_delete projectId l0 idx _ _ (audio_file projectId name)
                ltac:(distinct_paths) H2) as H3.
  pose proof (state_delete projectId l0 idx _ _ (subtitle_file projectId name)
                ltac:(distinct_paths) H3) as H4.
  pose proof (state_delete projectId l0 idx _ _ (transcript_file projectId name)
                ltac:(distinct_paths) H4) as H5.
  unfold try_catch, mbind, M_bind, unlinkSync, existsSync.
  rewrite (state_lookup projectId l0 idx G fs (captioned_file projectId name)
             ltac:(distinct_paths) Hfs), Hc.
  rewrite (state_lookup projectId l0 idx _ _ (titled_file projectId name)
             ltac:(distinct_paths) H1).
  rewrite lookup_delete_ne by distinct_paths. rewrite Ht.
  rewrite (state_lookup projectId l0 idx _ _ (audio_file projectId name)
             ltac:(distinct_paths) H2).
  rewrite !lookup_delete_ne by distinct_paths.
  destruct (G !! audio_file projectId name) as [[|da]|] eqn:Ha; [done|..].
  - rewrite (state_lookup projectId l0 idx _ _ (subtitle_file projectId name)
               ltac:(distinct_paths) H3).
    rewrite !lookup_delete_ne by distinct_paths. rewrite Hs.
    rewrite (state_lookup projectId l0 idx _ _ (transcript_file projectId name)
               ltac:(distinct_paths) H4).
    rewrite !lookup_delete_ne by distinct_paths.
    destruct (G !! transcript_file projectId name) as [[|dj]|] eqn:Hj; [done|..].
    + rewrite bool_decide_eq_true_2 by eauto.
      rewrite (state_lookup projectId l0 idx _ _ (transcript_file projectId name)
                 ltac:(distinct_paths) H4).
      rewrite !lookup_delete_ne by distinct_paths. rewrite Hj.
      eexists. split; [|exact H5]. split_and!.
      * rewrite !lookup_delete_ne by distinct_paths. apply lookup_delete_eq.
      * rewrite !lookup_delete_ne by distinct_paths. apply lookup_delete_eq.
      * intros _. split_and!.
        -- rewrite !lookup_delete_ne by distinct_paths. apply lookup_delete_eq.
        -- apply lookup_delete_eq.
        -- rewrite !lookup_delete_ne by distinct_paths. apply lookup_delete_eq.
      * intros p Hp. rewrite !not_elem_of_cons in Hp.
        destruct Hp as (? & ? & ? & ? & ? & _). by rewrite !lookup_delete_ne.
    + rewrite bool_decide_eq_false_2 by (intros [? ?]; discriminate).
      eexists. split; [|exact H4]. split_and!.
      * rewrite !lookup_delete_ne by distinct_paths. apply lookup_delete_eq.
      * rewrite !lookup_delete_ne by distinct_paths. apply lookup_delete_eq.
      * intros _. split_and!.
        -- rewrite !lookup_delete_ne by distinct_paths. apply lookup_delete_eq.
        -- rewrite !lookup_delete_ne by distinct_paths. exact Hj.
        -- apply lookup_delete_eq.
      * intros p Hp. rewrite !not_elem_of_cons in Hp.
        destruct Hp as (? & ? & ? & ? & ? & _). by rewrite !lookup_delete_ne.
  - eexists. split; [|exact H2]. split_and!.
    + rewrite !lookup_delete_ne by distinct_paths. apply lookup_delete_eq.
    + apply lookup_delete_eq.
    + intros [? ?]. discriminate.
    + intros p Hp. rewrite !not_elem_of_cons in Hp.
      destruct Hp as (? & ? & ? & ? & ? & _). by rewrite !lookup_delete_ne.
Qed.

End caption_cleanup.

Section directory_facts.

Lemma is_directory_insert_ne (G : FS) (p q : path) (n : node) :
  p ≠ q → is_directory (<[p := n]> G) q = is_directory G q.
Proof. intros Hne. unfold is_directory. destruct q; [done|]. by rewrite lookup_insert_ne. Qed.

Lemma is_directory_insert_file (G : FS) (p q : path) (d : fdata) :
  is_directory G q = false → is_directory (<[p := File d]> G) q = false.
Proof.
  intros Hq. destruct (decide (p = q)) as [->|Hne].
  - unfold is_directory in *. destruct q; [done|]. by rewrite lookup_insert_eq.
  - by rewrite is_directory_insert_ne.
Qed.

Lemma is_directory_delete_ne (G : FS) (p q : path) :
  p ≠ q → is_directory (delete p G) q = is_directory G q.
Proof. intros Hne. unfold is_directory. destruct q; [done|]. by rewrite lookup_delete_ne. Qed.

Lemma is_directory_delete (G : FS) (p q : path) :
  is_directory G q = false → is_directory (delete p G) q = false.
Proof.
  intros Hq. destruct (decide (p = q)) as [->|Hne].
  - unfold is_directory in *. destruct q; [done|]. by rewrite lookup_delete_eq.
  - by rewrite is_directory_delete_ne.
Qed.

End directory_facts.

Section caption_completes.
Variables (env : CaptionEnv) (projectId : string) (segment : record) (processId : string).
Variables (l0 : list json) (idx : nat) (G0 : FS) (r : record).
Hypothesis succeeds : caption_succeeds env.
Hypothesis found : findIndex "id" (segment !! "id") l0 = Ret (Some idx).
Hypothesis readable : G0 !! ["projects"; projectId; "metadata.json"] = Some (File (FMeta r)).
Hypothesis ready : caption_ready projectId segment G0.

Let name : string := CaptionRoute.id_string (segment !! "id").
Let state : FS → FS → Prop := caption_state projectId l0 idx.
Let captionsDir : path := ["projects"; projectId; "captions"].

(** The captions directory is there and none of the files of the task is a
    directory. *)
Let good (G : FS) : Prop :=
  is_directory G captionsDir = true
  ∧ Forall (λ p : path, is_directory G p = false) (caption_files projectId name).

Lemma good_insert (G : FS) (p : path) (d : fdata) :
  p ≠ captionsDir → good G → good (<[p := File d]> G).
Proof.
  intros Hp [Hdir Hfiles]. split.
  - by rewrite is_directory_insert_ne.
  - eapply Forall_impl; [exact Hfiles|]. intros q Hq. by apply is_directory_insert_file.
Qed.

Lemma good_delete (G : FS) (p : path) :
  p ≠ captionsDir → good G → good (delete p G).
Proof.
  intros Hp [Hdir Hfiles]. split.
  - by rewrite is_directory_delete_ne.
  - eapply Forall_impl; [exact Hfiles|]. intros q Hq. by apply is_directory_delete.
Qed.

Lemma good_file (G : FS) (p : path) :
  p ∈ caption_files projectId name → good G → is_directory G p = false.
Proof. intros Hp [_ Hfiles]. by apply (proj1 (Forall_forall _ _) Hfiles). Qed.

Lemma captionSegment_try_completes :
  hoare (state G0) (CaptionRoute.captionSegment_try env projectId segment processId)
    (λ _ fs, ∃ (G : FS) (o0 o : gmap string json),
       l0 !! idx = Some (JObj o0)
       ∧ fs = <[["projects"; projectId; "segments.json"] :=
                  File (FSegments (<[idx := JObj o]> l0))]> G
       ∧ completed_segment env name o0 o
       ∧ caption_files_after env projectId name G0 G)
    (λ _ _, False).
Proof.
  destruct succeeds as (Hff & Hfp & He1 & He2 & He3 & He4 & _ & Ho3 & Ho4 & events & Hevents).
  destruct ready as ([filename Hfilename] & _ & Hass & Hfree & Hnodir). fold name in Hass.
  unfold CaptionRoute.captionSegment_try.
  rewrite !bool_decide_eq_true_2 by done. simpl negb. cbv iota.
  rewrite Hfilename.
  cbv zeta. cbn [app]. fold name.
  change ["projects"; projectId; "captions"; "segment_" +:+ name +:+ "_audio.wav"]
    with (audio_file projectId name).
  change ["projects"; projectId; "captions"; "segment_" +:+ name +:+ "_audio.json"]
    with (transcript_file projectId name).
  change ["projects"; projectId; "captions"; "segment_" +:+ name +:+ ".srt"]
    with (subtitle_file projectId name).
  change ["projects"; projectId; "captions"; "captioned_" +:+ name +:+ ".mp4"]
    with (captioned_file projectId name).
  change ["projects"; projectId; "captions"; "final_" +:+ name +:+ ".mp4"]
    with (titled_file projectId name).
  change ["projects"; projectId; "captions"; "captioned_segment_" +:+ name +:+ ".mp4"]
    with (result_file projectId name).
  rewrite Ho3, Ho4.
  apply (lift_ret_bind (state G0) filename).
  (* the captions directory *)
  eapply hoare_bind_nothrow.
  { apply (state_mkdirSync_recursive projectId l0 idx G0 captionsDir); [not_in_list|exact Hfree]. }
  intros ?.
  set (G1 := with_directories captionsDir G0).
  assert (∀ p : path, p ∉ ancestors captionsDir → G1 !! p = G0 !! p) as HG1.
  { intros p Hp. by apply with_directories_other. }
  assert (good G1) as Hgood1.
  { split.
    - apply with_directories_is_directory; [unfold captionsDir; in_list|].
      apply orb_false_iff in Hfree as [_ Hfree]. apply orb_false_iff in Hfree as [_ Hfree].
      by apply orb_false_iff in Hfree as [Hfree _].
    - apply Forall_forall. intros q Hq. unfold G1.
      rewrite with_directories_not_directory;
        [by apply (proj1 (Forall_forall _ _) Hnodir)|].
      unfold caption_files in Hq.
      repeat (apply elem_of_cons in Hq as [->|Hq]; [not_in_list|]).
      by apply elem_of_nil in Hq. }
  clearbody G1.
  assert (∀ q : path, q ∈ caption_files projectId name → q ≠ captionsDir) as Hfile_dir.
  { intros q Hq ->. unfold caption_files in Hq.
    repeat (apply elem_of_cons in Hq as [Hq|Hq]; [discriminate Hq|]).
    by apply elem_of_nil in Hq. }
  apply state_read_segments. intros l Hrel.
  rewrite (findIndex_same_but_progress _ idx l0 l Hrel), found.
  apply lift_ret_bind.
  eapply hoare_bind_nothrow; [apply state_updateSegmentProgress|intros ?].
  (* audio extraction *)
  eapply hoare_bind_nothrow;
    [apply state_run_tool; [distinct_paths|exact He1|done]|intros ?].
  set (G2 := if tool_output (c_extract env) then _ else _).
  assert (∀ p : path, p ≠ audio_file projectId name → G2 !! p = G1 !! p) as HG2.
  { intros p Hp. unfold G2. destruct (tool_output (c_extract env)); [|done].
    by rewrite lookup_insert_ne. }
  assert (tool_output (c_extract env) = true → is_Some (G2 !! audio_file projectId name))
    as Haudio.
  { intros Hout. unfold G2. rewrite Hout, lookup_insert_eq. eauto. }
  assert (good G2) as Hgood2.
  { unfold G2. destruct (tool_output (c_extract env)); [|exact Hgood1].
    apply good_insert; [discriminate|exact Hgood1]. }
  clearbody G2.
  (* caption generation *)
  eapply hoare_bind_nothrow; [apply state_updateSegmentProgress|intros ?].
  eapply hoare_bind_nothrow;
    [apply state_run_tool; [distinct_paths|exact He2|apply state_progress_callback]|intros ?].
  set (G3 := if tool_output (c_whisper env) then _ else _).
  assert (∀ p : path, p ≠ transcript_file projectId name → G3 !! p = G2 !! p) as HG3.
  { intros p Hp. unfold G3. destruct (tool_output (c_whisper env)); [|done].
    by rewrite lookup_insert_ne. }
  assert (good G3) as Hgood3.
  { unfold G3. destruct (tool_output (c_whisper env)); [|exact Hgood2].
    apply good_insert; [discriminate|exact Hgood2]. }
  clearbody G3.
  (* the subtitles *)
  eapply hoare_bind_nothrow; [apply state_updateSegmentProgress|intros ?].
  eapply hoare_bind_nothrow.
  { apply state_writeFileSync_at; [distinct_paths|discriminate| |apply Hgood3].
    apply (good_file G3); [unfold caption_files; in_list|exact Hgood3]. }
  intros ?.
  set (G4 := <[subtitle_file projectId name := _]> G3).
  assert (good G4) as Hgood4 by (apply good_insert; [discriminate|exact Hgood3]).
  (* the captions *)
  eapply hoare_bind_nothrow; [apply state_updateSegmentProgress|intros ?].
  eapply hoare_bind_nothrow.
  { apply (state_addCaptionsToVideo projectId l0 idx G4 (c_burn env) _
             (ass_file projectId name) _ _
             (Captions.subtitleLines (c_captions env)) events);
      [distinct_paths|distinct_paths|discriminate|distinct_paths|apply lookup_insert_eq
      |exact Hevents|exact Hass| |apply Hgood4|exact He3
      |intros p G'; apply state_updateSegmentProgress].
    apply (good_file G4); [unfold caption_files; in_list|exact Hgood4]. }
  intros ?. rewrite Ho3.
  set (G5 := <[captioned_file projectId name := File FOther]> (delete _ G4)).
  assert (good G5) as Hgood5.
  { apply good_insert; [discriminate|]. apply good_delete; [discriminate|exact Hgood4]. }
  eapply hoare_bind_nothrow; [apply state_existsSync; distinct_paths|intros b].
  apply hoare_pre. intros ->.
  rewrite bool_decide_eq_true_2 by (unfold G5; rewrite lookup_insert_eq; eauto).
  simpl negb. cbv iota.
  (* the title *)
  eapply hoare_bind_nothrow; [apply state_updateSegmentProgress|intros ?].
  apply (state_read_record projectId l0 idx _ r).
  { unfold G5, G4. rewrite lookup_insert_ne by discriminate.
    rewrite lookup_delete_ne by discriminate. rewrite lookup_insert_ne by discriminate.
    rewrite HG3, HG2 by discriminate. rewrite HG1 by not_in_list. exact readable. }
  eapply hoare_bind_nothrow;
    [apply state_run_tool; [distinct_paths|exact He4|apply state_progress_callback]|intros ?].
  rewrite Ho4.
  set (G6 := <[titled_file projectId name := File FOther]> G5).
  assert (good G6) as Hgood6 by (apply good_insert; [discriminate|exact Hgood5]).
  eapply hoare_bind_nothrow; [apply state_updateSegmentProgress|intros ?].
  eapply hoare_bind_nothrow; [apply state_existsSync; distinct_paths|intros b].
  apply hoare_pre. intros ->.
  rewrite bool_decide_eq_true_2 by (unfold G6; rewrite lookup_insert_eq; eauto).
  simpl negb. cbv iota.
  (* the result *)
  eapply hoare_bind_nothrow.
  { apply (state_copyFileSync projectId l0 idx G6 _ _ FOther);
      [distinct_paths|distinct_paths|discriminate|apply lookup_insert_eq| |apply Hgood6].
    apply (good_file G6); [unfold caption_files; in_list|exact Hgood6]. }
  intros ?.
  set (G7 := <[result_file projectId name := File FOther]> G6).
  assert (good G7) as Hgood7 by (apply good_insert; [discriminate|exact Hgood6]).
  assert (G7 !! result_file projectId name = Some (File FOther)) as Hresult
    by apply lookup_insert_eq.
  assert (G7 !! captioned_file projectId name = Some (File FOther)) as Hcaptioned.
  { unfold G7, G6, G5. rewrite !lookup_insert_ne by distinct_paths. apply lookup_insert_eq. }
  assert (G7 !! titled_file projectId name = Some (File FOther)) as Htitled.
  { unfold G7, G6. rewrite !lookup_insert_ne by distinct_paths. apply lookup_insert_eq. }
  assert (G7 !! subtitle_file projectId name
          = Some (File (FSubtitles (Captions.subtitleLines (c_captions env))))) as Hsubtitle.
  { unfold G7, G6, G5, G4. rewrite !lookup_insert_ne by distinct_paths.
    rewrite lookup_delete_ne by distinct_paths. apply lookup_insert_eq. }
  assert (G7 !! ass_file projectId name = None) as Hnoass.
  { unfold G7, G6, G5. rewrite !lookup_insert_ne by distinct_paths. apply lookup_delete_eq. }
  assert (tool_output (c_extract env) = true → is_Some (G7 !! audio_file projectId name))
    as Haudio7.
  { intros Hout. unfold G7, G6, G5, G4. rewrite !lookup_insert_ne by distinct_paths.
    rewrite lookup_delete_ne by distinct_paths. rewrite lookup_insert_ne by distinct_paths.
    rewrite HG3 by distinct_paths. by apply Haudio. }
  assert (is_Some (G7 !! ["projects"; projectId; "captions"])) as Hdir7.
  { destruct Hgood7 as [Hd _]. unfold is_directory, captionsDir in Hd.
    destruct (G7 !! ["projects"; projectId; "captions"]); [eauto|done]. }
  assert (∀ p : path, p ∉ caption_paths projectId name → G7 !! p = G0 !! p) as Hframe.
  { intros p Hp. unfold caption_paths in Hp. rewrite !not_elem_of_cons in Hp.
    destruct Hp as (? & ? & ? & ? & ? & ? & ? & ? & ? & ? & ? & _).
    unfold G7, G6, G5, G4. rewrite !lookup_insert_ne by done.
    rewrite lookup_delete_ne by done. rewrite lookup_insert_ne by done.
    rewrite HG3, HG2 by done. apply HG1. unfold captionsDir. cbn.
    rewrite !not_elem_of_cons. split_and!; [done..|apply not_elem_of_nil]. }
  clearbody G7. clear G4 G5 G6 Hgood4 Hgood5 Hgood6.
  (* cleanup *)
  eapply hoare_bind_nothrow.
  { apply (state_cleanup projectId name l0 idx G7 _ _ _ Hcaptioned Htitled Hsubtitle).
    - apply (good_file G7); [unfold caption_files; in_list|exact Hgood7].
    - apply (good_file G7); [unfold caption_files; in_list|exact Hgood7]. }
  intros ?.
  apply hoare_exists. intros G8. apply hoare_pre. intros (Hc8 & Ht8 & Ha8 & Hother).
  eapply hoare_bind_nothrow; [apply state_updateSegmentProgress|intros ?].
  apply state_read_segments. intros l' Hrel'.
  intros fs (l2 & Hrel2 & ->).
  destruct (same_but_progress_lookup l0 idx l' Hrel') as (o0 & o1 & Hidx0 & Hidx1 & Hl' & Hsame).
  unfold writeFileSync. rewrite insert_insert_eq.
  unfold array_set. rewrite (proj2 (Nat.ltb_lt _ _) (lookup_lt_Some _ _ _ Hidx1)).
  rewrite Hidx1. simpl own_props.
  rewrite Hl', list_insert_insert_eq.
  eexists G8, o0, _. split; [exact Hidx0|]. split; [reflexivity|]. split.
  - unfold completed_segment. rewrite !stringify_lookup. split_and!.
    + by lookup_field.
    + by lookup_field.
    + by lookup_field.
    + rewrite lookup_insert_ne by done. rewrite lookup_insert_eq.
      by destruct (truthy (JStr <$> c_subtitle env)).
    + by rewrite lookup_insert_eq.
    + intros k Hk. unfold completed_fields in Hk. rewrite !not_elem_of_cons in Hk.
      destruct Hk as (? & ? & ? & ? & ? & _).
      rewrite stringify_lookup, !lookup_insert_ne by done.
      rewrite parse_lookup. destruct (decide (k = "captioningProgress")) as [->|Hk]; [done|].
      rewrite (Hsame k Hk). by destruct (o0 !! k).
  - unfold caption_files_after. split_and!.
    + rewrite Hother; [exact Hresult|]. rewrite !not_elem_of_cons.
      split_and!; [distinct_paths..|apply not_elem_of_nil].
    + exact Hc8.
    + exact Ht8.
    + rewrite Hother; [exact Hnoass|]. rewrite !not_elem_of_cons.
      split_and!; [distinct_paths..|apply not_elem_of_nil].
    + intros Hout. by apply Ha8, Haudio7.
    + rewrite Hother; [exact Hdir7|]. rewrite !not_elem_of_cons.
      split_and!; [discriminate..|apply not_elem_of_nil].
    + intros p Hp. rewrite Hother; [by apply Hframe|].
      unfold caption_paths in Hp. rewrite !not_elem_of_cons in Hp. rewrite !not_elem_of_cons.
      destruct Hp as (? & ? & ? & ? & ? & ? & ? & ? & ? & ? & ? & _).
      split_and!; [done..|apply not_elem_of_nil].
Qed.

End caption_completes.

(** Whether a caption task finds its way free does not depend on the two
    files of the store. *)
Lemma caption_ready_agree (projectId : string) (segment : record) (fs fs' : FS) :
  (∀ p : path,
     p ≠ ["projects"; projectId; "segments.json"] →
     p ≠ ["projects"; projectId; "metadata.json"] →
     fs' !! p = fs !! p) →
  caption_ready projectId segment fs → caption_ready projectId segment fs'.
Proof.
  intros Hsame (Hfilename & Hid & Hass & Hfree & Hnodir).
  split; [exact Hfilename|]. split; [exact Hid|]. split; [exact Hass|]. split.
  - etransitivity; [|exact Hfree]. cbn. unfold is_file. by rewrite !Hsame by discriminate.
  - apply Forall_forall. intros q Hq.
    pose proof (proj1 (Forall_forall _ _) Hnodir q Hq) as Hdir.
    unfold caption_files in Hq.
    assert (length q = 4%nat) as Hlen.
    { repeat (apply elem_of_cons in Hq as [->|Hq]; [done|]). by apply elem_of_nil in Hq. }
    unfold is_directory in *. destruct q as [|c q]; [done|].
    rewrite Hsame; [exact Hdir|intros Heq; by rewrite Heq in Hlen..].
Qed.

(** The outcome of a caption task in which every step succeeds. *)
Lemma captionSegment_success
    (env : CaptionEnv) (projectId : string) (segment : record) (processId : string)
    (fs0 : FS) (l0 : list json) (idx : nat) (r : record) :
  caption_succeeds env →
  caption_ready projectId segment fs0 →
  stored_segments fs0 projectId = Some l0 →
  stored_record fs0 projectId = Some r →
  is_Some (segment !! "id") →
  findIndex "id" (segment !! "id") l0 = Ret (Some idx) →
  ∃ (fs2 : FS) (o0 o2 : gmap string json),
    CaptionRoute.captionSegment env projectId segment processId fs0 = (Ret tt, fs2)
    ∧ l0 !! idx = Some (JObj o0)
    ∧ stored_segments fs2 projectId = Some (<[idx := JObj o2]> l0)
    ∧ completed_segment env (CaptionRoute.id_string (segment !! "id")) o0 o2
    ∧ (∀ i : nat, i ≠ idx → <[idx := JObj o2]> l0 !! i = l0 !! i)
    ∧ stored_record fs2 projectId = Some r
    ∧ caption_files_after env projectId (CaptionRoute.id_string (segment !! "id")) fs0 fs2.
Proof.
  intros Hok Hready Hsegs Hrec [w Hid] Hfind.
  assert (fs0 !! ["projects"; projectId; "segments.json"] = Some (File (FSegments l0))) as Hfile.
  { unfold stored_segments in Hsegs.
    destruct (fs0 !! ["projects"; projectId; "segments.json"]) as [[|[]]|]; congruence. }
  assert (fs0 !! ["projects"; projectId; "metadata.json"] = Some (File (FMeta r))) as Hmeta.
  { unfold stored_record, Project.getMetadataPath in Hrec.
    destruct (fs0 !! ["projects"; projectId; "metadata.json"]) as [[|[]]|]; congruence. }
  pose proof Hfind as Hobj. rewrite Hid in Hobj.
  apply findIndex_found in Hobj as [o0 Hidx0].
  assert (caption_state projectId l0 idx fs0 fs0) as Hinit.
  { exists l0. split; [|by rewrite insert_id].
    exists o0, o0. split; [exact Hidx0|]. split; [|done].
    symmetry. by apply list_insert_id. }
  pose proof (captionSegment_try_completes env projectId segment processId l0 idx fs0 r
                Hok Hfind Hmeta Hready fs0 Hinit) as Htry.
  unfold CaptionRoute.captionSegment, try_catch.
  destruct (CaptionRoute.captionSegment_try env projectId segment processId fs0)
    as [[[]|e] fs1]; [|destruct Htry].
  destruct Htry as (G & o0' & o2 & Hidx0' & -> & Hdone & Hfiles).
  assert (o0' = o0) as -> by congruence.
  exists (<[["projects"; projectId; "segments.json"] :=
             File (FSegments (<[idx := JObj o2]> l0))]> G), o0, o2.
  split; [reflexivity|]. split; [exact Hidx0|].
  split. { unfold stored_segments. by rewrite lookup_insert_eq. }
  split; [exact Hdone|].
  split. { intros i Hi. by apply list_lookup_insert_ne. }
  destruct Hfiles as (Hres & Hcap & Htit & Hnoass & Htemp & Hdir & Hframe).
  split.
  { unfold stored_record, Project.getMetadataPath.
    rewrite lookup_insert_ne by discriminate. rewrite Hframe, Hmeta; [done|].
    unfold caption_paths. rewrite !not_elem_of_cons.
    split_and!; [discriminate|discriminate|discriminate|discriminate|distinct_paths..
                |apply not_elem_of_nil]. }
  unfold caption_files_after. split_and!.
  - rewrite lookup_insert_ne by (apply not_eq_sym; distinct_paths). exact Hres.
  - rewrite lookup_insert_ne by (apply not_eq_sym; distinct_paths). exact Hcap.
  - rewrite lookup_insert_ne by (apply not_eq_sym; distinct_paths). exact Htit.
  - rewrite lookup_insert_ne by (apply not_eq_sym; distinct_paths). exact Hnoass.
  - intros Hout. destruct (Htemp Hout) as (Ha & Hj & Hs).
    rewrite !lookup_insert_ne by (apply not_eq_sym; distinct_paths). done.
  - rewrite lookup_insert_ne by discriminate. exact Hdir.
  - intros p Hp. pose proof Hp as Hp'.
    unfold caption_paths in Hp'. rewrite not_elem_of_cons in Hp'. destruct Hp' as [Hsp _].
    rewrite lookup_insert_ne by done. by apply Hframe.
Qed.

(** A caption task in which both tools are found and every step succeeds
    returns without an error and leaves the state below.  What it needs is
    in [caption_succeeds] and [caption_ready]: the tools do not fail and
    leave their output, the subtitles convert to ASS, the entry handed to
    the task has a file name (the code joins it to a path first) and a
    plain identifier, [.srt] occurs in the path of the subtitles as its
    extension only, no file is in the place of the captions directory, and
    no directory is in the place of one of the files of the task, the
    temporary [.ass] file among them.  The entry of its segment has [captioningStatus =
    'completed'], [captioningProgress = 100], the completion time and the
    name of the result; its [subtitle] is the generated one, and is removed
    when none was generated; every other field of the entry is as it was
    before, so a [captioningError] of an earlier attempt stays.  The other
    entries of the list and the project record are unchanged.  The result
    file exists, the two intermediate videos are removed, and so are the
    audio, the transcript and the subtitle file when the audio file was
    there; the [.ass] file is removed as well, also one that was there
    before.  Nothing else in the file system changes. *)
Theorem captionSegment_completes
    (env : CaptionEnv) (projectId : string) (segment : record) (processId : string)
    (fs0 : FS) (l0 : list json) (idx : nat) (r : record) :
  caption_succeeds env →
  stored_segments fs0 projectId = Some l0 →
  stored_record fs0 projectId = Some r →
  is_Some (segment !! "id") →
  findIndex "id" (segment !! "id") l0 = Ret (Some idx) →
  caption_ready projectId segment fs0 →
  ∃ (fs2 : FS) (o0 o2 : gmap string json),
    CaptionRoute.captionSegment env projectId segment processId fs0 = (Ret tt, fs2)
    ∧ l0 !! idx = Some (JObj o0)
    ∧ stored_segments fs2 projectId = Some (<[idx := JObj o2]> l0)
    ∧ completed_segment env (CaptionRoute.id_string (segment !! "id")) o0 o2
    ∧ (∀ i : nat, i ≠ idx → <[idx := JObj o2]> l0 !! i = l0 !! i)
    ∧ stored_record fs2 projectId = Some r
    ∧ caption_files_after env projectId (CaptionRoute.id_string (segment !! "id")) fs0 fs2.
Proof.
  intros Hok Hsegs Hrec Hid Hfind Hready.
  by apply (captionSegment_success env projectId segment processId fs0 l0 idx r).
Qed.

Lemma captionSegment_completes_witness :
  ∃ (fs2 : FS) (o0 o2 : gmap string json),
    CaptionRoute.captionSegment good_caption_env "p1" sample_segment "job_c" sample_fs2
      = (Ret tt, fs2)
    ∧ sample_segments !! 1%nat = Some (JObj o0)
    ∧ stored_segments fs2 "p1" = Some (<[1%nat := JObj o2]> sample_segments)
    ∧ completed_segment good_caption_env (CaptionRoute.id_string (sample_segment !! "id")) o0 o2
    ∧ (∀ i : nat, i ≠ 1%nat → <[1%nat := JObj o2]> sample_segments !! i = sample_segments !! i)
    ∧ stored_record fs2 "p1" = Some sample_record
    ∧ caption_files_after good_caption_env "p1"
        (CaptionRoute.id_string (sample_segment !! "id")) sample_fs2 fs2.
Proof.
  apply (captionSegment_completes good_caption_env "p1" sample_segment "job_c"
           sample_fs2 sample_segments 1%nat sample_record).
  - unfold caption_succeeds. split_and!; [simpl; eauto..|].
    eexists. vm_compute. reflexivity.
  - reflexivity.
  - reflexivity.
  - vm_compute. eauto.
  - reflexivity.
  - unfold caption_ready. split_and!.
    + eexists. reflexivity.
    + right. exists 2%Q, 2%Z. split_and!; reflexivity.
    + reflexivity.
    + reflexivity.
    + repeat constructor.
Defined.

(** ** Text of the title overlay *)

Section splitting.
Variable sep : ascii.

Lemma split_on_nonempty (s : string) : split_on sep s ≠ [].
Proof.
  induction s as [|c s IH]; [done|]. simpl.
  destruct (Ascii.eqb c sep); [done|]. by destruct (split_on sep s).
Qed.

(** A piece holds no separator: splitting it again gives the piece. *)
Lemma split_on_pieces (s w : string) : w ∈ split_on sep s → split_on sep w = [w].
Proof.
  revert w. induction s as [|c s IH]; intros w Hw; simpl in Hw.
  - apply list_elem_of_singleton in Hw as ->. done.
  - destruct (Ascii.eqb c sep) eqn:Hc.
    + apply elem_of_cons in Hw as [->|Hw]; [done|by apply IH].
    + destruct (split_on sep s) as [|w0 ws] eqn:Hs.
      * apply list_elem_of_singleton in Hw as ->. simpl. by rewrite Hc.
      * apply elem_of_cons in Hw as [->|Hw].
        -- simpl. rewrite Hc. rewrite (IH w0); [done|]. apply list_elem_of_here.
        -- apply IH. by apply list_elem_of_further.
Qed.

Lemma split_on_app (a b : string) :
  split_on sep (a +:+ String sep b) = split_on sep a ++ split_on sep b.
Proof.
  induction a as [|c a IH]; simpl.
  - by rewrite Ascii.eqb_refl.
  - destruct (Ascii.eqb c sep); [by rewrite IH|].
    rewrite IH. destruct (split_on sep a) as [|w ws] eqn:Ha; [|done].
    by destruct (split_on_nonempty a).
Qed.

End splitting.

Section wrapping.
Variable maxCharsPerLine : Q.

(** What holds of a line that [wrapText] returns. *)
Let fits (line : string) : Prop :=
  (nat_to_Q (String.length line) <= maxCharsPerLine)%Q ∨ spaceless line.

Let nonempty (w : string) : Prop := w ≠ "".

Let wrap_inv (st : list string * string) (done : list string) : Prop :=
  Forall (λ line, line ≠ "" ∧ fits line) st.1
  ∧ fits st.2
  ∧ filter nonempty ((st.1 ≫= split_on " ") ++ split_on " " st.2) = filter nonempty done.

Lemma string_length_0 (s : string) : (String.length s =? 0)%nat = true → s = "".
Proof. by destruct s. Qed.

Lemma wrapWord_inv (st : list string * string) (done : list string) (word : string) :
  spaceless word →
  wrap_inv st done →
  wrap_inv (Overlay.wrapWord maxCharsPerLine st word) (done ++ [word]).
Proof.
  intros Hword (Hlines & Hcur & Hwords). destruct st as [lines cur]. simpl in *.
  unfold Overlay.wrapWord.
  destruct (longer_than _ _ && _) eqn:Hpush.
  - apply andb_true_iff in Hpush as [_ Hlen]. apply Nat.ltb_lt in Hlen.
    split_and!; simpl.
    + apply Forall_app. split; [exact Hlines|]. constructor; [|constructor].
      split; [|exact Hcur]. intros ->. simpl in Hlen. lia.
    + by right.
    + rewrite bind_app. simpl. rewrite app_nil_r, Hword.
      rewrite filter_app, Hwords. by rewrite <- filter_app.
  - destruct (String.length cur =? 0)%nat eqn:Hempty.
    + apply string_length_0 in Hempty as ->.
      split_and!; simpl; [exact Hlines|by right|].
      rewrite Hword. rewrite filter_app in Hwords. rewrite !filter_app.
      rewrite <- Hwords. simpl.
      rewrite (filter_cons_False nonempty "" []) by (intros H; by apply H).
      rewrite filter_nil. by rewrite app_nil_r.
    + apply Nat.eqb_neq in Hempty.
      assert ((0 <? String.length cur)%nat = true) as Hpos by (apply Nat.ltb_lt; lia).
      rewrite Hpos, andb_true_r in Hpush. unfold longer_than in Hpush.
      apply negb_false_iff, Qle_bool_iff in Hpush.
      split_and!; simpl; [exact Hlines|by left|].
      change (cur +:+ " " +:+ word) with (cur +:+ String " " word).
      rewrite split_on_app, Hword.
      rewrite app_assoc, filter_app, Hwords. by rewrite <- filter_app.
Qed.

Lemma wrap_words_inv (words : list string) :
  ∀ (st : list string * string) (done : list string),
    Forall spaceless words →
    wrap_inv st done →
    wrap_inv (fold_left (Overlay.wrapWord maxCharsPerLine) words st) (done ++ words).
Proof.
  induction words as [|w words IH]; intros st done Hall Hinv; simpl.
  - by rewrite app_nil_r.
  - apply Forall_cons in Hall as [Hw Hall].
    replace (done ++ w :: words) with ((done ++ [w]) ++ words) by by rewrite <- app_assoc.
    apply IH; [exact Hall|]. by apply wrapWord_inv.
Qed.

(** [wrapText] returns no empty line; each line is at most
    [maxCharsPerLine] long or is a single word that does not fit;
    and the lines hold the words of the text in their order, none lost and
    none split (empty words, between two spaces in a row, are not
    counted). *)
Theorem wrapText_lines (text : string) :
  let lines := Overlay.wrapText text maxCharsPerLine in
  Forall (λ line : string,
            line ≠ ""
            ∧ ((nat_to_Q (String.length line) <= maxCharsPerLine)%Q ∨ spaceless line)) lines
  ∧ words_of lines = words_of [text].
Proof.
  intros lines. unfold lines, Overlay.wrapText.
  pose proof (wrap_words_inv (split_on " " text) ([], "") [] ) as Hinv.
  destruct (fold_left _ _ _) as [ls cur]. simpl in Hinv.
  destruct Hinv as (Hlines & Hcur & Hwords).
  { apply Forall_forall. intros w Hw. by apply (split_on_pieces " " text). }
  { split_and!; simpl; [constructor|by right|done]. }
  simpl in *. unfold words_of. simpl. rewrite app_nil_r.
  destruct (0 <? String.length cur)%nat eqn:Hlen.
  - apply Nat.ltb_lt in Hlen. split.
    + apply Forall_app. split; [exact Hlines|]. constructor; [|constructor].
      split; [|exact Hcur]. intros ->. simpl in Hlen. lia.
    + rewrite bind_app. simpl. rewrite app_nil_r. exact Hwords.
  - apply Nat.ltb_ge in Hlen. assert (cur = "") as -> by (destruct cur; [done|simpl in Hlen; lia]).
    split; [exact Hlines|].
    change (filter nonempty (ls ≫= split_on " ") = filter nonempty (split_on " " text)).
    rewrite <- Hwords. rewrite filter_app. simpl.
    rewrite (filter_cons_False nonempty "" []) by (intros H; by apply H).
    rewrite filter_nil. by rewrite app_nil_r.
Qed.

End wrapping.

(** ** The colour of the title *)

Section colours.

Lemma Math_abs_bounds (x : Q) : (-1 <= x <= 1)%Q → (0 <= Math_abs x <= 1)%Q.
Proof.
  intros [Hlo Hhi]. unfold Math_abs.
  destruct (Qle_bool 0 x) eqn:Hx.
  - apply Qle_bool_iff in Hx. lra.
  - assert (¬ (0 <= x)%Q) as Hn by (rewrite <- Qle_bool_iff; congruence). lra.
Qed.

Lemma Math_abs_ge (x : Q) : (x <= Math_abs x)%Q ∧ (- x <= Math_abs x)%Q.
Proof.
  unfold Math_abs. destruct (Qle_bool 0 x) eqn:Hx.
  - apply Qle_bool_iff in Hx. lra.
  - assert (¬ (0 <= x)%Q) as Hn by (rewrite <- Qle_bool_iff; congruence). lra.
Qed.

(** [x % 2] of a number that is not negative lies in [0, 2). *)
Lemma js_rem_2_bounds (x : Q) : (0 <= x)%Q → (0 <= js_rem x 2 < 2)%Q.
Proof.
  intros Hx. unfold js_rem, Qtruncate.
  assert (0 <= x / 2)%Q as Hhalf by (apply Qle_shift_div_l; lra).
  rewrite (proj2 (Qle_bool_iff 0 (x / 2)) Hhalf).
  pose proof (Qfloor_le (x / 2)) as Hlo. pose proof (Qlt_floor (x / 2)) as Hhi.
  rewrite inject_Z_plus in Hhi. change (inject_Z 1) with 1%Q in Hhi.
  assert (x == 2 * (x / 2))%Q as Hx2 by field.
  split; lra.
Qed.

(** [Math.round] of a number, as an integer; it grows with the number. *)
Let rounded (y : Q) : Z := Qfloor (y + (1 # 2)).

Lemma rounded_mono (y z : Q) : (y <= z)%Q → (rounded y ≤ rounded z)%Z.
Proof. intros H. apply Qfloor_resp_le. lra. Qed.

Lemma rounded_channel (y : Q) : (0 <= y <= 255)%Q → channel (rounded y).
Proof.
  intros [Hlo Hhi]. split.
  - change 0%Z with (rounded 0). by apply rounded_mono.
  - change 255%Z with (rounded 255). by apply rounded_mono.
Qed.

Lemma two_hex_table (n : Z) :
  channel n →
  padStart (HexadecimalString.NilZero.string_of_int (Z.to_hex_int n)) 2 "0" = two_hex n.
Proof.
  intros [Hlo Hhi].
  assert (forallb (λ k : nat,
            String.eqb
              (padStart (HexadecimalString.NilZero.string_of_int
                           (Z.to_hex_int (Z.of_nat k))) 2 "0")
              (two_hex (Z.of_nat k))) (seq 0 256) = true) as Hall
    by (vm_compute; reflexivity).
  rewrite forallb_forall in Hall. specialize (Hall (Z.to_nat n)).
  rewrite Z2Nat.id in Hall by lia. apply String.eqb_eq, Hall.
  apply in_seq. lia.
Qed.

Lemma padded_channel (y : Q) :
  (0 <= y <= 255)%Q → padStart (toString16 (Math_round y)) 2 "0" = two_hex (rounded y).
Proof.
  intros Hy. unfold toString16, Math_round. rewrite Qfloor_Z.
  by apply two_hex_table, rounded_channel.
Qed.

(** The three channels, when each of [vr], [vg] and [vb] lies between [0]
    and [c], one of them is [c] and one is [0]. *)
Lemma hex_triplet (vr vg vb c m : Q) :
  (0 <= m)%Q → (c + m <= 1)%Q →
  (0 <= vr <= c)%Q → (0 <= vg <= c)%Q → (0 <= vb <= c)%Q →
  (vr == c ∨ vg == c ∨ vb == c)%Q →
  (vr == 0 ∨ vg == 0 ∨ vb == 0)%Q →
  ∃ r g b : Z,
    channel r ∧ channel g ∧ channel b
    ∧ "#" +:+ padStart (toString16 (Math_round ((vr + m) * 255))) 2 "0"
          +:+ padStart (toString16 (Math_round ((vg + m) * 255))) 2 "0"
          +:+ padStart (toString16 (Math_round ((vb + m) * 255))) 2 "0"
      = hex_colour r g b
    ∧ Z.max r (Z.max g b) = rounded ((c + m) * 255)
    ∧ Z.min r (Z.min g b) = rounded (m * 255).
Proof.
  intros Hm Hcm Hr Hg Hb Hmax Hmin.
  exists (rounded ((vr + m) * 255)), (rounded ((vg + m) * 255)), (rounded ((vb + m) * 255)).
  assert (∀ v : Q, (0 <= v <= c)%Q → (0 <= (v + m) * 255 <= 255)%Q) as Hin
    by (intros v Hv; lra).
  assert (∀ v : Q, (0 <= v <= c)%Q →
            (rounded (m * 255) ≤ rounded ((v + m) * 255) ≤ rounded ((c + m) * 255))%Z) as Hmono.
  { intros v Hv. split; apply rounded_mono; lra. }
  assert (∀ v : Q, (v == c)%Q → rounded ((v + m) * 255) = rounded ((c + m) * 255)) as Htop.
  { intros v Hv. apply Qfloor_comp. rewrite Hv. reflexivity. }
  assert (∀ v : Q, (v == 0)%Q → rounded ((v + m) * 255) = rounded (m * 255)) as Hbot.
  { intros v Hv. apply Qfloor_comp. rewrite Hv. ring. }
  pose proof (Hmono vr Hr). pose proof (Hmono vg Hg). pose proof (Hmono vb Hb).
  split_and!.
  - apply rounded_channel, Hin, Hr.
  - apply rounded_channel, Hin, Hg.
  - apply rounded_channel, Hin, Hb.
  - rewrite !padded_channel by (apply Hin; assumption). reflexivity.
  - destruct Hmax as [H'|[H'|H']]; apply Htop in H'; lia.
  - destruct Hmin as [H'|[H'|H']]; apply Hbot in H'; lia.
Qed.

Lemma not_between (lo hi h : Q) :
  Qle_bool lo h && negb (Qle_bool hi h) = false → (lo <= h)%Q → (hi <= h)%Q.
Proof.
  intros Hb Hlo. apply Qle_bool_iff in Hlo. rewrite Hlo in Hb. simpl in Hb.
  apply negb_false_iff in Hb. by apply Qle_bool_iff.
Qed.

(** The colour [hslToHex] computes, as a number for each channel. *)
Lemma hslToHex_channels (h s l : Q) :
  (0 <= h)%Q → (h < 360)%Q → (0 <= s <= 100)%Q → (0 <= l <= 100)%Q →
  ∃ r g b : Z,
    channel r ∧ channel g ∧ channel b
    ∧ Colour.hslToHex h s l = hex_colour r g b
    ∧ Z.max r (Z.max g b)
      = rounded ((l / 100 + (1 - Math_abs (2 * (l / 100) - 1)) * (s / 100) / 2) * 255)
    ∧ Z.min r (Z.min g b)
      = rounded ((l / 100 - (1 - Math_abs (2 * (l / 100) - 1)) * (s / 100) / 2) * 255).
Proof.
  intros Hh0 Hh1 Hs Hl. unfold Colour.hslToHex. cbv zeta.
  set (s' := (s / 100)%Q). set (l' := (l / 100)%Q).
  assert (0 <= s' <= 1)%Q as Hs'.
  { unfold s'. split; [apply Qle_shift_div_l|apply Qle_shift_div_r]; lra. }
  assert (0 <= l' <= 1)%Q as Hl'.
  { unfold l'. split; [apply Qle_shift_div_l|apply Qle_shift_div_r]; lra. }
  pose proof (Math_abs_bounds (2 * l' - 1) ltac:(lra)) as Ha.
  pose proof (Math_abs_ge (2 * l' - 1)) as Ha'.
  set (a := Math_abs (2 * l' - 1)) in *.
  set (c := ((1 - a) * s')%Q).
  assert (0 <= c)%Q as Hc0 by (unfold c; clearbody a s'; nra).
  assert (c <= 1 - a)%Q as Hc1 by (unfold c; clearbody a s'; nra).
  assert (0 <= h / 60)%Q as Hh60 by (apply Qle_shift_div_l; lra).
  pose proof (js_rem_2_bounds (h / 60) Hh60) as Hrem.
  pose proof (Math_abs_bounds (js_rem (h / 60) 2 - 1) ltac:(lra)) as Ht.
  set (t := Math_abs (js_rem (h / 60) 2 - 1)) in *.
  set (x := (c * (1 - t))%Q).
  assert (0 <= x <= c)%Q as Hx by (unfold x; clearbody c t; nra).
  set (m := (l' - c / 2)%Q).
  assert (c / 2 == c * (1 # 2))%Q as Hhalf by field.
  assert (0 <= m)%Q as Hm by (unfold m; clearbody c a l'; lra).
  assert (c + m <= 1)%Q as Hcm by (unfold m; clearbody c a l'; lra).
  assert (rounded ((l' + c / 2) * 255) = rounded ((c + m) * 255)) as ->.
  { apply Qfloor_comp. unfold m. field. }
  assert (0 <= 0 <= c)%Q as Hz by lra.
  assert (0 <= c <= c)%Q as Hcc by lra.
  destruct (Qle_bool 0 h && negb (Qle_bool 60 h)) eqn:H1.
  { apply (hex_triplet c x 0 c m); auto; [left|right; right]; reflexivity. }
  destruct (Qle_bool 60 h && negb (Qle_bool 120 h)) eqn:H2.
  { apply (hex_triplet x c 0 c m); auto; [right; left|right; right]; reflexivity. }
  destruct (Qle_bool 120 h && negb (Qle_bool 180 h)) eqn:H3.
  { apply (hex_triplet 0 c x c m); auto; [right; left|left]; reflexivity. }
  destruct (Qle_bool 180 h && negb (Qle_bool 240 h)) eqn:H4.
  { apply (hex_triplet 0 x c c m); auto; [right; right|left]; reflexivity. }
  destruct (Qle_bool 240 h && negb (Qle_bool 300 h)) eqn:H5.
  { apply (hex_triplet x 0 c c m); auto; [right; right|right; left]; reflexivity. }
  destruct (Qle_bool 300 h && negb (Qle_bool 360 h)) eqn:H6.
  { apply (hex_triplet c 0 x c m); auto; [left|right; left]; reflexivity. }
  pose proof (not_between _ _ _ H6 (not_between _ _ _ H5 (not_between _ _ _ H4
                (not_between _ _ _ H3 (not_between _ _ _ H2 (not_between _ _ _ H1 Hh0))))))
    as Hge.
  lra.
Qed.

(** For a hue from 0 up to 360 (excluded) and a saturation and lightness
    from 0 to 100, [hslToHex] returns [#rrggbb]: three channels from 0 to
    255, each written with two lower-case hexadecimal digits.  The largest
    channel is [255 * (l + c / 2)] and the smallest [255 * (l - c / 2)],
    rounded, where [c = (1 - |2l - 1|) * s] is the chroma ([s] and [l] taken
    as fractions of 100); the hue has no part in either.  The two values
    are taken clear of a half, where the doubles of the code may round the
    other way. *)
Theorem hslToHex_colour (h s l : Q) :
  (0 <= h)%Q → (h < 360)%Q → (0 <= s <= 100)%Q → (0 <= l <= 100)%Q →
  clear_of_half ((l / 100 + (1 - Math_abs (2 * (l / 100) - 1)) * (s / 100) / 2) * 255) →
  clear_of_half ((l / 100 - (1 - Math_abs (2 * (l / 100) - 1)) * (s / 100) / 2) * 255) →
  ∃ r g b : Z,
    channel r ∧ channel g ∧ channel b
    ∧ Colour.hslToHex h s l = hex_colour r g b
    ∧ String.length (Colour.hslToHex h s l) = 7%nat
    ∧ inject_Z (Z.max r (Z.max g b))
      = Math_round ((l / 100 + (1 - Math_abs (2 * (l / 100) - 1)) * (s / 100) / 2) * 255)
    ∧ inject_Z (Z.min r (Z.min g b))
      = Math_round ((l / 100 - (1 - Math_abs (2 * (l / 100) - 1)) * (s / 100) / 2) * 255).
Proof.
  intros Hh0 Hh1 Hs Hl _ _.
  destruct (hslToHex_channels h s l Hh0 Hh1 Hs Hl) as (r & g & b & Hr & Hg & Hb & Heq & Hmax & Hmin).
  exists r, g, b. split_and!; try assumption.
  - rewrite Heq. reflexivity.
  - unfold Math_round. f_equal. exact Hmax.
  - unfold Math_round. f_equal. exact Hmin.
Qed.

Lemma hslToHex_colour_witness :
  ∃ r g b : Z,
    channel r ∧ channel g ∧ channel b
    ∧ Colour.hslToHex 200 80 40 = hex_colour r g b
    ∧ String.length (Colour.hslToHex 200 80 40) = 7%nat
    ∧ inject_Z (Z.max r (Z.max g b))
      = Math_round ((40 / 100 + (1 - Math_abs (2 * (40 / 100) - 1)) * (80 / 100) / 2) * 255)
    ∧ inject_Z (Z.min r (Z.min g b))
      = Math_round ((40 / 100 - (1 - Math_abs (2 * (40 / 100) - 1)) * (80 / 100) / 2) * 255).
Proof.
  apply (hslToHex_colour 200 80 40);
    [lra|lra|split; lra|split; lra|by vm_compute|by vm_compute].
Defined.

(** Whatever [Math.random] returns (a number from 0 up to 1, excluded),
    [generateRandomColor] returns a colour [#rrggbb] whose largest channel
    is 168 ([a8]) and whose smallest is 0: full saturation at a lightness of
    33%. *)
Theorem generateRandomColor_colour (random : Q) :
  (0 <= random)%Q → (random < 1)%Q →
  ∃ r g b : Z,
    channel r ∧ channel g ∧ channel b
    ∧ Colour.generateRandomColor random = hex_colour r g b
    ∧ Z.max r (Z.max g b) = 168%Z
    ∧ Z.min r (Z.min g b) = 0%Z.
Proof.
  intros Hlo Hhi. unfold Colour.generateRandomColor, Math_floor.
  pose proof (Qfloor_le (random * 360)) as Hfl.
  assert (0 <= Qfloor (random * 360))%Z as Hz.
  { change 0%Z with (Qfloor 0). apply Qfloor_resp_le. lra. }
  assert (0 <= inject_Z (Qfloor (random * 360)))%Q as Hh0.
  { change 0%Q with (inject_Z 0). by rewrite <- Zle_Qle. }
  destruct (hslToHex_channels (inject_Z (Qfloor (random * 360))) 100 33)
    as (r & g & b & Hr & Hg & Hb & Heq & Hmax & Hmin); [exact Hh0|lra|split; lra|split; lra|].
  exists r, g, b. split_and!; try assumption.
Qed.

Lemma generateRandomColor_colour_witness :
  ∃ r g b : Z,
    channel r ∧ channel g ∧ channel b
    ∧ Colour.generateRandomColor (7 # 10) = hex_colour r g b
    ∧ Z.max r (Z.max g b) = 168%Z
    ∧ Z.min r (Z.min g b) = 0%Z.
Proof.
  apply (generateRandomColor_colour (7 # 10)); lra.
Defined.

End colours.

(** ** The handlers of the caption route *)

Section caption_post.
Variables (projectId : string) (uuid now : string) (random : Q).

Lemma caption_POST_cases (request : outcome json) (fs : FS) :
  ∃ (res : CaptionResponse) (job : option CaptionJob) (fs' : FS),
    CaptionApi.POST projectId request uuid now random fs = (Ret (res, job), fs')
    ∧ match job with
      | None => fs' = fs ∧ cap_status res ∈ [400%Z; 404%Z; 500%Z]
      | Some j =>
          cap_status res = 200%Z ∧ job_projectId j = projectId ∧ job_processId j = uuid
      end.
Proof.
  pose (Q := λ (out : CaptionResponse * option CaptionJob) (fs' : FS),
          match out.2 with
          | None => fs' = fs ∧ cap_status out.1 ∈ [400%Z; 404%Z; 500%Z]
          | Some j =>
              cap_status out.1 = 200%Z ∧ job_projectId j = projectId ∧ job_processId j = uuid
          end).
  assert (hoare (λ fs', fs' = fs) (CaptionApi.POST projectId request uuid now random)
                Q (λ _ _, False)) as Hpost.
  { unfold CaptionApi.POST.
    eapply hoare_try_catch with (E' := λ _ fs', fs' = fs);
      [|intros e; apply hoare_ret; intros fs' ->; split; [done|in_list]].
    eapply hoare_bind with (R := λ _ fs', fs' = fs); [by apply hoare_lift; destruct request|].
    intros body.
    eapply hoare_bind with (R := λ _ fs', fs' = fs);
      [by apply hoare_lift; destruct (get_prop body "segmentNumber")|].
    intros [number|]; [|apply hoare_ret; intros fs' ->; split; [done|in_list]].
    cbv zeta. cbn [app].
    eapply hoare_bind with (R := λ _ fs', fs' = fs); [by intros fs' ->|].
    intros found. destruct (negb found); [apply hoare_ret; intros fs' ->; split; [done|in_list]|].
    eapply hoare_bind with (R := λ _ fs', fs' = fs); [by intros fs' ->|].
    clear found. intros found.
    destruct (negb found); [apply hoare_ret; intros fs' ->; split; [done|in_list]|].
    eapply hoare_bind with (R := λ _ fs', fs' = fs).
    { intros fs' ->. unfold readFileSync. by destruct (fs !! _) as [[|d]|]. }
    intros text.
    eapply hoare_bind with (R := λ _ fs', fs' = fs); [intros fs' ->; by destruct text|].
    intros segments.
    eapply hoare_bind with (R := λ _ fs', fs' = fs);
      [by apply hoare_lift; destruct (findIndex "id" (Some number) segments)|].
    intros [idx|]; [|apply hoare_ret; intros fs' ->; split; [done|in_list]].
    eapply hoare_bind with (R := λ _ fs', fs' = fs).
    { intros fs' ->. unfold readFileSync. by destruct (fs !! _) as [[|d]|]. }
    clear text. intros text.
    eapply hoare_bind with (R := λ _ fs', fs' = fs); [intros fs' ->; by destruct text|].
    intros metadata.
    eapply hoare_bind with (R := λ _ _, True).
    { intros fs' _. by destruct (negb (truthy _)). }
    intros ?. eapply hoare_bind with (R := λ _ _, True); [done|].
    intros ?. apply hoare_ret. intros fs' _. by split. }
  specialize (Hpost fs eq_refl).
  destruct (CaptionApi.POST projectId request uuid now random fs) as [[[res job]|e] fs'];
    [|destruct Hpost].
  by exists res, job, fs'.
Qed.

(** The state [POST] leaves when it accepts a request. *)
Lemma caption_POST_run (body number : json) (fs : FS) (l0 : list json) (idx : nat)
    (o0 : gmap string json) (r : record) :
  get_prop body "segmentNumber" = Ret (Some number) →
  is_Some (fs !! ["projects"; projectId]) →
  fs !! ["projects"; projectId; "segments.json"] = Some (File (FSegments l0)) →
  findIndex "id" (Some number) l0 = Ret (Some idx) →
  l0 !! idx = Some (JObj o0) →
  fs !! ["projects"; projectId; "metadata.json"] = Some (File (FMeta r)) →
  CaptionApi.POST projectId (Ret body) uuid now random fs =
    (Ret (caption_response (CaptionStarted projectId number uuid) None,
          Some {| job_projectId := projectId; job_segment := o0; job_processId := uuid |}),
     <[["projects"; projectId; "segments.json"] :=
         File (FSegments
                 (<[idx := JObj (<["captioningProgress" := JNum 0]>
                                (<["captioningProcessId" := JStr uuid]>
                                (<["captioningStartedAt" := JStr now]>
                                (<["captioningStatus" := JStr "in-progress"]> o0))))]> l0))]>
       (if truthy (r !! "segmentTitleColor") then fs
        else <[["projects"; projectId; "metadata.json"] :=
                 File (FMeta (<["segmentTitleColor" :=
                                  JStr (Colour.generateRandomColor random)]> r))]> fs)).
Proof.
  intros Hnumber Hdir Hsegs Hfind Hidx Hmeta.
  unfold CaptionApi.POST, try_catch, mbind, M_bind, lift, existsSync, readFileSync.
  rewrite Hnumber. simpl.
  rewrite (bool_decide_eq_true_2 _ Hdir). simpl.
  rewrite Hsegs. rewrite bool_decide_eq_true_2 by eauto. simpl.
  rewrite Hsegs. simpl.
  rewrite Hfind. simpl. rewrite Hmeta. simpl.
  rewrite parsed_member, Hidx. simpl own_props.
  unfold array_set. rewrite (proj2 (Nat.ltb_lt _ _) (lookup_lt_Some _ _ _ Hidx)).
  rewrite !stringify_insert_value, !stringify_parse.
  destruct (truthy (r !! "segmentTitleColor")); simpl; [reflexivity|].
  by rewrite stringify_set_prop, stringify_parse.
Qed.

End caption_post.

Section find_again.
Variable key : string.

Lemma strict_eq_congr (a b : jsval) :
  strict_eq a b = true → ∀ x : jsval, strict_eq x a = strict_eq x b.
Proof.
  intros Hab x.
  destruct a as [[|ba|qa|sa|la|ma]|], b as [[|bb|qb|sb|lb|mb]|]; simpl in Hab; try discriminate;
    try reflexivity.
  - apply Bool.eqb_prop in Hab as ->. reflexivity.
  - destruct x as [[|bx|qx|sx|lx|mx]|]; simpl; try reflexivity.
    apply Qeq_bool_iff in Hab.
    destruct (Qeq_bool qx qa) eqn:H1, (Qeq_bool qx qb) eqn:H2; try reflexivity.
    + apply Qeq_bool_iff in H1.
      assert (Qeq_bool qx qb = true) as H3 by (apply Qeq_bool_iff; by rewrite H1).
      congruence.
    + apply Qeq_bool_iff in H2.
      assert (Qeq_bool qx qa = true) as H3 by (apply Qeq_bool_iff; by rewrite H2, Hab).
      congruence.
  - apply String.eqb_eq in Hab as ->. reflexivity.
Qed.

Lemma findIndex_congr (a b : jsval) (l : list json) :
  strict_eq a b = true → findIndex key a l = findIndex key b l.
Proof.
  intros Hab. induction l as [|s l IH]; [done|]. simpl.
  destruct (get_prop s key) as [v|e]; [|done].
  by rewrite (strict_eq_congr a b Hab v), IH.
Qed.

(** The entry [findIndex] stops at has the wanted value. *)
Lemma findIndex_hit (wanted : jsval) (l : list json) :
  ∀ (idx : nat) (o : gmap string json),
    findIndex key wanted l = Ret (Some idx) →
    l !! idx = Some (JObj o) →
    strict_eq (o !! key) wanted = true.
Proof.
  induction l as [|s l IH]; intros idx o Hfind Hidx; [done|].
  simpl in Hfind. destruct (get_prop s key) as [v|e] eqn:Hget; [|done].
  destruct (strict_eq v wanted) eqn:Heq.
  - injection Hfind as <-. simpl in Hidx. injection Hidx as ->. simpl in Hget.
    by injection Hget as ->.
  - destruct (findIndex key wanted l) as [[i|]|e'] eqn:Hrest; simplify_eq.
    simpl in Hidx. by apply (IH i).
Qed.

End find_again.

(** [POST] of the caption route never throws, and it is all or nothing:
    either it answers 200 and has started the caption task for the project
    under the process identifier it generated, or it answers 400, 404 or
    500, starts nothing and has changed nothing in the file system. *)
Theorem caption_POST_all_or_nothing
    (projectId uuid now : string) (random : Q) (request : outcome json) (fs : FS) :
  ∃ (res : CaptionResponse) (job : option CaptionJob) (fs' : FS),
    CaptionApi.POST projectId request uuid now random fs = (Ret (res, job), fs')
    ∧ match job with
      | None => fs' = fs ∧ cap_status res ∈ [400%Z; 404%Z; 500%Z]
      | Some j =>
          cap_status res = 200%Z ∧ job_projectId j = projectId ∧ job_processId j = uuid
      end.
Proof. apply caption_POST_cases. Qed.

(** A request for a segment of the list, in a project that has its
    directory, its record and its segment list, is accepted.  The entry of
    the segment gets [captioningStatus = 'in-progress'], the start time, the
    new process identifier and [captioningProgress = 0], and keeps its other
    fields (the result and the error of an earlier attempt included); the
    other entries are unchanged.  The record gets a [segmentTitleColor] when
    it has none that counts as true, and is not written otherwise.  Nothing
    else changes, and the task is started with the entry as it was before
    the request. *)
Theorem caption_POST_starts
    (projectId uuid now : string) (random : Q) (body number : json) (fs : FS)
    (l0 : list json) (idx : nat) (r : record) :
  get_prop body "segmentNumber" = Ret (Some number) →
  is_Some (fs !! ["projects"; projectId]) →
  stored_segments fs projectId = Some l0 →
  findIndex "id" (Some number) l0 = Ret (Some idx) →
  stored_record fs projectId = Some r →
  ∃ (fs' : FS) (o0 o1 : gmap string json),
    CaptionApi.POST projectId (Ret body) uuid now random fs =
      (Ret (caption_response (CaptionStarted projectId number uuid) None,
            Some {| job_projectId := projectId; job_segment := o0; job_processId := uuid |}),
       fs')
    ∧ l0 !! idx = Some (JObj o0)
    ∧ stored_segments fs' projectId = Some (<[idx := JObj o1]> l0)
    ∧ started_segment uuid now o0 o1
    ∧ (∀ i : nat, i ≠ idx → <[idx := JObj o1]> l0 !! i = l0 !! i)
    ∧ stored_record fs' projectId =
        Some (if truthy (r !! "segmentTitleColor") then r
              else <["segmentTitleColor" := JStr (Colour.generateRandomColor random)]> r)
    ∧ ∀ p : path,
        p ≠ ["projects"; projectId; "segments.json"] →
        p ≠ ["projects"; projectId; "metadata.json"] →
        fs' !! p = fs !! p.
Proof.
  intros Hnumber Hdir Hsegs Hfind Hrec.
  assert (fs !! ["projects"; projectId; "segments.json"] = Some (File (FSegments l0))) as Hfile.
  { unfold stored_segments in Hsegs.
    destruct (fs !! ["projects"; projectId; "segments.json"]) as [[|[]]|]; congruence. }
  assert (fs !! ["projects"; projectId; "metadata.json"] = Some (File (FMeta r))) as Hmeta.
  { unfold stored_record, Project.getMetadataPath in Hrec.
    destruct (fs !! ["projects"; projectId; "metadata.json"]) as [[|[]]|]; congruence. }
  destruct (findIndex_found "id" number l0 idx Hfind) as [o0 Hidx].
  eexists _, o0, _. split.
  { by apply (caption_POST_run projectId uuid now random body number fs l0 idx o0 r). }
  split; [exact Hidx|].
  split. { unfold stored_segments. by rewrite lookup_insert_eq. }
  split.
  { unfold started_segment. split_and!; try by lookup_field.
    intros k Hk. unfold started_fields in Hk. rewrite !not_elem_of_cons in Hk.
    destruct Hk as (? & ? & ? & ? & _). by rewrite !lookup_insert_ne. }
  split. { intros i Hi. by apply list_lookup_insert_ne. }
  split.
  { unfold stored_record, Project.getMetadataPath.
    rewrite lookup_insert_ne by discriminate.
    destruct (truthy (r !! "segmentTitleColor")); [by rewrite Hmeta|].
    by rewrite lookup_insert_eq. }
  intros p Hp1 Hp2. rewrite lookup_insert_ne by done.
  destruct (truthy (r !! "segmentTitleColor")); [done|]. by rewrite lookup_insert_ne.
Qed.

Lemma caption_POST_starts_witness :
  ∃ (fs' : FS) (o0 o1 : gmap string json),
    CaptionApi.POST "p1" (Ret (JObj {[ "segmentNumber" := JNum 1 ]}))
        "job_c" "2025-01-01T00:01:00.000Z" (7 # 10) sample_fs2 =
      (Ret (caption_response (CaptionStarted "p1" (JNum 1) "job_c") None,
            Some {| job_projectId := "p1"; job_segment := o0; job_processId := "job_c" |}),
       fs')
    ∧ sample_segments !! 0%nat = Some (JObj o0)
    ∧ stored_segments fs' "p1" = Some (<[0%nat := JObj o1]> sample_segments)
    ∧ started_segment "job_c" "2025-01-01T00:01:00.000Z" o0 o1
    ∧ (∀ i : nat, i ≠ 0%nat → <[0%nat := JObj o1]> sample_segments !! i = sample_segments !! i)
    ∧ stored_record fs' "p1" =
        Some (if truthy (sample_record !! "segmentTitleColor") then sample_record
              else <["segmentTitleColor" := JStr (Colour.generateRandomColor (7 # 10))]>
                     sample_record)
    ∧ ∀ p : path,
        p ≠ ["projects"; "p1"; "segments.json"] →
        p ≠ ["projects"; "p1"; "metadata.json"] →
        fs' !! p = sample_fs2 !! p.
Proof.
  apply (caption_POST_starts "p1" "job_c" "2025-01-01T00:01:00.000Z" (7 # 10)
           (JObj {[ "segmentNumber" := JNum 1 ]}) (JNum 1) sample_fs2 sample_segments
           0%nat sample_record).
  - reflexivity.
  - vm_compute. eauto.
  - reflexivity.
  - reflexivity.
  - reflexivity.
Defined.

(** A request and its task, one after the other.  When [POST] accepts a
    request and every step of the caption task it starts succeeds (the
    entry of the segment has a file name and nothing is in the way of the
    task, as [caption_ready] says), the entry
    of the segment ends as [completed] with progress 100, and it still has
    the start time and the process identifier that [POST] gave it; the other
    entries are as before the request, and the result file exists. *)
Theorem caption_request_completes
    (env : CaptionEnv) (projectId uuid now : string) (random : Q) (body number : json)
    (fs : FS) (l0 : list json) (idx : nat) (o0 : gmap string json) (r : record) :
  caption_succeeds env →
  get_prop body "segmentNumber" = Ret (Some number) →
  is_Some (fs !! ["projects"; projectId]) →
  stored_segments fs projectId = Some l0 →
  findIndex "id" (Some number) l0 = Ret (Some idx) →
  l0 !! idx = Some (JObj o0) →
  stored_record fs projectId = Some r →
  caption_ready projectId o0 fs →
  ∃ (res : CaptionResponse) (job : CaptionJob) (fs1 fs2 : FS) (o1 o2 : gmap string json),
    CaptionApi.POST projectId (Ret body) uuid now random fs = (Ret (res, Some job), fs1)
    ∧ CaptionApi.run_job env job fs1 = (Ret tt, fs2)
    ∧ cap_status res = 200%Z
    ∧ stored_segments fs2 projectId = Some (<[idx := JObj o2]> l0)
    ∧ started_segment uuid now o0 o1
    ∧ completed_segment env (CaptionRoute.id_string (o0 !! "id")) o1 o2
    ∧ o2 !! "captioningStartedAt" = Some (JStr now)
    ∧ o2 !! "captioningProcessId" = Some (JStr uuid)
    ∧ (∀ i : nat, i ≠ idx → <[idx := JObj o2]> l0 !! i = l0 !! i)
    ∧ fs2 !! result_file projectId (CaptionRoute.id_string (o0 !! "id")) = Some (File FOther).
Proof.
  intros Hok Hnumber Hdir Hsegs Hfind Hidx Hrec Hready.
  assert (fs !! ["projects"; projectId; "segments.json"] = Some (File (FSegments l0))) as Hfile.
  { unfold stored_segments in Hsegs.
    destruct (fs !! ["projects"; projectId; "segments.json"]) as [[|[]]|]; congruence. }
  assert (fs !! ["projects"; projectId; "metadata.json"] = Some (File (FMeta r))) as Hmeta.
  { unfold stored_record, Project.getMetadataPath in Hrec.
    destruct (fs !! ["projects"; projectId; "metadata.json"]) as [[|[]]|]; congruence. }
  pose proof (caption_POST_run projectId uuid now random body number fs l0 idx o0 r
                Hnumber Hdir Hfile Hfind Hidx Hmeta) as Hpost.
  set (o1 := <["captioningProgress" := JNum 0]>
               (<["captioningProcessId" := JStr uuid]>
                  (<["captioningStartedAt" := JStr now]>
                     (<["captioningStatus" := JStr "in-progress"]> o0)))) in Hpost.
  set (fs1 := <[["projects"; projectId; "segments.json"] := _]> _) in Hpost.
  pose proof (findIndex_hit "id" (Some number) l0 idx o0 Hfind Hidx) as Hhit.
  assert (is_Some (o0 !! "id")) as Hid by (destruct (o0 !! "id"); [eauto|done]).
  assert (findIndex "id" (o0 !! "id") (<[idx := JObj o1]> l0) = Ret (Some idx)) as Hfind1.
  { rewrite (findIndex_congr "id" _ _ _ Hhit).
    rewrite (findIndex_insert "id" _ l0 idx o0 o1 Hidx); [exact Hfind|].
    unfold o1. by rewrite !lookup_insert_ne. }
  assert (caption_ready projectId o0 fs1) as Hready1.
  { apply (caption_ready_agree projectId o0 fs); [|exact Hready].
    intros p Hp1 Hp2. unfold fs1. rewrite lookup_insert_ne by done.
    destruct (truthy (r !! "segmentTitleColor")); [done|]. by rewrite lookup_insert_ne. }
  destruct (captionSegment_success env projectId o0 uuid fs1 (<[idx := JObj o1]> l0) idx
              (if truthy (r !! "segmentTitleColor") then r
               else <["segmentTitleColor" := JStr (Colour.generateRandomColor random)]> r)
              Hok Hready1)
    as (fs2 & o1' & o2 & Hrun & Hidx1 & Hsegs2 & Hdone & Hothers & Hrec2 & Hfiles);
    [|unfold fs1; unfold stored_record, Project.getMetadataPath;
      rewrite lookup_insert_ne by discriminate;
      destruct (truthy (r !! "segmentTitleColor")); [by rewrite Hmeta|by rewrite lookup_insert_eq]
     |exact Hid|exact Hfind1|].
  { unfold fs1, stored_segments. by rewrite lookup_insert_eq. }
  rewrite list_lookup_insert_eq in Hidx1 by (by eapply lookup_lt_Some).
  injection Hidx1 as <-.
  rewrite list_insert_insert_eq in Hsegs2.
  eexists _, _, fs1, fs2, o1, o2.
  split; [exact Hpost|]. split; [exact Hrun|]. split; [reflexivity|].
  split; [exact Hsegs2|].
  split.
  { unfold started_segment, o1. split_and!; try by lookup_field.
    intros k Hk. unfold started_fields in Hk. rewrite !not_elem_of_cons in Hk.
    destruct Hk as (? & ? & ? & ? & _). by rewrite !lookup_insert_ne. }
  split; [exact Hdone|].
  destruct Hdone as (_ & _ & _ & _ & _ & Hkeep).
  split. { rewrite Hkeep by not_in_list. unfold o1. by lookup_field. }
  split. { rewrite Hkeep by not_in_list. unfold o1. by lookup_field. }
  split.
  { intros i Hi. rewrite list_lookup_insert_ne by done. reflexivity. }
  by destruct Hfiles as (Hres & _).
Qed.

Lemma caption_request_completes_witness :
  ∃ (res : CaptionResponse) (job : CaptionJob) (fs1 fs2 : FS) (o1 o2 : gmap string json),
    CaptionApi.POST "p1" (Ret caption_request) "job_c" "2025-01-01T00:01:00.000Z" (7 # 10)
        sample_fs2 = (Ret (res, Some job), fs1)
    ∧ CaptionApi.run_job good_caption_env job fs1 = (Ret tt, fs2)
    ∧ cap_status res = 200%Z
    ∧ stored_segments fs2 "p1" = Some (<[1%nat := JObj o2]> sample_segments)
    ∧ started_segment "job_c" "2025-01-01T00:01:00.000Z" sample_segment o1
    ∧ completed_segment good_caption_env (CaptionRoute.id_string (sample_segment !! "id")) o1 o2
    ∧ o2 !! "captioningStartedAt" = Some (JStr "2025-01-01T00:01:00.000Z")
    ∧ o2 !! "captioningProcessId" = Some (JStr "job_c")
    ∧ (∀ i : nat, i ≠ 1%nat → <[1%nat := JObj o2]> sample_segments !! i = sample_segments !! i)
    ∧ fs2 !! result_file "p1" (CaptionRoute.id_string (sample_segment !! "id"))
        = Some (File FOther).
Proof.
  apply (caption_request_completes good_caption_env "p1" "job_c" "2025-01-01T00:01:00.000Z"
           (7 # 10) caption_request (JNum 2) sample_fs2 sample_segments 1%nat
           sample_segment sample_record).
  - unfold caption_succeeds. split_and!; [simpl; eauto..|].
    eexists. vm_compute. reflexivity.
  - reflexivity.
  - vm_compute. eauto.
  - reflexivity.
  - reflexivity.
  - reflexivity.
  - reflexivity.
  - unfold caption_ready. split_and!.
    + eexists. reflexivity.
    + right. exists 2%Q, 2%Z. split_and!; reflexivity.
    + reflexivity.
    + reflexivity.
    + repeat constructor.
Defined.

Section caption_get.
Variable projectId : string.

Lemma status_exclusive (status : jsval) (s1 s2 : string) :
  s1 ≠ s2 →
  strict_eq status (Some (JStr s1)) = true → strict_eq status (Some (JStr s2)) = false.
Proof.
  intros Hne H1. destruct status as [[| | |s| |]|]; simpl in *; try done.
  apply String.eqb_eq in H1 as ->. by apply String.eqb_neq.
Qed.

Lemma get_prop_entry (s : json) (key : string) :
  s ≠ JNull → get_prop s key = Ret (entry_prop s key).
Proof. intros Hs. by destruct s. Qed.

(** The loop of [GET] over entries none of which is [null]. *)
Lemma countSegment_loop (segments : list json) :
  Forall (λ s, s ≠ JNull) segments →
  ∀ (cs : CaptioningStatus) (fs : FS),
    ∃ cs' : CaptioningStatus,
      for_each CaptionApi.countSegment segments cs fs = (Ret cs', fs)
      ∧ captioningModel cs' = captioningModel cs
      ∧ totalSegments cs' = totalSegments cs
      ∧ captionedSegments cs' = captionedSegments cs ++ ids_with "completed" segments
      ∧ failedSegments cs' = failedSegments cs ++ ids_with "failed" segments
      ∧ inProgressSegments cs' = inProgressSegments cs ++ ids_with "in-progress" segments
      ∧ captioningAttempted cs' =
          match ids_with "completed" segments ++ ids_with "failed" segments
                ++ ids_with "in-progress" segments with
          | [] => captioningAttempted cs
          | _ => Some (JBool true)
          end.
Proof.
  induction 1 as [|s segments Hs Hall IH]; intros cs fs.
  - exists cs. simpl. by rewrite !app_nil_r.
  - cbn [for_each]. unfold mbind at 1, M_bind at 1.
    unfold CaptionApi.countSegment at 1. unfold mbind at 1, M_bind at 1, lift at 1.
    rewrite (get_prop_entry s "captioningStatus" Hs).
    unfold ids_with. cbn [omap list_omap].
    fold (ids_with "completed" segments) (ids_with "failed" segments)
         (ids_with "in-progress" segments).
    destruct (strict_eq (entry_prop s "captioningStatus") (Some (JStr "completed"))) eqn:Hc.
    { rewrite (status_exclusive _ "completed" "failed") by done.
      rewrite (status_exclusive _ "completed" "in-progress") by done.
      unfold mbind, M_bind, lift. rewrite (get_prop_entry s "id" Hs). simpl.
      edestruct IH as (cs' & Hrun & Hm & Ht & H1 & H2 & H3 & H4).
      exists cs'. split; [exact Hrun|]. simpl in *.
      rewrite Hm, Ht, H1, H2, H3, H4, <- !app_assoc. split_and!; try done.
      by destruct (ids_with "completed" segments ++ _). }
    destruct (strict_eq (entry_prop s "captioningStatus") (Some (JStr "failed"))) eqn:Hf.
    { rewrite (status_exclusive _ "failed" "in-progress") by done.
      unfold mbind, M_bind, lift. rewrite (get_prop_entry s "id" Hs). simpl.
      edestruct IH as (cs' & Hrun & Hm & Ht & H1 & H2 & H3 & H4).
      exists cs'. split; [exact Hrun|]. simpl in *.
      rewrite Hm, Ht, H1, H2, H3, H4, <- !app_assoc. split_and!; try done.
      destruct (ids_with "completed" segments); [|done]. simpl.
      by destruct (ids_with "failed" segments ++ _). }
    destruct (strict_eq (entry_prop s "captioningStatus") (Some (JStr "in-progress"))) eqn:Hp.
    { unfold mbind, M_bind, lift. rewrite (get_prop_entry s "id" Hs). simpl.
      edestruct IH as (cs' & Hrun & Hm & Ht & H1 & H2 & H3 & H4).
      exists cs'. split; [exact Hrun|]. simpl in *.
      rewrite Hm, Ht, H1, H2, H3, H4, <- !app_assoc. split_and!; try done.
      destruct (ids_with "completed" segments); [|done]. simpl.
      destruct (ids_with "failed" segments); [|done]. simpl.
      by destruct (ids_with "in-progress" segments). }
    simpl. apply IH.
Qed.

(** No entry is in two of the three lists. *)
Lemma ids_with_exclusive (segments : list json) :
  (length (ids_with "completed" segments) + length (ids_with "failed" segments)
   + length (ids_with "in-progress" segments) ≤ length segments)%nat.
Proof.
  induction segments as [|s segments IH]; [done|].
  unfold ids_with. cbn [omap list_omap].
  fold (ids_with "completed" segments) (ids_with "failed" segments)
       (ids_with "in-progress" segments).
  destruct (strict_eq (entry_prop s "captioningStatus") (Some (JStr "completed"))) eqn:Hc.
  { rewrite (status_exclusive _ "completed" "failed") by done.
    rewrite (status_exclusive _ "completed" "in-progress") by done. simpl. lia. }
  destruct (strict_eq (entry_prop s "captioningStatus") (Some (JStr "failed"))) eqn:Hf.
  { rewrite (status_exclusive _ "failed" "in-progress") by done. simpl. lia. }
  destruct (strict_eq (entry_prop s "captioningStatus") (Some (JStr "in-progress")));
    simpl; lia.
Qed.

(** [GET] changes nothing, whatever it answers. *)
Lemma caption_GET_keeps (fs : FS) :
  hoare (λ fs', fs' = fs) (CaptionApi.GET projectId) (λ _ fs', fs' = fs) (λ _ _, False).
Proof.
  unfold CaptionApi.GET.
  eapply hoare_try_catch with (E' := λ _ fs', fs' = fs); [|intros e; by apply hoare_ret].
  cbv zeta. cbn [app].
  eapply hoare_bind with (R := λ _ fs', fs' = fs); [by intros fs' ->|].
  intros found. destruct (negb found); [by apply hoare_ret|].
  eapply hoare_bind with (R := λ _ fs', fs' = fs); [by intros fs' ->|].
  clear found. intros found. destruct (negb found); [by apply hoare_ret|].
  eapply hoare_bind with (R := λ _ fs', fs' = fs).
  { intros fs' ->. unfold readFileSync. by destruct (fs !! _) as [[|d]|]. }
  intros text.
  eapply hoare_bind with (R := λ _ fs', fs' = fs); [intros fs' ->; by destruct text|].
  intros segments.
  eapply hoare_bind with (R := λ _ fs', fs' = fs).
  { intros fs' ->. unfold readFileSync. by destruct (fs !! _) as [[|d]|]. }
  clear text. intros text.
  eapply hoare_bind with (R := λ _ fs', fs' = fs); [intros fs' ->; by destruct text|].
  intros metadata.
  eapply hoare_bind with (R := λ _ fs', fs' = fs); [|intros ?; by apply hoare_ret].
  apply (hoare_for_each _ _ (λ _ _ fs', fs' = fs)).
  intros k segment cs _. unfold CaptionApi.countSegment.
  eapply hoare_bind with (R := λ _ fs', fs' = fs);
    [by apply hoare_lift; destruct (get_prop segment "captioningStatus")|].
  intros status.
  assert (∀ f : jsval → CaptioningStatus,
            hoare (λ fs', fs' = fs) (id ← lift (get_prop segment "id"); mret (f id))
                  (λ _ fs', fs' = fs) (λ _ fs', fs' = fs)) as Hpush.
  { intros f. eapply hoare_bind with (R := λ _ fs', fs' = fs);
      [by apply hoare_lift; destruct (get_prop segment "id")|].
    intros ?. by apply hoare_ret. }
  destruct (strict_eq status _); [apply Hpush|].
  destruct (strict_eq status _); [apply Hpush|].
  destruct (strict_eq status _); [apply Hpush|].
  by apply hoare_ret.
Qed.

End caption_get.

(** [GET] of the caption route never throws and never writes.  It answers
    404 when the project directory or the segment list is missing. *)
Theorem caption_GET_reads_only (projectId : string) (fs : FS) :
  ∃ res : CaptionResponse,
    CaptionApi.GET projectId fs = (Ret res, fs)
    ∧ (fs !! ["projects"; projectId] = None →
         res = caption_response (CaptionError "Project not found") (Some 404%Z))
    ∧ (is_Some (fs !! ["projects"; projectId]) →
       fs !! ["projects"; projectId; "segments.json"] = None →
         res = caption_response (CaptionError "Segments information not found") (Some 404%Z)).
Proof.
  pose proof (caption_GET_keeps projectId fs fs eq_refl) as Hkeeps.
  destruct (CaptionApi.GET projectId fs) as [[res|e] fs'] eqn:Hget; [|destruct Hkeeps].
  subst fs'. exists res. split; [reflexivity|].
  unfold CaptionApi.GET, try_catch, mbind, M_bind, existsSync in Hget. simpl in Hget.
  split.
  - intros Hnone. rewrite Hnone in Hget.
    rewrite bool_decide_eq_false_2 in Hget by (intros [? ?]; discriminate).
    simpl in Hget. by injection Hget as <-.
  - intros Hdir Hnone. rewrite (bool_decide_eq_true_2 _ Hdir) in Hget. simpl in Hget.
    rewrite Hnone in Hget.
    rewrite bool_decide_eq_false_2 in Hget by (intros [? ?]; discriminate).
    simpl in Hget. by injection Hget as <-.
Qed.

(** For a project with its directory, its record and a segment list
    without a [null] entry, [GET] answers 200 with this summary:
    [totalSegments] is the length of the list; [captionedSegments],
    [failedSegments] and [inProgressSegments] hold, in the order of the
    list, the identifiers of the entries whose status is [completed],
    [failed] and [in-progress], so no entry is counted twice; and, when
    the record has no legacy [captioning] block, the model is
    [whisper:base.en] and [captioningAttempted] is [true] exactly when one of
    the three lists is not empty. *)
Theorem caption_GET_counts
    (projectId : string) (fs : FS) (segments : list json) (r : record) :
  is_Some (fs !! ["projects"; projectId]) →
  stored_segments fs projectId = Some segments →
  stored_record fs projectId = Some r →
  Forall (λ s : json, s ≠ JNull) segments →
  ∃ cs : CaptioningStatus,
    CaptionApi.GET projectId fs = (Ret (caption_response (CaptionStatus projectId cs) None), fs)
    ∧ totalSegments cs = length segments
    ∧ captionedSegments cs = ids_with "completed" segments
    ∧ failedSegments cs = ids_with "failed" segments
    ∧ inProgressSegments cs = ids_with "in-progress" segments
    ∧ (length (captionedSegments cs) + length (failedSegments cs)
       + length (inProgressSegments cs) ≤ length segments)%nat
    ∧ (truthy (r !! "captioning") = false →
         captioningModel cs = Some (JStr "whisper:base.en")
         ∧ captioningAttempted cs =
             Some (JBool (match captionedSegments cs ++ failedSegments cs
                                ++ inProgressSegments cs with
                          | [] => false
                          | _ => true
                          end))).
Proof.
  intros Hdir Hsegs Hrec Hall.
  assert (fs !! ["projects"; projectId; "segments.json"] = Some (File (FSegments segments)))
    as Hfile.
  { unfold stored_segments in Hsegs.
    destruct (fs !! ["projects"; projectId; "segments.json"]) as [[|[]]|]; congruence. }
  assert (fs !! ["projects"; projectId; "metadata.json"] = Some (File (FMeta r))) as Hmeta.
  { unfold stored_record, Project.getMetadataPath in Hrec.
    destruct (fs !! ["projects"; projectId; "metadata.json"]) as [[|[]]|]; congruence. }
  destruct (countSegment_loop segments Hall
              {| captioningAttempted := Some (JBool false);
                 captioningModel := Some (JStr "whisper:base.en");
                 totalSegments := length segments;
                 captionedSegments := [];
                 failedSegments := [];
                 inProgressSegments := [] |} fs)
    as (cs' & Hrun & Hm & Ht & H1 & H2 & H3 & H4).
  simpl in Hm, Ht, H1, H2, H3, H4.
  unfold CaptionApi.GET, try_catch, mbind, M_bind, existsSync, readFileSync. simpl.
  rewrite (bool_decide_eq_true_2 _ Hdir). simpl.
  rewrite Hfile. rewrite bool_decide_eq_true_2 by eauto. simpl.
  rewrite Hfile. simpl. rewrite Hmeta. simpl.
  rewrite Hrun. rewrite parsed_member.
  eexists. split; [reflexivity|].
  destruct (truthy (r !! "captioning")); simpl; rewrite ?H1, ?H2, ?H3, ?Ht.
  - split_and!; try done. apply ids_with_exclusive.
  - split_and!; try done; [apply ids_with_exclusive|].
    intros _. split; [exact Hm|]. rewrite H4.
    by destruct (ids_with "completed" segments ++ _).
Qed.

Lemma caption_GET_counts_witness :
  ∃ cs : CaptioningStatus,
    CaptionApi.GET "p1" sample_fs2 = (Ret (caption_response (CaptionStatus "p1" cs) None), sample_fs2)
    ∧ totalSegments cs = length sample_segments
    ∧ captionedSegments cs = ids_with "completed" sample_segments
    ∧ failedSegments cs = ids_with "failed" sample_segments
    ∧ inProgressSegments cs = ids_with "in-progress" sample_segments
    ∧ (length (captionedSegments cs) + length (failedSegments cs)
       + length (inProgressSegments cs) ≤ length sample_segments)%nat
    ∧ (truthy (sample_record !! "captioning") = false →
         captioningModel cs = Some (JStr "whisper:base.en")
         ∧ captioningAttempted cs =
             Some (JBool (match captionedSegments cs ++ failedSegments cs
                                ++ inProgressSegments cs with
                          | [] => false
                          | _ => true
                          end))).
Proof.
  apply (caption_GET_counts "p1" sample_fs2 sample_segments sample_record).
  - vm_compute. eauto.
  - reflexivity.
  - reflexivity.
  - repeat constructor; discriminate.
Defined.

(** ** The handler of the download route *)

Section download_post.
Variables (projectId uuid now : string).

Lemma with_directories_only (p : path) (fs : FS) :
  only_directories_made fs (with_directories p fs).
Proof.
  intros q. rewrite with_directories_lookup.
  destruct (fs !! q) as [n|]; [by left|].
  destruct (bool_decide _); [by right|by left].
Qed.

Lemma download_POST_cases (request : outcome json) (fs : FS) :
  ∃ (res : Response) (job : option DownloadJob) (fs' : FS),
    DownloadRoute.POST projectId request uuid now fs = (Ret (res, job), fs')
    ∧ match job with
      | Some j =>
          res = json_response (BStarted projectId uuid) None
          ∧ dj_projectId j = projectId ∧ dj_processId j = uuid
          ∧ truthy (dj_video j) = true ∧ truthy (dj_audio j) = true
      | None =>
          (res_status res = 400%Z ∧ fs' = fs)
          ∨ (res_status res = 500%Z ∧ only_directories_made fs fs')
      end.
Proof.
  pose (Q := λ (out : Response * option DownloadJob) (fs' : FS),
          match out.2 with
          | Some j =>
              out.1 = json_response (BStarted projectId uuid) None
              ∧ dj_projectId j = projectId ∧ dj_processId j = uuid
              ∧ truthy (dj_video j) = true ∧ truthy (dj_audio j) = true
          | None =>
              (res_status out.1 = 400%Z ∧ fs' = fs)
              ∨ (res_status out.1 = 500%Z ∧ only_directories_made fs fs')
          end).
  assert (only_directories_made fs fs) as Hrefl by (intros p; by left).
  assert (hoare (λ fs', fs' = fs) (DownloadRoute.POST projectId request uuid now)
                Q (λ _ _, False)) as Hpost.
  { unfold DownloadRoute.POST.
    eapply hoare_try_catch with (E' := λ _ fs', only_directories_made fs fs');
      [|intros e; apply hoare_ret; intros fs' Hfs'; right; by split].
    assert (∀ {A B : Type} (o : outcome A) (f : A → M B) Q',
              (∀ a, hoare (λ fs', fs' = fs) (f a) Q' (λ _ fs', only_directories_made fs fs')) →
              hoare (λ fs', fs' = fs) (a ← lift o; f a) Q'
                    (λ _ fs', only_directories_made fs fs')) as Hlift.
    { intros A B o f Q' Hf. eapply hoare_bind with (R := λ _ fs', fs' = fs); [|exact Hf].
      apply hoare_lift. intros fs' ->. by destruct o. }
    apply Hlift. intros body.
    apply Hlift. intros video. apply Hlift. intros audio.
    apply Hlift. intros startTime. apply Hlift. intros endTime.
    apply Hlift. intros audioStartTime. apply Hlift. intros audioEndTime.
    cbv zeta.
    destruct (negb (truthy video) || negb (truthy audio)) eqn:Hmissing;
      [apply hoare_ret; intros fs' ->; left; by split|].
    apply orb_false_iff in Hmissing as [Hv Ha].
    apply negb_false_iff in Hv, Ha.
    eapply hoare_bind with (R := λ _ fs', only_directories_made fs fs').
    { intros fs' ->. rewrite mkdirSync_recursive_run.
      destruct (existsb _ _); [exact Hrefl|apply with_directories_only]. }
    intros ?.
    eapply hoare_bind with (R := λ _, has_record projectId).
    { intros fs' Hfs'. unfold writeFileSync_at. cbn [app].
      destruct (is_directory fs' _); [exact Hfs'|].
      destruct (is_directory fs' _); [|destruct (is_file fs' _); exact Hfs'].
      eexists. split; [unfold stored_record; by rewrite lookup_insert_eq|].
      unfold conforms. rewrite stringify_lookup.
      by rewrite !lookup_insert_ne, lookup_empty. }
    intros ?.
    eapply hoare_bind with (R := λ _ _, True).
    { eapply hoare_conseq; [apply updateProjectProgress_sets|done|done|by intros ? ? []]. }
    intros ?. apply hoare_ret. intros fs' _. by split_and!. }
  specialize (Hpost fs eq_refl).
  destruct (DownloadRoute.POST projectId request uuid now fs) as [[[res job]|e] fs'];
    [|destruct Hpost].
  by exists res, job, fs'.
Qed.

Lemma stringify_empty : JSON_stringify ∅ = ∅.
Proof. unfold JSON_stringify. apply omap_empty. Qed.

(** The state [POST] leaves when it accepts a request. *)
Lemma download_POST_run (body video audio : json) (fs : FS) :
  body ≠ JNull →
  entry_prop body "video" = Some video → truthy (Some video) = true →
  entry_prop body "audio" = Some audio → truthy (Some audio) = true →
  is_file fs ["projects"] = false →
  is_file fs ["projects"; projectId] = false →
  is_directory fs ["projects"; projectId; "metadata.json"] = false →
  DownloadRoute.POST projectId (Ret body) uuid now fs =
    (Ret (json_response (BStarted projectId uuid) None,
          Some {| dj_video := Some video; dj_audio := Some audio;
                  dj_projectId := projectId; dj_processId := uuid |}),
     <[["projects"; projectId; "metadata.json"] :=
         File (FMeta (created_record projectId uuid now video audio
                        (default (JNum 0) (entry_prop body "startTime"))
                        (default (JNum 0) (entry_prop body "endTime"))
                        (default (JNum 0) (entry_prop body "audioStartTime"))
                        (default (JNum 0) (entry_prop body "audioEndTime"))))]>
       (with_directories ["projects"; projectId] fs)).
Proof.
  intros Hbody Hvideo Hv Haudio Ha Hf1 Hf2 Hd.
  unfold DownloadRoute.POST, try_catch, mbind, M_bind, lift.
  rewrite !(get_prop_entry body _ Hbody), Hvideo, Haudio, Hv, Ha.
  cbn [negb orb]. rewrite mkdirSync_recursive_run.
  assert (ancestors ["projects"; projectId] = [["projects"]; ["projects"; projectId]]) as Hanc
    by reflexivity.
  rewrite Hanc. cbn [existsb]. rewrite Hf1, Hf2. cbn [orb app].
  unfold writeFileSync_at.
  rewrite with_directories_not_directory by (rewrite Hanc; not_in_list).
  rewrite Hd.
  change (dirname ["projects"; projectId; "metadata.json"]) with ["projects"; projectId].
  rewrite (with_directories_is_directory ["projects"; projectId] ["projects"; projectId] fs);
    [|rewrite Hanc; in_list|exact Hf2].
  unfold DownloadRoute.or_default.
  rewrite !stringify_insert_value, stringify_empty.
  erewrite updateProjectProgress_found; [|apply lookup_insert_eq|].
  - rewrite insert_insert_eq. unfold progress_of, created_record.
    by rewrite !lookup_insert_ne, lookup_empty.
  - unfold conforms. by rewrite !lookup_insert_ne, lookup_empty.
Qed.

End download_post.

(** [POST] of the download route never throws.  When it starts the download
    task it answers 200 with the project and the new process identifier, and
    both URLs of the task count as true.  When it starts none, either it
    answers 400 and has changed nothing, or it answers 500 and has written or
    changed no file: at most it has made directories. *)
Theorem download_POST_outcomes
    (projectId uuid now : string) (request : outcome json) (fs : FS) :
  ∃ (res : Response) (job : option DownloadJob) (fs' : FS),
    DownloadRoute.POST projectId request uuid now fs = (Ret (res, job), fs')
    ∧ match job with
      | Some j =>
          res = json_response (BStarted projectId uuid) None
          ∧ dj_projectId j = projectId ∧ dj_processId j = uuid
          ∧ truthy (dj_video j) = true ∧ truthy (dj_audio j) = true
      | None =>
          (res_status res = 400%Z ∧ fs' = fs)
          ∨ (res_status res = 500%Z ∧ only_directories_made fs fs')
      end.
Proof. apply download_POST_cases. Qed.

(** A request with a [video] and an [audio] that count as true is accepted
    when no file is in the place of the project directory and no directory
    in the place of its record.  The record of the project is then exactly
    the eleven fields of the handler (a trim offset the request leaves out
    is 0) and the progress entry of the new process with 0: a record that
    was there before is replaced, none of its fields is kept.  The
    directories exist afterwards and nothing else changes. *)
Theorem download_POST_creates
    (projectId uuid now : string) (body video audio : json) (fs : FS) :
  body ≠ JNull →
  entry_prop body "video" = Some video → truthy (Some video) = true →
  entry_prop body "audio" = Some audio → truthy (Some audio) = true →
  is_file fs ["projects"] = false →
  is_file fs ["projects"; projectId] = false →
  is_directory fs ["projects"; projectId; "metadata.json"] = false →
  ∃ fs' : FS,
    DownloadRoute.POST projectId (Ret body) uuid now fs =
      (Ret (json_response (BStarted projectId uuid) None,
            Some {| dj_video := Some video; dj_audio := Some audio;
                    dj_projectId := projectId; dj_processId := uuid |}),
       fs')
    ∧ stored_record fs' projectId =
        Some (created_record projectId uuid now video audio
                (default (JNum 0) (entry_prop body "startTime"))
                (default (JNum 0) (entry_prop body "endTime"))
                (default (JNum 0) (entry_prop body "audioStartTime"))
                (default (JNum 0) (entry_prop body "audioEndTime")))
    ∧ is_directory fs' ["projects"] = true
    ∧ is_directory fs' ["projects"; projectId] = true
    ∧ ∀ p : path,
        p ∉ [["projects"]; ["projects"; projectId]; ["projects"; projectId; "metadata.json"]] →
        fs' !! p = fs !! p.
Proof.
  intros Hbody Hvideo Hv Haudio Ha Hf1 Hf2 Hd.
  eexists. split.
  { by apply (download_POST_run projectId uuid now body video audio fs). }
  assert (ancestors ["projects"; projectId] = [["projects"]; ["projects"; projectId]]) as Hanc
    by reflexivity.
  split. { unfold stored_record, Project.getMetadataPath. by rewrite lookup_insert_eq. }
  split.
  { unfold is_directory. rewrite lookup_insert_ne by discriminate.
    apply (with_directories_is_directory ["projects"; projectId] ["projects"]); [|done].
    rewrite Hanc. in_list. }
  split.
  { unfold is_directory. rewrite lookup_insert_ne by discriminate.
    apply (with_directories_is_directory ["projects"; projectId] ["projects"; projectId]);
      [|done].
    rewrite Hanc. in_list. }
  intros p Hp. rewrite !not_elem_of_cons in Hp. destruct Hp as (Hp1 & Hp2 & Hp3 & _).
  rewrite lookup_insert_ne by done. apply with_directories_other.
  rewrite Hanc. rewrite !not_elem_of_cons. split_and!; [done..|apply not_elem_of_nil].
Qed.

Lemma download_POST_creates_witness :
  ∃ fs' : FS,
    DownloadRoute.POST "p1" (Ret download_request) "job_d" "2025-01-01T00:00:00.000Z" sample_fs =
      (Ret (json_response (BStarted "p1" "job_d") None,
            Some {| dj_video := Some (JStr "https://youtu.be/v1");
                    dj_audio := Some (JStr "https://youtu.be/a1");
                    dj_projectId := "p1"; dj_processId := "job_d" |}),
       fs')
    ∧ stored_record fs' "p1" =
        Some (created_record "p1" "job_d" "2025-01-01T00:00:00.000Z"
                (JStr "https://youtu.be/v1") (JStr "https://youtu.be/a1")
                (default (JNum 0) (entry_prop download_request "startTime"))
                (default (JNum 0) (entry_prop download_request "endTime"))
                (default (JNum 0) (entry_prop download_request "audioStartTime"))
                (default (JNum 0) (entry_prop download_request "audioEndTime")))
    ∧ is_directory fs' ["projects"] = true
    ∧ is_directory fs' ["projects"; "p1"] = true
    ∧ ∀ p : path,
        p ∉ [["projects"]; ["projects"; "p1"]; ["projects"; "p1"; "metadata.json"]] →
        fs' !! p = sample_fs !! p.
Proof.
  apply (download_POST_creates "p1" "job_d" "2025-01-01T00:00:00.000Z" download_request
           (JStr "https://youtu.be/v1") (JStr "https://youtu.be/a1") sample_fs).
  - discriminate.
  - reflexivity.
  - reflexivity.
  - reflexivity.
  - reflexivity.
  - reflexivity.
  - reflexivity.
  - reflexivity.
Defined.

(** ** Time stamps *)

Section floors.

Lemma Qfloor_unique (z : Z) (x : Q) :
  (inject_Z z <= x)%Q → (x < inject_Z z + 1)%Q → Qfloor x = z.
Proof.
  intros Hlo Hhi.
  pose proof (Qfloor_le x) as H1. pose proof (Qlt_floor x) as H2.
  rewrite inject_Z_plus in H2. change (inject_Z 1) with 1%Q in H2.
  assert (inject_Z (Qfloor x) < inject_Z z + 1)%Q as H3 by lra.
  assert (inject_Z z < inject_Z (Qfloor x) + 1)%Q as H4 by lra.
  change 1%Q with (inject_Z 1) in H3, H4. rewrite <- inject_Z_plus in H3, H4.
  rewrite <- Zlt_Qlt in H3, H4. lia.
Qed.

(** Bounds of a floor, as linear facts. *)
Lemma Qfloor_bounds (x : Q) : (inject_Z (Qfloor x) <= x)%Q ∧ (x < inject_Z (Qfloor x) + 1)%Q.
Proof.
  split; [apply Qfloor_le|].
  pose proof (Qlt_floor x) as H. rewrite inject_Z_plus in H. exact H.
Qed.

(** [a % b] for [a] not negative and [b] positive. *)
Lemma js_rem_positive (a b : Q) :
  (0 <= a)%Q → (0 < b)%Q →
  (js_rem a b == a - b * inject_Z (Qfloor (a / b)))%Q
  ∧ (0 <= js_rem a b)%Q ∧ (js_rem a b < b)%Q.
Proof.
  intros Ha Hb. unfold js_rem, Qtruncate.
  assert (0 <= a / b)%Q as Hq by (apply Qle_shift_div_l; lra).
  rewrite (proj2 (Qle_bool_iff 0 (a / b)) Hq).
  destruct (Qfloor_bounds (a / b)) as [Hlo Hhi].
  assert (a == b * (a / b))%Q as Hab by (field; lra).
  split; [reflexivity|]. split; nra.
Qed.

(** The integer below a quotient by a positive whole number. *)
Lemma Qfloor_div_bounds (a : Q) (b : Z) :
  (0 < b)%Z →
  (inject_Z b * inject_Z (Qfloor (a / inject_Z b)) <= a)%Q
  ∧ (a < inject_Z b * inject_Z (Qfloor (a / inject_Z b)) + inject_Z b)%Q.
Proof.
  intros Hb. assert (0 < inject_Z b)%Q as Hb'.
  { change 0%Q with (inject_Z 0). by rewrite <- Zlt_Qlt. }
  destruct (Qfloor_bounds (a / inject_Z b)) as [Hlo Hhi].
  assert (a == inject_Z b * (a / inject_Z b))%Q as Hab by (field; lra).
  split; nra.
Qed.

End floors.

(** For a time [s] that is not negative, [formatTime] writes four whole
    numbers: hours (at least two digits), minutes and seconds below 60 (two
    digits), and milliseconds from 0 to 1000 (at least three digits).
    Hours, minutes and seconds make up the whole seconds of [s], and with
    the milliseconds the fields add up to [s] rounded to the millisecond.
    The millisecond field is not carried over: it is 1000, four digits
    long, exactly when the fraction of [s] is 0.9995 or more.  The time
    is taken below [2^53], where the quotients and remainders of the code
    have the whole parts of the exact ones, and the fraction of [s] in
    milliseconds is taken clear of a half, where the product the code
    computes in doubles may round the other way. *)
Theorem formatTime_fields (s : Q) :
  (0 <= s)%Q →
  (s < inject_Z (2 ^ 53))%Q →
  clear_of_half ((s - inject_Z (Qfloor s)) * 1000) →
  ∃ h m sec ms : Z,
    Subtitles.formatTime s
      = digits 2 h +:+ ":" +:+ digits 2 m +:+ ":" +:+ digits 2 sec +:+ "," +:+ digits 3 ms
    ∧ (0 ≤ h)%Z ∧ (0 ≤ m < 60)%Z ∧ (0 ≤ sec < 60)%Z ∧ (0 ≤ ms ≤ 1000)%Z
    ∧ (3600 * h + 60 * m + sec)%Z = Qfloor s
    ∧ inject_Z (1000 * (3600 * h + 60 * m + sec) + ms) = Math_round (s * 1000)
    ∧ (ms = 1000%Z ↔ ((9995 # 10000) <= s - inject_Z (Qfloor s))%Q).
Proof.
  intros Hs _ _.
  destruct (js_rem_positive s 3600 Hs ltac:(lra)) as (Hr1 & Hr1lo & Hr1hi).
  destruct (js_rem_positive s 60 Hs ltac:(lra)) as (Hr2 & Hr2lo & Hr2hi).
  destruct (js_rem_positive (js_rem s 60) 1 Hr2lo ltac:(lra)) as (Hf & Hflo & Hfhi).
  set (r1 := js_rem s 3600) in *. set (r2 := js_rem s 60) in *.
  set (f := js_rem r2 1) in *.
  set (h := Qfloor (s / 3600)) in *.
  set (k := Qfloor (s / 60)) in *.
  set (m := Qfloor (r1 / 60)).
  set (sec := Qfloor r2).
  set (ms := Qfloor (f * 1000 + (1 # 2))).
  exists h, m, sec, ms.
  split.
  { unfold Subtitles.formatTime, digits, toString10, Math_floor, Math_round.
    cbv zeta. by rewrite !Qfloor_Z. }
  pose proof (Qfloor_div_bounds s 3600 ltac:(lia)) as [Hh1 Hh2].
  pose proof (Qfloor_div_bounds s 60 ltac:(lia)) as [Hk1 Hk2].
  pose proof (Qfloor_div_bounds r1 60 ltac:(lia)) as [Hm1 Hm2].
  destruct (Qfloor_bounds r2) as [Hs1 Hs2]. fold sec in Hs1, Hs2.
  destruct (Qfloor_bounds (f * 1000 + (1 # 2))) as [Hms1 Hms2]. fold ms in Hms1, Hms2.
  change (inject_Z 3600) with 3600%Q in Hh1, Hh2.
  change (inject_Z 60) with 60%Q in Hk1, Hk2, Hm1, Hm2.
  change (Qfloor (s / 3600)) with h in Hh1, Hh2.
  change (Qfloor (s / 60)) with k in Hk1, Hk2.
  change (Qfloor (r1 / 60)) with m in Hm1, Hm2.
  assert (Qfloor (r2 / 1) = sec) as Hdiv1.
  { apply Qfloor_comp. field. }
  rewrite Hdiv1 in Hf. clear Hdiv1.
  clearbody r1 r2 f h k m sec ms.
  (* integer facts, through the rationals *)
  assert (∀ a b : Z, (inject_Z a < inject_Z b + 1)%Q → (a ≤ b)%Z) as Hle.
  { intros a b H. change 1%Q with (inject_Z 1) in H. rewrite <- inject_Z_plus in H.
    rewrite <- Zlt_Qlt in H. lia. }
  assert (∀ a b : Z, (inject_Z a <= inject_Z b)%Q → (a ≤ b)%Z) as Hle'.
  { intros a b H. by rewrite Zle_Qle. }
  assert (0 ≤ h)%Z as Hh0.
  { apply Hle. change (inject_Z 0) with 0%Q. lra. }
  assert (0 ≤ m < 60)%Z as Hm.
  { split; [apply Hle; change (inject_Z 0) with 0%Q; lra|].
    assert (m ≤ 59)%Z; [|lia]. apply Hle. change (inject_Z 59) with 59%Q. lra. }
  assert (0 ≤ sec < 60)%Z as Hsec.
  { split; [apply Hle; change (inject_Z 0) with 0%Q; lra|].
    assert (sec ≤ 59)%Z; [|lia]. apply Hle. change (inject_Z 59) with 59%Q. lra. }
  assert (0 ≤ ms ≤ 1000)%Z as Hms.
  { split; [apply Hle; change (inject_Z 0) with 0%Q; lra|].
    apply Hle. change (inject_Z 1000) with 1000%Q. lra. }
  assert (k = 60 * h + m)%Z as Hk.
  { assert (inject_Z k < inject_Z (60 * h + m) + 1)%Q as H1.
    { rewrite inject_Z_plus, inject_Z_mult. change (inject_Z 60) with 60%Q. lra. }
    assert (inject_Z (60 * h + m) < inject_Z k + 1)%Q as H2.
    { rewrite inject_Z_plus, inject_Z_mult. change (inject_Z 60) with 60%Q. lra. }
    apply Hle in H1, H2. lia. }
  assert ((3600 * h + 60 * m + sec)%Z = Qfloor s) as Hwhole.
  { symmetry. apply Qfloor_unique.
    - rewrite !inject_Z_plus, !inject_Z_mult.
      change (inject_Z 3600) with 3600%Q. change (inject_Z 60) with 60%Q.
      rewrite Hk, inject_Z_plus, inject_Z_mult in Hk1, Hk2, Hr2.
      change (inject_Z 60) with 60%Q in *. lra.
    - rewrite !inject_Z_plus, !inject_Z_mult.
      change (inject_Z 3600) with 3600%Q. change (inject_Z 60) with 60%Q.
      rewrite Hk, inject_Z_plus, inject_Z_mult in Hk1, Hk2, Hr2.
      change (inject_Z 60) with 60%Q in *. lra. }
  assert (f == s - inject_Z (Qfloor s))%Q as Hfrac.
  { rewrite <- Hwhole. rewrite !inject_Z_plus, !inject_Z_mult.
    change (inject_Z 3600) with 3600%Q. change (inject_Z 60) with 60%Q.
    rewrite Hk, inject_Z_plus, inject_Z_mult in Hr2.
    change (inject_Z 60) with 60%Q in *. lra. }
  split_and!; try assumption; try lia.
  - unfold Math_round. f_equal. symmetry. apply Qfloor_unique.
    + rewrite Hwhole. rewrite inject_Z_plus, inject_Z_mult.
      change (inject_Z 1000) with 1000%Q. lra.
    + rewrite Hwhole. rewrite inject_Z_plus, inject_Z_mult.
      change (inject_Z 1000) with 1000%Q. lra.
  - split.
    + intros Hfull. rewrite Hfull in Hms1. change (inject_Z 1000) with 1000%Q in Hms1. lra.
    + intros Hfrac'. assert (1000 ≤ ms)%Z; [|lia].
      apply Hle. change (inject_Z 1000) with 1000%Q. lra.
Qed.

Lemma formatTime_fields_witness :
  ∃ h m sec ms : Z,
    Subtitles.formatTime (73319997 # 10000)
      = digits 2 h +:+ ":" +:+ digits 2 m +:+ ":" +:+ digits 2 sec +:+ "," +:+ digits 3 ms
    ∧ (0 ≤ h)%Z ∧ (0 ≤ m < 60)%Z ∧ (0 ≤ sec < 60)%Z ∧ (0 ≤ ms ≤ 1000)%Z
    ∧ (3600 * h + 60 * m + sec)%Z = Qfloor (73319997 # 10000)
    ∧ inject_Z (1000 * (3600 * h + 60 * m + sec) + ms) = Math_round ((73319997 # 10000) * 1000)
    ∧ (ms = 1000%Z ↔ ((9995 # 10000) <= (73319997 # 10000) - inject_Z (Qfloor (73319997 # 10000)))%Q).
Proof.
  apply (formatTime_fields (73319997 # 10000)); [discriminate|reflexivity|by vm_compute].
Defined.

(** ** Promises settled by child processes *)

Section promises.
Context {A B : Type}.

(** A delivered event is one event less. *)
Lemma deliver_events_left {C : Type} (p p' : Promise C) (fs fs' : FS) :
  deliver p fs = (Ret p', fs') → events_left p' = pred (events_left p).
Proof.
  destruct p as [r|[handlers close]]; simpl.
  - by intros [= <- <-].
  - destruct handlers as [|handler rest]; unfold mbind, M_bind; simpl.
    + destruct (close fs) as [[r|e] fs1]; [|done]. by intros [= <- <-].
    + destruct (handler fs) as [[[]|e] fs1]; [|done]. by intros [= <- <-].
Qed.

Lemma occurrences_replicate (b c : bool) (n : nat) :
  occurrences b (replicate n c) = if decide (c = b) then n else 0%nat.
Proof.
  unfold occurrences. induction n as [|n IH]; simpl.
  - by destruct (decide (c = b)).
  - rewrite filter_cons. destruct (decide (c = b)); simpl; by rewrite IH.
Qed.

(** An order holds every event of both processes. *)
Lemma merge_order_counts (schedule : list bool) :
  ∀ n1 n2 : nat,
    occurrences true (merge_order schedule n1 n2) = n1
    ∧ occurrences false (merge_order schedule n1 n2) = n2.
Proof.
  induction schedule as [|first schedule IH]; intros n1 n2; simpl.
  - unfold occurrences. rewrite !filter_app, !length_app.
    fold (occurrences true (replicate n1 true)) (occurrences true (replicate n2 false))
         (occurrences false (replicate n1 true)) (occurrences false (replicate n2 false)).
    rewrite !occurrences_replicate. simpl. lia.
  - destruct n1 as [|n1], n2 as [|n2]; rewrite ?occurrences_replicate; simpl; try done.
    destruct first.
    + destruct (IH n1 (S n2)) as [H1 H2]. unfold occurrences in *.
      rewrite !filter_cons. simpl. rewrite H1, H2. done.
    + destruct (IH (S n1) n2) as [H1 H2]. unfold occurrences in *.
      rewrite !filter_cons. simpl. rewrite H1, H2. done.
Qed.

Lemma Promise_all_settled (p1 : Promise A) (p2 : Promise B) :
  events_left p1 = 0%nat → events_left p2 = 0%nat → is_Some (Promise_all p1 p2).
Proof.
  destruct p1 as [[a|e1]|h1], p2 as [[b|e2]|h2]; simpl; intros; try done; eauto.
Qed.

(** [await Promise.all] under an invariant [J] of the two promises and the
    file system that every delivered event keeps: it resumes, with the
    result of [Promise.all] for the promises as they are then. *)
Lemma await_all_joint (J : Promise A → Promise B → FS → Prop) :
  (∀ p1 p2, hoare (J p1 p2) (deliver p1) (λ p1', J p1' p2) (λ _ _, False)) →
  (∀ p1 p2, hoare (J p1 p2) (deliver p2) (λ p2', J p1 p2') (λ _ _, False)) →
  ∀ (order : list bool) (p1 : Promise A) (p2 : Promise B),
    occurrences true order = events_left p1 →
    occurrences false order = events_left p2 →
    hoare (J p1 p2) (await_all order p1 p2)
      (λ out fs, J out.2.2.1 out.2.2.2 fs
                 ∧ is_Some out.1
                 ∧ out.1 = Promise_all out.2.2.1 out.2.2.2)
      (λ _ _, False).
Proof.
  intros H1 H2. induction order as [|first order IH]; intros p1 p2 Hn1 Hn2 fs HJ.
  - simpl. pose proof (Promise_all_settled p1 p2 (eq_sym Hn1) (eq_sym Hn2)) as [r Hr].
    rewrite Hr. simpl. rewrite Hr. eauto.
  - simpl. destruct (Promise_all p1 p2) as [r|] eqn:Hall.
    { simpl. rewrite Hall. eauto. }
    unfold occurrences in Hn1, Hn2. rewrite filter_cons in Hn1, Hn2.
    destruct first; simpl in Hn1, Hn2.
    + specialize (H1 p1 p2 fs HJ). unfold mbind, M_bind.
      destruct (deliver p1 fs) as [[p1'|e] fs'] eqn:Hd; [|done].
      apply (IH p1' p2); [|exact Hn2|exact H1].
      rewrite (deliver_events_left _ _ _ _ Hd). unfold occurrences. lia.
    + specialize (H2 p1 p2 fs HJ). unfold mbind, M_bind.
      destruct (deliver p2 fs) as [[p2'|e] fs'] eqn:Hd; [|done].
      apply (IH p1 p2'); [exact Hn1| |exact H2].
      rewrite (deliver_events_left _ _ _ _ Hd). unfold occurrences. lia.
Qed.

(** The events delivered after the [await] keep the invariant as well. *)
Lemma drain_joint (J : Promise A → Promise B → FS → Prop) :
  (∀ p1 p2, hoare (J p1 p2) (deliver p1) (λ p1', J p1' p2) (λ _ _, False)) →
  (∀ p1 p2, hoare (J p1 p2) (deliver p2) (λ p2', J p1 p2') (λ _ _, False)) →
  ∀ (order : list bool) (p1 : Promise A) (p2 : Promise B),
    hoare (J p1 p2) (drain order p1 p2) (λ _ fs, ∃ p1' p2', J p1' p2' fs) (λ _ _, False).
Proof.
  intros H1 H2. induction order as [|first order IH]; intros p1 p2 fs HJ.
  - simpl. eauto.
  - destruct first; simpl; unfold mbind, M_bind.
    + specialize (H1 p1 p2 fs HJ).
      destruct (deliver p1 fs) as [[p1'|e] fs']; [|done]. by apply IH.
    + specialize (H2 p1 p2 fs HJ).
      destruct (deliver p2 fs) as [[p2'|e] fs']; [|done]. by apply IH.
Qed.

End promises.

(** ** The handlers of the download task *)

Section handlers.
Variables (projectId : string) (X : FS).

Let B : FS → Prop := agrees_except (download_paths projectId) X.
Let T (A : record → Prop) (F : FS → Prop) : FS → Prop :=
  λ fs, tracked projectId A B fs ∧ F fs.

Lemma write_download_path (A : record → Prop) (fs : FS) (p : path) (n : node) :
  p ∈ download_paths projectId →
  p ≠ Project.getMetadataPath projectId →
  tracked projectId A B fs → tracked projectId A B (<[p := n]> fs).
Proof.
  intros Hin Hne (r & Hrec & Hconf & Ha & Hb). exists r. split_and!; try done.
  - unfold stored_record in *. by rewrite lookup_insert_ne.
  - intros q Hq. rewrite lookup_insert_ne; [by apply Hb|]. by intros <-.
Qed.

(** A progress update, also as an event handler. *)
Lemma progress_write (k : string) (v : Q) (A : record → Prop) (F : FS → Prop) :
  (∀ k, ignores_progress k A) → stable F →
  hoare (T A F) (Project.updateProjectProgress projectId k v) (λ _, T A F) (λ _ _, False).
Proof.
  intros HA HF fs [(r & Hrec & Hconf & Ha & Hb) Hf].
  apply stored_record_lookup in Hrec.
  rewrite (updateProjectProgress_found _ k v _ _ Hrec Hconf).
  split; [|by apply HF].
  eexists. split; [apply stored_record_insert|].
  split; [apply conforms_set_progress|]. split; [by apply HA|].
  intros q Hq. rewrite lookup_insert_ne; [by apply Hb|].
  intros <-. apply Hq. unfold download_paths, Project.getMetadataPath. in_list.
Qed.

Lemma progress_handler (k : string) (v : Q) (A : record → Prop) (F : FS → Prop) :
  (∀ k, ignores_progress k A) → stable F →
  hoare (T A F) (_ ← Project.updateProjectProgress projectId k v; mret tt)
        (λ _, T A F) (λ _ _, False).
Proof.
  intros HA HF. eapply hoare_bind_nothrow; [by apply progress_write|].
  intros ?. apply hoare_ret. by intros fs H.
Qed.

Lemma promise_ok_stable {C : Type} (R : outcome C → FS → Prop) (p : Promise C) :
  (∀ r, stable (R r)) → stable (promise_ok projectId X R p).
Proof. intros HR fs q n. destruct p as [r|h]; simpl; [apply HR|done]. Qed.

(** Delivering an event of a promise that is in order. *)
Lemma deliver_ok {C : Type} (R : outcome C → FS → Prop) (A : record → Prop) (F : FS → Prop)
    (p : Promise C) :
  (∀ k, ignores_progress k A) → stable F →
  hoare (λ fs, T A F fs ∧ promise_ok projectId X R p fs) (deliver p)
        (λ p' fs, T A F fs ∧ promise_ok projectId X R p' fs) (λ _ _, False).
Proof.
  intros HA HF fs [HT Hp]. destruct p as [r|[handlers close]]; simpl in *; [done|].
  destruct Hp as [Hdata Hclose]. destruct handlers as [|handler rest]; unfold mbind, M_bind.
  - specialize (Hclose A F HA HF fs HT). simpl.
    destruct (close fs) as [[r|e] fs']; [|done]. simpl.
    destruct Hclose as (HT' & Hf & Hr). by split.
  - apply Forall_cons in Hdata as [Hhandler Hrest].
    specialize (Hhandler A F HA HF fs HT). simpl.
    destruct (handler fs) as [[[]|e] fs']; [|done]. simpl. by split.
Qed.

(** The invariant of two promises awaited together. *)
Lemma deliver_first {C D : Type} (R1 : outcome C → FS → Prop) (R2 : outcome D → FS → Prop)
    (A : record → Prop) (F : FS → Prop) (p1 : Promise C) (p2 : Promise D) :
  (∀ k, ignores_progress k A) → stable F → (∀ r, stable (R2 r)) →
  hoare (λ fs, T A F fs ∧ promise_ok projectId X R1 p1 fs ∧ promise_ok projectId X R2 p2 fs)
        (deliver p1)
        (λ p1' fs, T A F fs ∧ promise_ok projectId X R1 p1' fs
                   ∧ promise_ok projectId X R2 p2 fs)
        (λ _ _, False).
Proof.
  intros HA HF HR2 fs ([HT Hf] & H1 & H2).
  pose proof (deliver_ok R1 A (λ fs, F fs ∧ promise_ok projectId X R2 p2 fs) p1 HA) as Hd.
  specialize (Hd ltac:(intros fs' q n [? ?]; split; [by apply HF|by apply promise_ok_stable])
                 fs ltac:(by split_and!)).
  destruct (deliver p1 fs) as [[p1'|e] fs']; [|done].
  destruct Hd as ([HT' [Hf' H2']] & H1'). by split_and!.
Qed.

Lemma deliver_second {C D : Type} (R1 : outcome C → FS → Prop) (R2 : outcome D → FS → Prop)
    (A : record → Prop) (F : FS → Prop) (p1 : Promise C) (p2 : Promise D) :
  (∀ k, ignores_progress k A) → stable F → (∀ r, stable (R1 r)) →
  hoare (λ fs, T A F fs ∧ promise_ok projectId X R1 p1 fs ∧ promise_ok projectId X R2 p2 fs)
        (deliver p2)
        (λ p2' fs, T A F fs ∧ promise_ok projectId X R1 p1 fs
                   ∧ promise_ok projectId X R2 p2' fs)
        (λ _ _, False).
Proof.
  intros HA HF HR1 fs ([HT Hf] & H1 & H2).
  pose proof (deliver_ok R2 A (λ fs, F fs ∧ promise_ok projectId X R1 p1 fs) p2 HA) as Hd.
  specialize (Hd ltac:(intros fs' q n [? ?]; split; [by apply HF|by apply promise_ok_stable])
                 fs ltac:(by split_and!)).
  destruct (deliver p2 fs) as [[p2'|e] fs']; [|done].
  destruct Hd as ([HT' [Hf' H1']] & H2'). by split_and!.
Qed.

Lemma download_result_stable (run : Download.DownloadRun) (output : path)
    (r : outcome Download.DownloadResult) :
  stable (download_result run output r).
Proof.
  intros fs p n (res & -> & Hok & Hfail). exists res. split_and!; [done| |done].
  intros Hs. destruct (Hok Hs) as [H1 H2]. split; [done|].
  destruct (decide (p = output)) as [->|Hne].
  - rewrite lookup_insert_eq. eauto.
  - by rewrite lookup_insert_ne.
Qed.

Lemma probe_result_stable (run : ProbeRun) (r : outcome Q) : stable (probe_result run r).
Proof. intros fs p n H. exact H. Qed.

(** A download, from the call to the promise it returns. *)
Lemma download_start (spawn : Download.YtDlpCommand → Download.DownloadRun)
    (c : Download.DownloadCall) (A : record → Prop) (F : FS → Prop) :
  (∀ k, ignores_progress k A) → stable F →
  Download.call_output c ∈ download_paths projectId →
  Download.call_output c ≠ Project.getMetadataPath projectId →
  hoare (T A F) (DownloadTask.download spawn projectId c)
        (λ p fs, T A F fs
                 ∧ promise_ok projectId X
                     (download_result (spawn (call_command c)) (Download.call_output c)) p fs)
        (λ _ _, False).
Proof.
  intros HA HF Hout Hne. unfold DownloadTask.download, DownloadTask.downloadYouTubeVideo.
  fold (call_command c).
  eapply hoare_try_catch with (E' := λ _ _, False); [|by intros e fs []].
  eapply hoare_bind_nothrow; [apply (progress_write _ 0%Q A F HA HF)|].
  intros ?. apply hoare_ret. intros fs HT. split; [exact HT|].
  simpl. split.
  - apply Forall_fmap, Forall_forall. intros percentage _ A' F' HA' HF'. simpl.
    apply (progress_handler _ percentage A' F' HA' HF').
  - intros A' F' HA' HF'.
    destruct (Download.dl_code (spawn (call_command c)) =? 0)%Z eqn:Hcode.
    2: { apply hoare_ret. intros fs' [HT' Hf']. split_and!; [done|done|].
         eexists. split; [reflexivity|]. split; [done|].
         intros _ [Hzero _]. apply Z.eqb_neq in Hcode. done. }
    apply Z.eqb_eq in Hcode.
    destruct (Download.dl_file (spawn (call_command c))) eqn:Hfile.
    + intros fs' [HT' Hf']. unfold mbind, M_bind, writeFileSync, existsSync. simpl.
      rewrite lookup_insert_eq. rewrite bool_decide_eq_true_2 by eauto. simpl.
      pose proof (progress_handler (Download.call_processId c) 100%Q A'
                    (λ fs, F' fs ∧ is_Some (fs !! Download.call_output c)) HA') as Hstep.
      specialize (Hstep ltac:(intros fs1 q n [? Hsome]; split; [by apply HF'|];
                               destruct (decide (q = Download.call_output c)) as [->|?];
                               [rewrite lookup_insert_eq; eauto|by rewrite lookup_insert_ne])
                        (<[Download.call_output c := File FOther]> fs')).
      unfold mbind, M_bind in Hstep.
      destruct (Project.updateProjectProgress projectId (Download.call_processId c) 100 _)
        as [[b|e] fs''].
      * simpl in *. destruct Hstep as [HT'' [Hf'' Hsome]].
        { split; [by apply write_download_path|]. split; [by apply HF'|].
          rewrite lookup_insert_eq. eauto. }
        split_and!; [done|done|].
        eexists. split; [reflexivity|]. by split.
      * simpl in *. apply Hstep. split; [by apply write_download_path|].
        split; [by apply HF'|]. rewrite lookup_insert_eq. eauto.
    + intros fs' [HT' Hf']. unfold mbind, M_bind, existsSync. simpl.
      rewrite andb_false_r. simpl. split_and!; [done|done|].
      eexists. split; [reflexivity|]. split; [done|].
      intros _ [_ Hyes]. congruence.
Qed.

(** A probe, from the call to the promise it returns. *)
Lemma probe_start (run : ProbeRun) (k : string) (A : record → Prop) (F : FS → Prop) :
  (∀ k, ignores_progress k A) → stable F →
  hoare (T A F) (DownloadTask.getMediaDuration run projectId k)
        (λ p fs, T A F fs ∧ promise_ok projectId X (probe_result run) p fs)
        (λ _ _, False).
Proof.
  intros HA HF. unfold DownloadTask.getMediaDuration.
  assert (∀ (v : Q) (A' : record → Prop) (F' : FS → Prop),
            (∀ k, ignores_progress k A') → stable F' →
            hoare (T A' F')
              (if negb (String.eqb projectId "") && negb (String.eqb k "")
               then _ ← Project.updateProjectProgress projectId k v; mret tt
               else mret tt)
              (λ _, T A' F') (λ _ _, False)) as Htrack.
  { intros v A' F' HA' HF'. destruct (negb _ && negb _).
    - by apply progress_handler.
    - apply hoare_ret. by intros fs H. }
  eapply hoare_try_catch with (E' := λ _ _, False); [|by intros e fs []].
  eapply hoare_bind_nothrow; [apply (Htrack 0%Q A F HA HF)|].
  intros ?. apply hoare_ret. intros fs HT. split; [exact HT|].
  simpl. split.
  - apply Forall_forall. intros handler Hin A' F' HA' HF'.
    apply elem_of_replicate in Hin as [-> _]. by apply Htrack.
  - intros A' F' HA' HF'.
    eapply hoare_bind_nothrow; [apply (Htrack 100%Q A' F' HA' HF')|].
    intros ?. destruct (negb (probe_code run =? 0)%Z) eqn:Hcode.
    { apply hoare_ret. intros fs' [HT' Hf']. split_and!; [done|done|].
      simpl. split; [done|]. intros [Hzero _].
      apply negb_true_iff, Z.eqb_neq in Hcode. done. }
    apply negb_false_iff, Z.eqb_eq in Hcode.
    destruct (probe_output run) as [duration|] eqn:Hout.
    + apply hoare_ret. intros fs' [HT' Hf']. by split_and!.
    + apply hoare_ret. intros fs' [HT' Hf']. split_and!; [done|done|].
      simpl. split; [done|]. intros [_ [d Hd]]. congruence.
Qed.

End handlers.

(** ** The download task *)

Section download_task.
Variables (env : DownloadEnv) (videoUrl audioUrl projectId processId : string).
Variables (fs0 : FS) (r0 : record).
Hypothesis Hrec0 : stored_record fs0 projectId = Some r0.
Hypothesis Hconf0 : conforms r0.

Let X : FS := with_directories ["projects"; projectId; "source"] fs0.
Let B : FS → Prop := agrees_except (download_paths projectId) X.
Let videoPath : path := ["projects"; projectId; "source"; "video.mp4"].
Let audioPath : path := ["projects"; projectId; "source"; "audio.mp3"].
Let succeeds : Prop := download_succeeds env videoUrl audioUrl projectId processId r0 fs0.
Let calls := download_calls videoUrl audioUrl r0 projectId processId.
Let A1 : record → Prop := keeps_fields download_fields r0.

Lemma calls_status (status : json) :
  Download.downloadMedia_calls videoUrl audioUrl
    (set_prop "status" status (JSON_parse r0)) projectId processId = calls.
Proof.
  unfold calls, download_calls, Download.downloadMedia_calls, Download.number_prop, set_prop.
  unfold lookup_total, map_lookup_total. by rewrite !lookup_insert_ne.
Qed.

Lemma A1_ignores_progress (k : string) : ignores_progress k A1.
Proof.
  intros r p H f Hf. rewrite lookup_insert_ne; [by apply H|].
  intros <-. apply Hf. unfold download_fields. in_list.
Qed.

(** The [catch] block. *)
Lemma failed_handler (message : string) :
  message ≠ "" →
  hoare (has_record projectId)
        (_ ← Project.updateProjectStatus projectId DOWNLOAD_ERROR (Some message); mret tt)
        (λ _ fs, ∃ r, stored_record fs projectId = Some r ∧ failed_record r)
        (λ _ _, False).
Proof.
  intros He fs Hhas.
  destruct (updateProjectStatus_sets projectId DOWNLOAD_ERROR message fs He Hhas)
    as (r & fs' & Hrun & Hrec & Hstatus & Herror).
  unfold mbind, M_bind. rewrite Hrun. simpl. exists r. split; [exact Hrec|].
  split; [exact Hstatus|]. by exists message.
Qed.

(** Up to the first [await]. *)
Lemma downloadMedia_starts (handler : string → M (option (Promise Download.DownloadResult
                                                          * Promise Download.DownloadResult))) :
  (∀ e, e ≠ "" →
     hoare (has_record projectId) (handler e)
           (λ out fs, out = None ∧ ∃ r, stored_record fs projectId = Some r ∧ failed_record r)
           (λ _ _, False)) →
  hoare (λ fs, fs = fs0)
    (try_catch
       (if negb (tool_found (de_ffmpeg env)) || negb (tool_found (de_ffprobe env))
        then throw "FFmpeg tools not found. Please install FFmpeg and make sure it is in your PATH."
        else
          _ ← mkdirSync_recursive ["projects"; projectId; "source"];
          text ← readFileSync ["projects"; projectId; "metadata.json"];
          metadata ← parse_object text;
          _ ← writeFileSync ["projects"; projectId; "metadata.json"]
                (FMeta (JSON_stringify
                          (set_prop "status" (JStr (status_value DOWNLOADING)) metadata)));
          videoPromise ← DownloadTask.download (de_spawn env) projectId
            (Download.downloadMedia_calls videoUrl audioUrl
               (set_prop "status" (JStr (status_value DOWNLOADING)) metadata)
               projectId processId).1;
          audioPromise ← DownloadTask.download (de_spawn env) projectId
            (Download.downloadMedia_calls videoUrl audioUrl
               (set_prop "status" (JStr (status_value DOWNLOADING)) metadata)
               projectId processId).2;
          mret (Some (videoPromise, audioPromise)))
       handler)
    (λ out fs,
       match out with
       | None => ¬ succeeds ∧ ∃ r, stored_record fs projectId = Some r ∧ failed_record r
       | Some (videoPromise, audioPromise) =>
           tool_found (de_ffmpeg env) = true
           ∧ tool_found (de_ffprobe env) = true
           ∧ existsb (is_file fs0) (ancestors ["projects"; projectId; "source"]) = false
           ∧ (tracked projectId A1 B fs ∧ True)
           ∧ promise_ok projectId X
               (download_result (de_spawn env (call_command calls.1)) videoPath)
               videoPromise fs
           ∧ promise_ok projectId X
               (download_result (de_spawn env (call_command calls.2)) audioPath)
               audioPromise fs
       end)
    (λ _ _, False).
Proof.
  intros Hhandler.
  eapply hoare_try_catch with
    (E' := λ e fs, e ≠ "" ∧ has_record projectId fs ∧ ¬ succeeds).
  2: { intros e. apply hoare_pre. intros He.
       intros fs [Hhas Hno]. specialize (Hhandler e He fs Hhas).
       destruct (handler e fs) as [[out|e'] fs']; [|done].
       destruct Hhandler as [-> Hr]. by split. }
  assert (has_record projectId fs0) as Hhas0 by (by exists r0).
  destruct (tool_found (de_ffmpeg env)) eqn:Hffmpeg; cbn [negb orb].
  2: { apply hoare_throw. intros fs ->. split_and!; [done|done|].
       intros (H & _). congruence. }
  destruct (tool_found (de_ffprobe env)) eqn:Hffprobe; cbn [negb].
  2: { apply hoare_throw. intros fs ->. split_and!; [done|done|].
       intros (_ & H & _). congruence. }
  eapply hoare_bind with
    (R := λ _ fs, existsb (is_file fs0) (ancestors ["projects"; projectId; "source"]) = false
                  ∧ fs = X).
  { intros fs ->. rewrite mkdirSync_recursive_run.
    destruct (existsb _ _) eqn:Hblocked; [|done].
    split_and!; [done|done|]. intros (_ & _ & H & _). congruence. }
  intros ?. apply hoare_pre. intros Hfree.
  assert (X !! ["projects"; projectId; "metadata.json"] = Some (File (FMeta r0))) as HX.
  { apply stored_record_lookup in Hrec0. unfold Project.getMetadataPath in Hrec0.
    unfold X. rewrite with_directories_keeps; [exact Hrec0|]. rewrite Hrec0. eauto. }
  intros fs ->. unfold mbind, M_bind, readFileSync, writeFileSync. rewrite HX.
  cbv beta iota. unfold parse_object, mret, M_ret. cbv beta iota.
  rewrite calls_status, stringify_set_prop, stringify_parse.
  set (fs1 := <[["projects"; projectId; "metadata.json"] := _]> X).
  assert (tracked projectId A1 B fs1 ∧ True) as HT1.
  { split; [|done]. eexists. split; [apply stored_record_insert|]. split_and!.
    - unfold conforms in *. by rewrite lookup_insert_ne.
    - intros k Hk. rewrite lookup_insert_ne; [done|].
      intros <-. apply Hk. unfold download_fields. in_list.
    - intros p Hp. unfold fs1. rewrite lookup_insert_ne; [done|].
      intros <-. apply Hp. unfold download_paths. in_list. }
  assert (Download.call_output calls.1 = videoPath) as Hout1 by reflexivity.
  assert (Download.call_output calls.2 = audioPath) as Hout2 by reflexivity.
  pose proof (download_start projectId X (de_spawn env) calls.1 A1 (λ _, True)
                A1_ignores_progress ltac:(done)) as Hv.
  rewrite Hout1 in Hv.
  specialize (Hv ltac:(unfold download_paths, videoPath; in_list) ltac:(discriminate) fs1 HT1).
  destruct (DownloadTask.download (de_spawn env) projectId calls.1 fs1) as [[pv|e] fs2];
    [|done].
  destruct Hv as [HT2 Hpv].
  pose proof (download_start projectId X (de_spawn env) calls.2 A1
                (promise_ok projectId X
                   (download_result (de_spawn env (call_command calls.1)) videoPath) pv)
                A1_ignores_progress
                ltac:(apply promise_ok_stable; intros; apply download_result_stable)) as Ha.
  rewrite Hout2 in Ha.
  specialize (Ha ltac:(unfold download_paths, audioPath; in_list) ltac:(discriminate) fs2
                 ltac:(split; [apply HT2|exact Hpv])).
  destruct (DownloadTask.download (de_spawn env) projectId calls.2 fs2) as [[pa|e] fs3];
    [|done].
  destruct Ha as [[HT3 Hpv3] Hpa]. simpl. by split_and!.
Qed.

Let Ffiles : FS → Prop := λ fs, is_Some (fs !! videoPath) ∧ is_Some (fs !! audioPath).

Lemma Ffiles_stable : stable Ffiles.
Proof.
  intros fs p n [Hv Ha]. split.
  - destruct (decide (p = videoPath)) as [->|?];
      [rewrite lookup_insert_eq; eauto|by rewrite lookup_insert_ne].
  - destruct (decide (p = audioPath)) as [->|?];
      [rewrite lookup_insert_eq; eauto|by rewrite lookup_insert_ne].
Qed.

Lemma downloaded_ignores_progress (Dv Da : Q) (k : string) :
  ignores_progress k (downloaded_record env processId Dv Da r0).
Proof.
  intros r p (H1 & H2 & H3 & H4 & H5 & H6 & H7 & Hkeep).
  split_and!; try by rewrite lookup_insert_ne.
  intros f Hf. rewrite lookup_insert_ne; [by apply Hkeep|].
  intros <-. apply Hf. unfold download_fields. in_list.
Qed.

Lemma failed_ignores_progress (k : string) : ignores_progress k failed_record.
Proof.
  intros r p (Hstatus & message & He & Herror).
  split; [by rewrite lookup_insert_ne|]. exists message. split; [done|].
  by rewrite lookup_insert_ne.
Qed.

Lemma tracked_and (A : record → Prop) (F : FS → Prop) (fs : FS) :
  tracked projectId A (λ fs, B fs ∧ F fs) fs ↔ tracked projectId A B fs ∧ F fs.
Proof.
  split.
  - intros (r & Hrec & Hconf & Ha & Hb & Hf). split; [by exists r|done].
  - intros [(r & Hrec & Hconf & Ha & Hb) Hf]. by exists r.
Qed.

Lemma B_ignores_record (F : FS → Prop) :
  stable F → ignores_record projectId (λ fs, B fs ∧ F fs).
Proof.
  intros HF fs n [Hb Hf]. split; [|by apply HF].
  intros p Hp. rewrite lookup_insert_ne; [by apply Hb|].
  intros <-. apply Hp. unfold download_paths, Project.getMetadataPath. in_list.
Qed.

(** The [catch] block, on a record that is tracked. *)
Lemma failed_tracked (message : string) (A : record → Prop) (F : FS → Prop) :
  message ≠ "" → stable F →
  hoare (λ fs, tracked projectId A B fs ∧ F fs)
        (_ ← Project.updateProjectStatus projectId DOWNLOAD_ERROR (Some message); mret tt)
        (λ _ fs, tracked projectId failed_record B fs ∧ F fs)
        (λ _ _, False).
Proof.
  intros He HF.
  eapply hoare_bind_nothrow with (R := λ _ fs, tracked projectId failed_record B fs ∧ F fs);
    [|intros ?; apply hoare_ret; by intros fs H].
  unfold Project.updateProjectStatus.
  assert (truthy (JStr <$> Some message) = true) as ->.
  { simpl. by destruct (String.eqb_spec message ""). }
  intros fs H. apply tracked_and in H.
  pose proof (updateProjectMetadata_tracked projectId
                (<["error" := JStr <$> Some message]>
                   {["status" := Some (JStr (status_value DOWNLOAD_ERROR))]})
                A failed_record (λ fs, B fs ∧ F fs)) as Hupd.
  specialize (Hupd ltac:(by rewrite lookup_insert_ne, lookup_singleton_ne)).
  specialize (Hupd ltac:(intros r _ _; split;
                           [by rewrite stringify_spread_lookup, lookup_insert_ne,
                                 lookup_singleton_eq
                           |exists message; split; [done|];
                            by rewrite stringify_spread_lookup, lookup_insert_eq])).
  specialize (Hupd (B_ignores_record F HF) fs H).
  destruct (Project.updateProjectMetadata projectId _ fs) as [[b|e] fs']; [|done].
  by apply tracked_and.
Qed.

(** From the second [await] to the end. *)
Lemma downloadMedia_probes (videoProbe audioProbe : Promise Q) :
  hoare (λ fs, (tracked projectId A1 B fs ∧ Ffiles fs)
               ∧ promise_ok projectId X (probe_result (de_video_probe env)) videoProbe fs
               ∧ promise_ok projectId X (probe_result (de_audio_probe env)) audioProbe fs)
    (resumed ← await_all
       (merge_order (de_probe_schedule env) (events_left videoProbe) (events_left audioProbe))
       videoProbe audioProbe;
     _ ← match resumed.1 with
         | None => mret tt
         | Some durations =>
             try_catch
               (durations ← lift durations;
                let '(videoDuration, audioDuration) := durations in
                text ← readFileSync ["projects"; projectId; "metadata.json"];
                metadata ← parse_object text;
                writeFileSync ["projects"; projectId; "metadata.json"]
                  (FMeta (JSON_stringify
                     (set_prop "currentProcess" (JStr "trim")
                     (set_prop "downloadProcessId" (JStr processId)
                     (set_prop "downloadCompletedAt" (JStr (de_now env))
                     (set_prop "totalDuration" (JNum audioDuration)
                     (set_prop "audioDuration" (JNum audioDuration)
                     (set_prop "videoDuration" (JNum videoDuration)
                     (set_prop "status" (JStr (status_value DOWNLOADED)) metadata))))))))))
               (λ message,
                  _ ← Project.updateProjectStatus projectId DOWNLOAD_ERROR (Some message);
                  mret tt)
         end;
     drain resumed.2.1 resumed.2.2.1 resumed.2.2.2)
    (λ _ fs,
       (probe_ok (de_video_probe env) ∧ probe_ok (de_audio_probe env)
        ∧ ∃ Dv Da : Q,
            probe_output (de_video_probe env) = Some Dv
            ∧ probe_output (de_audio_probe env) = Some Da
            ∧ tracked projectId (downloaded_record env processId Dv Da r0) B fs
            ∧ Ffiles fs)
       ∨ (¬ (probe_ok (de_video_probe env) ∧ probe_ok (de_audio_probe env))
          ∧ ∃ r, stored_record fs projectId = Some r ∧ failed_record r))
    (λ _ _, False).
Proof.
  set (Rv := probe_result (de_video_probe env)).
  set (Ra := probe_result (de_audio_probe env)).
  pose (J := λ (A : record → Prop) (p1 p2 : Promise Q) (fs : FS),
          (tracked projectId A B fs ∧ Ffiles fs)
          ∧ promise_ok projectId X Rv p1 fs ∧ promise_ok projectId X Ra p2 fs).
  assert (∀ A, (∀ k, ignores_progress k A) →
            ∀ p1 p2, hoare (J A p1 p2) (deliver p1) (λ p1', J A p1' p2) (λ _ _, False)) as Hd1.
  { intros A HA p1 p2. apply deliver_first; [exact HA|apply Ffiles_stable|].
    intros r. apply probe_result_stable. }
  assert (∀ A, (∀ k, ignores_progress k A) →
            ∀ p1 p2, hoare (J A p1 p2) (deliver p2) (λ p2', J A p1 p2') (λ _ _, False)) as Hd2.
  { intros A HA p1 p2. apply deliver_second; [exact HA|apply Ffiles_stable|].
    intros r. apply probe_result_stable. }
  destruct (merge_order_counts (de_probe_schedule env) (events_left videoProbe)
              (events_left audioProbe)) as [Hc1 Hc2].
  eapply hoare_bind_nothrow;
    [apply (await_all_joint (J A1) (Hd1 A1 A1_ignores_progress) (Hd2 A1 A1_ignores_progress)
              _ videoProbe audioProbe Hc1 Hc2)|].
  intros [res [rest [p1 p2]]]. simpl.
  intros fs (HJ & [result ->] & Hall).
  destruct HJ as ([HT Hfiles] & Hp1 & Hp2).
  assert (∀ (A : record → Prop) (fs1 : FS),
            (∀ k, ignores_progress k A) →
            J A p1 p2 fs1 →
            match drain rest p1 p2 fs1 with
            | (Ret _, fs') => tracked projectId A B fs' ∧ Ffiles fs'
            | (Throw _, _) => False
            end) as Hdrain.
  { intros A fs1 HA HJ1.
    pose proof (drain_joint (J A) (Hd1 A HA) (Hd2 A HA) rest p1 p2 fs1 HJ1) as Hd.
    destruct (drain rest p1 p2 fs1) as [[[]|e] fs']; [|done].
    by destruct Hd as (p1' & p2' & HT' & _). }
  destruct result as [[Dv Da]|message].
  - (* both probes resolved *)
    assert (p1 = Settled (Ret Dv) ∧ p2 = Settled (Ret Da)) as [-> ->].
    { destruct p1 as [[d1|e1]|h1], p2 as [[d2|e2]|h2]; simpl in Hall; by simplify_eq. }
    simpl in Hp1, Hp2. destruct Hp1 as [Hcode1 Hout1], Hp2 as [Hcode2 Hout2].
    pose proof HT as (r & Hrec & Hconf & Ha & Hb).
    apply stored_record_lookup in Hrec. unfold Project.getMetadataPath in Hrec.
    unfold try_catch, mbind, M_bind, lift, readFileSync, writeFileSync.
    rewrite Hrec. cbv beta iota. unfold parse_object, mret, M_ret. cbv beta iota.
    rewrite !stringify_set_prop, stringify_parse.
    set (fs2 := <[["projects"; projectId; "metadata.json"] := _]> fs).
    specialize (Hdrain (downloaded_record env processId Dv Da r0) fs2
                  (downloaded_ignores_progress Dv Da)).
    destruct (drain rest (Settled (Ret Dv)) (Settled (Ret Da)) fs2) as [[[]|e] fs'].
    + left. split; [split; [done|by rewrite Hout1]|].
      split; [split; [done|by rewrite Hout2]|].
      exists Dv, Da. split; [done|]. split; [done|]. apply Hdrain.
      split; [|by split]. split.
      * eexists. split; [apply stored_record_insert|]. split_and!.
        -- unfold conforms in *. by rewrite !lookup_insert_ne.
        -- unfold downloaded_record. split_and!; try by lookup_field.
           intros k Hk. unfold download_fields in Hk. rewrite !not_elem_of_cons in Hk.
           destruct Hk as (? & ? & ? & ? & ? & ? & ? & ? & _).
           rewrite !lookup_insert_ne by done. apply Ha.
           unfold download_fields. rewrite !not_elem_of_cons.
           split_and!; [done..|apply not_elem_of_nil].
        -- intros p Hp. unfold fs2. rewrite lookup_insert_ne; [by apply Hb|].
           intros <-. apply Hp. unfold download_paths. in_list.
      * by apply Ffiles_stable.
    + apply Hdrain. split; [|by split]. split.
      * eexists. split; [apply stored_record_insert|]. split_and!.
        -- unfold conforms in *. by rewrite !lookup_insert_ne.
        -- unfold downloaded_record. split_and!; try by lookup_field.
           intros k Hk. unfold download_fields in Hk. rewrite !not_elem_of_cons in Hk.
           destruct Hk as (? & ? & ? & ? & ? & ? & ? & ? & _).
           rewrite !lookup_insert_ne by done. apply Ha.
           unfold download_fields. rewrite !not_elem_of_cons.
           split_and!; [done..|apply not_elem_of_nil].
        -- intros p Hp. unfold fs2. rewrite lookup_insert_ne; [by apply Hb|].
           intros <-. apply Hp. unfold download_paths. in_list.
      * by apply Ffiles_stable.
  - (* one probe rejected *)
    assert (message ≠ "" ∧ ¬ (probe_ok (de_video_probe env) ∧ probe_ok (de_audio_probe env)))
      as [He Hno].
    { destruct p1 as [[d1|e1]|h1], p2 as [[d2|e2]|h2]; simpl in Hall; simplify_eq;
        simpl in Hp1, Hp2; split; try tauto. }
    pose proof (failed_tracked message A1 Ffiles He Ffiles_stable fs (conj HT Hfiles)) as Hfail.
    unfold try_catch. unfold mbind at 1, M_bind at 1. unfold mbind at 1, M_bind at 1.
    unfold lift at 1.
    destruct ((Project.updateProjectStatus projectId DOWNLOAD_ERROR (Some message)
               ≫= λ _ : bool, mret ()) fs) as [[[]|e] fs1]; [|done].
    specialize (Hdrain failed_record fs1 failed_ignores_progress).
    destruct (drain rest p1 p2 fs1) as [[[]|e] fs'].
    + right. split; [exact Hno|]. destruct Hdrain as [(r & Hrec & _ & Hr & _) _].
      * destruct Hfail as [HT1 Hf1]. split; [by split|]. split.
        -- destruct p1 as [r1|h1]; [exact Hp1|exact Hp1].
        -- destruct p2 as [r2|h2]; [exact Hp2|exact Hp2].
      * by exists r.
    + apply Hdrain. destruct Hfail as [HT1 Hf1]. split; [by split|]. split.
      * destruct p1 as [r1|h1]; [exact Hp1|exact Hp1].
      * destruct p2 as [r2|h2]; [exact Hp2|exact Hp2].
Qed.

(** Between the two [await]s, and on to the end. *)
Lemma drain_settled {C D : Type} (order : list bool) (r1 : outcome C) (r2 : outcome D)
    (fs : FS) :
  drain order (Settled r1) (Settled r2) fs = (Ret tt, fs).
Proof. induction order as [|[] order IH]; [done|exact IH|exact IH]. Qed.

Lemma downloadMedia_after_downloads (videoResult audioResult : Download.DownloadResult)
    (rest : list bool) :
  hoare (λ fs, (tracked projectId A1 B fs ∧ True)
               ∧ download_result (de_spawn env (call_command calls.1)) videoPath
                   (Ret videoResult) fs
               ∧ download_result (de_spawn env (call_command calls.2)) audioPath
                   (Ret audioResult) fs)
    (probes ← try_catch
       (results ← lift (Ret (videoResult, audioResult));
        let '(videoResult, audioResult) := results in
        if negb (Download.success videoResult)
        then throw ("Failed to download video: "
                    +:+ default "undefined" (Download.error videoResult))
        else if negb (Download.success audioResult)
        then throw ("Failed to download audio: "
                    +:+ default "undefined" (Download.error audioResult))
        else
          videoProbe ← DownloadTask.getMediaDuration (de_video_probe env) projectId
                         (de_video_uuid env);
          audioProbe ← DownloadTask.getMediaDuration (de_audio_probe env) projectId
                         (de_audio_uuid env);
          mret (Some (videoProbe, audioProbe)))
       (λ message,
          _ ← (_ ← Project.updateProjectStatus projectId DOWNLOAD_ERROR (Some message);
               mret tt);
          mret None);
     match probes with
     | None => drain rest (Settled (Ret videoResult)) (Settled (Ret audioResult))
     | Some (videoProbe, audioProbe) =>
         resumed ← await_all
           (merge_order (de_probe_schedule env) (events_left videoProbe)
              (events_left audioProbe))
           videoProbe audioProbe;
         _ ← match resumed.1 with
             | None => mret tt
             | Some durations =>
                 try_catch
                   (durations ← lift durations;
                    let '(videoDuration, audioDuration) := durations in
                    text ← readFileSync ["projects"; projectId; "metadata.json"];
                    metadata ← parse_object text;
                    writeFileSync ["projects"; projectId; "metadata.json"]
                      (FMeta (JSON_stringify
                         (set_prop "currentProcess" (JStr "trim")
                         (set_prop "downloadProcessId" (JStr processId)
                         (set_prop "downloadCompletedAt" (JStr (de_now env))
                         (set_prop "totalDuration" (JNum audioDuration)
                         (set_prop "audioDuration" (JNum audioDuration)
                         (set_prop "videoDuration" (JNum videoDuration)
                         (set_prop "status" (JStr (status_value DOWNLOADED))
                            metadata))))))))))
                   (λ message,
                      _ ← Project.updateProjectStatus projectId DOWNLOAD_ERROR (Some message);
                      mret tt)
             end;
         drain resumed.2.1 resumed.2.2.1 resumed.2.2.2
     end)
    (λ _ fs,
       (download_ok (de_spawn env (call_command calls.1))
        ∧ download_ok (de_spawn env (call_command calls.2))
        ∧ probe_ok (de_video_probe env) ∧ probe_ok (de_audio_probe env)
        ∧ ∃ Dv Da : Q,
            probe_output (de_video_probe env) = Some Dv
            ∧ probe_output (de_audio_probe env) = Some Da
            ∧ tracked projectId (downloaded_record env processId Dv Da r0) B fs
            ∧ Ffiles fs)
       ∨ (¬ (download_ok (de_spawn env (call_command calls.1))
             ∧ download_ok (de_spawn env (call_command calls.2))
             ∧ probe_ok (de_video_probe env) ∧ probe_ok (de_audio_probe env))
          ∧ ∃ r, stored_record fs projectId = Some r ∧ failed_record r))
    (λ _ _, False).
Proof.
  pose (failure := λ (no : Prop) (fs : FS),
          ¬ no ∧ tracked projectId failed_record B fs).
  assert (∀ (message : string) (no : Prop),
            message ≠ "" →
            hoare (λ fs, ¬ no ∧ (tracked projectId A1 B fs ∧ True))
              (_ ← (_ ← Project.updateProjectStatus projectId DOWNLOAD_ERROR (Some message);
                    mret tt);
               mret (@None (Promise Q * Promise Q)))
              (λ out fs, out = None ∧ ¬ no ∧ ∃ r, stored_record fs projectId = Some r
                                                  ∧ failed_record r)
              (λ _ _, False)) as Hfailed.
  { intros message no He. apply hoare_pre. intros Hno.
    eapply hoare_bind_nothrow;
      [apply (failed_tracked message A1 (λ _, True) He ltac:(done))|].
    intros ?. apply hoare_ret. intros fs [(r & Hrec & _ & Hr & _) _].
    split; [done|]. split; [done|]. by exists r. }
  intros fs (HT & (rv & Hrv & Hvok & Hvno) & (ra & Hra & Haok & Hano)).
  injection Hrv as <-. injection Hra as <-.
  unfold mbind at 1, M_bind at 1. unfold try_catch at 1.
  unfold mbind at 1, M_bind at 1. unfold lift at 1. cbv beta iota.
  destruct (Download.success videoResult) eqn:Hsv; cbn [negb].
  2: { specialize (Hfailed ("Failed to download video: "
                            +:+ default "undefined" (Download.error videoResult))
                     (download_ok (de_spawn env (call_command calls.1)))
                     ltac:(discriminate) fs (conj (Hvno eq_refl) HT)).
       unfold throw.
       destruct ((_ ← (_ ← Project.updateProjectStatus projectId DOWNLOAD_ERROR _; mret tt);
                  mret None) fs) as [[out|e] fs1]; [|done].
       destruct Hfailed as (-> & Hno & Hr). rewrite drain_settled.
       right. split; [tauto|exact Hr]. }
  destruct (Download.success audioResult) eqn:Hsa; cbn [negb].
  2: { specialize (Hfailed ("Failed to download audio: "
                            +:+ default "undefined" (Download.error audioResult))
                     (download_ok (de_spawn env (call_command calls.2)))
                     ltac:(discriminate) fs (conj (Hano eq_refl) HT)).
       unfold throw.
       destruct ((_ ← (_ ← Project.updateProjectStatus projectId DOWNLOAD_ERROR _; mret tt);
                  mret None) fs) as [[out|e] fs1]; [|done].
       destruct Hfailed as (-> & Hno & Hr). rewrite drain_settled.
       right. split; [tauto|exact Hr]. }
  destruct (Hvok eq_refl) as [Hv1 Hv2]. destruct (Haok eq_refl) as [Ha1 Ha2].
  destruct HT as [HT _].
  (* the two probes start *)
  pose proof (probe_start projectId X (de_video_probe env) (de_video_uuid env) A1 Ffiles
                A1_ignores_progress Ffiles_stable fs (conj HT (conj Hv2 Ha2))) as Hvp.
  unfold mbind at 1, M_bind at 1.
  destruct (DownloadTask.getMediaDuration (de_video_probe env) projectId (de_video_uuid env) fs)
    as [[vp|e] fs1]; [|done].
  destruct Hvp as [[HT1 Hf1] Hvp].
  pose proof (probe_start projectId X (de_audio_probe env) (de_audio_uuid env) A1
                (λ fs, Ffiles fs
                       ∧ promise_ok projectId X (probe_result (de_video_probe env)) vp fs)
                A1_ignores_progress) as Hap.
  specialize (Hap ltac:(intros fs' q n [? ?]; split;
                          [by apply Ffiles_stable
                          |apply promise_ok_stable; [intros; apply probe_result_stable|done]])
                  fs1 ltac:(by split_and!)).
  unfold mbind at 1, M_bind at 1.
  destruct (DownloadTask.getMediaDuration (de_audio_probe env) projectId (de_audio_uuid env) fs1)
    as [[ap|e] fs2]; [|done].
  destruct Hap as [[HT2 [Hf2 Hvp2]] Hap].
  cbv beta iota. unfold mret at 1, M_ret at 1. cbv beta iota.
  pose proof (downloadMedia_probes vp ap fs2 ltac:(by split_and!)) as Hend.
  cbv beta in Hend.
  match type of Hend with
  | (let (_, _) := ?m in _) => destruct m as [[[]|e] fs3]; [|done]
  end.
  destruct Hend as [(Hp1 & Hp2 & Hrest)|[Hno Hr]].
  - left. by split_and!.
  - right. split; [tauto|exact Hr].
Qed.

(** The whole task, for every order of the events. *)
Lemma downloadMedia_outcome :
  hoare (λ fs, fs = fs0)
    (DownloadTask.downloadMedia env videoUrl audioUrl projectId processId)
    (λ _ fs,
       (succeeds
        ∧ ∃ Dv Da : Q,
            probe_output (de_video_probe env) = Some Dv
            ∧ probe_output (de_audio_probe env) = Some Da
            ∧ tracked projectId (downloaded_record env processId Dv Da r0) B fs
            ∧ Ffiles fs)
       ∨ (¬ succeeds ∧ ∃ r, stored_record fs projectId = Some r ∧ failed_record r))
    (λ _ _, False).
Proof.
  unfold DownloadTask.downloadMedia. cbv zeta. cbn [app].
  eapply hoare_bind_nothrow.
  { apply downloadMedia_starts. intros e He.
    eapply hoare_bind_nothrow; [apply (failed_handler e He)|].
    intros ?. apply hoare_ret. intros fs H. by split. }
  intros [[videoPromise audioPromise]|]; [|by apply hoare_ret; intros fs H; right].
  apply hoare_pre. intros Hffmpeg. apply hoare_pre. intros Hffprobe.
  apply hoare_pre. intros Hfree.
  pose (J := λ (p1 p2 : Promise Download.DownloadResult) (fs : FS),
          (tracked projectId A1 B fs ∧ True)
          ∧ promise_ok projectId X
              (download_result (de_spawn env (call_command calls.1)) videoPath) p1 fs
          ∧ promise_ok projectId X
              (download_result (de_spawn env (call_command calls.2)) audioPath) p2 fs).
  eapply hoare_bind_nothrow.
  { apply (await_all_joint J).
    - intros p1 p2. apply deliver_first;
        [apply A1_ignores_progress|done|intros; apply download_result_stable].
    - intros p1 p2. apply deliver_second;
        [apply A1_ignores_progress|done|intros; apply download_result_stable].
    - apply merge_order_counts.
    - apply merge_order_counts. }
  intros [resumed [rest [p1 p2]]]. cbn [fst snd].
  intros fs ((HT & H1 & H2) & Hsome & ->).
  destruct p1 as [r1|h1], p2 as [r2|h2].
  - destruct H1 as (videoResult & -> & H1). destruct H2 as (audioResult & -> & H2).
    cbn [Promise_all].
    assert ((tracked projectId A1 B fs ∧ True)
            ∧ download_result (de_spawn env (call_command calls.1)) videoPath
                (Ret videoResult) fs
            ∧ download_result (de_spawn env (call_command calls.2)) audioPath
                (Ret audioResult) fs) as Hpre.
    { split; [exact HT|]. split; [by exists videoResult|by exists audioResult]. }
    pose proof (downloadMedia_after_downloads videoResult audioResult rest fs Hpre) as Hend.
    cbv beta in Hend.
    match type of Hend with
    | (let (_, _) := ?m fs in _) =>
        change (match m fs with
                | (Ret _, fs') =>
                    (succeeds
                     ∧ ∃ Dv Da : Q,
                         probe_output (de_video_probe env) = Some Dv
                         ∧ probe_output (de_audio_probe env) = Some Da
                         ∧ tracked projectId (downloaded_record env processId Dv Da r0) B fs'
                         ∧ Ffiles fs')
                    ∨ (¬ succeeds ∧ ∃ r, stored_record fs' projectId = Some r ∧ failed_record r)
                | (Throw _, _) => False
                end);
        destruct (m fs) as [[[]|e] fs1]; [|done]
    end.
    destruct Hend as [(Hv & Ha & Hpv & Hpa & Hrest)|[Hno Hr]].
    + left. split; [by split_and!|exact Hrest].
    + right. split; [|exact Hr]. intros (_ & _ & _ & Hv & Ha & Hpv & Hpa). by apply Hno.
  - destruct H1 as (videoResult & -> & _). by destruct Hsome.
  - destruct H2 as (audioResult & -> & _). by destruct Hsome.
  - by destruct Hsome.
Qed.

End download_task.





(** ** Trim-range arithmetic of the download stage *)

(** C5.  The end offset [downloadMedia] passes to the download of the
    visual track is [audioEndTime - audioStartTime + startTime] when
    [audioEndTime] is not zero (so in particular when no explicit video end
    is given), and the record's [endTime] when [audioEndTime] is zero; the
    audio track is downloaded with its own range.  Stated of the task as a
    whole, for a record whose four offsets are whole numbers of seconds,
    with both tools found, nothing in the way and two probes that go well:
    the task ends with status [downloaded] exactly when [yt-dlp] goes well
    on the command for the video with the range from [startTime] to that end
    offset and on the command for the audio with the range from
    [audioStartTime] to [audioEndTime], and with status [download_error]
    otherwise; what [yt-dlp] would do on any other command does not
    matter. *)
Theorem visual_track_end_offset
    (env : DownloadEnv) (videoUrl audioUrl projectId processId : string)
    (fs0 : FS) (r0 : record) (startTime endTime audioStartTime audioEndTime : Q) :
  stored_record fs0 projectId = Some r0 →
  conforms r0 →
  r0 !! "startTime" = Some (JNum startTime) →
  r0 !! "endTime" = Some (JNum endTime) →
  r0 !! "audioStartTime" = Some (JNum audioStartTime) →
  r0 !! "audioEndTime" = Some (JNum audioEndTime) →
  Forall whole_offset [startTime; endTime; audioStartTime; audioEndTime] →
  fs0 !! ["projects"; projectId; "source"; "video.mp4"] = None →
  fs0 !! ["projects"; projectId; "source"; "audio.mp3"] = None →
  tool_found (de_ffmpeg env) = true →
  tool_found (de_ffprobe env) = true →
  existsb (is_file fs0) (ancestors ["projects"; projectId; "source"]) = false →
  probe_ok (de_video_probe env) →
  probe_ok (de_audio_probe env) →
  let videoEnd :=
    if Qeq_bool audioEndTime 0 then endTime
    else (audioEndTime - audioStartTime + startTime)%Q in
  let video :=
    {| Download.yt_url := videoUrl;
       Download.yt_format := "bestvideo[ext=mp4]/bestvideo";
       Download.yt_output := ["projects"; projectId; "source"; "video.mp4"];
       Download.yt_sections := Download.download_sections (Some startTime) (Some videoEnd) |} in
  let audio :=
    {| Download.yt_url := audioUrl;
       Download.yt_format := "bestaudio[ext=m4a]/bestaudio";
       Download.yt_output := ["projects"; projectId; "source"; "audio.mp3"];
       Download.yt_sections :=
         Download.download_sections (Some audioStartTime) (Some audioEndTime) |} in
  ∃ (fs : FS) (r : record),
    DownloadTask.downloadMedia env videoUrl audioUrl projectId processId fs0 = (Ret tt, fs)
    ∧ stored_record fs projectId = Some r
    ∧ (download_ok (de_spawn env video) ∧ download_ok (de_spawn env audio) →
         r !! "status" = Some (JStr "downloaded"))
    ∧ (¬ (download_ok (de_spawn env video) ∧ download_ok (de_spawn env audio)) →
         r !! "status" = Some (JStr "download_error")).
Proof.
  intros Hrec Hconf Hs He Has Hae _ _ _ Hff Hfp Hfree Hvp Hap videoEnd video audio.
  assert (∀ (key : string) (q : Q),
            r0 !! key = Some (JNum q) → Download.number_prop (JSON_parse r0) key = q) as Hnum.
  { intros key q Hkey. unfold Download.number_prop, lookup_total, map_lookup_total.
    by rewrite parse_lookup, Hkey. }
  assert (call_command (download_calls videoUrl audioUrl r0 projectId processId).1 = video)
    as Hv.
  { unfold video, videoEnd, call_command, download_calls, Download.downloadMedia_calls.
    cbn. rewrite (Hnum _ _ Hs), (Hnum _ _ He), (Hnum _ _ Has), (Hnum _ _ Hae).
    by destruct (Qeq_bool audioEndTime 0). }
  assert (call_command (download_calls videoUrl audioUrl r0 projectId processId).2 = audio)
    as Ha.
  { unfold audio, call_command, download_calls, Download.downloadMedia_calls.
    cbn. by rewrite (Hnum _ _ Has), (Hnum _ _ Hae). }
  pose proof (downloadMedia_outcome env videoUrl audioUrl projectId processId fs0 r0
                Hrec Hconf fs0 eq_refl) as Hrun.
  destruct (DownloadTask.downloadMedia env videoUrl audioUrl projectId processId fs0)
    as [[[]|e] fs]; [|done].
  destruct Hrun as [(Hgood & Dv & Da & _ & _ & (r & Hr & _ & Hfields & _) & _)
                   |(Hbad & r & Hr & Hstatus & _)].
  - exists fs, r. split; [reflexivity|]. split; [exact Hr|]. split.
    + intros _. apply Hfields.
    + intros Hno. destruct Hno.
      destruct Hgood as (_ & _ & _ & H1 & H2 & _). rewrite Hv in H1. rewrite Ha in H2.
      by split.
  - exists fs, r. split; [reflexivity|]. split; [exact Hr|]. split.
    + intros [H1 H2]. destruct Hbad. unfold download_succeeds. rewrite Hv, Ha.
      by split_and!.
    + intros _. exact Hstatus.
Qed.

Lemma visual_track_end_offset_witness :
  ∃ (fs : FS) (r : record),
    DownloadTask.downloadMedia exact_download_env "https://youtu.be/v1" "https://youtu.be/a1"
      "p1" "job" trimmed_fs = (Ret tt, fs)
    ∧ stored_record fs "p1" = Some r
    ∧ r !! "status" = Some (JStr "downloaded").
Proof.
  destruct (visual_track_end_offset exact_download_env "https://youtu.be/v1"
              "https://youtu.be/a1" "p1" "job" trimmed_fs trimmed_record 5 0 10 40)
    as (fs & r & Hrun & Hrec & Hgood & _).
  - reflexivity.
  - exact I.
  - reflexivity.
  - reflexivity.
  - reflexivity.
  - reflexivity.
  - repeat (apply List.Forall_cons; [eexists; split; [reflexivity|reflexivity]|]).
    apply List.Forall_nil.
  - reflexivity.
  - reflexivity.
  - reflexivity.
  - reflexivity.
  - reflexivity.
  - split; [reflexivity|by eexists].
  - split; [reflexivity|by eexists].
  - exists fs, r. split; [exact Hrun|]. split; [exact Hrec|].
    apply Hgood. split; split; reflexivity.
Defined.

(** ** Progress values, all stores and tasks *)



